(* ===== verification/_CoqProject ===== *)
-Q . S2P
Prelude.v
Status.v
Checksum.v
ChecksumCombine.v
DcFormat.v
LinkedList.v
AddressManager.v
DsaDesc.v
DsaUio.v
DsaUioTable.v
DsaUioDevice.v
ChunkPool.v
ChunkPoolInv.v
ChunkPoolSteps.v
ChunkPoolCentral.v
ChunkPoolProps.v
ChunkPoolThreads.v
ChunkPoolInit.v
ChunkPoolDemo.v
ReqRingQueue.v
ObjectPool.v
TimerManager.v
MpscQueue.v
Scheduler.v
DataFlow.v
ByteMemory.v
DataFlowSw.v
DsaDispatch.v
DsaDispatchUio.v
DsaCtx.v
DsaEngine.v
DsaDevice.v
DsaDemo.v
QatHa.v
QatCrc.v
QatEngine.v
QatDemo.v
QatWorker.v
KaeChannel.v
QatCypher.v
QatCypherDemo.v
QatBuffer.v
QatBufferDemo.v
