(* ===== verification/Prelude.v ===== *)
(** * Verification of veSAL, a library for compression, encryption and data movement offload

    veSAL (src/include/vesal, src/src) gives programs asynchronous channels that compress,
    encrypt, move and checksum data, on accelerators (Intel QAT and DSA, Kunpeng KAE) or in
    software. Under the channels lie shared components: a memory pool of huge pages whose
    physical addresses are known, checksums, object pools, timers, queues of requests and the
    user space driver of the DSA devices (src/dsa-uio-config). This development models the
    components that carry the library's own logic and proves what the others rely on.

    ** The files

    - [Prelude.v]: machine integers, faults, the state monad [ST] with its weakest
      precondition [wp] and the tactic [wp_step], record update, generic lemmas.
    - [Status.v]: status codes (include/vesal/status.h, common/status.cc).
    - [Checksum.v], [ChecksumCombine.v]: CRC32C by instruction and by byte, the combination of
      checksums (common/checksum_impl.cc).
    - [DcFormat.v]: LZ4 and zlib frames (codec/dc_format.{h,cc}).
    - [LinkedList.v]: segments of linked lists in a heap of records, for the lists the C++ code
      builds by hand.
    - [AddressManager.v]: registration and look-up of physical addresses
      (common/memory_pool_helper.{h,cc}).
    - [ChunkPool.v]: the memory pool's operations (common/chunk_pool.{h,cc}); [ChunkPoolInv.v]
      its invariant; [ChunkPoolSteps.v], [ChunkPoolCentral.v] the lemmas of the single steps;
      [ChunkPoolProps.v] allocation and deallocation; [ChunkPoolThreads.v] threads that start,
      end, free each other's blocks, and the abstract allocator; [ChunkPoolInit.v]
      initialisation; [ChunkPoolDemo.v] concrete runs.
    - [DsaDesc.v]: descriptors and completion records of the DSA (dsa-uio-config/idxd.h,
      dsa_uio_config.c); [DsaUio.v] the user space driver (dsa-uio-config/user_device.c),
      [DsaUioTable.v] its table of devices and work queues, [DsaUioDevice.v] commands and
      configuration of a device.
    - [ReqRingQueue.v]: the ring of requests in flight (common/req_ring_queue.h).
    - [ObjectPool.v]: the thread-local object pool (common/object_pool.{h,cc}) and the
      interface [ObjectAllocator] it implements.
    - [TimerManager.v]: timers (common/timer_manager.{h,cc}), against that interface.
    - [MpscQueue.v]: the multi-producer queue (common/mpsc_queue.h), interleaved.
    - [DataFlow.v]: the data flow channel (data_flow/data_flow_channel_impl.{h,cc}), over the
      interface [Engine] of an engine and a timer service.
    - [ByteMemory.v]: a memory of bytes; [DataFlowSw.v]: the software engine
      (data_flow/sw/data_flow_sw_engine.cc) and concrete runs of a channel on it.
    - [DsaDispatch.v]: the dispatcher of the DSA engine with its scheduling strategies
      (data_flow/dsa/dsa_dispatcher.cc, schedule_strategy.h), over the interface [WorkQueueSource];
      [DsaDispatchUio.v]: the user space driver implements that interface.
    - [DsaCtx.v]: contexts and descriptors of requests (data_flow/dsa/dsa_ctx_factory.{h,cc}),
      over the interface [MemoryPool]; [DsaEngine.v]: the DSA engine
      (data_flow/dsa/data_flow_dsa_engine.cc), which implements [Engine]; [DsaDevice.v] what a
      device does with a descriptor, as documented; [DsaDemo.v] concrete runs.
    - [Scheduler.v]: the scheduler of periodic tasks (common/scheduler.{h,cc}), interleaved.
    - [QatHa.v]: errors of the QAT driver and when they trigger a fallback
      (codec/qat/qat_error_handling.h, qat_ha.{h,cc}); [QatCrc.v]: checksums of compressed frames;
      [QatEngine.v]: the QAT codec engine (codec/qat/qat_codec_engine.{h,cc}), over the interface
      [QatDevice]; [QatDemo.v] concrete runs; [QatWorker.v]: a worker of a shared channel
      (codec/qat/qat_poller_worker.{h,cc}), over the interface [CodecEngine], which the QAT
      engine implements.
    - [KaeChannel.v]: the KAE codec channel (codec/kae/kae_codec_channel.{h,cc}, kae_util.h), over
      the interface [KaeDevice], with concrete runs.
    - [QatCypher.v]: the QAT cypher channel (cypher/qat_cypher_channel.{h,cc}), over the interface
      [CyDevice]; [QatCypherDemo.v] concrete runs.
    - [QatBuffer.v]: the buffers of QAT requests (common/qat/qat_buffer.{h,cc}), over the interface
      [MemoryPool] and the address manager; [QatBufferDemo.v] concrete runs.

    ** How the code is modelled

    State is explicit: each component has a record of its fields, objects behind pointers live
    in a finite map from addresses, and an operation is a function [ST S A], which returns a
    value and the new state, or a fault: a null or dangling dereference, a failed VESAL_CHECK,
    an index out of bounds, a division by zero, a signed overflow, an uncaught exception, or
    an exhausted bound of a loop. [wp m Q s] says that [m] runs from [s] without a fault, loop
    bounds included, and ends in [Q]; a theorem of this form says that the operation returns.
    Fixed-width integers are integers with explicit wrap-around. What the code calls outside of the repository (mmap, pagemap, sysfs, PCI
    registers, posix_memalign, the clock) is a parameter; what is assumed of it is a hypothesis
    with a witness.

    Loops over linked lists take as fuel the number of nodes in the heap plus one, which an
    acyclic list cannot exceed; loops over hardware polls have the bounds of the code; the bit
    loops of the checksums run over the width of their operands.

    ** What the theorems show

    The memory pool hands out blocks that are disjoint, large enough and inside mapped memory,
    from any number of threads, and takes them back (C1 to C5). While its devices can be mapped,
    the driver gives each work queue to one user at a time. The queue of many producers is a queue under every
    interleaving, and waiting ends. The object pool gives out each object once and leaks
    nothing. The checksums are the CRC32C of the bytes, and combine. Physical address look-ups
    agree with what was registered, unless a page is registered again. Frames have the bytes their formats prescribe. Timers fire
    when due and once. A data flow channel reports every accepted request exactly once, on any
    engine; the software engine moves and checksums the bytes; the DSA engine writes descriptors
    that say exactly what was asked, submits within the quota of each work queue, and reports
    the checksums the device has written, so that with a device that does what its descriptors
    say both engines have the same outcome. A scheduled task is picked when it is due and not
    after it was completed, is called once for each time it was picked, and nobody sleeps too long. A QAT engine gives a result for every request, in
    order, through timeouts and changes of the device, a worker calls its users back in order, and
    the checksums of compressed frames cover the whole frame. KAE channels deliver results in
    order although the device does not, to callers who keep to limits the code does not check;
    so do QAT cypher channels, whose request numbers wrap around. QAT buffers give the device the
    user's data without header and footer, and assemble frames. The remaining theorems (of
    kind error) are runs in which the code does not do what it means to.

    ** Not modelled

    Of the QAT side: sessions, units, the cache of buffers, the threads that run the workers, the delayed
    release of buffers and closing of channels; sessions of the KAE. The software codec and
    cypher channels, start-up (DataFlowResourceManager, vesal::Init), metrics,
    logging, the Unix socket listener, error simulation and the C interface: most of their code
    calls libraries that are not part of the repository (QAT and KAE drivers, zlib, lz4, zstd,
    OpenSSL) or copies arguments. Tests, benchmarks, tools and the vendored QuickAssist headers
    are not part of the program; of the latter only the error codes are used. *)

From Stdlib Require Import ZArith Lia.
From stdpp Require Import prelude gmap.

(** ** Machine integers

    An unsigned [w]-bit value is a [Z] in [0, 2^w); arithmetic is done in [Z] and
    wrapped with one of the functions below where the C++ type wraps. *)

Declare Scope vesal_scope.
Delimit Scope vesal_scope with vesal.
Open Scope Z_scope.

Definition wrap (w z : Z) : Z := z mod 2 ^ w.
Abbreviation u8 := (wrap 8).
Abbreviation u16 := (wrap 16).
Abbreviation u32 := (wrap 32).
Abbreviation u64 := (wrap 64).

(** Conversion to a signed [w]-bit integer, two's complement. *)
Definition swrap (w z : Z) : Z := (z + 2 ^ (w - 1)) mod 2 ^ w - 2 ^ (w - 1).
Abbreviation s16 := (swrap 16).
Abbreviation s32 := (swrap 32).
Abbreviation s64 := (swrap 64).

Definition in_range (w z : Z) : Prop := 0 <= z < 2 ^ w.

(** Bitwise complement at width [w] (C's [~x] on an unsigned type). *)
Definition unot (w z : Z) : Z := 2 ^ w - 1 - z.

(** ** Faults, results and a state monad

    [Err] is the outcome of a run that does not return: a dereferenced null or dangling
    pointer, a failed VESAL_CHECK (the process aborts), an index out of bounds, a
    division by zero, an overflow of a signed integer, an uncaught C++ exception, an exhausted
    loop bound. *)

Inductive fault :=
| NullDeref | CheckFailed | OutOfBounds | DivByZero | SignedOverflow | Uncaught | OutOfFuel.

Inductive res (A : Type) :=
| Ok (a : A)
| Err (f : fault).
Arguments Ok {A} a.
Arguments Err {A} f.

#[export] Instance fault_eq_dec : EqDecision fault.
Proof. solve_decision. Defined.

#[export] Instance res_ret : MRet res := λ A a, Ok a.
#[export] Instance res_bind : MBind res := λ A B f m,
  match m with Ok a => f a | Err e => Err e end.

Lemma bind_Ok {A B} (a : A) (k : A → res B) : (x ← Ok a; k x) = k a.
Proof. done. Qed.

Definition ST (S A : Type) : Type := S → res (A * S).

#[export] Instance ST_ret {S} : MRet (ST S) := λ A a s, Ok (a, s).
#[export] Instance ST_bind {S} : MBind (ST S) := λ A B f m s,
  match m s with Ok (a, s') => f a s' | Err e => Err e end.

Definition get {S} : ST S S := λ s, Ok (s, s).
Definition gets {S A} (f : S → A) : ST S A := λ s, Ok (f s, s).
Definition put {S} (s : S) : ST S unit := λ _, Ok ((), s).
Definition modify {S} (f : S → S) : ST S unit := λ s, Ok ((), f s).
Definition raise {S A} (e : fault) : ST S A := λ _, Err e.
(** VESAL_CHECK(b): abort when [b] is false. *)
Definition check {S} (b : bool) : ST S unit :=
  if b then mret () else raise CheckFailed.
(** Dereferencing address 0. *)
Definition check_null {S} (p : Z) : ST S unit :=
  if p =? 0 then raise NullDeref else mret ().
(** A lookup that must succeed. *)
Definition need {S A} (e : fault) (o : option A) : ST S A :=
  match o with Some a => mret a | None => raise e end.
Definition lift {S A} (r : res A) : ST S A :=
  match r with Ok a => mret a | Err e => raise e end.
Definition when {S} (b : bool) (m : ST S unit) : ST S unit :=
  if b then m else mret ().

(** [wp m Q s]: from [s] the program [m] returns, and its result and final state
    satisfy [Q]: total correctness, a fault falsifies it. *)
Definition wp {S A} (m : ST S A) (Q : A → S → Prop) (s : S) : Prop :=
  match m s with Ok (a, s') => Q a s' | Err _ => False end.

Section wp.
Context {S A B : Type}.
Implicit Types (Q : A → S → Prop) (s : S).

Lemma wp_ok (m : ST S A) Q s :
  wp m Q s ↔ ∃ a s', m s = Ok (a, s') ∧ Q a s'.
Proof.
  unfold wp. destruct (m s) as [[a s']|e]; split.
  - intros HQ. by exists a, s'.
  - intros (?&?&[= -> ->]&HQ). done.
  - done.
  - by intros (?&?&?&_).
Qed.

Lemma wp_run (m : ST S A) Q s a s' : m s = Ok (a, s') → wp m Q s → Q a s'.
Proof. unfold wp. by intros ->. Qed.

Lemma wp_ret (a : A) Q s : Q a s → wp (mret a) Q s.
Proof. done. Qed.

Lemma wp_bind (m : ST S A) (k : A → ST S B) (Q : B → S → Prop) s :
  wp m (λ a s', wp (k a) Q s') s → wp (x ← m; k x) Q s.
Proof. unfold wp, mbind, ST_bind. by destruct (m s) as [[a s']|e]. Qed.

Lemma wp_mono (m : ST S A) (P Q : A → S → Prop) s :
  wp m P s → (∀ a s', P a s' → Q a s') → wp m Q s.
Proof. unfold wp. destruct (m s) as [[a s']|e]; eauto. Qed.

Lemma wp_gets (f : S → A) Q s : Q (f s) s → wp (gets f) Q s.
Proof. done. Qed.
Lemma wp_modify (f : S → S) (Q : unit → S → Prop) s : Q () (f s) → wp (modify f) Q s.
Proof. done. Qed.
Lemma wp_need (e : fault) (o : option A) (a : A) Q s :
  o = Some a → Q a s → wp (need e o) Q s.
Proof. by intros ->. Qed.
Lemma wp_lift (a : A) Q s : Q a s → wp (lift (Ok a)) Q s.
Proof. done. Qed.
Lemma wp_check (b : bool) (Q : unit → S → Prop) s :
  b = true → Q () s → wp (check b) Q s.
Proof. by intros ->. Qed.
Lemma wp_when (b : bool) (m : ST S unit) (Q : unit → S → Prop) s :
  (b = true → wp m Q s) → (b = false → Q () s) → wp (when b m) Q s.
Proof. destruct b; naive_solver. Qed.
End wp.
Lemma wp_get {S} (Q : S → S → Prop) s : Q s s → wp get Q s.
Proof. done. Qed.

(** Step through a monadic program in a [wp] goal. *)
Ltac wp_step :=
  lazymatch goal with
  | |- wp (mbind _ _) _ _ => apply wp_bind
  | |- wp (mret _) _ _ => apply wp_ret
  | |- wp (gets _) _ _ => apply wp_gets
  | |- wp (modify _) _ _ => apply wp_modify
  | |- wp (lift (Ok _)) _ _ => apply wp_lift
  | |- wp get _ _ => apply wp_get
  end; cbn beta.
Ltac wp_steps := repeat wp_step.

(** ** Record updates

    [r <| f := v |>] is [r] with field [f] replaced by [v]; [r <| f ::= g |>] applies [g]
    to the field. A record supports it once its [Eta] instance lists its fields. *)

Class Eta (R : Type) := eta : R → R.
Class Upd {R T : Type} (p : R → T) := upd : (T → T) → R → R.
Arguments upd {R T} p {_} f r /.

Ltac derive_upd R p :=
  let e := constr:(_ : Eta R) in
  let e := eval hnf in e in
  lazymatch eval pattern p in e with
  | ?g _ => let t := eval cbv beta in (fun f : _ -> _ => g (fun r => f (p r))) in exact t
  end.
#[export] Hint Extern 0 (@Upd ?R _ ?p) => derive_upd R p : typeclass_instances.

Notation "r <| p ::= f |>" := (upd p f r)
  (at level 1, left associativity, p at level 200, f at level 200) : vesal_scope.
Notation "r <| p := v |>" := (upd p (λ _, v) r)
  (at level 1, left associativity, p at level 200, v at level 200) : vesal_scope.
Open Scope vesal_scope.

(** ** Facts on machine integers *)

Lemma wrap_range w z : 0 <= w → in_range w (wrap w z).
Proof. intros. unfold in_range, wrap. apply Z.mod_pos_bound. lia. Qed.
Lemma wrap_small w z : in_range w z → wrap w z = z.
Proof. unfold in_range, wrap. intros. by apply Z.mod_small. Qed.
Lemma wrap_wrap w z : 0 <= w → wrap w (wrap w z) = wrap w z.
Proof. intros. apply wrap_small. by apply wrap_range. Qed.
Lemma wrap_1 z : wrap 0 z = 0.
Proof. unfold wrap. by rewrite Z.pow_0_r, Z.mod_1_r. Qed.
Lemma wrap_land w z : 0 <= w → wrap w z = Z.land z (Z.ones w).
Proof. intros. by rewrite Z.land_ones. Qed.
Lemma wrap_testbit w z i :
  0 <= w → 0 <= i → Z.testbit (wrap w z) i = bool_decide (i < w) && Z.testbit z i.
Proof.
  intros. rewrite wrap_land by done. rewrite Z.land_spec.
  case_bool_decide.
  - rewrite Z.ones_spec_low by lia. by destruct (Z.testbit z i).
  - rewrite Z.ones_spec_high by lia. by destruct (Z.testbit z i).
Qed.
Lemma in_range_testbit w z i : 0 <= w → in_range w z → w <= i → Z.testbit z i = false.
Proof.
  intros Hw Hz Hi. rewrite <- (wrap_small w z) by done.
  rewrite wrap_testbit by lia. rewrite bool_decide_false by lia. done.
Qed.
Lemma testbit_in_range w z :
  0 <= w → 0 <= z → (∀ i, w <= i → Z.testbit z i = false) → in_range w z.
Proof.
  intros Hw Hz Hb. split; [done|]. destruct (decide (z = 0)) as [->|]; [lia|].
  apply Z.log2_lt_pow2; [lia|].
  destruct (Z.lt_ge_cases (Z.log2 z) w) as [|Hge]; [done|].
  specialize (Hb _ Hge). rewrite Z.bit_log2 in Hb by lia. done.
Qed.

Lemma in_range_lxor w a b :
  0 <= w → in_range w a → in_range w b → in_range w (Z.lxor a b).
Proof.
  intros Hw Ha Hb. apply testbit_in_range; [done|unfold in_range in *; apply Z.lxor_nonneg; lia|].
  intros i Hi. rewrite Z.lxor_spec, !(in_range_testbit w) by (done || lia). done.
Qed.
Lemma in_range_land_l w a b : 0 <= w → in_range w a → 0 <= b → in_range w (Z.land a b).
Proof.
  intros Hw Ha Hb. apply testbit_in_range; [done|apply Z.land_nonneg; unfold in_range in *; lia|].
  intros i Hi. rewrite Z.land_spec, (in_range_testbit w a) by (done || lia). done.
Qed.

(** ** Bytes in memory

    Memory is a list of bytes; a w-byte integer is stored least significant byte first. *)

Fixpoint le_load (bs : list Z) : Z :=
  match bs with
  | [] => 0
  | b :: bs => Z.lor b (Z.shiftl (le_load bs) 8)
  end.
Fixpoint le_bytes (n : nat) (z : Z) : list Z :=
  match n with O => [] | S n => u8 z :: le_bytes n (Z.shiftr z 8) end.

Definition load (off n : nat) (mem : list Z) : Z := le_load (take n (drop off mem)).
Definition store (off n : nat) (v : Z) (mem : list Z) : list Z :=
  take off mem ++ le_bytes n v ++ drop (off + n) mem.

Lemma le_bytes_length n z : length (le_bytes n z) = n.
Proof. revert z. induction n; intros; simpl; congruence. Qed.

Lemma le_load_bytes n z : le_load (le_bytes n z) = wrap (8 * Z.of_nat n) z.
Proof.
  revert z. induction n as [|n IH]; intros z; [by rewrite Z.mul_0_r, wrap_1|].
  cbn [le_load le_bytes]. rewrite IH. apply Z.bits_inj'. intros i Hi.
  rewrite Z.lor_spec, !wrap_testbit, Z.shiftl_spec by lia.
  destruct (Z.lt_ge_cases i 8).
  - rewrite (Z.testbit_neg_r _ (i - 8)), orb_false_r by lia. by rewrite !bool_decide_true by lia.
  - rewrite wrap_testbit, Z.shiftr_spec by lia. rewrite (bool_decide_false (i < 8)) by lia.
    replace (i - 8 + 8) with i by lia. cbn [andb orb].
    f_equal. apply bool_decide_ext. lia.
Qed.

Lemma store_length off n v mem : (off + n <= length mem)%nat → length (store off n v mem) = length mem.
Proof. intros. unfold store. rewrite !length_app, length_take, length_drop, le_bytes_length. lia. Qed.
Lemma load_store off n v mem :
  (off + n <= length mem)%nat → load off n (store off n v mem) = wrap (8 * Z.of_nat n) v.
Proof.
  intros. unfold load, store. rewrite drop_app_length' by (rewrite length_take; lia).
  rewrite take_app_length' by (by rewrite le_bytes_length). apply le_load_bytes.
Qed.
Lemma lookup_store off n v mem i :
  (off + n <= length mem)%nat → (i < off ∨ off + n <= i)%nat → store off n v mem !! i = mem !! i.
Proof.
  intros Hl Hi. unfold store. destruct (decide (i < off)%nat).
  - rewrite lookup_app_l by (rewrite length_take; lia). apply lookup_take_lt. lia.
  - rewrite lookup_app_r by (rewrite length_take; lia).
    rewrite lookup_app_r by (rewrite length_take, le_bytes_length; lia).
    rewrite lookup_drop, length_take, le_bytes_length. f_equal. lia.
Qed.
Lemma load_ext off n m m' :
  (∀ i, (off <= i < off + n)%nat → m !! i = m' !! i) → load off n m = load off n m'.
Proof.
  intros H. unfold load. f_equal. apply list_eq. intros i. destruct (decide (i < n)%nat).
  - rewrite !lookup_take_lt, !lookup_drop by done. apply H. lia.
  - rewrite !lookup_take_ge by lia. done.
Qed.
Lemma load_store_ne off n v mem off' n' :
  (off + n <= length mem)%nat → (off' + n' <= off ∨ off + n <= off')%nat →
  load off' n' (store off n v mem) = load off' n' mem.
Proof. intros. apply load_ext. intros. apply lookup_store; lia. Qed.

(** ** Facts on lists *)

Lemma sum_list_with_app {A} (f : A → nat) l1 l2 :
  sum_list_with f (l1 ++ l2) = (sum_list_with f l1 + sum_list_with f l2)%nat.
Proof. induction l1; simpl; lia. Qed.

Lemma list_alter_insert {A} (f : A → A) (l : list A) i x :
  l !! i = Some x → alter f i l = <[i := f x]> l.
Proof.
  revert i. induction l as [|y l IH]; intros [|i] E; try done; cbn in *.
  - by simplify_eq.
  - f_equal. by apply IH.
Qed.

Lemma list_lookup_alter_if {A} (f : A → A) (l : list A) (d i : nat) :
  alter f d l !! i = (if decide (d = i) then f else id) <$> l !! i.
Proof. rewrite list_lookup_alter. case_decide; subst; [done|]. by destruct (l !! i). Qed.

Lemma filter_none {A} (P : A → Prop) `{∀ x, Decision (P x)} (l : list A) :
  (∀ x, x ∈ l → ¬ P x) → filter P l = [].
Proof.
  induction l as [|x l IH]; intros Hl; [done|]. rewrite filter_cons_False by (apply Hl; by left).
  apply IH. intros. apply Hl. by right.
Qed.
Lemma filter_every {A} (P : A → Prop) `{∀ x, Decision (P x)} (l : list A) :
  (∀ x, x ∈ l → P x) → filter P l = l.
Proof.
  induction l as [|x l IH]; intros Hl; [done|]. rewrite filter_cons_True by (apply Hl; by left).
  f_equal. apply IH. intros. apply Hl. by right.
Qed.

(** ** Automation *)

(** Decide the comparisons of closed numbers in the goal. *)
Ltac eval_cmp :=
  repeat match goal with
  | |- context [?a <? ?b] =>
      let r := eval vm_compute in (a <? b) in
      lazymatch r with true => idtac | false => idtac end; change (a <? b) with r; cbn iota
  | |- context [?a =? ?b] =>
      let r := eval vm_compute in (a =? b) in
      lazymatch r with true => idtac | false => idtac end; change (a =? b) with r; cbn iota
  | |- context [?a <=? ?b] =>
      let r := eval vm_compute in (a <=? b) in
      lazymatch r with true => idtac | false => idtac end; change (a <=? b) with r; cbn iota
  end.

Create HintDb vesal.
#[export] Hint Resolve wrap_range wrap_small in_range_lxor : vesal.
