(* ===== verification/Status.v ===== *)
(** * Status codes (src/include/vesal/status.h, src/src/common/status.cc)

    The error type every operation of the library returns. *)

From Stdlib Require Import ZArith Lia.
From stdpp Require Import prelude gmap strings.
From S2P Require Import Prelude.
Open Scope Z_scope.

Inductive StatusCode :=
| kOk | kInvalidArgument | kNotSupported | kResourceBusy | kHardwareError | kChannelError
| kTimeout | kOverflow | kBadData | kShouldRetry | kDropped | kPermanentError | kUnknown
| kSliceHang.

#[export] Instance StatusCode_eq_dec : EqDecision StatusCode.
Proof. solve_decision. Defined.

(** The underlying [uint8_t] value of each enumerator. *)
Definition status_value (c : StatusCode) : Z :=
  match c with
  | kOk => 0 | kInvalidArgument => 1 | kNotSupported => 2 | kResourceBusy => 3
  | kHardwareError => 4 | kChannelError => 5 | kTimeout => 6 | kOverflow => 7
  | kBadData => 8 | kShouldRetry => 9 | kDropped => 10 | kPermanentError => 11
  | kUnknown => 12 | kSliceHang => 13
  end.

Definition GetAllStatusCodes : list StatusCode :=
  [kOk; kInvalidArgument; kNotSupported; kResourceBusy; kHardwareError; kChannelError;
   kTimeout; kOverflow; kBadData; kShouldRetry; kDropped; kPermanentError; kUnknown;
   kSliceHang].

(** [code] is an [int8_t]. *)
Definition IsStatusCode (code : Z) : bool :=
  (status_value kOk <=? code) && (code <=? status_value kSliceHang).

Definition CanDeallocZeroCopyBuffer (c : StatusCode) : bool :=
  bool_decide (c ≠ kTimeout) && bool_decide (c ≠ kDropped) && bool_decide (c ≠ kSliceHang).

Definition StatusCodeToString (c : StatusCode) : string :=
  match c with
  | kOk => "OK"
  | kInvalidArgument => "INVALID_ARGUMENT"
  | kNotSupported => "NOT_SUPPORTED"
  | kResourceBusy => "RESOURCE_BUSY"
  | kHardwareError => "HARDWARE_ERROR"
  | kChannelError => "CHANNEL_ERROR"
  | kTimeout => "TIMEOUT"
  | kUnknown => "UNKNOWN"
  | kOverflow => "OVERFLOW"
  | kBadData => "BAD_DATE"
  | kShouldRetry => "SHOULD_RETRY"
  | kDropped => "DROPPED"
  | kPermanentError => "PERMANENT_ERROR"
  | kSliceHang => "SLICE_HANG"
  end.

Record Status := MkStatus { code_ : StatusCode; message_ : string }.

#[export] Instance Status_eq_dec : EqDecision Status.
Proof. solve_decision. Defined.

Definition ok (s : Status) : bool := bool_decide (code_ s = kOk).
Definition OkStatus : Status := MkStatus kOk "".

(** "OK" if ok(), otherwise "StatusCodeToString(code_): message_". *)
Definition ToString (s : Status) : string :=
  if ok s then StatusCodeToString (code_ s)
  else (StatusCodeToString (code_ s) +:+ ": " +:+ message_ s)%string.

(** The predicates [IsInvalidArgument] ... [IsSliceHang] on a status, on a code. *)
Definition is_code (c : StatusCode) (s : Status) : bool := bool_decide (code_ s = c).
Definition is_status_code (c c' : StatusCode) : bool := bool_decide (c' = c).

(** The constructors [InvalidArgumentError] ... [SliceHangError]. *)
Definition error_of (c : StatusCode) (msg : string) : Status := MkStatus c msg.


Definition StatusCodeToStatus (c : StatusCode) (msg : string) : Status :=
  match c with
  | kOk => OkStatus
  | c => error_of c msg
  end.

Lemma GetAllStatusCodes_complete c : c ∈ GetAllStatusCodes.
Proof. rewrite list_elem_of_In. destruct c; simpl; tauto. Qed.
Lemma GetAllStatusCodes_NoDup : NoDup GetAllStatusCodes.
Proof. apply (bool_decide_unpack _). by vm_compute. Qed.
Lemma IsStatusCode_iff z : IsStatusCode z = true ↔ ∃ c, status_value c = z.
Proof.
  unfold IsStatusCode. rewrite andb_true_iff, !Z.leb_le. split.
  - intros Hz. assert (z ∈ status_value <$> GetAllStatusCodes) as Hin.
    { rewrite list_elem_of_In. simpl in *. lia. }
    apply list_elem_of_fmap in Hin as (c & -> & _). by exists c.
  - intros [c <-]. destruct c; simpl; lia.
Qed.

(** The codes listed by [GetAllStatusCodes] are all of them, each once; an integer is
    accepted by [IsStatusCode] exactly when it is the value of one; the printed names are
    pairwise distinct, so a log line identifies its code; and [StatusCodeToStatus] keeps
    the code for every code. *)
Theorem status_codes_faithful :
  (∀ c, c ∈ GetAllStatusCodes) ∧ NoDup GetAllStatusCodes ∧
  (∀ z, IsStatusCode z = true ↔ ∃ c, status_value c = z) ∧
  (∀ c c', StatusCodeToString c = StatusCodeToString c' → c = c') ∧
  (∀ c msg, code_ (StatusCodeToStatus c msg) = c ∧ is_code c (StatusCodeToStatus c msg) = true).
Proof.
  split; [apply GetAllStatusCodes_complete|]. split; [apply GetAllStatusCodes_NoDup|].
  split; [apply IsStatusCode_iff|]. split.
  - intros c c'. by destruct c, c'.
  - intros c msg. by destruct c.
Qed.
