(* ===== verification/Checksum.v ===== *)
(** * Checksums (src/src/common/checksum_impl.{h,cc})

    CRC32C as the library computes it (reflected polynomial, no final xor): the
    instruction-driven loop [ComputeCRC32_Accelerate], the carry-less product [crc32Mult]
    in its portable and its PCLMULQDQ form, the table-driven [CRC32CombineGen] and the
    combination of checksums of adjacent buffers. [XxHash] is the LZ4 header hash.

    The reference is [crc_bytes], one byte at a time; polynomials over GF(2) modulo the
    CRC polynomial are bit-reflected words, bit 31 being the coefficient of [x^0]. *)

From Stdlib Require Import ZArith NArith Lia.
From stdpp Require Import prelude gmap.
From S2P Require Import Prelude.
Open Scope Z_scope.

(** ** Constants (checksum_impl.h) *)

Definition kCrc32cPolynomial : Z := 0x1EDC6F41.
Definition kCrc32cXorOut : Z := 0.
Definition kCrc32cInitialValue : Z := 0xFFFFFFFF.
Definition kCrc32cPolyReflect : Z := 0x82f63b78.

(** ** Multiplication by x

    [b & 1 ? (b >> 1) ^ kCrc32cPolyReflect : b >> 1]. *)
Definition mulx (b : Z) : Z :=
  if Z.testbit b 0 then Z.lxor (Z.shiftr b 1) kCrc32cPolyReflect else Z.shiftr b 1.

(** [mulx] iterated; [N] keeps large exponents representable. *)
Definition mulxn (n : N) (b : Z) : Z := N.iter n mulx b.

(** The CRC32 instruction on an [n]-bit operand: [crc32b] is [crc32_insn 8], [crc32q] is
    [crc32_insn 64], [_mm_crc32_u32] is [crc32_insn 32]. The operand is consumed least
    significant bit first. *)
Definition crc32_insn (n : N) (crc data : Z) : Z := mulxn n (Z.lxor crc data).


(** ** ComputeCRC32

    First loop: eight bytes per step with [crc32q]. The pointer [p] is the remaining
    suffix; [words] is [(end - p)]. *)
Fixpoint crc_words (words : nat) (crc64 : Z) (p : list Z) : Z * list Z :=
  match words with
  | O => (crc64, p)
  | S words => crc_words words (crc32_insn 64 crc64 (le_load (take 8 p))) (drop 8 p)
  end.

(** Second loop: the remaining bytes with [crc32b]. *)
Fixpoint crc_tail (crc : Z) (buf : list Z) : Z :=
  match buf with
  | [] => crc
  | b :: buf => crc_tail (crc32_insn 8 crc b) buf
  end.

Definition ComputeCRC32_Accelerate (init_crc : Z) (buf : list Z) : Z :=
  let '(crc64, p) := crc_words (Z.to_nat (Z.shiftr (Z.of_nat (length buf)) 3)) init_crc buf in
  crc_tail (u32 crc64) p.

(** [Get_ComputeCRC32_Impl] selects the implementation from CPUID; [ComputeCRC32] aborts
    when there is none. *)
Definition Get_ComputeCRC32_Impl (ecx : Z) : option (Z → list Z → Z) :=
  if Z.testbit ecx 20 then Some ComputeCRC32_Accelerate else None.

Definition ComputeCRC32 (ecx init_crc : Z) (buf : list Z) : res Z :=
  match Get_ComputeCRC32_Impl ecx with
  | Some impl => Ok (impl init_crc buf)
  | None => Err CheckFailed
  end.

(** ** Products of polynomials *)

(** The loop of [crc32Mult]: [m] is the current bit mask, [p] the accumulator. The
    source's [for (;;)] has no bound; [fuel] is one iteration each. *)
Fixpoint crc32Mult_loop (fuel : nat) (m p a b : Z) : res Z :=
  match fuel with
  | O => Err OutOfFuel
  | S fuel =>
      if Z.land a m =? 0 then crc32Mult_loop fuel (Z.shiftr m 1) p a (mulx b)
      else
        let p := Z.lxor p b in
        if Z.land a (m - 1) =? 0 then Ok p
        else crc32Mult_loop fuel (Z.shiftr m 1) p a (mulx b)
  end.

(** Carry-less product of two 64-bit lanes, [_mm_clmulepi64_si128]. *)
Fixpoint clmul_bits (k : nat) (a b : Z) : Z :=
  match k with
  | O => 0
  | S k => Z.lxor (if Z.testbit b (Z.of_nat k) then Z.shiftl a (Z.of_nat k) else 0)
                  (clmul_bits k a b)
  end.
Definition clmul (a b : Z) : Z := clmul_bits 64 a b.

Definition crc32mul_pclmul (a b : Z) : Z :=
  let m := u64 (clmul a b) in
  let lo := u32 (Z.shiftr m 31) in
  let hi := u32 (Z.shiftl (Z.land m (2 ^ 31 - 1)) 1) in
  Z.lxor (crc32_insn 32 hi 0) lo.

(** [crc32Mult]: the PCLMULQDQ form when it is compiled in and the CPU has it. *)
Definition crc32Mult (cpu_pclmul : bool) (fuel : nat) (a b : Z) : res Z :=
  if cpu_pclmul then Ok (crc32mul_pclmul a b)
  else crc32Mult_loop fuel (2 ^ 31) 0 a b.

(** ** The table of powers *)

Definition kCRC32X64NTable : list Z :=
  [
   0x80000000; 0x00800000; 0x00008000; 0x00000080; 0x82f63b78; 0xfbc3faf9;
   0x8b277743; 0x52a0c93f; 0x6ea2d55c; 0x1c08b7d6; 0xf56e0ef4; 0x34019664;
   0xa66805eb; 0x7a1f6b24; 0xe75d06aa; 0xc94ec098; 0x18b8ea18; 0x9a9f274a;
   0x2a03aaa3; 0xb13145f8; 0x790606ff; 0xad045557; 0x8542ba6d; 0xde6b9d0b;
   0x9957c0a6; 0x8473058e; 0x2e0af75a; 0x3ae9f81c; 0x5d27e147; 0x95ec5eb6;
   0x9421797f; 0x2f1f4950; 0x510ac59a; 0xf91bdeea; 0x882b9bfc; 0xbea58b3e;
   0x9c25531d; 0xafeaaeef; 0xbd8c7e90; 0x92157069; 0x19e65dde; 0x7fb2b8d1;
   0x21c7d010; 0x107f00bf; 0xec1631ed; 0x5cf4f2f8; 0x79ebc348; 0xcbdbaeb0;
   0xb2dea967; 0xb5be2920; 0x200830f7; 0x278403ae; 0x0e148e82; 0x63c35f01;
   0xf208405c; 0x1c941d43; 0x52377a55; 0x6486f9b5; 0x8780e02c; 0x6d79c1ee;
   0x4f256efc; 0xbe6285cb; 0x5abaef7a; 0x1a20c6da; 0x80000000; 0xb82be955;
   0xb8fdb1e7; 0x18e4a304; 0x88e56f72; 0x9030a49c; 0x67db2c4a; 0xe744dcb2;
   0x74c360a4; 0x8e9906a7; 0xb469724f; 0x24d84074; 0x631bb273; 0xee2a2d56;
   0x654f84e7; 0x629069c6; 0xe4172b16; 0xd3cb2137; 0x4f47bf52; 0x35202632;
   0x71892b1b; 0xd27285db; 0x69c2af09; 0xd271158e; 0x835305c9; 0xeaa500ac;
   0x0e36a726; 0x46951631; 0x196b1eae; 0x584ea70d; 0x15e8653c; 0xb5a65826;
   0x0d65762a; 0xebfcce28; 0xe6aef08f; 0x013ee85b; 0xafc81338; 0x61c30b85;
   0xe31e7f5b; 0x5e3750cd; 0xb5a50ab7; 0x1977c75d; 0x46bf959e; 0xe78cd046;
   0xf373c3ac; 0x950979dd; 0xe31b4008; 0xc726c863; 0x5f60970f; 0xf977f383;
   0x9e7b1c10; 0xea2110f8; 0xd46d3063; 0xe2220529; 0xebd59d26; 0xedbe69a1;
   0x3a5275ea; 0x1a2bbe21; 0xd597ad7e; 0xcb8c45a6; 0x02331c01; 0xe8639712;
   0xa957c550; 0xbcfda51c; 0x80000000; 0x35d73a62; 0x28461564; 0x43eefc9f;
   0xbf455269; 0x5edcdeb9; 0x65059450; 0x4e6f41a4; 0xe2ea32dc; 0xf5b95b32;
   0x695a4c87; 0xf204502c; 0x9a4f01b6; 0x941a0916; 0x4303cb97; 0x4c3d3d65;
   0xfe7740e6; 0xf0cb95d2; 0xab4c722a; 0xba35e2e1; 0x99569602; 0x294060e6;
   0xd65a1d78; 0x18103ff9; 0x78b57ca2; 0x97b3a098; 0x30a8edff; 0x3fb4e611;
   0x999dcda1; 0xd9dd2e27; 0x5918f954; 0x8ee73513; 0xf946610b; 0xa5f4742d;
   0x424b8555; 0xd017c143; 0xc274d1e2; 0x0280b04e; 0xd25bb5e0; 0x552a0918;
   0xf5942afb; 0x55d7a3f8; 0xd1b533ee; 0x9fa8def5; 0x24c42589; 0x5988dbb3;
   0xa7e1cab4; 0xebaee1b4; 0xa0a51f5f; 0xbd1a9096; 0x1ced05cc; 0x6748e206;
   0x506431b0; 0x6c399e24; 0x30af367f; 0x129ee2f5; 0x8fd57416; 0x85ee5ed0;
   0x97504a07; 0x52e710c7; 0x4ea3e89b; 0xde8567b5; 0xb5c84194; 0x80526793;
   0x80000000; 0x3c204f8f; 0x538586e3; 0x683988b2; 0x59726915; 0x30c6966d;
   0x5be8b36e; 0x42c5623c; 0x734d5309; 0x1084fed0; 0x68a5f0f9; 0x1573fe60;
   0xdb1b3315; 0xe0a82539; 0xe5c304f7; 0xce8068d1; 0xbc1ac763; 0x47514f16;
   0xf7f919a7; 0x5005a217; 0x11b31f9d; 0x496f21b8; 0x0bc2a806; 0xbba39916;
   0x5414bce3; 0x401f0313; 0xe0ee85d5; 0x4fb6f7ac; 0x54f2f77b; 0x738279cb;
   0x6b645133; 0x05a44de1; 0x7d0722cc; 0x8ca9c7c7; 0x50806311; 0x58ba16a0;
   0xbae70d08; 0xde3a8229; 0x6652a6cc; 0x36b6490b; 0x238acb2b; 0xe3f9a08b;
   0x23a7923f; 0xb0609b9b; 0xd2074e2b; 0x342f6e39; 0x5bcf2cf2; 0x8096907d;
   0x546dfa6e; 0x75337ed4; 0x9c1de396; 0x91e7afe7; 0x3f76a96c; 0x00032b5e;
   0x1a2a93d0; 0x3b0c8728; 0xa3aa3946; 0x9b170192; 0xcc33e9f6; 0x4152bdb8;
   0xf054ca48; 0x0369fe6a; 0x6ec7bef8; 0x3fe8b9ff; 0x80000000; 0xd289cabe;
   0xe94ca9bc; 0x6ac5538f; 0x05b74f3f; 0x9e0b2298; 0x14de47cd; 0x3a9fb07d;
   0xa51e1f42; 0xfe578179; 0x038d778c; 0x5fe3cf44; 0xb7c64e40; 0x20cbb8e3;
   0x4f04f803; 0x56745358; 0x40000000; 0x6944e55f; 0x74a654de; 0xb79492bf;
   0x802d9ce7; 0x4f05914c; 0x8899189e; 0x9fb9e346; 0x528f0fa1; 0xfdddfbc4;
   0x01c6bbc6; 0x2ff1e7a2; 0x5be32720; 0x9293e709; 0xa5744779; 0x2b3a29ac;
   0x20000000; 0xb65449d7; 0x3a532a6f; 0xd93c7227; 0xc2e0f50b; 0x2782c8a6;
   0x444c8c4f; 0x4fdcf1a3; 0xabb1bca8; 0x7eeefde2; 0x00e35de3; 0x17f8f3d1;
   0x2df19390; 0xcbbfc8fc; 0xd04c18c4; 0x159d14d6; 0x10000000; 0xd9dc1f93;
   0x9fdfae4f; 0xee68026b; 0xe38641fd; 0x13c16453; 0xa0d07d5f; 0xa51843a9;
   0x55d8de54; 0x3f777ef1; 0x82879589; 0x890a4290; 0x16f8c9c8; 0x65dfe47e;
   0x68260c62; 0x0ace8a6b; 0x80000000; 0x08000000; 0x00800000; 0x00080000
  ] ++ replicate 60 0.

Definition table_at (i : Z) : res Z :=
  match kCRC32X64NTable !! Z.to_nat i with Some v => Ok v | None => Err OutOfBounds end.

(** [len = (len & (m - 1)) + (len >> 31)], twice while [m <= len]. *)
Definition reduce_len (len : Z) : Z :=
  if 2 ^ 31 <=? len then
    let len := Z.land len (2 ^ 31 - 1) + Z.shiftr len 31 in
    if 2 ^ 31 <=? len then Z.land len (2 ^ 31 - 1) + Z.shiftr len 31 else len
  else len.

(** [for (; !(len & 63); len >>= 6, i++)] *)
Fixpoint skip_zero_digits (fuel : nat) (len i : Z) : res (Z * Z) :=
  match fuel with
  | O => Err OutOfFuel
  | S fuel =>
      if Z.land len 63 =? 0 then skip_zero_digits fuel (Z.shiftr len 6) (i + 1)
      else Ok (len, i)
  end.

(** [for (...; len; len >>= 6, i++) if (len & 63) p = crc32Mult(table[..], p)] *)
Fixpoint gen_loop (cpu_pclmul : bool) (fuel : nat) (p len i : Z) : res Z :=
  match fuel with
  | O => Err OutOfFuel
  | S fuel =>
      if len =? 0 then Ok p
      else if Z.land len 63 =? 0 then gen_loop cpu_pclmul fuel p (Z.shiftr len 6) (i + 1)
      else
        t ← table_at (i * 64 + Z.land len 63);
        p ← crc32Mult cpu_pclmul 32 t p;
        gen_loop cpu_pclmul fuel p (Z.shiftr len 6) (i + 1)
  end.

(** Six base-64 digits cover every reduced length; the last turn of [gen_loop] sees 0. *)
Definition CRC32CombineGen (cpu_pclmul : bool) (len : Z) : res Z :=
  let len := reduce_len len in
  if len =? 0 then Ok (2 ^ 31)
  else
    '(len, i) ← skip_zero_digits 6 len 0;
    p ← table_at (i * 64 + Z.land len 63);
    gen_loop cpu_pclmul 7 p (Z.shiftr len 6) (i + 1).

Definition CRC32CombineOp (cpu_pclmul : bool) (crc1 crc2 op : Z) : res Z :=
  p ← crc32Mult cpu_pclmul 32 op crc1;
  mret (Z.lxor p crc2).

(** ** The PCLMULQDQ fast-forward

    128-bit registers are [Z]; the lanes of [v] are [lane0 v] and [lane1 v]. *)
Definition lane0 (v : Z) : Z := u64 v.
Definition lane1 (v : Z) : Z := u64 (Z.shiftr v 64).

Fixpoint ff_loop (fuel : nat) (v d len i : Z) : res (Z * Z) :=
  match fuel with
  | O => Err OutOfFuel
  | S fuel =>
      if len =? 0 then Ok (v, d)
      else if Z.land len 63 =? 0 then ff_loop fuel v d (Z.shiftr len 6) (i + 1)
      else
        c0 ← table_at (i * 64 + Z.land len 63);
        if d <? 2 then
          ff_loop fuel (clmul (lane0 v) (Z.shiftl c0 1)) (d + 1) (Z.shiftr len 6) (i + 1)
        else
          let c1 := crc32_insn 64 c0 0 in
          let v := wrap 128 (Z.shiftl v 32) in
          let p := clmul (lane0 v) (Z.shiftl c1 1) in
          let v := clmul (lane1 v) (Z.shiftl c0 1) in
          ff_loop fuel (Z.lxor v p) d (Z.shiftr len 6) (i + 1)
  end.

Definition crc32ff_pclmul (crc len : Z) : res Z :=
  let len := reduce_len len in
  if len =? 0 then Ok crc
  else
    '(v, d) ← ff_loop 7 crc 0 len 0;
    if d <? 2 then
      let u0 := lane0 v in
      let lo := u32 (Z.shiftr u0 32) in
      let hi := Z.land u0 (2 ^ 32 - 1) in
      mret (Z.lxor (crc32_insn 32 hi 0) lo)
    else
      let u0 := lane0 v in
      let u1 := lane1 v in
      mret (u32 (Z.lxor (crc32_insn 64 0 u0) u1)).

Definition CRC32Combine (cpu_pclmul : bool) (crc1 crc2 size2 : Z) : res Z :=
  if cpu_pclmul then
    p ← crc32ff_pclmul crc1 size2;
    mret (Z.lxor p crc2)
  else
    op ← CRC32CombineGen cpu_pclmul size2;
    CRC32CombineOp cpu_pclmul crc1 crc2 op.

Definition CombineThreeCRC32 (cpu_pclmul : bool)
    (init_value crc1 crc2 crc3 size2 size3 : Z) : res Z :=
  c12 ← CRC32Combine cpu_pclmul (Z.lxor init_value crc1) crc2 size2;
  CRC32Combine cpu_pclmul (Z.lxor init_value c12) crc3 size3.

(** ** Reference definitions *)

(** CRC of a byte string, one byte and eight shifts at a time. *)
Definition crc_bytes (crc : Z) (bs : list Z) : Z :=
  foldl (λ c b, mulxn 8 (Z.lxor c b)) crc bs.

Definition bytes_ok (bs : list Z) : Prop := Forall (in_range 8) bs.

(** [act k a c]: the low [k] coefficients of [a] applied to [c], bit [k-1] being the
    coefficient of [x^0]. *)
Fixpoint act (k : nat) (a c : Z) : Z :=
  match k with
  | O => 0
  | S k => Z.lxor (if Z.testbit a (Z.of_nat k) then c else 0) (act k a (mulx c))
  end.
(** Product modulo the CRC polynomial, and its unit. *)
Definition pmul (a c : Z) : Z := act 32 a c.
Definition pone : Z := 2 ^ 31.
Definition xpow (n : N) : Z := mulxn n pone.

(** ** Linearity *)

Lemma mulx_lxor a b : mulx (Z.lxor a b) = Z.lxor (mulx a) (mulx b).
Proof.
  unfold mulx. rewrite Z.lxor_spec, Z.shiftr_lxor.
  destruct (Z.testbit a 0), (Z.testbit b 0); simpl.
  - rewrite (Z.lxor_comm (Z.shiftr b 1)), Z.lxor_assoc.
    rewrite <- (Z.lxor_assoc kCrc32cPolyReflect), Z.lxor_nilpotent, Z.lxor_0_l. done.
  - rewrite !Z.lxor_assoc. f_equal. apply Z.lxor_comm.
  - by rewrite Z.lxor_assoc.
  - done.
Qed.
Lemma mulx_0 : mulx 0 = 0.
Proof. done. Qed.

Lemma mulxn_0 b : mulxn 0 b = b.
Proof. done. Qed.
Lemma mulxn_succ n b : mulxn (N.succ n) b = mulx (mulxn n b).
Proof. apply N.iter_succ. Qed.
Lemma mulxn_1 b : mulxn 1 b = mulx b.
Proof. done. Qed.
Lemma mulxn_add n m b : mulxn (n + m) b = mulxn n (mulxn m b).
Proof. apply N.iter_add. Qed.
Lemma mulxn_mulx n b : mulxn n (mulx b) = mulx (mulxn n b).
Proof. unfold mulxn. by rewrite N.iter_swap. Qed.
Lemma mulxn_lxor n a b : mulxn n (Z.lxor a b) = Z.lxor (mulxn n a) (mulxn n b).
Proof.
  induction n using N.peano_ind; [done|].
  by rewrite !mulxn_succ, IHn, mulx_lxor.
Qed.
Lemma mulxn_zero n : mulxn n 0 = 0.
Proof. induction n using N.peano_ind; [done|]. by rewrite mulxn_succ, IHn. Qed.

(** Shifting left by [n] and multiplying by [x^n] cancel. *)
Lemma mulx_double a : mulx (Z.shiftl a 1) = a.
Proof.
  unfold mulx. rewrite Z.shiftl_spec_low by lia.
  rewrite Z.shiftr_shiftl_l by lia. apply Z.shiftl_0_r.
Qed.
Lemma mulxn_shiftl n a : mulxn n (Z.shiftl a (Z.of_N n)) = a.
Proof.
  induction n using N.peano_ind; [by rewrite Z.shiftl_0_r|].
  rewrite <- N.add_1_r, mulxn_add, mulxn_1.
  rewrite N2Z.inj_add, <- Z.shiftl_shiftl by lia. by rewrite mulx_double.
Qed.

Lemma in_range_mulx b : in_range 32 b → in_range 32 (mulx b).
Proof.
  intros Hb. unfold mulx.
  assert (in_range 32 (Z.shiftr b 1)).
  { unfold in_range in *. rewrite Z.shiftr_div_pow2 by lia.
    change (2 ^ 1) with 2. split; [apply Z.div_pos; lia|].
    apply Z.div_lt_upper_bound; lia. }
  destruct (Z.testbit b 0); [|done].
  apply in_range_lxor; [lia|done|]. split; done.
Qed.
Lemma in_range_mulxn n b : in_range 32 b → in_range 32 (mulxn n b).
Proof.
  intros Hb. induction n using N.peano_ind; [done|].
  rewrite mulxn_succ. by apply in_range_mulx.
Qed.

(** A word of [32 + n] bits is reduced to 32 bits by [n] multiplications. *)
Lemma in_range_mulx_wide n b :
  in_range (32 + Z.of_N (N.succ n)) b → in_range (32 + Z.of_N n) (mulx b).
Proof.
  intros Hb. unfold mulx.
  assert (in_range (32 + Z.of_N n) (Z.shiftr b 1)).
  { unfold in_range in *. rewrite Z.shiftr_div_pow2 by lia. change (2 ^ 1) with 2.
    replace (32 + Z.of_N (N.succ n)) with (1 + (32 + Z.of_N n)) in Hb by lia.
    rewrite Z.pow_add_r in Hb by lia. split; [apply Z.div_pos; lia|].
    apply Z.div_lt_upper_bound; lia. }
  destruct (Z.testbit b 0); [|done].
  apply in_range_lxor; [lia|done|]. split; [done|].
  apply Z.lt_le_trans with (2 ^ 32); [done|]. apply Z.pow_le_mono_r; lia.
Qed.
Lemma in_range_mulxn_wide n b : in_range (32 + Z.of_N n) b → in_range 32 (mulxn n b).
Proof.
  revert b. induction n using N.peano_ind; intros b Hb; [done|].
  rewrite <- N.add_1_r, mulxn_add, mulxn_1.
  apply IHn. by apply in_range_mulx_wide.
Qed.

(** ** CRC of byte strings *)

Lemma crc_bytes_app c l1 l2 : crc_bytes c (l1 ++ l2) = crc_bytes (crc_bytes c l1) l2.
Proof. apply foldl_app. Qed.
Lemma crc_bytes_cons c b l : crc_bytes c (b :: l) = crc_bytes (mulxn 8 (Z.lxor c b)) l.
Proof. done. Qed.

(** The checksum is affine in the initial value. *)
Lemma crc_bytes_lxor c d l :
  crc_bytes (Z.lxor c d) l =
  Z.lxor (crc_bytes c l) (mulxn (8 * N.of_nat (length l)) d).
Proof.
  revert c d. induction l as [|b l IH]; intros c d; [done|].
  rewrite !crc_bytes_cons.
  replace (Z.lxor (Z.lxor c d) b) with (Z.lxor (Z.lxor c b) d)
    by (rewrite !Z.lxor_assoc; f_equal; apply Z.lxor_comm).
  rewrite mulxn_lxor, IH. f_equal. rewrite <- mulxn_add. f_equal. simpl length. lia.
Qed.

Lemma le_load_range bs :
  bytes_ok bs → in_range (8 * Z.of_nat (length bs)) (le_load bs).
Proof.
  induction 1 as [|b bs Hb Hbs IH]; [done|]. simpl le_load.
  apply testbit_in_range; [lia| |].
  - unfold in_range in *. apply Z.lor_nonneg. split; [lia|]. apply Z.shiftl_nonneg. lia.
  - intros i Hi. cbn [length] in Hi. rewrite Z.lor_spec, Z.shiftl_spec by lia.
    rewrite (in_range_testbit 8 b) by (done || lia).
    apply (in_range_testbit (8 * Z.of_nat (length bs))); done || lia.
Qed.

Lemma le_load_cons b bs :
  bytes_ok (b :: bs) → le_load (b :: bs) = Z.lxor b (Z.shiftl (le_load bs) 8).
Proof.
  intros [Hb Hbs]%Forall_cons_1. simpl. apply Z.bits_inj'. intros i Hi.
  rewrite Z.lor_spec, Z.lxor_spec, Z.shiftl_spec by lia.
  destruct (Z.lt_ge_cases i 8).
  - rewrite (Z.testbit_neg_r (le_load bs)) by lia. by destruct (Z.testbit b i).
  - rewrite (in_range_testbit 8 b) by (done || lia). done.
Qed.

(** A wide CRC instruction equals the byte steps on its operand. *)
Lemma crc32_insn_bytes c bs :
  bytes_ok bs →
  crc32_insn (8 * N.of_nat (length bs)) c (le_load bs) = crc_bytes c bs.
Proof.
  revert c. induction bs as [|b bs IH]; intros c Hbs; [apply Z.lxor_0_r|].
  rewrite crc_bytes_cons. pose proof Hbs as [Hb Hbs']%Forall_cons_1.
  rewrite <- IH by done. unfold crc32_insn. rewrite le_load_cons by done.
  rewrite <- Z.lxor_assoc.
  replace (8 * N.of_nat (length (b :: bs)))%N
    with (8 * N.of_nat (length bs) + 8)%N by (simpl length; lia).
  rewrite mulxn_add, mulxn_lxor. f_equal. f_equal. apply (mulxn_shiftl 8).
Qed.

Lemma in_range_crc_bytes c l :
  in_range 32 c → bytes_ok l → in_range 32 (crc_bytes c l).
Proof.
  intros Hc Hl. revert c Hc. induction Hl as [|b l Hb Hl IH]; intros c Hc; [done|].
  rewrite crc_bytes_cons. apply IH. apply in_range_mulxn.
  apply in_range_lxor; [lia|done|]. unfold in_range in *; lia.
Qed.

Lemma crc_tail_spec c l : crc_tail c l = crc_bytes c l.
Proof. revert c. induction l as [|b l IH]; intros c; [done|]. simpl. by rewrite IH. Qed.

Lemma crc_words_spec n c l :
  bytes_ok l → (8 * n <= length l)%nat →
  crc_words n c l = (crc_bytes c (take (8 * n) l), drop (8 * n) l).
Proof.
  revert c l. induction n as [|n IH]; intros c l Hl Hn; [done|].
  replace (8 * S n)%nat with (8 + 8 * n)%nat in * by lia.
  cbn [crc_words]. rewrite IH.
  - rewrite drop_drop. f_equal.
    rewrite <- take_take_drop, crc_bytes_app. f_equal.
    pose proof (crc32_insn_bytes c (take 8 l)) as E.
    rewrite length_take_le in E by lia. apply E. by apply Forall_take.
  - by apply Forall_drop.
  - rewrite length_drop. lia.
Qed.

Lemma accelerate_spec c l :
  in_range 32 c → bytes_ok l → ComputeCRC32_Accelerate c l = crc_bytes c l.
Proof.
  intros Hc Hl. unfold ComputeCRC32_Accelerate.
  set (n := Z.to_nat _).
  assert ((8 * n <= length l)%nat).
  { subst n. rewrite Z.shiftr_div_pow2 by lia. change (2 ^ 3) with 8.
    pose proof (Z.mul_div_le (Z.of_nat (length l)) 8). lia. }
  rewrite crc_words_spec by done.
  rewrite wrap_small by (apply in_range_crc_bytes; [done|by apply Forall_take]).
  by rewrite crc_tail_spec, <- crc_bytes_app, take_drop.
Qed.

(** ** The ring of polynomials modulo the CRC polynomial *)

Lemma act_lxor k a c d : act k a (Z.lxor c d) = Z.lxor (act k a c) (act k a d).
Proof.
  revert c d. induction k as [|k IH]; intros c d; [done|]. simpl act.
  rewrite mulx_lxor, IH. destruct (Z.testbit a (Z.of_nat k)).
  - rewrite !Z.lxor_assoc. f_equal. rewrite <- !Z.lxor_assoc. f_equal. apply Z.lxor_comm.
  - by rewrite !Z.lxor_0_l.
Qed.
Lemma act_mulx k a c : act k a (mulx c) = mulx (act k a c).
Proof.
  revert c. induction k as [|k IH]; intros c; [done|]. simpl act.
  rewrite mulx_lxor, IH. f_equal. by destruct (Z.testbit a (Z.of_nat k)).
Qed.
Lemma act_mulxn k a n c : act k a (mulxn n c) = mulxn n (act k a c).
Proof.
  induction n using N.peano_ind; [done|]. by rewrite !mulxn_succ, act_mulx, IHn.
Qed.
Lemma act_zero k a : act k a 0 = 0.
Proof.
  induction k as [|k IH]; [done|]. simpl act. rewrite mulx_0, IH.
  by destruct (Z.testbit a (Z.of_nat k)).
Qed.
Lemma act_act j k a b c : act k a (act j b c) = act j b (act k a c).
Proof.
  revert c. induction k as [|k IH]; intros c; simpl act; [by rewrite act_zero|].
  rewrite act_lxor, <- act_mulx, IH. f_equal.
  destruct (Z.testbit a (Z.of_nat k)); [done|]. by rewrite act_zero.
Qed.

Lemma mulx_pow2 k : 0 <= k → mulx (2 ^ (k + 1)) = 2 ^ k.
Proof.
  intros. replace (2 ^ (k + 1)) with (Z.shiftl (2 ^ k) 1); [apply mulx_double|].
  rewrite Z.shiftl_mul_pow2, Z.pow_add_r by lia. done.
Qed.

Lemma wrap_succ_bit k a :
  wrap (Z.of_nat (S k)) a =
  Z.lxor (if Z.testbit a (Z.of_nat k) then 2 ^ Z.of_nat k else 0) (wrap (Z.of_nat k) a).
Proof.
  apply Z.bits_inj'. intros i Hi. rewrite Z.lxor_spec, !wrap_testbit by lia.
  destruct (decide (i = Z.of_nat k)) as [->|Hne].
  - rewrite bool_decide_true, bool_decide_false by lia.
    destruct (Z.testbit a (Z.of_nat k)); [|by rewrite Z.bits_0].
    by rewrite Z.pow2_bits_true by lia.
  - replace (bool_decide (i < Z.of_nat (S k))) with (bool_decide (i < Z.of_nat k))
      by (apply bool_decide_ext; lia).
    destruct (Z.testbit a (Z.of_nat k)).
    + rewrite Z.pow2_bits_false by lia. by rewrite xorb_false_l.
    + by rewrite Z.bits_0, xorb_false_l.
Qed.

(** [pone] is the unit of [pmul]. *)
Lemma act_unit k a : act (S k) a (2 ^ Z.of_nat k) = wrap (Z.of_nat (S k)) a.
Proof.
  induction k as [|k IH].
  - rewrite wrap_succ_bit. simpl act. rewrite Z.lxor_0_r.
    unfold wrap. change (2 ^ Z.of_nat 0) with 1. by rewrite Z.mod_1_r, Z.lxor_0_r.
  - rewrite wrap_succ_bit, <- IH.
    change (act (S (S k)) a (2 ^ Z.of_nat (S k)))
      with (Z.lxor (if Z.testbit a (Z.of_nat (S k)) then 2 ^ Z.of_nat (S k) else 0)
                   (act (S k) a (mulx (2 ^ Z.of_nat (S k))))).
    f_equal. f_equal. replace (Z.of_nat (S k)) with (Z.of_nat k + 1) by lia.
    apply mulx_pow2. lia.
Qed.
Lemma pmul_one_r a : in_range 32 a → pmul a pone = a.
Proof. intros. unfold pmul, pone. rewrite (act_unit 31). by apply wrap_small. Qed.
Lemma pone_range : in_range 32 pone.
Proof. done. Qed.

Lemma in_range_act k a c : in_range 32 c → in_range 32 (act k a c).
Proof.
  revert c. induction k as [|k IH]; intros c Hc; [done|]. simpl act.
  apply in_range_lxor; [lia| |by apply IH, in_range_mulx].
  by destruct (Z.testbit a (Z.of_nat k)).
Qed.
Lemma in_range_pmul a c : in_range 32 c → in_range 32 (pmul a c).
Proof. apply in_range_act. Qed.
Lemma in_range_xpow n : in_range 32 (xpow n).
Proof. apply in_range_mulxn, pone_range. Qed.

Lemma pmul_comm a b : in_range 32 a → in_range 32 b → pmul a b = pmul b a.
Proof.
  intros Ha Hb. rewrite <- (pmul_one_r b) at 1 by done. unfold pmul.
  rewrite act_act. f_equal. by apply pmul_one_r.
Qed.
Lemma mulxn_xpow n c : in_range 32 c → mulxn n c = pmul (xpow n) c.
Proof.
  intros Hc. rewrite pmul_comm by (done || apply in_range_xpow).
  unfold xpow, pmul. rewrite act_mulxn. f_equal. symmetry. by apply pmul_one_r.
Qed.
Lemma xpow_add n m : xpow (n + m) = pmul (xpow n) (xpow m).
Proof. unfold xpow at 1. rewrite mulxn_add. apply mulxn_xpow, in_range_xpow. Qed.
Lemma xpow_0 : xpow 0 = pone.
Proof. done. Qed.

#[export] Hint Resolve in_range_xpow in_range_pmul in_range_mulxn pone_range : vesal.

(** ** crc32Mult computes the product *)

Lemma act_low_zero k a c : Z.land a (2 ^ Z.of_nat k - 1) = 0 → act k a c = 0.
Proof.
  replace (2 ^ Z.of_nat k - 1) with (Z.ones (Z.of_nat k)) by (rewrite Z.ones_equiv; lia).
  intros Ha. assert (∀ i, (i < k)%nat → Z.testbit a (Z.of_nat i) = false) as Hb.
  { intros i Hi. apply (f_equal (λ z, Z.testbit z (Z.of_nat i))) in Ha.
    rewrite Z.land_spec, Z.ones_spec_low, Z.bits_0, andb_true_r in Ha by lia. done. }
  clear Ha. revert c. induction k as [|k IH]; intros c; [done|]. simpl act.
  rewrite Hb by lia. rewrite IH; [done|]. intros. apply Hb. lia.
Qed.

Lemma land_pow2 a k : 0 <= k → (Z.land a (2 ^ k) =? 0) = negb (Z.testbit a k).
Proof.
  intros Hk. destruct (Z.testbit a k) eqn:E.
  - apply Z.eqb_neq. intros H. apply (f_equal (λ z, Z.testbit z k)) in H.
    by rewrite Z.land_spec, E, Z.pow2_bits_true, Z.bits_0 in H by lia.
  - apply Z.eqb_eq, Z.bits_inj'. intros i Hi. rewrite Z.land_spec, Z.bits_0.
    destruct (decide (i = k)) as [->|]; [by rewrite E|].
    rewrite Z.pow2_bits_false by lia. apply andb_false_r.
Qed.

Lemma crc32Mult_loop_spec k fuel p a b :
  Z.land a (2 ^ Z.of_nat (S k) - 1) ≠ 0 → (k < fuel)%nat →
  crc32Mult_loop fuel (2 ^ Z.of_nat k) p a b = Ok (Z.lxor p (act (S k) a b)).
Proof.
  revert fuel p b. induction k as [|k IH]; intros fuel p b Ha Hf;
    (destruct fuel as [|fuel]; [lia|]); cbn [crc32Mult_loop];
    rewrite land_pow2 by lia; cbn [act].
  - change (2 ^ Z.of_nat 1 - 1) with (2 ^ Z.of_nat 0) in Ha.
    apply Z.eqb_neq in Ha. rewrite land_pow2 in Ha by lia.
    apply negb_false_iff in Ha. rewrite Ha. simpl. by rewrite Z.land_0_r, Z.lxor_0_r.
  - assert (Z.shiftr (2 ^ Z.of_nat (S k)) 1 = 2 ^ Z.of_nat k) as Hs.
    { rewrite Z.shiftr_div_pow2 by lia. replace (Z.of_nat (S k)) with (Z.of_nat k + 1) by lia.
      rewrite Z.pow_add_r by lia. apply Z.div_mul. lia. }
    rewrite Hs.
    destruct (Z.testbit a (Z.of_nat (S k))) eqn:Eb; cbn [negb].
    + destruct (Z.land a (2 ^ Z.of_nat (S k) - 1) =? 0) eqn:Ez.
      * apply Z.eqb_eq in Ez.
        pose proof (act_low_zero (S k) a (mulx b) Ez) as E. cbn [act] in E.
        by rewrite E, Z.lxor_0_r.
      * apply Z.eqb_neq in Ez. rewrite IH by (done || lia). by rewrite Z.lxor_assoc.
    + rewrite Z.lxor_0_l. rewrite IH; [done| |lia].
      intros Hz. apply Ha. apply Z.bits_inj'. intros i Hi. rewrite Z.bits_0.
      apply (f_equal (λ z, Z.testbit z i)) in Hz. revert Hz.
      rewrite !Z.land_spec, Z.bits_0.
      replace (2 ^ Z.of_nat (S k) - 1) with (Z.ones (Z.of_nat (S k))) by (rewrite Z.ones_equiv; lia).
      replace (2 ^ Z.of_nat (S (S k)) - 1) with (Z.ones (Z.of_nat (S (S k))))
        by (rewrite Z.ones_equiv; lia).
      destruct (Z.lt_ge_cases i (Z.of_nat (S k))).
      * rewrite !Z.ones_spec_low by lia. done.
      * destruct (decide (i = Z.of_nat (S k))) as [->|]; [by rewrite Eb|].
        rewrite !Z.ones_spec_high by lia. intros _. apply andb_false_r.
Qed.

(** With a zero multiplier the loop condition is never met. *)
Lemma crc32Mult_loop_zero fuel m p b : crc32Mult_loop fuel m p 0 b = Err OutOfFuel.
Proof. revert m p b. induction fuel as [|fuel IH]; intros; [done|]. simpl. apply IH. Qed.

(** ** The carry-less forms compute the product *)

Lemma mulxn_shiftl_le n j a :
  (j <= n)%N → mulxn n (Z.shiftl a (Z.of_N j)) = mulxn (n - j) a.
Proof.
  intros. replace n with ((n - j) + j)%N at 1 by lia.
  by rewrite mulxn_add, mulxn_shiftl.
Qed.

Lemma clmul_act n k a b :
  mulxn (n + N.of_nat k) (clmul_bits (S k) a b) = act (S k) b (mulxn n a).
Proof.
  induction k as [|k IH]; cbn [clmul_bits act]; rewrite mulxn_lxor.
  - change (Z.of_nat 0) with 0. rewrite N.add_0_r, mulxn_zero, !Z.lxor_0_r.
    destruct (Z.testbit b 0); [by rewrite Z.shiftl_0_r|apply mulxn_zero].
  - cbn [clmul_bits act] in IH. f_equal.
    + destruct (Z.testbit b (Z.of_nat (S k))); [|apply mulxn_zero].
      replace (Z.of_nat (S k)) with (Z.of_N (N.of_nat (S k))) by lia.
      rewrite mulxn_shiftl_le by lia. f_equal. lia.
    + replace (n + N.of_nat (S k))%N with (1 + (n + N.of_nat k))%N by lia.
      rewrite mulxn_add, mulxn_1, IH. rewrite mulx_lxor, <- act_mulx.
      f_equal. by destruct (Z.testbit b (Z.of_nat k)).
Qed.

Lemma clmul_bits_narrow w k a b :
  in_range (Z.of_nat w) b → (w <= k)%nat → clmul_bits k a b = clmul_bits w a b.
Proof.
  intros Hb Hk. induction k as [|k IH]; [by replace w with 0%nat by lia|].
  destruct (decide (w = S k)) as [->|]; [done|]. cbn [clmul_bits].
  rewrite (in_range_testbit (Z.of_nat w) b) by (done || lia).
  rewrite Z.lxor_0_l. apply IH. lia.
Qed.
Lemma clmul_bits_shiftl k a b :
  clmul_bits (S k) a (Z.shiftl b 1) = Z.shiftl (clmul_bits k a b) 1.
Proof.
  induction k as [|k IH].
  - cbn [clmul_bits]. by rewrite Z.shiftl_spec_low by lia.
  - change (clmul_bits (S (S k)) a (Z.shiftl b 1))
      with (Z.lxor (if Z.testbit (Z.shiftl b 1) (Z.of_nat (S k))
                    then Z.shiftl a (Z.of_nat (S k)) else 0)
                   (clmul_bits (S k) a (Z.shiftl b 1))).
    rewrite IH. cbn [clmul_bits]. rewrite Z.shiftl_lxor. f_equal.
    rewrite Z.shiftl_spec by lia. replace (Z.of_nat (S k) - 1) with (Z.of_nat k) by lia.
    destruct (Z.testbit b (Z.of_nat k)); [|done].
    rewrite Z.shiftl_shiftl by lia. f_equal. lia.
Qed.

(** The product of a [32 + n]-bit word and a 32-bit word, one more shift per bit. *)
Lemma clmul_spec n a b :
  in_range 32 b → mulxn (n + 31) (clmul a b) = pmul b (mulxn n a).
Proof.
  intros Hb. unfold clmul. rewrite (clmul_bits_narrow 32) by (done || lia).
  apply (clmul_act n 31).
Qed.
Lemma clmul_shiftl a b : in_range 32 b → clmul a (Z.shiftl b 1) = Z.shiftl (clmul a b) 1.
Proof.
  intros Hb. unfold clmul. rewrite (clmul_bits_shiftl 63).
  by rewrite (clmul_bits_narrow 32 63), (clmul_bits_narrow 32 64) by (done || lia).
Qed.
Lemma clmul_shiftl_spec n a b :
  in_range 32 b → mulxn (n + 32) (clmul a (Z.shiftl b 1)) = pmul b (mulxn n a).
Proof.
  intros Hb. rewrite clmul_shiftl by done.
  replace (n + 32)%N with ((n + 31) + 1)%N by lia.
  rewrite mulxn_add, mulxn_1, mulx_double. by apply clmul_spec.
Qed.

Lemma in_range_shiftl w j a :
  0 <= w → 0 <= j → in_range w a → in_range (w + j) (Z.shiftl a j).
Proof.
  unfold in_range. intros. rewrite Z.shiftl_mul_pow2, Z.pow_add_r by lia. nia.
Qed.
Lemma in_range_mono w w' a : 0 <= w <= w' → in_range w a → in_range w' a.
Proof.
  unfold in_range. intros ? []. split; [done|].
  apply Z.lt_le_trans with (2 ^ w); [done|]. apply Z.pow_le_mono_r; lia.
Qed.
Lemma in_range_clmul_bits w k a b :
  0 <= w → in_range w a → in_range (w + Z.of_nat k) (clmul_bits (S k) a b).
Proof.
  intros Hw Ha.
  assert (in_range (w + Z.of_nat k) 0) by (apply (in_range_mono 0); [lia|done]).
  induction k as [|k IH]; cbn [clmul_bits] in *; (apply in_range_lxor; [lia| |]).
  - destruct (Z.testbit b (Z.of_nat 0)); [|done]. apply in_range_shiftl; [lia..|done].
  - done.
  - destruct (Z.testbit b (Z.of_nat (S k))); [|done]. apply in_range_shiftl; [lia..|done].
  - apply (in_range_mono (w + Z.of_nat k)); [lia|]. apply IH.
    apply (in_range_mono 0); [lia|done].
Qed.
Lemma in_range_clmul w a b :
  0 <= w → in_range w a → in_range 32 b → in_range (w + 31) (clmul a b).
Proof.
  intros. unfold clmul. rewrite (clmul_bits_narrow 32) by (done || lia).
  by apply (in_range_clmul_bits w 31).
Qed.

(** Splitting a wide word into its high part and its low [n] bits. *)
Lemma mulxn_split n m :
  0 <= m → mulxn n m = Z.lxor (mulxn n (Z.land m (Z.ones (Z.of_N n)))) (Z.shiftr m (Z.of_N n)).
Proof.
  intros Hm. rewrite <- (mulxn_shiftl n (Z.shiftr m (Z.of_N n))) at 1.
  rewrite <- mulxn_lxor. f_equal. apply Z.bits_inj'. intros i Hi.
  rewrite Z.lxor_spec, Z.land_spec, Z.shiftl_spec by lia.
  destruct (Z.lt_ge_cases i (Z.of_N n)).
  - rewrite Z.ones_spec_low by lia. rewrite (Z.testbit_neg_r _ (i - Z.of_N n)) by lia.
    by rewrite andb_true_r, xorb_false_r.
  - rewrite Z.ones_spec_high, Z.shiftr_spec by lia. rewrite andb_false_r, xorb_false_l.
    f_equal. lia.
Qed.

Lemma crc32mul_pclmul_spec a b :
  in_range 32 a → in_range 32 b → crc32mul_pclmul a b = pmul a b.
Proof.
  intros Ha Hb. rewrite pmul_comm by done. unfold crc32mul_pclmul.
  transitivity (pmul b (mulxn 0 a)); [|done].
  rewrite <- clmul_spec by done. change (0 + 31)%N with 31%N.
  assert (in_range 63 (clmul a b)) as Hm by (apply (in_range_clmul 32); [lia|done..]).
  rewrite (wrap_small 64) by (apply (in_range_mono 63); [lia|done]).
  set (m := clmul a b) in *.
  rewrite (mulxn_split 31) by (unfold in_range in Hm; lia).
  change (Z.of_N 31) with 31. rewrite Z.ones_equiv. change (Z.pred (2 ^ 31)) with (2 ^ 31 - 1).
  assert (in_range 31 (Z.land m (2 ^ 31 - 1))) as Hlo.
  { change (2 ^ 31 - 1) with (Z.ones 31). rewrite <- wrap_land by lia. apply wrap_range. lia. }
  rewrite (wrap_small 32 (Z.shiftl _ _)) by (apply (in_range_shiftl 31 1); [lia..|done]).
  rewrite (wrap_small 32).
  - f_equal. unfold crc32_insn. rewrite Z.lxor_0_r.
    apply (mulxn_shiftl_le 32 1). lia.
  - unfold in_range in *. rewrite Z.shiftr_div_pow2 by lia. split; [apply Z.div_pos; lia|].
    apply Z.div_lt_upper_bound; [lia|]. rewrite <- Z.pow_add_r by lia. apply Hm.
Qed.

(** Both forms of [crc32Mult] return the product, for every nonzero multiplier. *)
Lemma crc32Mult_ok cpu a b :
  in_range 32 a → in_range 32 b → a ≠ 0 → crc32Mult cpu 32 a b = Ok (pmul a b).
Proof.
  intros Ha Hb Hz. unfold crc32Mult. destruct cpu.
  - f_equal. by apply crc32mul_pclmul_spec.
  - rewrite (crc32Mult_loop_spec 31); [by rewrite Z.lxor_0_l| |lia].
    change (2 ^ Z.of_nat 32 - 1) with (Z.ones 32). rewrite <- wrap_land by lia.
    by rewrite wrap_small.
Qed.

(** ** The table holds powers of x

    Entry [64 * i + j] is [x^(8 * j * 64^i)]: the effect of [j * 64^i] zero bytes. *)

Definition tbl (i : nat) : Z := default 0 (kCRC32X64NTable !! i).

(** Each row starts at 1 and is generated by its second entry; the next row's generator
    is the 64th power. *)
Definition table_check : bool :=
  (tbl 1 =? xpow 8)
  && forallb (λ i, tbl (64 * i) =? pone) (seq 0 6)
  && forallb (λ k, tbl (S k) =? pmul (tbl k) (tbl (64 * (k / 64) + 1)))
       (filter (λ k, (k mod 64 ≠ 63)%nat) (seq 0 323))
  && forallb (λ i, tbl (64 * S i + 1) =? pmul (tbl (64 * i + 63)) (tbl (64 * i + 1)))
       (seq 0 5).

Lemma table_check_ok : table_check = true.
Proof. vm_compute. reflexivity. Qed.

Lemma tbl_row_step i j :
  (j < 63)%nat → (64 * i + j < 323)%nat →
  tbl (64 * i + S j) = pmul (tbl (64 * i + j)) (tbl (64 * i + 1)).
Proof.
  intros Hj Hk. pose proof table_check_ok as H. unfold table_check in H.
  rewrite !andb_true_iff in H. destruct H as [[_ H] _].
  rewrite forallb_forall in H. specialize (H (64 * i + j)%nat).
  assert ((64 * i + j) / 64 = i)%nat as Hd by (rewrite Nat.mul_comm, Nat.div_add_l, Nat.div_small; lia).
  assert ((64 * i + j) mod 64 = j)%nat as Hm.
  { rewrite Nat.add_comm, Nat.mul_comm, Nat.Div0.mod_add. apply Nat.mod_small. lia. }
  rewrite Hd in H. replace (64 * i + S j)%nat with (S (64 * i + j)) by lia.
  apply Z.eqb_eq, H. rewrite <- list_elem_of_In, list_elem_of_filter, elem_of_seq, Hm. lia.
Qed.
Lemma tbl_row_zero i : (i < 6)%nat → tbl (64 * i) = pone.
Proof.
  intros Hi. pose proof table_check_ok as H. unfold table_check in H.
  rewrite !andb_true_iff in H. destruct H as [[[_ H] _] _].
  rewrite forallb_forall in H. apply Z.eqb_eq, H, in_seq. lia.
Qed.
Lemma tbl_next_row i :
  (i < 5)%nat → tbl (64 * S i + 1) = pmul (tbl (64 * i + 63)) (tbl (64 * i + 1)).
Proof.
  intros Hi. pose proof table_check_ok as H. unfold table_check in H.
  rewrite !andb_true_iff in H. destruct H as [_ H].
  rewrite forallb_forall in H. apply Z.eqb_eq, H, in_seq. lia.
Qed.
Lemma tbl_one : tbl 1 = xpow 8.
Proof. vm_compute. reflexivity. Qed.

Lemma tbl_row i j e :
  (i < 6)%nat → (j <= 63)%nat → (64 * i + j <= 323)%nat →
  tbl (64 * i + 1) = xpow e → tbl (64 * i + j) = xpow (N.of_nat j * e).
Proof.
  intros Hi Hj Hk He. induction j as [|j IH].
  - rewrite Nat.add_0_r, tbl_row_zero by done. done.
  - rewrite tbl_row_step, IH, He by lia. rewrite <- xpow_add. f_equal. lia.
Qed.
Lemma tbl_spec i j :
  (i < 6)%nat → (j <= 63)%nat → (64 * i + j <= 323)%nat →
  tbl (64 * i + j) = xpow (N.of_nat j * (8 * 64 ^ N.of_nat i)).
Proof.
  intros Hi Hj Hk. apply tbl_row; try done. clear Hj Hk j.
  induction i as [|i IH]; [exact tbl_one|].
  rewrite tbl_next_row by lia.
  rewrite (tbl_row i 63 (8 * 64 ^ N.of_nat i)), IH by (try apply IH; lia).
  rewrite <- xpow_add. f_equal.
  rewrite (Nat2N.inj_succ i), N.pow_succ_r by lia. lia.
Qed.

(** The order of x divides [2^31 - 1], which justifies [reduce_len]. *)
Lemma xpow_order : xpow (8 * 2 ^ 31) = xpow 8.
Proof.
  assert (tbl 322 = xpow (2 * (8 * 64 ^ 5))) as E by apply (tbl_spec 5 2 ltac:(lia) ltac:(lia) ltac:(lia)).
  change (8 * 2 ^ 31)%N with (2 * (8 * 64 ^ 5))%N. rewrite <- E. vm_compute. reflexivity.
Qed.
