(* ===== verification/ChecksumCombine.v ===== *)
(** * Combination of checksums is correct (src/src/common/checksum_impl.{h,cc})

    The table walk of [CRC32CombineGen] and the PCLMULQDQ fast-forward both multiply by
    [x^(8 * len)], so [CRC32Combine] on the checksums of two buffers is the checksum of
    their concatenation; likewise for three buffers (frame header, body, footer). *)

From Stdlib Require Import ZArith NArith Lia.
From stdpp Require Import prelude gmap.
From S2P Require Import Prelude Checksum.
Open Scope Z_scope.

(** The multiplier that appends [len] zero bytes. *)
Definition zpow (len : Z) : Z := xpow (Z.to_N (8 * len)).

Lemma zpow_add a b : 0 <= a → 0 <= b → zpow (a + b) = pmul (zpow a) (zpow b).
Proof. intros. unfold zpow. rewrite <- xpow_add. f_equal. lia. Qed.
Lemma zpow_range a : in_range 32 (zpow a).
Proof. apply in_range_xpow. Qed.
#[local] Hint Resolve zpow_range : vesal.

Lemma pmul_assoc a b c :
  in_range 32 a → in_range 32 b → in_range 32 c →
  pmul (pmul a b) c = pmul a (pmul b c).
Proof.
  intros Ha Hb Hc. rewrite (pmul_comm (pmul a b)), (pmul_comm b c) by auto with vesal.
  unfold pmul. apply act_act.
Qed.

(** ** [reduce_len] keeps the multiplier *)

Lemma zpow_fold r q : 0 <= r → 0 <= q → zpow (r + q * 2 ^ 31) = zpow (r + q).
Proof.
  intros Hr Hq. rewrite !zpow_add by lia. f_equal.
  revert q Hq. apply (Zlt_0_ind (λ q, zpow (q * 2 ^ 31) = zpow q)). intros q IH Hq.
  destruct (decide (q = 0)) as [->|]; [done|].
  replace (q * 2 ^ 31) with ((q - 1) * 2 ^ 31 + 2 ^ 31) by lia.
  rewrite zpow_add, IH by lia. replace (zpow (2 ^ 31)) with (zpow 1).
  - rewrite <- zpow_add by lia. f_equal. lia.
  - unfold zpow. symmetry. apply xpow_order.
Qed.
Lemma zpow_reduce1 len :
  0 <= len → zpow (Z.land len (2 ^ 31 - 1) + Z.shiftr len 31) = zpow len.
Proof.
  intros Hl. change (2 ^ 31 - 1) with (Z.ones 31).
  rewrite Z.land_ones, Z.shiftr_div_pow2 by lia.
  rewrite (Z.div_mod len (2 ^ 31)) at 3 by lia.
  rewrite Z.add_comm, (Z.add_comm (2 ^ 31 * _)), (Z.mul_comm (2 ^ 31)).
  rewrite zpow_fold; [f_equal; lia| |apply Z.div_pos; lia].
  apply Z.mod_pos_bound. lia.
Qed.
Lemma zpow_reduce len : 0 <= len → zpow (reduce_len len) = zpow len.
Proof.
  intros Hl. unfold reduce_len. case_match; [|done]. case_match; [|by apply zpow_reduce1].
  rewrite !zpow_reduce1; [done|done|].
  apply Z.add_nonneg_nonneg; [apply Z.land_nonneg; lia|apply Z.shiftr_nonneg; lia].
Qed.

(** A 64-bit length reduces below [2^32], within six base-64 digits and the four entries
    of the table's last row. *)
Lemma reduce_len_range len : in_range 64 len → 0 <= reduce_len len < 2 ^ 32.
Proof.
  unfold in_range, reduce_len. intros Hl.
  assert (∀ l, 0 <= l → 0 <= Z.land l (2 ^ 31 - 1) + Z.shiftr l 31 ∧
            Z.land l (2 ^ 31 - 1) + Z.shiftr l 31 < 2 ^ 31 + l / 2 ^ 31) as Hstep.
  { intros l Hl0. change (2 ^ 31 - 1) with (Z.ones 31).
    rewrite Z.land_ones, Z.shiftr_div_pow2 by lia.
    pose proof (Z.mod_pos_bound l (2 ^ 31)). pose proof (Z.div_pos l (2 ^ 31)). lia. }
  destruct (Z.leb_spec (2 ^ 31) len); [|lia].
  pose proof (Hstep len ltac:(lia)) as [Hs1 Hs2].
  assert (len / 2 ^ 31 <= 2 ^ 33) by (apply Z.div_le_upper_bound; lia).
  set (l' := Z.land len (2 ^ 31 - 1) + Z.shiftr len 31) in *.
  destruct (Z.leb_spec (2 ^ 31) l'); [|lia].
  pose proof (Hstep l' ltac:(lia)) as [Hs3 Hs4].
  assert (l' / 2 ^ 31 <= 2 ^ 3) by (apply Z.div_le_upper_bound; lia). lia.
Qed.

(** ** Nonzero multipliers *)

Lemma mulx_nonzero b : in_range 32 b → b ≠ 0 → mulx b ≠ 0.
Proof.
  unfold mulx, in_range. intros Hb Hz.
  assert (b = 2 * Z.shiftr b 1 + Z.b2z (Z.testbit b 0)) as E.
  { rewrite Z.shiftr_div_pow2, Z.bit0_mod by lia. apply Z.div_mod. lia. }
  destruct (Z.testbit b 0); simpl in E; [|lia].
  intros H. apply Z.lxor_eq in H. rewrite H in E. unfold kCrc32cPolyReflect in E. lia.
Qed.
Lemma xpow_nonzero n : xpow n ≠ 0.
Proof.
  induction n using N.peano_ind; [done|]. unfold xpow. rewrite mulxn_succ.
  apply mulx_nonzero; [apply in_range_xpow|done].
Qed.

(** ** The table walk *)

Lemma table_at_spec i d :
  0 <= i → 0 <= d < 64 → d * 64 ^ i < 2 ^ 32 → 0 < d →
  table_at (i * 64 + d) = Ok (zpow (d * 64 ^ i)).
Proof.
  intros Hi Hd Hb Hp.
  assert (i <= 5 ∧ (i = 5 → d <= 3)) as [Hi5 Hd3].
  { split.
    - destruct (Z.lt_ge_cases 5 i); [|lia].
      assert (64 ^ 6 <= 64 ^ i) by (apply Z.pow_le_mono_r; lia). nia.
    - intros ->. lia. }
  unfold table_at.
  replace (Z.to_nat (i * 64 + d)) with (64 * Z.to_nat i + Z.to_nat d)%nat by lia.
  pose proof (tbl_spec (Z.to_nat i) (Z.to_nat d) ltac:(lia) ltac:(lia)) as Ht.
  ospecialize* Ht.
  { destruct (decide (i = 5)) as [->|]; [|lia]. specialize (Hd3 eq_refl). lia. }
  unfold tbl in Ht.
  destruct (kCRC32X64NTable !! (64 * Z.to_nat i + Z.to_nat d)%nat) as [v|] eqn:E.
  - simpl in Ht. subst v. f_equal. unfold zpow. f_equal.
    apply N2Z.inj. rewrite Z2N.id by lia. rewrite !N2Z.inj_mul, N2Z.inj_pow.
    rewrite !nat_N_Z, !Z2Nat.id by lia. lia.
  - simpl in Ht. by destruct (xpow_nonzero _ (eq_sym Ht)).
Qed.

Lemma digit_split len :
  0 <= len → Z.land len 63 = len mod 64 ∧ Z.shiftr len 6 = len / 64 ∧
  len = len mod 64 + 64 * (len / 64) ∧ 0 <= len mod 64 < 64 ∧ 0 <= len / 64.
Proof.
  intros. change 63 with (Z.ones 6). rewrite Z.land_ones, Z.shiftr_div_pow2 by lia.
  change (2 ^ 6) with 64. pose proof (Z.div_mod len 64). pose proof (Z.mod_pos_bound len 64).
  pose proof (Z.div_pos len 64). lia.
Qed.

Lemma pmul_one_l a : in_range 32 a → pmul pone a = a.
Proof. intros. rewrite pmul_comm by auto with vesal. by apply pmul_one_r. Qed.
Lemma zpow_0 : zpow 0 = pone.
Proof. done. Qed.

Lemma gen_loop_S cpu fuel p len i :
  gen_loop cpu (S fuel) p len i =
  if len =? 0 then Ok p
  else if Z.land len 63 =? 0 then gen_loop cpu fuel p (Z.shiftr len 6) (i + 1)
  else t ← table_at (i * 64 + Z.land len 63); p ← crc32Mult cpu 32 t p;
       gen_loop cpu fuel p (Z.shiftr len 6) (i + 1).
Proof. done. Qed.

Lemma gen_loop_spec cpu fuel p len i :
  0 <= i → 0 <= len → len * 64 ^ i < 2 ^ 32 → in_range 32 p → len < 64 ^ Z.of_nat fuel →
  gen_loop cpu (S fuel) p len i = Ok (pmul (zpow (len * 64 ^ i)) p).
Proof.
  revert p len i. induction fuel as [|fuel IH]; intros p len i Hi Hl Hb Hp Hf.
  - assert (len = 0) as -> by (simpl in Hf; lia). rewrite gen_loop_S.
    by rewrite Z.eqb_refl, Z.mul_0_l, zpow_0, pmul_one_l.
  - rewrite gen_loop_S. destruct (Z.eqb_spec len 0) as [->|Hnz].
    { by rewrite Z.mul_0_l, zpow_0, pmul_one_l. }
    destruct (digit_split len Hl) as (E1 & E2 & E3 & E4 & E5). rewrite E1, E2.
    set (d := len mod 64) in *. set (q := len / 64) in *.
    assert (len * 64 ^ i = d * 64 ^ i + q * 64 ^ (i + 1)) as Hsplit
      by (rewrite Z.pow_add_r by lia; nia).
    assert (0 < 64 ^ i) by (apply Z.pow_pos_nonneg; lia).
    assert (0 <= q * 64 ^ (i + 1)) by (apply Z.mul_nonneg_nonneg; lia).
    assert (q < 64 ^ Z.of_nat fuel).
    { rewrite Nat2Z.inj_succ, Z.pow_succ_r in Hf by lia. lia. }
    assert (0 <= d * 64 ^ i) by nia.
    rewrite Hsplit. destruct (Z.eqb_spec d 0) as [->|Hd].
    + rewrite IH by (done || nia). do 3 f_equal.
    + rewrite table_at_spec by nia. rewrite bind_Ok.
      rewrite crc32Mult_ok by (auto with vesal; apply xpow_nonzero). rewrite bind_Ok.
      rewrite IH by (auto with vesal; nia). f_equal.
      rewrite <- pmul_assoc by auto with vesal. f_equal.
      rewrite <- zpow_add by lia. f_equal. lia.
Qed.

Lemma skip_zero_digits_spec fuel len i :
  0 < len → 0 <= i → len < 64 ^ Z.of_nat fuel →
  ∃ len' i', skip_zero_digits fuel len i = Ok (len', i') ∧ i <= i' ∧ 0 < len' <= len ∧
    len' * 64 ^ i' = len * 64 ^ i ∧ len' mod 64 ≠ 0.
Proof.
  revert len i. induction fuel as [|fuel IH]; intros len i Hl Hi Hf; [simpl in Hf; lia|].
  cbn [skip_zero_digits].
  destruct (digit_split len ltac:(lia)) as (E1 & E2 & E3 & E4 & E5). rewrite E1, E2.
  destruct (Z.eqb_spec (len mod 64) 0) as [Hz|Hz].
  - rewrite Nat2Z.inj_succ, Z.pow_succ_r in Hf by lia.
    destruct (IH (len / 64) (i + 1)) as (len' & i' & Hr & ? & ? & Hm & ?); [lia..|].
    exists len', i'. split; [done|]. split; [lia|]. split; [lia|]. split; [|done].
    rewrite Hm, Z.pow_add_r by lia. change (64 ^ 1) with 64. nia.
  - exists len, i. repeat split; done || lia.
Qed.

Lemma CRC32CombineGen_ok cpu len :
  in_range 64 len → CRC32CombineGen cpu len = Ok (zpow len).
Proof.
  intros Hl. unfold CRC32CombineGen.
  pose proof (reduce_len_range len Hl) as Hr.
  rewrite <- (zpow_reduce len) by (unfold in_range in Hl; lia).
  set (r := reduce_len len) in *.
  destruct (Z.eqb_spec r 0) as [->|Hz]; [done|].
  destruct (skip_zero_digits_spec 6 r 0) as (r' & i & Hs & Hi & Hr' & Hm & Hnz);
    [lia|lia|change (64 ^ Z.of_nat 6) with (2 ^ 36); lia|].
  rewrite Hs. rewrite bind_Ok. rewrite Z.mul_1_r in Hm. rewrite <- Hm.
  destruct (digit_split r' ltac:(lia)) as (E1 & E2 & E3 & E4 & E5). rewrite E1, E2.
  set (d := r' mod 64) in *. set (q := r' / 64) in *.
  assert (0 < 64 ^ i) by (apply Z.pow_pos_nonneg; lia).
  assert (r' * 64 ^ i = d * 64 ^ i + q * 64 ^ (i + 1)) as Hsplit
    by (rewrite Z.pow_add_r by lia; nia).
  assert (0 <= q * 64 ^ (i + 1)) by (apply Z.mul_nonneg_nonneg; lia).
  assert (0 <= d * 64 ^ i) by nia.
  rewrite table_at_spec by nia. rewrite bind_Ok.
  rewrite gen_loop_spec; [|lia|lia|nia|auto with vesal|change (64 ^ Z.of_nat 6) with (2 ^ 36); lia].
  rewrite Hsplit, <- zpow_add by lia. do 2 f_equal. lia.
Qed.

(** ** The PCLMULQDQ walk *)

(** The register [v] after [d] products holds [c] as an unreduced word: 32 bits, then 64,
    then 96. *)
Definition ff_rep (d v c : Z) : Prop :=
  (d = 0 ∧ in_range 32 v ∧ v = c) ∨
  (d = 1 ∧ in_range 64 v ∧ mulxn 32 v = c) ∨
  (d = 2 ∧ in_range 96 v ∧ mulxn 64 v = c).

Definition ff_step (d v c0 : Z) : Z :=
  if d <? 2 then clmul (lane0 v) (Z.shiftl c0 1)
  else
    let v' := wrap 128 (Z.shiftl v 32) in
    Z.lxor (clmul (lane1 v') (Z.shiftl c0 1))
           (clmul (lane0 v') (Z.shiftl (crc32_insn 64 c0 0) 1)).

Lemma in_range_clmul_shiftl w a b :
  0 <= w → in_range w a → in_range 32 b → in_range (w + 32) (clmul a (Z.shiftl b 1)).
Proof.
  intros. rewrite clmul_shiftl by done. replace (w + 32) with ((w + 31) + 1) by lia.
  apply in_range_shiftl; [lia..|]. by apply in_range_clmul.
Qed.

Lemma lanes_split v : in_range 128 v → v = Z.lxor (lane0 v) (Z.shiftl (lane1 v) 64).
Proof.
  intros Hv. unfold lane0, lane1. apply Z.bits_inj'. intros i Hi.
  rewrite Z.lxor_spec, Z.shiftl_spec, wrap_testbit by lia.
  destruct (Z.lt_ge_cases i 64).
  - rewrite (Z.testbit_neg_r _ (i - 64)), bool_decide_true by lia. by rewrite xorb_false_r.
  - rewrite wrap_testbit, Z.shiftr_spec by lia. replace (i - 64 + 64) with i by lia.
    rewrite (bool_decide_false (i < 64)) by lia. rewrite xorb_false_l.
    case_bool_decide; [done|]. simpl. apply (in_range_testbit 128); done || lia.
Qed.
Lemma lane0_range v : in_range 64 (lane0 v).
Proof. apply wrap_range. lia. Qed.
Lemma lane1_range v : in_range 64 (lane1 v).
Proof. apply wrap_range. lia. Qed.
#[local] Hint Resolve lane0_range lane1_range : vesal.

Lemma pmul_mulxn_l n a y :
  in_range 32 a → in_range 32 y → pmul (mulxn n a) y = mulxn n (pmul a y).
Proof.
  intros. rewrite pmul_comm, (pmul_comm a y) by auto with vesal.
  unfold pmul. apply act_mulxn.
Qed.

Lemma ff_step_spec d v c c0 :
  ff_rep d v c → in_range 32 c0 →
  ff_rep (if d <? 2 then d + 1 else d) (ff_step d v c0) (pmul c0 c).
Proof.
  intros Hr H0. unfold ff_step. destruct Hr as [(->&Hv&<-)|[(->&Hv&<-)|(->&Hv&<-)]]; eval_cmp.
  - right; left. unfold lane0. rewrite wrap_small by (apply (in_range_mono 32); [lia|done]).
    split; [done|]. split; [by apply (in_range_clmul_shiftl 32)|].
    apply (clmul_shiftl_spec 0). done.
  - right; right. unfold lane0. rewrite wrap_small by done.
    split; [done|]. split; [by apply (in_range_clmul_shiftl 64)|].
    apply (clmul_shiftl_spec 32). done.
  - right; right. split; [done|].
    assert (in_range 128 (Z.shiftl v 32)) as Hs by (apply (in_range_shiftl 96 32); [lia..|done]).
    rewrite wrap_small by done. set (w := Z.shiftl v 32) in *.
    assert (crc32_insn 64 c0 0 = mulxn 64 c0) as Hc
      by (unfold crc32_insn; by rewrite Z.lxor_0_r).
    rewrite Hc. split.
    + apply in_range_lxor; [lia| |]; apply (in_range_clmul_shiftl 64); auto with vesal lia.
    + rewrite mulxn_lxor. rewrite !(clmul_shiftl_spec 32) by auto with vesal.
      rewrite pmul_mulxn_l; [|done|apply (in_range_mulxn_wide 32), lane0_range].
      assert (mulxn 64 v = Z.lxor (mulxn 96 (lane0 w)) (mulxn 32 (lane1 w))) as ->.
      { transitivity (mulxn 96 w); [symmetry; by apply (mulxn_shiftl_le 96 32)|].
        rewrite (lanes_split w Hs) at 1. rewrite mulxn_lxor. f_equal.
        by apply (mulxn_shiftl_le 96 64). }
      unfold pmul. rewrite act_lxor, Z.lxor_comm. f_equal.
      by rewrite <- act_mulxn, <- mulxn_add.
Qed.

Lemma ff_loop_S fuel v d len i :
  ff_loop (S fuel) v d len i =
  if len =? 0 then Ok (v, d)
  else if Z.land len 63 =? 0 then ff_loop fuel v d (Z.shiftr len 6) (i + 1)
  else c0 ← table_at (i * 64 + Z.land len 63);
       ff_loop fuel (ff_step d v c0) (if d <? 2 then d + 1 else d) (Z.shiftr len 6) (i + 1).
Proof.
  cbn [ff_loop]. destruct (len =? 0); [done|]. destruct (Z.land len 63 =? 0); [done|].
  unfold ff_step. destruct (table_at _) as [c0|]; [|done].
  rewrite bind_Ok. by destruct (d <? 2).
Qed.

Lemma ff_loop_spec fuel v d c len i :
  0 <= i → 0 <= len → len * 64 ^ i < 2 ^ 32 → in_range 32 c → len < 64 ^ Z.of_nat fuel →
  ff_rep d v c →
  ∃ v' d', ff_loop (S fuel) v d len i = Ok (v', d') ∧
    ff_rep d' v' (pmul (zpow (len * 64 ^ i)) c) ∧ d <= d' ∧ (0 < len → 1 <= d').
Proof.
  revert v d c len i. induction fuel as [|fuel IH]; intros v d c len i Hi Hl Hb Hc Hf Hr.
  - assert (len = 0) as -> by (simpl in Hf; lia). rewrite ff_loop_S, Z.eqb_refl.
    exists v, d. rewrite Z.mul_0_l, zpow_0, pmul_one_l by done. split; [done|]. split; [done|]. lia.
  - rewrite ff_loop_S. destruct (Z.eqb_spec len 0) as [->|Hnz].
    { exists v, d. rewrite Z.mul_0_l, zpow_0, pmul_one_l by done. split; [done|]. split; [done|]. lia. }
    destruct (digit_split len Hl) as (E1 & E2 & E3 & E4 & E5). rewrite E1, E2.
    set (g := len mod 64) in *. set (q := len / 64) in *.
    assert (len * 64 ^ i = g * 64 ^ i + q * 64 ^ (i + 1)) as Hsplit
      by (rewrite Z.pow_add_r by lia; nia).
    assert (0 < 64 ^ i) by (apply Z.pow_pos_nonneg; lia).
    assert (0 <= q * 64 ^ (i + 1)) by (apply Z.mul_nonneg_nonneg; lia).
    assert (q < 64 ^ Z.of_nat fuel).
    { rewrite Nat2Z.inj_succ, Z.pow_succ_r in Hf by lia. lia. }
    assert (0 <= g * 64 ^ i) by nia.
    rewrite Hsplit. destruct (Z.eqb_spec g 0) as [Hg|Hg].
    + destruct (IH v d c q (i + 1)) as (v' & d' & HE & HR & Hd & Hp); try done || nia.
      exists v', d'. rewrite Hg, Z.mul_0_l, Z.add_0_l. split; [done|]. split; [done|]. split; [done|].
      intros. apply Hp. lia.
    + rewrite table_at_spec by nia. rewrite bind_Ok.
      assert (0 <= d) by (destruct Hr as [(->&_)|[(->&_)|(->&_)]]; lia).
      destruct (IH (ff_step d v (zpow (g * 64 ^ i))) (if d <? 2 then d + 1 else d)
                   (pmul (zpow (g * 64 ^ i)) c) q (i + 1)) as (v' & d' & HE & HR & Hd & _);
        [lia|lia|nia|auto with vesal|done|apply ff_step_spec; auto with vesal|].
      exists v', d'. split; [done|]. split.
      * rewrite <- pmul_assoc, <- zpow_add in HR by (auto with vesal; lia).
        by rewrite Z.add_comm in HR.
      * destruct (Z.ltb_spec d 2); lia.
Qed.

Lemma crc32ff_pclmul_ok crc len :
  in_range 32 crc → in_range 64 len → crc32ff_pclmul crc len = Ok (pmul (zpow len) crc).
Proof.
  intros Hc Hl. unfold crc32ff_pclmul.
  pose proof (reduce_len_range len Hl) as Hr.
  rewrite <- (zpow_reduce len) by (unfold in_range in Hl; lia).
  set (r := reduce_len len) in *.
  destruct (Z.eqb_spec r 0) as [->|Hz]; [by rewrite zpow_0, pmul_one_l|].
  destruct (ff_loop_spec 6 crc 0 crc r 0) as (v & d & -> & HR & _ & Hd);
    [lia|lia|lia|done|change (64 ^ Z.of_nat 6) with (2 ^ 36); lia|by left|].
  rewrite Z.pow_0_r, Z.mul_1_r in HR. rewrite bind_Ok.
  destruct HR as [(->&_)|[(->&Hv&<-)|(->&Hv&Hm)]]; [lia|..]; eval_cmp;
    unfold mret, res_ret, crc32_insn, lane0, lane1; f_equal.
  - rewrite (wrap_small 64) by done.
    rewrite (mulxn_split 32 v) by (unfold in_range in Hv; lia).
    rewrite Z.lxor_0_r. f_equal. apply wrap_small. unfold in_range in *.
    rewrite Z.shiftr_div_pow2 by lia. split; [apply Z.div_pos; lia|].
    apply Z.div_lt_upper_bound; lia.
  - assert (mulxn 64 v = Z.lxor (mulxn 64 (wrap 64 v)) (Z.shiftr v 64)) as Hsp.
    { rewrite wrap_land by lia. apply (mulxn_split 64). unfold in_range in Hv. lia. }
    rewrite Z.lxor_0_l, (wrap_small 64 (Z.shiftr v 64)), <- Hsp, Hm.
    + apply wrap_small. auto with vesal.
    + unfold in_range in *. rewrite Z.shiftr_div_pow2 by lia. split; [apply Z.div_pos; lia|].
      apply Z.div_lt_upper_bound; lia.
Qed.

(** ** CRC32Combine *)

Lemma CRC32Combine_mul cpu crc1 crc2 size2 :
  in_range 32 crc1 → in_range 64 size2 →
  CRC32Combine cpu crc1 crc2 size2 = Ok (Z.lxor (pmul (zpow size2) crc1) crc2).
Proof.
  intros Hc Hs. unfold CRC32Combine, CRC32CombineOp. destruct cpu.
  - rewrite crc32ff_pclmul_ok, bind_Ok by done. done.
  - rewrite CRC32CombineGen_ok by done. rewrite bind_Ok.
    assert (zpow size2 ≠ 0) by apply xpow_nonzero.
    rewrite crc32Mult_ok, bind_Ok by auto with vesal. done.
Qed.

Lemma CRC32Combine_crc cpu init d1 d2 :
  in_range 32 init → bytes_ok d1 → bytes_ok d2 → Z.of_nat (length d2) < 2 ^ 64 →
  CRC32Combine cpu (Z.lxor init (crc_bytes init d1)) (crc_bytes init d2)
    (Z.of_nat (length d2)) = Ok (crc_bytes init (d1 ++ d2)).
Proof.
  intros Hi H1 H2 Hl.
  assert (in_range 32 (Z.lxor init (crc_bytes init d1))).
  { apply in_range_lxor; [lia|done|]. by apply in_range_crc_bytes. }
  rewrite CRC32Combine_mul by (done || unfold in_range; lia). f_equal.
  unfold zpow. rewrite <- mulxn_xpow by done.
  replace (Z.to_N (8 * Z.of_nat (length d2))) with (8 * N.of_nat (length d2))%N by lia.
  rewrite Z.lxor_comm, <- crc_bytes_lxor, crc_bytes_app. f_equal.
  by rewrite <- Z.lxor_assoc, Z.lxor_nilpotent, Z.lxor_0_l.
Qed.

(** ** Properties *)

(** C26: On a CPU with SSE4.2, [ComputeCRC32] (eight bytes per instruction, then the tail)
    returns the byte-by-byte CRC32C of the buffer, whatever its length; without SSE4.2 the
    VESAL_CHECK aborts. *)
Theorem compute_crc32_correct ecx init buf :
  in_range 32 init → bytes_ok buf →
  ComputeCRC32 ecx init buf =
    if Z.testbit ecx 20 then Ok (crc_bytes init buf) else Err CheckFailed.
Proof.
  intros Hi Hb. unfold ComputeCRC32, Get_ComputeCRC32_Impl.
  destruct (Z.testbit ecx 20); [|done]. by rewrite accelerate_spec.
Qed.
Lemma compute_crc32_correct_witness :
  in_range 32 kCrc32cInitialValue ∧
  ComputeCRC32 (2 ^ 20) kCrc32cInitialValue [0x31; 0x32; 0x33; 0x34; 0x35; 0x36; 0x37; 0x38; 0x39]
    = Ok 0x1CF96D7C.
Proof.
  split; [done|]. rewrite compute_crc32_correct; [vm_compute; reflexivity|done|].
  repeat constructor; done.
Defined.

(** C27: [CRC32Combine], in its table-driven and in its PCLMULQDQ form, terminates. Given the
    xor of the initial value with the checksum of a first buffer, and the checksum of a second
    one with the same initial value, it returns the checksum of their concatenation. *)
Theorem crc32_combine_correct cpu init d1 d2 :
  in_range 32 init → bytes_ok d1 → bytes_ok d2 → Z.of_nat (length d2) < 2 ^ 64 →
  CRC32Combine cpu (Z.lxor init (ComputeCRC32_Accelerate init d1))
    (ComputeCRC32_Accelerate init d2) (Z.of_nat (length d2))
  = Ok (ComputeCRC32_Accelerate init (d1 ++ d2)).
Proof.
  intros Hi H1 H2 Hl. rewrite !accelerate_spec by (done || by apply Forall_app).
  by apply CRC32Combine_crc.
Qed.
Lemma crc32_combine_correct_witness :
  CRC32Combine true (Z.lxor 7 (ComputeCRC32_Accelerate 7 [1; 2; 3]))
    (ComputeCRC32_Accelerate 7 [4; 5]) 2 = Ok (ComputeCRC32_Accelerate 7 [1; 2; 3; 4; 5]).
Proof. apply (crc32_combine_correct true 7 [1; 2; 3] [4; 5]); repeat constructor; done. Defined.

(** With the checksum of the first buffer itself, as the comment of [CRC32Combine] has it, the
    result is not the checksum of the concatenation. *)
Theorem combine_needs_xor :
  CRC32Combine false (ComputeCRC32_Accelerate kCrc32cInitialValue [1]) (ComputeCRC32_Accelerate kCrc32cInitialValue [2]) 1
  ≠ Ok (ComputeCRC32_Accelerate kCrc32cInitialValue [1; 2]).
Proof. vm_compute. congruence. Qed.

(** [CombineThreeCRC32] on the checksums of a header, a body and a footer, all computed
    with the same initial value, is the checksum of the whole frame. *)
Theorem combine_three_correct cpu init d1 d2 d3 :
  in_range 32 init → bytes_ok d1 → bytes_ok d2 → bytes_ok d3 →
  Z.of_nat (length d2) < 2 ^ 64 → Z.of_nat (length d3) < 2 ^ 64 →
  CombineThreeCRC32 cpu init (ComputeCRC32_Accelerate init d1)
    (ComputeCRC32_Accelerate init d2) (ComputeCRC32_Accelerate init d3)
    (Z.of_nat (length d2)) (Z.of_nat (length d3))
  = Ok (ComputeCRC32_Accelerate init (d1 ++ d2 ++ d3)).
Proof.
  intros Hi H1 H2 H3 Hl2 Hl3.
  rewrite !accelerate_spec by (done || by repeat (apply Forall_app; split)).
  unfold CombineThreeCRC32. rewrite CRC32Combine_crc, bind_Ok by done.
  rewrite CRC32Combine_crc, app_assoc by (done || by apply Forall_app). done.
Qed.
Lemma combine_three_correct_witness :
  CombineThreeCRC32 false 9 (ComputeCRC32_Accelerate 9 [1]) (ComputeCRC32_Accelerate 9 [2; 3])
    (ComputeCRC32_Accelerate 9 [0]) 2 1 = Ok (ComputeCRC32_Accelerate 9 [1; 2; 3; 0]).
Proof. apply (combine_three_correct false 9 [1] [2; 3] [0]); repeat constructor; done. Defined.

(** [crc32Mult] terminates within 32 iterations on every nonzero multiplier and its
    portable loop and its PCLMULQDQ form return the same product; on a zero multiplier
    the portable [for (;;)] never leaves the loop, whatever the bound. *)
Theorem crc32_mult_equiv a b :
  in_range 32 a → in_range 32 b →
  if a =? 0 then ∀ fuel, crc32Mult false fuel a b = Err OutOfFuel
  else crc32Mult false 32 a b = crc32Mult true 32 a b ∧ crc32Mult true 32 a b = Ok (pmul a b).
Proof.
  intros Ha Hb. destruct (Z.eqb_spec a 0) as [->|Hz].
  - intros fuel. apply crc32Mult_loop_zero.
  - by rewrite !crc32Mult_ok.
Qed.
Lemma crc32_mult_equiv_witness :
  crc32Mult false 32 0x82f63b78 0x10000000 = crc32Mult true 32 0x82f63b78 0x10000000.
Proof. apply (crc32_mult_equiv 0x82f63b78 0x10000000); done. Defined.
