(* ===== verification/DcFormat.v ===== *)
(** * Frame formats (src/src/codec/dc_format.{h,cc}, [XxHash] of src/src/common/checksum_impl.cc)

    The fixed LZ4 frame header and footer and the zlib header and footer that the codec
    engines put around a compressed body. Buffers are lists of bytes; a generator returns
    the buffer after its [memcpy] together with the size it reports. *)

From Stdlib Require Import ZArith NArith Lia.
From stdpp Require Import prelude gmap strings.
From S2P Require Import Prelude Status Checksum ChecksumCombine.
Open Scope Z_scope.

(** ** XxHash *)

Definition k1 : Z := 2654435761.
Definition k2 : Z := 2246822519.
Definition k3 : Z := 3266489917.
Definition k4 : Z := 668265263.
Definition k5 : Z := 374761393.

Definition XX_ROT32 (x r : Z) : Z := Z.lor (u32 (Z.shiftl x r)) (Z.shiftr x (32 - r)).

(** [v += *p++ * k2, v = XX_ROT32(v, 13), v *= k1] *)
Definition xx_round (v w : Z) : Z := u32 (XX_ROT32 (u32 (v + u32 (w * k2))) 13 * k1).

(** The four-lane [do ... while (p <= limit)]: it runs again while 16 bytes remain. *)
Fixpoint xx_lanes (fuel : nat) (v : Z * Z * Z * Z) (p : list Z) : res (Z * Z * Z * Z * list Z) :=
  match fuel with
  | O => Err OutOfFuel
  | S fuel =>
      let '(v1, v2, v3, v4) := v in
      let v' := (xx_round v1 (le_load (take 4 p)),
                 xx_round v2 (le_load (take 4 (drop 4 p))),
                 xx_round v3 (le_load (take 4 (drop 8 p))),
                 xx_round v4 (le_load (take 4 (drop 12 p)))) in
      let p := drop 16 p in
      if (16 <=? length p)%nat then xx_lanes fuel v' p else Ok (v', p)
  end.

(** [while (p <= end - 1)]: whole words. *)
Fixpoint xx_words (fuel : nat) (h : Z) (p : list Z) : res (Z * list Z) :=
  match fuel with
  | O => Err OutOfFuel
  | S fuel =>
      if (4 <=? length p)%nat then
        let h := u32 (h + u32 (le_load (take 4 p) * k3)) in
        xx_words fuel (u32 (XX_ROT32 h 17 * k4)) (drop 4 p)
      else Ok (h, p)
  end.

(** [while (q < e)]: [*q] is a [char], sign-extended where [char] is signed (x86-64) and
    not where it is unsigned (AArch64). *)
Definition char_value (char_signed : bool) (b : Z) : Z :=
  if char_signed then swrap 8 b else b.
Fixpoint xx_bytes (char_signed : bool) (h : Z) (q : list Z) : Z :=
  match q with
  | [] => h
  | b :: q =>
      let h := u32 (h + u32 (char_value char_signed b * k5)) in
      xx_bytes char_signed (u32 (XX_ROT32 h 11 * k1)) q
  end.

Definition XxHash (char_signed : bool) (ptr : list Z) : res Z :=
  let size := length ptr in
  '(h, p) ←
    (if (16 <=? size)%nat then
       '(v1, v2, v3, v4, p) ←
         xx_lanes size (u32 (k1 + k2), k2, 0, u32 (0 - k1)) ptr;
       mret (u32 (XX_ROT32 v1 1 + XX_ROT32 v2 7 + XX_ROT32 v3 12 + XX_ROT32 v4 18), p)
     else mret (k5, ptr));
  let h := u32 (h + Z.of_nat size) in
  '(h, q) ← xx_words (S size) h p;
  let h := xx_bytes char_signed h q in
  let h := Z.lxor h (Z.shiftr h 15) in
  let h := u32 (h * k2) in
  let h := Z.lxor h (Z.shiftr h 13) in
  let h := u32 (h * k3) in
  mret (Z.lxor h (Z.shiftr h 16)).

(** The loops end: one turn per 16 (or 4) bytes consumed. *)
Lemma xx_lanes_total fuel v p :
  (length p <= 16 * fuel)%nat → (0 < fuel)%nat →
  ∃ v' p', xx_lanes fuel v p = Ok (v', p').
Proof.
  revert v p. induction fuel as [|fuel IH]; intros v p Hp Hf; [lia|].
  destruct v as [[[v1 v2] v3] v4]. cbn [xx_lanes].
  destruct (Nat.leb_spec 16 (length (drop 16 p))) as [Hl|Hl]; [|eauto].
  apply IH; rewrite length_drop in *; lia.
Qed.
Lemma xx_words_total fuel h p :
  (length p < 4 * fuel)%nat → ∃ h' q, xx_words fuel h p = Ok (h', q).
Proof.
  revert h p. induction fuel as [|fuel IH]; intros h p Hp; [lia|]. cbn [xx_words].
  destruct (Nat.leb_spec 4 (length p)); [|eauto]. apply IH. rewrite length_drop. lia.
Qed.
Lemma XxHash_total cs ptr : ∃ h, XxHash cs ptr = Ok h.
Proof.
  unfold XxHash. set (size := length ptr).
  assert (∃ h p, (if (16 <=? size)%nat then
       '(v1, v2, v3, v4, p) ← xx_lanes size (u32 (k1 + k2), k2, 0, u32 (0 - k1)) ptr;
       mret (u32 (XX_ROT32 v1 1 + XX_ROT32 v2 7 + XX_ROT32 v3 12 + XX_ROT32 v4 18), p)
     else mret (k5, ptr)) = Ok (h, p) ∧ (length p <= size)%nat) as (h & p & -> & Hp).
  { destruct (Nat.leb_spec 16 size); [|by eexists _, _].
    destruct (xx_lanes_total size (u32 (k1 + k2), k2, 0, u32 (0 - k1)) ptr)
      as ([[[w1 w2] w3] w4] & p & E); [subst size; lia..|].
    rewrite E. eexists _, _. split; [done|].
    clear -E. revert E. generalize (u32 (k1 + k2), k2, 0, u32 (0 - k1)).
    intros v. subst size. generalize (length ptr) at 1 as fuel. intros fuel. revert v ptr.
    induction fuel as [|fuel IH]; intros [[[v1 v2] v3] v4] ptr; [done|]. cbn [xx_lanes].
    destruct (16 <=? length (drop 16 ptr))%nat.
    - intros E%IH. rewrite length_drop in E. lia.
    - intros [= <- <- <- <- <-]. rewrite length_drop. lia. }
  rewrite bind_Ok.
  destruct (xx_words_total (S size) (u32 (h + Z.of_nat size)) p) as (h' & q & E); [lia|].
  rewrite E. by eexists.
Qed.

(** ** LZ4 frame *)

(** The enumerators of lz4frame.h the header is built from. *)
Record Lz4fConsts := MkLz4fConsts {
  LZ4F_max64KB : Z;
  LZ4F_blockIndependent : Z;
  LZ4F_noBlockChecksum : Z;
  LZ4F_noContentChecksum : Z
}.
(** Their values, as the layout comment of dc_format.h records them. *)
Definition lz4f_documented (K : Lz4fConsts) : Prop :=
  LZ4F_max64KB K = 4 ∧ LZ4F_blockIndependent K = 1 ∧
  LZ4F_noBlockChecksum K = 0 ∧ LZ4F_noContentChecksum K = 0.

Definition kMaxHeaderSize : Z := 32.
Definition kMaxFooterSize : Z := 32.
Definition kLz4FrameHeaderMagic : Z := 0x184D2204.
Definition kLz4FrameHeaderVersion : Z := 1.
Definition kLz4FrameHeaderContentSizeFlag : Z := 0.
Definition kLz4FrameHeaderDictPresent : Z := 0.
Definition kLz4FrameFooterEndMark : Z := 0.

Record Lz4FrameHeader := MkLz4FrameHeader {
  magic : Z; flag_desc : Z; block_desc : Z; hdr_cksum : Z }.

Definition header_bytes (h : Lz4FrameHeader) : list Z :=
  le_bytes 4 (magic h) ++ [flag_desc h; block_desc h; hdr_cksum h].

(** [memcpy] of [data] to the front of [buf]: out of range when the buffer is shorter. *)
Definition memcpy (buf data : list Z) : res (list Z) :=
  if (length data <=? length buf)%nat then Ok (data ++ drop (length data) buf)
  else Err OutOfBounds.

Section lz4.
Context (K : Lz4fConsts) (char_signed : bool).

Definition kLz4FrameHeaderMaxBlockSize : Z := u8 (LZ4F_max64KB K).
Definition kLz4FrameHeaderBlockIndep : Z := u8 (LZ4F_blockIndependent K).
Definition kLz4FrameHeaderBlockChecksum : Z := u8 (LZ4F_noBlockChecksum K).
Definition kLz4FrameHeaderContentChecksum : Z := u8 (LZ4F_noContentChecksum K).

Definition Lz4FrameHeaderGen (buf : list Z) : res (list Z * Z) :=
  let flag := u8 (Z.shiftl (Z.land kLz4FrameHeaderVersion 3) 6 +
                  Z.shiftl (Z.land kLz4FrameHeaderBlockIndep 1) 5 +
                  Z.shiftl (Z.land kLz4FrameHeaderBlockChecksum 1) 4 +
                  Z.shiftl (Z.land kLz4FrameHeaderContentSizeFlag 1) 3 +
                  Z.shiftl (Z.land kLz4FrameHeaderContentChecksum 1) 2 +
                  Z.land kLz4FrameHeaderDictPresent 1) in
  let block := u8 (Z.shiftl (Z.land kLz4FrameHeaderMaxBlockSize 7) 4) in
  hc ← XxHash char_signed [flag; block];
  let header := MkLz4FrameHeader kLz4FrameHeaderMagic flag block
                  (Z.land (u8 (Z.shiftr hc 8)) 0xFF) in
  buf ← memcpy buf (header_bytes header);
  mret (buf, Z.of_nat (length (header_bytes header))).

Definition Lz4FrameFooterGen (buf : list Z) : res (list Z * Z) :=
  if kLz4FrameHeaderContentChecksum =? 0 then
    let footer := le_bytes 4 kLz4FrameFooterEndMark in
    buf ← memcpy buf footer;
    mret (buf, Z.of_nat (length footer))
  else Err CheckFailed.
End lz4.

Definition kLz4FrameHeaderSize : Z := 7.
Definition kLz4FrameFooterSize : Z := 4.

Inductive CodecAlgorithm := kLz4 | kZstd | kDeflate | kZlib | kAlgNum.

(** The frame generators by algorithm: [buf] and [*size] are updated only on success. *)
Definition FrameHeaderGen (K : Lz4fConsts) (cs : bool) (algorithm : CodecAlgorithm)
    (buf : list Z) (size : Z) : res (Status * list Z * Z) :=
  match algorithm with
  | kLz4 =>
      '(buf, generated) ← Lz4FrameHeaderGen K cs buf;
      if generated =? kLz4FrameHeaderSize then mret (OkStatus, buf, generated)
      else Err CheckFailed
  | kZstd | kDeflate =>
      buf ← memcpy buf (replicate (Z.to_nat kMaxHeaderSize) 0);
      mret (OkStatus, buf, 0)
  | kZlib => mret (error_of kNotSupported "Should call ZlibHeaderGen directly,", buf, size)
  | kAlgNum => mret (error_of kNotSupported "Unknown algorithm: 5", buf, size)
  end.

Definition FrameFooterGen (K : Lz4fConsts) (algorithm : CodecAlgorithm)
    (buf : list Z) (size : Z) : res (Status * list Z * Z) :=
  match algorithm with
  | kLz4 =>
      '(buf, generated) ← Lz4FrameFooterGen K buf;
      if generated =? kLz4FrameFooterSize then mret (OkStatus, buf, generated)
      else Err CheckFailed
  | kZstd | kDeflate =>
      buf ← memcpy buf (replicate (Z.to_nat kMaxFooterSize) 0);
      mret (OkStatus, buf, 0)
  | kZlib => mret (error_of kNotSupported "Should call ZlibFooterGen directly,", buf, size)
  | kAlgNum => mret (error_of kNotSupported "Only support Lz4 and zstd now", buf, size)
  end.

(** ** zlib *)

Inductive CodecCompLevel :=
| kLevel1 | kLevel2 | kLevel3 | kLevel4 | kLevel5 | kLevel6 | kLevel7 | kLevel8 | kLevel9
| kLevel10 | kLevel11 | kLevel12 | kLevelNum.

Definition level_value (l : CodecCompLevel) : Z :=
  match l with
  | kLevel1 => 1 | kLevel2 => 2 | kLevel3 => 3 | kLevel4 => 4 | kLevel5 => 5 | kLevel6 => 6
  | kLevel7 => 7 | kLevel8 => 8 | kLevel9 => 9 | kLevel10 => 10 | kLevel11 => 11
  | kLevel12 => 12 | kLevelNum => 13
  end.

Definition kZlibHeaderCmf : Z := 0x78.
Definition kZlibHeaderFlagLow : Z := 0x01.
Definition kZlibHeaderFlagFast : Z := 0x5E.
Definition kZlibHeaderFlagDefault : Z := 0x9C.
Definition kZlibHeaderFlagBest : Z := 0xDA.

Definition GetZlibHeaderFlag (level : CodecCompLevel) : Z :=
  match level with
  | kLevel1 | kLevel2 => kZlibHeaderFlagLow
  | kLevel3 | kLevel4 | kLevel5 => kZlibHeaderFlagFast
  | kLevel6 | kLevel7 | kLevel8 => kZlibHeaderFlagDefault
  | _ => kZlibHeaderFlagBest
  end.

(** The levels of zlib.h. *)
Inductive ZlibLevel := Z_BEST_SPEED | Z_DEFAULT_COMPRESSION | Z_BEST_COMPRESSION.
Definition ChannelLvlToZlibLvl (level : CodecCompLevel) : ZlibLevel :=
  match level with
  | kLevel1 | kLevel2 => Z_BEST_SPEED
  | kLevel3 | kLevel4 | kLevel5 | kLevel6 | kLevel7 | kLevel8 => Z_DEFAULT_COMPRESSION
  | _ => Z_BEST_COMPRESSION
  end.

(** [htonl] on a little-endian host, then the memory image. *)
Definition htonl (x : Z) : Z := le_load (rev (le_bytes 4 x)).

Definition ZlibHeaderGen (level : CodecCompLevel) (buf : list Z) : res (list Z * Z) :=
  let header := [kZlibHeaderCmf; GetZlibHeaderFlag level] in
  buf ← memcpy buf header;
  mret (buf, Z.of_nat (length header)).

Definition ZlibFooterGen (adler32 : Z) (buf : list Z) : res (list Z * Z) :=
  let footer := le_bytes 4 (htonl adler32) in
  buf ← memcpy buf footer;
  mret (buf, Z.of_nat (length footer)).

Definition kChannelLvlToLz4fLvl : list Z := [0; -10; -8; -6; -4; -2; 0; 2; 4; 6; 8; 10; 12].
Definition ChannelLevelToLZ4FLevel (l : CodecCompLevel) : res Z :=
  match kChannelLvlToLz4fLvl !! Z.to_nat (level_value l) with
  | Some v => Ok v
  | None => Err OutOfBounds
  end.

(** ** The precomputed frame parts *)

Record Lz4StaticData := MkLz4StaticData {
  header : list Z; footer : list Z; header_crc : Z; footer_crc : Z }.

Definition GetLz4StaticData (K : Lz4fConsts) (cs : bool) (ecx : Z) (stack : list Z)
    : res Lz4StaticData :=
  '(header, _) ← Lz4FrameHeaderGen K cs stack;
  '(footer, _) ← Lz4FrameFooterGen K stack;
  hcrc ← ComputeCRC32 ecx kCrc32cInitialValue (take (Z.to_nat kLz4FrameHeaderSize) header);
  fcrc ← ComputeCRC32 ecx kCrc32cInitialValue (take (Z.to_nat kLz4FrameFooterSize) footer);
  mret (MkLz4StaticData header footer hcrc fcrc).

(** ** Lemmas *)

Definition lz4_header_image : list Z := [0x04; 0x22; 0x4D; 0x18; 0x60; 0x40; 0x82].
Definition lz4_footer_image : list Z := [0; 0; 0; 0].

Lemma memcpy_ok buf data :
  (length data <= length buf)%nat → memcpy buf data = Ok (data ++ drop (length data) buf).
Proof. intros. unfold memcpy. by destruct (Nat.leb_spec (length data) (length buf)); [|lia]. Qed.

Lemma xxhash_header cs : XxHash cs [0x60; 0x40] = Ok 0x301a8268.
Proof. destruct cs; vm_compute; reflexivity. Qed.

Lemma Lz4FrameHeaderGen_ok K cs buf :
  lz4f_documented K → (7 <= length buf)%nat →
  Lz4FrameHeaderGen K cs buf = Ok (lz4_header_image ++ drop 7 buf, 7).
Proof.
  intros (H1 & H2 & H3 & H4) Hb. unfold Lz4FrameHeaderGen, kLz4FrameHeaderMaxBlockSize,
    kLz4FrameHeaderBlockIndep, kLz4FrameHeaderBlockChecksum, kLz4FrameHeaderContentChecksum.
  rewrite H1, H2, H3, H4.
  change (XxHash cs _) with (XxHash cs [0x60; 0x40]). rewrite xxhash_header, bind_Ok.
  rewrite memcpy_ok by exact Hb. reflexivity.
Qed.
Lemma Lz4FrameFooterGen_ok K buf :
  lz4f_documented K → (4 <= length buf)%nat →
  Lz4FrameFooterGen K buf = Ok (lz4_footer_image ++ drop 4 buf, 4).
Proof.
  intros (H1 & H2 & H3 & H4) Hb. unfold Lz4FrameFooterGen, kLz4FrameHeaderContentChecksum.
  rewrite H4. change (u8 0 =? 0) with true. cbn iota.
  rewrite memcpy_ok by exact Hb. reflexivity.
Qed.

Lemma in_range_u8 z : in_range 8 (u8 z).
Proof. apply wrap_range. lia. Qed.
Lemma le_bytes_ok n z : bytes_ok (le_bytes n z).
Proof.
  revert z. induction n; intros z; constructor; [apply in_range_u8|apply IHn].
Qed.
Lemma le_bytes_load bs : bytes_ok bs → le_bytes (length bs) (le_load bs) = bs.
Proof.
  induction 1 as [|b bs Hb Hbs IH]; [done|]. cbn [length le_bytes le_load]. f_equal.
  - apply Z.bits_inj'. intros i Hi. rewrite wrap_testbit, Z.lor_spec, Z.shiftl_spec by lia.
    case_bool_decide.
    + rewrite (Z.testbit_neg_r _ (i - 8)) by lia. by rewrite orb_false_r.
    + symmetry. apply (in_range_testbit 8); done || lia.
  - etransitivity; [|exact IH]. f_equal. rewrite Z.shiftr_lor, Z.shiftr_shiftl_l by lia.
    rewrite Z.shiftl_0_r. replace (Z.shiftr b 8) with 0; [by rewrite Z.lor_0_l|].
    symmetry. rewrite Z.shiftr_div_pow2 by lia. apply Z.div_small. apply Hb.
Qed.

(** ** Properties *)

(** With the documented lz4frame constants the generated LZ4 frame header is the seven
    bytes 04 22 4D 18 60 40 82 (magic, FLG, BD and the xxhash header checksum, on either
    signedness of char), the footer is the four zero bytes of the end mark, and the rest
    of both buffers is untouched. *)
Theorem lz4_frame_bytes K cs buf :
  lz4f_documented K → (7 <= length buf)%nat →
  Lz4FrameHeaderGen K cs buf = Ok (lz4_header_image ++ drop 7 buf, kLz4FrameHeaderSize) ∧
  Lz4FrameFooterGen K buf = Ok (lz4_footer_image ++ drop 4 buf, kLz4FrameFooterSize).
Proof.
  intros HK Hb. split; [by apply Lz4FrameHeaderGen_ok|].
  apply Lz4FrameFooterGen_ok; [done|lia].
Qed.
Lemma lz4_frame_bytes_witness :
  Lz4FrameHeaderGen (MkLz4fConsts 4 1 0 0) true (replicate 8 9) =
    Ok (lz4_header_image ++ [9], kLz4FrameHeaderSize).
Proof. apply (lz4_frame_bytes (MkLz4fConsts 4 1 0 0) true (replicate 8 9)); [done|simpl; lia]. Defined.

(** The header and footer checksums precomputed in [Lz4StaticData], combined with the
    checksum of the compressed body by [CombineThreeCRC32], give the CRC of the complete
    frame: header, body and footer concatenated. *)
Theorem lz4_frame_crc K cs cpu ecx stack body :
  lz4f_documented K → (32 <= length stack)%nat → Z.testbit ecx 20 = true →
  bytes_ok body → Z.of_nat (length body) < 2 ^ 64 →
  ∃ sd, GetLz4StaticData K cs ecx stack = Ok sd ∧
    CombineThreeCRC32 cpu kCrc32cInitialValue (header_crc sd)
      (ComputeCRC32_Accelerate kCrc32cInitialValue body) (footer_crc sd)
      (Z.of_nat (length body)) kLz4FrameFooterSize
    = Ok (crc_bytes kCrc32cInitialValue (lz4_header_image ++ body ++ lz4_footer_image)).
Proof.
  intros HK Hs Hx Hb Hl. unfold GetLz4StaticData.
  rewrite Lz4FrameHeaderGen_ok, bind_Ok by (done || lia).
  rewrite Lz4FrameFooterGen_ok, bind_Ok by (done || lia).
  unfold ComputeCRC32, Get_ComputeCRC32_Impl. rewrite Hx, !bind_Ok.
  eexists. split; [reflexivity|]. cbn [header_crc footer_crc].
  change (take (Z.to_nat kLz4FrameHeaderSize) (lz4_header_image ++ drop 7 stack))
    with lz4_header_image.
  change (take (Z.to_nat kLz4FrameFooterSize) (lz4_footer_image ++ drop 4 stack))
    with lz4_footer_image.
  assert (bytes_ok lz4_header_image ∧ bytes_ok lz4_footer_image) as [Hh Hf]
    by (split; repeat constructor; done).
  assert (in_range 32 kCrc32cInitialValue) by done.
  unfold CombineThreeCRC32. rewrite !accelerate_spec by done.
  rewrite CRC32Combine_crc, bind_Ok by done.
  change kLz4FrameFooterSize with (Z.of_nat (length lz4_footer_image)).
  by rewrite CRC32Combine_crc, <- app_assoc by (done || by apply Forall_app).
Qed.
Lemma lz4_frame_crc_witness :
  ∃ sd, GetLz4StaticData (MkLz4fConsts 4 1 0 0) false (2 ^ 20) (replicate 32 0) = Ok sd ∧
    CombineThreeCRC32 true kCrc32cInitialValue (header_crc sd)
      (ComputeCRC32_Accelerate kCrc32cInitialValue [1; 2; 3]) (footer_crc sd) 3
      kLz4FrameFooterSize
    = Ok (crc_bytes kCrc32cInitialValue (lz4_header_image ++ [1; 2; 3] ++ lz4_footer_image)).
Proof.
  apply (lz4_frame_crc (MkLz4fConsts 4 1 0 0) false true (2 ^ 20) (replicate 32 0) [1; 2; 3]);
    try done; repeat constructor; done.
Defined.

(** For every compression level the zlib header satisfies RFC 1950: deflate method,
    window at most 32K, no preset dictionary, and a 16-bit check value divisible by 31;
    the footer is the checksum in network byte order. *)
Theorem zlib_frame_valid level adler buf :
  in_range 32 adler → (4 <= length buf)%nat →
  (∃ flg, ZlibHeaderGen level buf = Ok (kZlibHeaderCmf :: flg :: drop 2 buf, 2) ∧
    (kZlibHeaderCmf * 256 + flg) mod 31 = 0 ∧ Z.land kZlibHeaderCmf 15 = 8 ∧
    Z.shiftr kZlibHeaderCmf 4 <= 7 ∧ Z.testbit flg 5 = false) ∧
  ZlibFooterGen adler buf = Ok (rev (le_bytes 4 adler) ++ drop 4 buf, 4).
Proof.
  intros Ha Hb. split.
  - exists (GetZlibHeaderFlag level). unfold ZlibHeaderGen.
    rewrite memcpy_ok by (simpl; lia). split; [done|]. by destruct level.
  - unfold ZlibFooterGen, htonl.
    assert (bytes_ok (rev (le_bytes 4 adler))) as Hr by (apply Forall_rev, le_bytes_ok).
    pose proof (le_bytes_load _ Hr) as E.
    replace (length (rev (le_bytes 4 adler))) with 4%nat in E by done.
    rewrite E, memcpy_ok by (simpl; lia). done.
Qed.
Lemma zlib_frame_valid_witness :
  ZlibFooterGen 0x11223344 [0; 0; 0; 0; 7] = Ok ([0x11; 0x22; 0x33; 0x44; 7], 4).
Proof. apply (zlib_frame_valid kLevel1 0x11223344 [0; 0; 0; 0; 7]); [done|simpl; lia]. Defined.
