(* ===== verification/LinkedList.v ===== *)
(** * Intrusive linked lists over a heap of nodes

    The chunk pool, its block free lists, the timer list and the MPSC queue are all
    intrusive lists: nodes hold raw [next] (and [prev]) pointers. A heap is a finite map
    from addresses to nodes, [0] is the null pointer. [sseg] describes a singly linked
    segment, [dseg] a doubly linked one; the lemmas are the pointer updates the
    components perform. *)

From Stdlib Require Import ZArith Lia.
From stdpp Require Import prelude gmap.
From S2P Require Import Prelude.
Open Scope Z_scope.

Abbreviation null := 0%Z.

(** What a node type must provide to be linked. *)
Class SNode (N : Type) := {
  nd_next : N → Z;
  set_next : Z → N → N;
  next_set_next v n : nd_next (set_next v n) = v;
}.
Class DNode (N : Type) `{SNode N} := {
  nd_prev : N → Z;
  set_prev : Z → N → N;
  prev_set_prev v n : nd_prev (set_prev v n) = v;
  next_set_prev v n : nd_next (set_prev v n) = nd_next n;
  prev_set_next v n : nd_prev (set_next v n) = nd_prev n;
}.

(** The pointer to a list [l] that is continued by [nxt]. *)
Definition hdp (nxt : Z) (l : list Z) : Z := match l with [] => nxt | c :: _ => c end.
Definition lastp (prv : Z) (l : list Z) : Z := default prv (last l).

Lemma hdp_app nxt l1 l2 : hdp nxt (l1 ++ l2) = hdp (hdp nxt l2) l1.
Proof. by destruct l1. Qed.
Lemma lastp_cons prv c l : lastp prv (c :: l) = lastp c l.
Proof. unfold lastp. rewrite last_cons. by destruct (last l). Qed.
Lemma lastp_snoc prv l c : lastp prv (l ++ [c]) = c.
Proof. unfold lastp. by rewrite last_snoc. Qed.

Section sseg.
Context {N : Type} `{SNode N}.
Implicit Types (h : gmap Z N) (l : list Z).

Fixpoint sseg h (l : list Z) (nxt : Z) : Prop :=
  match l with
  | [] => True
  | c :: l => c ≠ null ∧ (∃ n, h !! c = Some n ∧ nd_next n = hdp nxt l) ∧ sseg h l nxt
  end.

Lemma sseg_agree h h' l nxt :
  (∀ c, c ∈ l → h' !! c = h !! c) → sseg h l nxt → sseg h' l nxt.
Proof.
  induction l as [|c l IH]; intros Ha; [done|]. intros (Hc & (n & Hn & Hx) & Hs).
  split; [done|]. split.
  - exists n. by rewrite Ha by set_solver.
  - apply IH; [|done]. intros. apply Ha. set_solver.
Qed.
Lemma sseg_app h l1 l2 nxt :
  sseg h (l1 ++ l2) nxt ↔ sseg h l1 (hdp nxt l2) ∧ sseg h l2 nxt.
Proof.
  induction l1 as [|c l1 IH]; simpl; [tauto|]. rewrite IH, hdp_app. tauto.
Qed.
Lemma sseg_lookup h l nxt c : sseg h l nxt → c ∈ l → c ≠ null ∧ is_Some (h !! c).
Proof.
  induction l as [|d l IH]; [set_solver|]. intros (Hd & (n & Hn & _) & Hs) [->|Hin]%elem_of_cons.
  - split; [done|]. by exists n.
  - by apply IH.
Qed.
Lemma sseg_last_next h l t nxt n :
  l ≠ [] → sseg h (l ++ t) nxt → h !! lastp null l = Some n → nd_next n = hdp nxt t.
Proof.
  intros Hl Hs Hn. destruct l as [|c l _] using rev_ind; [done|]. rewrite lastp_snoc in Hn.
  rewrite <- app_assoc in Hs. apply sseg_app in Hs as [_ (_ & (m & Hm & Hx) & _)]. by simplify_eq.
Qed.
(** Redirecting the last node. *)
Lemma sseg_snoc_redirect h l c n nxt v :
  c ∉ l → h !! c = Some n → sseg h (l ++ [c]) nxt →
  sseg (<[c := set_next v n]> h) (l ++ [c]) v.
Proof.
  intros Hc Hn. rewrite !sseg_app. simpl. intros (H1 & Hnull & _). split.
  - apply (sseg_agree h); [|done]. intros d Hd. apply lookup_insert_ne. set_solver.
  - split; [done|]. split; [|done]. exists (set_next v n).
    by rewrite lookup_insert_eq, next_set_next.
Qed.
End sseg.

Section dseg.
Context {N : Type} `{DNode N}.
Implicit Types (h : gmap Z N) (l : list Z).

Fixpoint dseg h (prv : Z) (l : list Z) (nxt : Z) : Prop :=
  match l with
  | [] => True
  | c :: l =>
      c ≠ null ∧ (∃ n, h !! c = Some n ∧ nd_prev n = prv ∧ nd_next n = hdp nxt l) ∧
      dseg h c l nxt
  end.

(** A complete list reached from the pointer [p]. *)
Definition dll h (p : Z) (l : list Z) : Prop := p = hdp null l ∧ dseg h null l null.

Lemma dseg_agree h h' prv l nxt :
  (∀ c, c ∈ l → h' !! c = h !! c) → dseg h prv l nxt → dseg h' prv l nxt.
Proof.
  revert prv. induction l as [|c l IH]; intros prv Ha; [done|].
  intros (Hc & (n & Hn & Hp & Hx) & Hs). split; [done|]. split.
  - exists n. by rewrite Ha by set_solver.
  - apply IH; [|done]. intros. apply Ha. set_solver.
Qed.
Lemma dseg_insert_ne h prv l nxt c n :
  c ∉ l → dseg h prv l nxt → dseg (<[c := n]> h) prv l nxt.
Proof.
  intros Hc. apply dseg_agree. intros d Hd. apply lookup_insert_ne. set_solver.
Qed.
Lemma dseg_app h prv l1 l2 nxt :
  dseg h prv (l1 ++ l2) nxt ↔ dseg h prv l1 (hdp nxt l2) ∧ dseg h (lastp prv l1) l2 nxt.
Proof.
  revert prv. induction l1 as [|c l1 IH]; intros prv; simpl; [unfold lastp; simpl; tauto|].
  rewrite IH, hdp_app, lastp_cons. tauto.
Qed.
Lemma dseg_lookup h prv l nxt c : dseg h prv l nxt → c ∈ l → c ≠ null ∧ is_Some (h !! c).
Proof.
  revert prv. induction l as [|d l IH]; intros prv; [set_solver|].
  intros (Hd & (n & Hn & _) & Hs) [->|Hin]%elem_of_cons; [|by eapply IH].
  split; [done|]. by exists n.
Qed.
Lemma dseg_sseg h prv l nxt : dseg h prv l nxt → sseg h l nxt.
Proof.
  revert prv. induction l as [|c l IH]; intros prv; [done|].
  intros (Hc & (n & Hn & Hp & Hx) & Hs). split; [done|]. split; [by exists n|by eapply IH].
Qed.

(** Updating a node without touching its links. *)
Lemma dseg_data h prv l nxt c n n' :
  h !! c = Some n → nd_prev n' = nd_prev n → nd_next n' = nd_next n →
  dseg h prv l nxt → dseg (<[c := n']> h) prv l nxt.
Proof.
  intros Hn Hp Hx. revert prv. induction l as [|d l IH]; intros prv; [done|].
  intros (Hd & (m & Hm & Hmp & Hmx) & Hs). split; [done|]. split; [|by apply IH].
  destruct (decide (c = d)) as [->|].
  - exists n'. rewrite lookup_insert_eq. split; [done|]. simplify_eq. by rewrite Hp, Hx.
  - exists m. by rewrite lookup_insert_ne.
Qed.
(** Writing the [prev] of the first node, the [next] of the last one. *)
Lemma dseg_head_prev h prv c l nxt n v :
  c ∉ l → h !! c = Some n → dseg h prv (c :: l) nxt →
  dseg (<[c := set_prev v n]> h) v (c :: l) nxt.
Proof.
  intros Hc Hn (Hnull & (m & Hm & _ & Hmx) & Hs). split; [done|]. split.
  - exists (set_prev v n). rewrite lookup_insert_eq, prev_set_prev, next_set_prev.
    simplify_eq. done.
  - by apply dseg_insert_ne.
Qed.
Lemma dseg_last_next h prv c l nxt n v :
  c ∉ l → h !! c = Some n → dseg h prv (l ++ [c]) nxt →
  dseg (<[c := set_next v n]> h) prv (l ++ [c]) v.
Proof.
  intros Hc Hn. rewrite !dseg_app. simpl. intros (H1 & Hnull & (m & Hm & Hmp & _) & _).
  split; [by apply dseg_insert_ne|]. split; [done|]. split; [|done].
  exists (set_next v n). rewrite lookup_insert_eq, prev_set_next, next_set_next.
  simplify_eq. done.
Qed.

Lemma dll_nil h p : dll h p [] ↔ p = null.
Proof. unfold dll; simpl. tauto. Qed.
Lemma dll_null h l : dll h null l → l = [].
Proof. intros [E Hs]. destruct l as [|c l]; [done|]. destruct Hs as [Hc _]. by simpl in E. Qed.
Lemma dll_agree h h' p l :
  (∀ c, c ∈ l → h' !! c = h !! c) → dll h p l → dll h' p l.
Proof. intros Ha [-> Hs]. split; [done|]. by eapply dseg_agree. Qed.

(** Taking the first node off: the rest, its [prev] cleared, is a list again. *)
Lemma dll_tail h c l n :
  dll h c (c :: l) → h !! c = Some n → nd_next n = hdp null l.
Proof. intros [_ (_ & (m & Hm & _ & Hx) & _)] Hn. by simplify_eq. Qed.
Lemma dseg_clear_prev h prv l nxt :
  NoDup l → dseg h prv l nxt →
  dseg (match l with
        | [] => h
        | c :: _ => match h !! c with Some n => <[c := set_prev null n]> h | None => h end
        end) null l nxt.
Proof.
  destruct l as [|c l]; [done|]. intros [Hc _]%NoDup_cons Hs.
  pose proof Hs as (_ & (n & Hn & _) & _). rewrite Hn. by eapply dseg_head_prev.
Qed.
End dseg.
Arguments dll : simpl never.

(** ** Whole-list operations *)

Lemma map_alter_insert {K A} `{Countable K} (f : A → A) (m : gmap K A) k x :
  m !! k = Some x → alter f k m = <[k := f x]> m.
Proof.
  intros Hk. apply map_eq. intros j. rewrite lookup_alter, lookup_insert.
  case_decide as E; [|done]. subst. by rewrite Hk.
Qed.

(** A list of distinct nodes is no longer than the heap. *)
Lemma nodes_bound {N} (h : gmap Z N) (l : list Z) :
  NoDup l → (∀ c, c ∈ l → is_Some (h !! c)) → (length l <= size h)%nat.
Proof.
  intros Hnd Hl. rewrite <- size_dom, <- (size_list_to_set (C := gset Z) l Hnd).
  apply subseteq_size. intros c Hc%elem_of_list_to_set. apply elem_of_dom. by apply Hl.
Qed.

Section dll_ops.
Context {N : Type} `{DNode N}.
Implicit Types (h : gmap Z N) (l t u : list Z).

(** [if (p) p->prev = v] *)
Definition set_prev_at h (p v : Z) : gmap Z N := if p =? 0 then h else alter (set_prev v) p h.

Lemma set_prev_at_ne h p v c : c ≠ p → set_prev_at h p v !! c = h !! c.
Proof. intros. unfold set_prev_at. destruct (p =? 0); [done|]. by rewrite lookup_alter_ne. Qed.

Lemma dseg_head_write h prv l nxt v :
  NoDup l → dseg h prv l nxt → nxt = null → dseg (set_prev_at h (hdp nxt l) v) v l nxt.
Proof.
  destruct l as [|c l]; [done|]. intros [Hc _]%NoDup_cons Hs ->. cbn [hdp].
  pose proof Hs as (Hnull & (n & Hn & _) & _). unfold set_prev_at.
  rewrite (proj2 (Z.eqb_neq _ _) Hnull), (map_alter_insert _ _ _ n) by done.
  by eapply dseg_head_prev.
Qed.

Lemma dll_pop h c t :
  NoDup (c :: t) → dll h c (c :: t) → dll (set_prev_at h (hdp null t) null) (hdp null t) t.
Proof.
  intros [_ Ht]%NoDup_cons [_ (_ & _ & Hs)]. split; [done|]. by eapply dseg_head_write.
Qed.

Lemma dll_push h p t c n :
  NoDup t → c ∉ t → c ≠ null → h !! c = Some n → dll h p t →
  dll (set_prev_at (alter (λ m, set_next p (set_prev null m)) c h) p c) c (c :: t).
Proof.
  intros Ht Hc Hn Ec [-> Hs]. split; [done|].
  assert (c ≠ hdp null t) as Hne by (destruct t as [|d t]; cbn; [done|]; by intros ->; apply Hc; left).
  set (h1 := alter _ c h).
  assert (dseg h1 null t null) as Hs1.
  { apply (dseg_agree h); [|done]. intros d Hd. apply lookup_alter_ne. congruence. }
  split; [done|]. split.
  - rewrite set_prev_at_ne by done. unfold h1. rewrite lookup_alter_eq, Ec. cbn.
    eexists. split; [done|]. by rewrite prev_set_next, prev_set_prev, next_set_next.
  - by eapply dseg_head_write.
Qed.

Lemma lastp_in prv l : l ≠ [] → lastp prv l ∈ l.
Proof.
  intros Hl. destruct l as [|x l _] using rev_ind; [done|]. rewrite lastp_snoc.
  apply elem_of_app. right. by left.
Qed.
Lemma hdp_in nxt l : l ≠ [] → hdp nxt l ∈ l.
Proof. destruct l; [done|]. intros _. by left. Qed.

(** Redirecting the end of a segment. *)
Lemma dseg_redirect h prv l nxt v :
  l ≠ [] → NoDup l → dseg h prv l nxt → dseg (alter (set_next v) (lastp null l) h) prv l v.
Proof.
  intros Hl Hnd Hs. destruct l as [|c l _] using rev_ind; [done|]. rewrite lastp_snoc.
  apply NoDup_app in Hnd as (_ & Hd & _).
  assert (c ∉ l) as Hc by (intros Hin; apply (Hd c Hin); by left).
  assert (is_Some (h !! c)) as [n Hn].
  { eapply dseg_lookup; [done|]. apply elem_of_app. right. by left. }
  rewrite (map_alter_insert _ _ _ n) by done. by eapply dseg_last_next.
Qed.

(** Concatenation: the end of [u] is linked to the list at [p]. *)
Lemma dseg_concat h t u prv nxt :
  NoDup (u ++ t) → u ≠ [] → dseg h prv t null → dseg h null u nxt →
  dseg (set_prev_at (alter (set_next (hdp null t)) (lastp null u) h) (hdp null t) (lastp null u))
       null (u ++ t) null.
Proof.
  intros Hnd Hu Ht Hsu. apply NoDup_app in Hnd as (Hndu & Hd & Hndt). apply dseg_app.
  assert (∀ d, d ∈ t → d ≠ lastp null u) as Hne.
  { intros d Hdt ->. apply (Hd (lastp null u)); [by apply lastp_in|done]. }
  set (h1 := alter _ _ h). split.
  - apply (dseg_agree h1).
    + intros d Hdu. apply set_prev_at_ne. intros ->.
      destruct t as [|e t]; cbn in *; [|by apply (Hd e); [|left]].
      by apply (dseg_lookup _ _ _ _ _ Hsu) in Hdu as [? _].
    + by apply (dseg_redirect h null u nxt).
  - apply (dseg_head_write h1 prv); [done| |done].
    apply (dseg_agree h); [|done]. intros d Hdt. apply lookup_alter_ne.
    symmetry. by apply Hne.
Qed.
Lemma dll_concat h p q t u :
  NoDup (u ++ t) → u ≠ [] → dll h p t → dll h q u →
  dll (set_prev_at (alter (set_next p) (lastp null u) h) p (lastp null u)) q (u ++ t).
Proof.
  intros Hnd Hu [-> Ht] [-> Hsu]. split; [by destruct u|]. by eapply dseg_concat.
Qed.

(** Cutting a list after [u]. *)
Lemma dll_cut h q t u :
  NoDup (u ++ t) → u ≠ [] → dll h q (u ++ t) →
  let h' := alter (set_next null) (lastp null u) (set_prev_at h (hdp null t) null) in
  dll h' q u ∧ dll h' (hdp null t) t.
Proof.
  intros Hnd Hu [-> Hs] h'. apply dseg_app in Hs as [Hsu Hst].
  pose proof Hnd as (Hndu & Hd & Hndt)%NoDup_app. set (h1 := set_prev_at h (hdp null t) null) in h'.
  assert (∀ d, d ∈ u → h1 !! d = h !! d) as Hagu.
  { intros d Hdu. apply set_prev_at_ne. intros ->. destruct t as [|e t]; cbn in *.
    - by apply (dseg_lookup _ _ _ _ _ Hsu) in Hdu as [? _].
    - apply (Hd e); [done|by left]. }
  split; split.
  - by destruct u.
  - apply (dseg_redirect h1 null u (hdp null t)); [done..|]. by apply (dseg_agree h).
  - done.
  - apply (dseg_agree h1).
    + intros d Hdt. apply lookup_alter_ne. intros <-. apply (Hd (lastp null u)); [|done].
      by apply lastp_in.
    + by eapply dseg_head_write.
Qed.

(** Unlinking the node [c]. *)
Definition unlink h (prv nxt : Z) : gmap Z N :=
  set_prev_at (if prv =? 0 then h else alter (set_next nxt) prv h) nxt prv.

Lemma dll_node h p l1 c l2 n :
  dll h p (l1 ++ c :: l2) → h !! c = Some n →
  nd_prev n = lastp null l1 ∧ nd_next n = hdp null l2 ∧ (lastp null l1 = null ↔ l1 = []).
Proof.
  intros [_ Hs] Ec. apply dseg_app in Hs as [H1 (_ & (m & Hm & Hp & Hx) & _)]. simplify_eq.
  split_and!; [done..|]. split; [|by intros ->]. intros Hl. destruct l1 as [|d l1]; [done|].
  pose proof (lastp_in null (d :: l1) ltac:(done)) as Hin. rewrite Hl in Hin.
  by apply (dseg_lookup _ _ _ _ _ H1) in Hin as [? _].
Qed.

Lemma dll_unlink h p l1 c l2 n :
  NoDup (l1 ++ c :: l2) → dll h p (l1 ++ c :: l2) → h !! c = Some n →
  dll (unlink h (nd_prev n) (nd_next n)) (if nd_prev n =? 0 then nd_next n else p) (l1 ++ l2).
Proof.
  intros Hnd Hd Ec. destruct (dll_node _ _ _ _ _ _ Hd Ec) as (-> & -> & Hl1).
  assert (NoDup (l1 ++ l2)) as Hnd12.
  { apply NoDup_app in Hnd as (? & Hdj & [? ?]%NoDup_cons). apply NoDup_app. split_and!; try done.
    intros x Hx Hx2. apply (Hdj x); [done|by right]. }
  pose proof Hd as [-> Hs]. apply dseg_app in Hs as [H1 (_ & _ & H2)].
  unfold unlink. destruct (Z.eqb_spec (lastp null l1) 0) as [E|E].
  - assert (l1 = []) as -> by (by apply Hl1). cbn [app].
    split; [done|]. by eapply dseg_head_write.
  - assert (l1 ≠ []) as Hne by (intros ->; by apply E).
    split; [by destruct l1|]. by eapply dseg_concat.
Qed.
End dll_ops.

(** ** Systems of lists

    A heap that carries many lists at once, each in its own place [l] with its root [ρ l]:
    [L l] are its nodes, no node is in two lists; places with [linked l = false] only hold
    nodes, unlinked. *)

Section lists.
Context {N : Type} `{DNode N} {P : Type} `{EqDecision P} (linked : P → bool).
Implicit Types (h : gmap Z N) (ρ : P → Z) (L : P → list Z).

Record lists_ok h ρ L : Prop := {
  lo_nodup : ∀ l, NoDup (L l);
  lo_disj : ∀ l l' c, c ∈ L l → c ∈ L l' → l = l';
  lo_dll : ∀ l, linked l = true → dll h (ρ l) (L l) }.

Lemma NoDup_places L A :
  NoDup ((A ≫= L)) → NoDup A →
  (∀ l, l ∈ A → NoDup (L l)) ∧
  (∀ l l' c, l ∈ A → l' ∈ A → c ∈ L l → c ∈ L l' → l = l').
Proof using Type.
  induction A as [|a A IH]; [set_solver|]. cbn.
  intros (Ha & Hd & HA)%NoDup_app [Hni HndA]%NoDup_cons. destruct (IH HA HndA) as [IH1 IH2].
  assert (∀ l c, l ∈ A → c ∈ L l → c ∈ L a → False) as Hx.
  { intros l c Hl Hc Hca. apply (Hd c Hca). apply list_elem_of_bind. eauto. }
  split.
  - intros l [->|Hl]%elem_of_cons; [done|by apply IH1].
  - intros l l' c [->|Hl]%elem_of_cons [->|Hl']%elem_of_cons Hc Hc'; try done.
    + exfalso. by eapply (Hx l').
    + exfalso. by eapply (Hx l).
    + by eapply IH2.
Qed.
Lemma lists_NoDup h ρ L A : lists_ok h ρ L → NoDup A → NoDup ((A ≫= L)).
Proof using Type. intros [Hnd Hdj _] HA. apply NoDup_bind; eauto. Qed.

(** A step that moves nodes among the places [A] and writes no other node. *)
Lemma lists_step h ρ L h' ρ' L' A :
  lists_ok h ρ L → NoDup A →
  (∀ l, l ∉ A → L' l = L l ∧ ρ' l = ρ l) →
  (A ≫= L') ≡ₚ (A ≫= L) →
  (∀ c, (∀ l, l ∈ A → c ∉ L l) → h' !! c = h !! c) →
  (∀ l, l ∈ A → linked l = true → dll h' (ρ' l) (L' l)) →
  lists_ok h' ρ' L'.
Proof using EqDecision0.
  intros Hok HA Hout Hperm Hh Hin. pose proof Hok as [Hnd Hdj Hdl].
  destruct (NoDup_places L' A) as [HA1 HA2]; [|done|].
  { rewrite Hperm. by eapply lists_NoDup. }
  assert (∀ l c, l ∈ A → c ∈ L' l → ∃ l0, l0 ∈ A ∧ c ∈ L l0) as Hback.
  { intros l c Hl Hc. assert (c ∈ (A ≫= L')) as Hcc.
    { apply list_elem_of_bind. eauto. }
    rewrite Hperm in Hcc. apply list_elem_of_bind in Hcc as (l0 & ? & ?). eauto. }
  split.
  - intros l. destruct (decide (l ∈ A)) as [Hl|Hl]; [by apply HA1|].
    destruct (Hout l Hl) as [-> _]. done.
  - intros l l' c Hc Hc'. destruct (decide (l ∈ A)) as [Hl|Hl], (decide (l' ∈ A)) as [Hl'|Hl'].
    + by eapply HA2.
    + destruct (Hback _ _ Hl Hc) as (l0 & Hl0 & Hc0). destruct (Hout l' Hl') as [E _].
      rewrite E in Hc'. by rewrite <- (Hdj _ _ _ Hc0 Hc') in Hl'.
    + destruct (Hback _ _ Hl' Hc') as (l0 & Hl0 & Hc0). destruct (Hout l Hl) as [E _].
      rewrite E in Hc. by rewrite <- (Hdj _ _ _ Hc0 Hc) in Hl.
    + destruct (Hout l Hl) as [E _], (Hout l' Hl') as [E' _]. rewrite E in Hc. rewrite E' in Hc'.
      by eapply Hdj.
  - intros l Hl. destruct (decide (l ∈ A)) as [HlA|HlA]; [by apply Hin|].
    destruct (Hout l HlA) as [-> ->]. apply (dll_agree h); [|by apply Hdl].
    intros c Hc. apply Hh. intros l' Hl' Hc'. by rewrite (Hdj _ _ _ Hc Hc') in HlA.
Qed.
End lists.
