(* ===== verification/AddressManager.v ===== *)
(** * Virtual-to-physical translation (src/src/common/memory_pool_helper.{h,cc})

    [AddressManager] keeps a table of registered pages keyed by their start address, with
    a per-thread cache in front of it. [GetPhysAddr] translates one address,
    [GetPhysAddrBound] a buffer that may span several pages.

    The operating system ([getpagesize], /proc/self/pagemap, /proc/kpageflags) is the
    parameter [OsPages]. The state [am] holds the global table and the cache of the
    calling thread; [not_covered] is the metric of partially covered buffers. *)

From Stdlib Require Import ZArith Lia.
From stdpp Require Import prelude gmap.
From S2P Require Import Prelude.
Open Scope Z_scope.

(** ** Page types *)

Inductive AlignType := kPage4kb | kPage2Mb | kPage1Gb | kPage512Mb | kAlignUnknown.
#[export] Instance AlignType_eq_dec : EqDecision AlignType.
Proof. solve_decision. Defined.

Definition PAGE_BIT_NUM_4KB : Z := 12.
Definition PAGE_BIT_NUM_2MB : Z := 21.
Definition PAGE_BIT_NUM_1GB : Z := 30.
Definition PAGE_BIT_NUM_512MB : Z := 29.
Definition VESAL_PAGESIZE (page_bit_num : Z) : Z := Z.shiftl 1 page_bit_num.
Definition VESAL_PAGEMASK (page_size : Z) : Z := unot 64 (u64 (page_size - 1)).
Definition VESAL_PAGE_ALIGN (addr page_size : Z) : Z := Z.land addr (VESAL_PAGEMASK page_size).
Definition VESAL_IS_PAGE_ALIGNED (addr page_size : Z) : bool :=
  addr =? VESAL_PAGE_ALIGN addr page_size.

Definition AlignTypeToPageSize (type : AlignType) : Z :=
  match type with
  | kPage4kb => VESAL_PAGESIZE PAGE_BIT_NUM_4KB
  | kPage2Mb => VESAL_PAGESIZE PAGE_BIT_NUM_2MB
  | kPage1Gb => VESAL_PAGESIZE PAGE_BIT_NUM_1GB
  | kPage512Mb => VESAL_PAGESIZE PAGE_BIT_NUM_512MB
  | kAlignUnknown => 0
  end.

Definition PageSizeToAlignType (page_size : Z) : AlignType :=
  if page_size =? VESAL_PAGESIZE PAGE_BIT_NUM_4KB then kPage4kb
  else if page_size =? VESAL_PAGESIZE PAGE_BIT_NUM_2MB then kPage2Mb
  else if page_size =? VESAL_PAGESIZE PAGE_BIT_NUM_1GB then kPage1Gb
  else if page_size =? VESAL_PAGESIZE PAGE_BIT_NUM_512MB then kPage512Mb
  else kAlignUnknown.

Definition AlignPage (addr : Z) (type : AlignType) : Z :=
  VESAL_PAGE_ALIGN addr (AlignTypeToPageSize type).

(** The page type an address is aligned to, largest first. *)
Definition PageAlignType (addr : Z) : AlignType :=
  if VESAL_IS_PAGE_ALIGNED addr (VESAL_PAGESIZE PAGE_BIT_NUM_1GB) then kPage1Gb
  else if VESAL_IS_PAGE_ALIGNED addr (VESAL_PAGESIZE PAGE_BIT_NUM_512MB) then kPage512Mb
  else if VESAL_IS_PAGE_ALIGNED addr (VESAL_PAGESIZE PAGE_BIT_NUM_2MB) then kPage2Mb
  else if VESAL_IS_PAGE_ALIGNED addr (VESAL_PAGESIZE PAGE_BIT_NUM_4KB) then kPage4kb
  else kAlignUnknown.

Record PhysChunk := MkPhysChunk { start_addr : Z; phys_addr : Z; align_type : AlignType }.
#[export] Instance eta_PhysChunk : Eta PhysChunk :=
  λ r, MkPhysChunk (start_addr r) (phys_addr r) (align_type r).

Definition GetChunkSize (c : PhysChunk) : Z := AlignTypeToPageSize (align_type c).

Record MemoryInfo := MkMemoryInfo {
  virtual_addr : Z; physical_addr : Z; len : Z; page_size : Z }.

(** ** The operating system *)

(** [pagemap_read off] is the value left in the 8-byte entry by a read at [off], [None]
    when the seek fails; likewise for kpageflags. *)
Record OsPages := MkOsPages {
  getpagesize : Z;
  pagemap_opens : bool;
  pagemap_read : Z → option Z;
  kpageflags_opens : bool;
  kpageflags_read : Z → option Z }.

Definition kPFNMask : Z := 0x7FFFFFFFFFFFFF.
Definition kPagemapEntrySize : Z := 8.
Definition VESAL_PAGEFLAG_HUGE : Z := 17.
Definition VESAL_PAGEFLAG_UNEVICTABLE : Z := 18.

Definition GetPageFrameNumberOrZero (os : OsPages) (addrs : list Z) : res (list Z) :=
  if pagemap_opens os then
    Ok ((λ a, match pagemap_read os (u64 (a `div` getpagesize os * kPagemapEntrySize)) with
              | Some pfn => Z.land pfn kPFNMask
              | None => 0
              end) <$> addrs)
  else Err CheckFailed.

(** The result of [fopen] is used unchecked here. *)
Definition GetPageFlagOrZero (os : OsPages) (pfns : list Z) : res (list Z) :=
  if kpageflags_opens os then
    Ok ((λ pfn, default 0 (kpageflags_read os (u64 (pfn * kPagemapEntrySize)))) <$> pfns)
  else Err NullDeref.

Definition CalcPhysAddr (os : OsPages) (addr pfn : Z) : Z :=
  if pfn =? 0 then 0
  else u64 (pfn * getpagesize os + addr mod getpagesize os).

Definition CalcPhysAddrs (os : OsPages) (addrs pfns : list Z) : res (list Z) :=
  if bool_decide (length pfns = length addrs)
  then Ok (zip_with (CalcPhysAddr os) addrs pfns) else Err CheckFailed.

Definition ContainFlag (x flag_bit : Z) : bool := Z.odd (Z.shiftr x flag_bit).
Definition IsMemoryPinned1 (page_flag : Z) : bool :=
  ContainFlag page_flag VESAL_PAGEFLAG_UNEVICTABLE || ContainFlag page_flag VESAL_PAGEFLAG_HUGE.
Definition IsMemoryPinned (page_flags : list Z) : bool := forallb IsMemoryPinned1 page_flags.

(** ** The manager *)

Record am := MkAm {
  memory_info_by_vaddr_ : gmap Z PhysChunk;
  t_tls_memory_info_by_vaddr_ : gmap Z PhysChunk;
  not_covered : Z }.
#[export] Instance eta_am : Eta am :=
  λ r, MkAm (memory_info_by_vaddr_ r) (t_tls_memory_info_by_vaddr_ r) (not_covered r).

(** [Reset] clears only the cache of the calling thread. *)
Definition am_Reset : ST am unit := modify (λ s, s <| t_tls_memory_info_by_vaddr_ := ∅ |>).

Definition AddInternalEntry (chunk : PhysChunk) : ST am unit :=
  check (bool_decide (align_type chunk = kPage1Gb) || bool_decide (align_type chunk = kPage2Mb)
         || bool_decide (align_type chunk = kPage512Mb));;
  modify (λ s, s <| memory_info_by_vaddr_ ::= <[start_addr chunk := chunk]> |>).

Definition ValidateExternalMemInfo (m : MemoryInfo) : bool :=
  if virtual_addr m =? 0 then false
  else if len m =? 0 then false
  else if negb (page_size m =? VESAL_PAGESIZE PAGE_BIT_NUM_1GB)
          && negb (page_size m =? VESAL_PAGESIZE PAGE_BIT_NUM_2MB)
          && negb (page_size m =? VESAL_PAGESIZE PAGE_BIT_NUM_512MB) then false
  else if negb (VESAL_IS_PAGE_ALIGNED (virtual_addr m) (page_size m)) then false
  else if negb (len m mod page_size m =? 0) then false
  else true.

(** The pages of one region: physical addresses are filled in later. *)
Definition info_chunks (m : MemoryInfo) : list PhysChunk :=
  (λ i, MkPhysChunk (u64 (virtual_addr m + Z.of_nat i * page_size m)) 0
          (PageSizeToAlignType (page_size m)))
  <$> seq 0 (Z.to_nat (len m `div` page_size m)).

Fixpoint FillPhysAddrIfMissing (os : OsPages) (pfns : list Z) (chunks : list PhysChunk)
    : res (option (list PhysChunk)) :=
  match chunks, pfns with
  | [], _ => Ok (Some [])
  | chunk :: chunks, pfn :: pfns =>
      let chunk := if phys_addr chunk =? 0
                   then chunk <| phys_addr := CalcPhysAddr os (start_addr chunk) pfn |>
                   else chunk in
      if phys_addr chunk =? 0 then Ok None
      else r ← FillPhysAddrIfMissing os pfns chunks; Ok (option_map (cons chunk) r)
  | chunk :: chunks, [] =>
      if phys_addr chunk =? 0 then Err Uncaught
      else r ← FillPhysAddrIfMissing os [] chunks; Ok (option_map (cons chunk) r)
  end.

Definition insert_chunks (chunks : list PhysChunk) (m : gmap Z PhysChunk) : gmap Z PhysChunk :=
  foldl (λ m c, <[start_addr c := c]> m) m chunks.

Definition AddExternalEntries (os : OsPages) (infos : list MemoryInfo) : ST am bool :=
  if negb (forallb ValidateExternalMemInfo infos) then mret false
  else
    let chunks := infos ≫= info_chunks in
    pfns ← lift (GetPageFrameNumberOrZero os (start_addr <$> chunks));
    flags ← lift (GetPageFlagOrZero os pfns);
    if negb (IsMemoryPinned flags) then mret false
    else filled ← lift (FillPhysAddrIfMissing os pfns chunks);
         match filled with
         | None => mret false
         | Some chunks =>
             modify (λ s, s <| memory_info_by_vaddr_ ::= insert_chunks chunks |>);;
             mret true
         end.

Definition AddExternalEntry (os : OsPages) (info : MemoryInfo) : ST am bool :=
  AddExternalEntries os [info].

(** ** Lookups *)

Fixpoint TableLookUp (map : gmap Z PhysChunk) (vaddr : Z) (order : list AlignType)
    : option PhysChunk :=
  match order with
  | [] => None
  | t :: order =>
      match map !! AlignPage vaddr t with
      | Some c => if bool_decide (align_type c = t) then Some c else TableLookUp map vaddr order
      | None => TableLookUp map vaddr order
      end
  end.

Definition default_order : list AlignType := [kPage2Mb; kPage512Mb; kPage1Gb; kPage4kb].

(** The cache first, then the global table, whose answer is cached. *)
Definition lookup_cached (vaddr : Z) (order : list AlignType) : ST am (option PhysChunk) :=
  s ← get;
  match TableLookUp (t_tls_memory_info_by_vaddr_ s) vaddr order with
  | Some c => mret (Some c)
  | None =>
      match TableLookUp (memory_info_by_vaddr_ s) vaddr order with
      | None => mret None
      | Some c =>
          modify (λ s, s <| t_tls_memory_info_by_vaddr_ ::= <[start_addr c := c]> |>);;
          mret (Some c)
      end
  end.

Definition GetPhysAddr (vaddr : Z) (order : list AlignType) : ST am Z :=
  r ← lookup_cached vaddr order;
  match r with
  | None => mret 0
  | Some c => mret (u64 (phys_addr c + u64 (vaddr - start_addr c)))
  end.

(** The [while (ret < max_num && left_ > 0)] loop: [n] is [max_num - ret]; it returns the
    segments written so far and what is left, or [None] when a page is not registered. *)
Fixpoint bound_loop (n : nat) (order : list AlignType) (curr left_ : Z)
    : ST am (option (list (Z * Z) * Z)) :=
  match n with
  | O => mret (Some ([], left_))
  | S n =>
      if left_ =? 0 then mret (Some ([], left_))
      else
        r ← lookup_cached curr order;
        match r with
        | None => mret None
        | Some c =>
            let page_ending := u64 (start_addr c + GetChunkSize c) in
            let paddr := u64 (phys_addr c + u64 (curr - start_addr c)) in
            if u64 (curr + left_) <=? page_ending then
              r ← bound_loop n order curr 0;
              mret ((λ '(segs, l), ((paddr, left_) :: segs, l)) <$> r)
            else
              let covered := u64 (page_ending - curr) in
              r ← bound_loop n order (u64 (curr + covered)) (u64 (left_ - covered));
              mret ((λ '(segs, l), ((paddr, covered) :: segs, l)) <$> r)
        end
  end.

(** Returns the number of segments and the entries written to [paddrs]/[paddr_sizes]. *)
Definition GetPhysAddrBound (vaddr v_len : Z) (max_num : nat) (order : list AlignType)
    : ST am (Z * list (Z * Z)) :=
  r ← bound_loop max_num order vaddr v_len;
  match r with
  | None => mret (0, [])
  | Some (segs, left_) =>
      when ((0 <? left_) && negb (left_ =? v_len)) (modify (λ s, s <| not_covered ::= Z.add 1 |>));;
      mret (if 0 <? left_ then 0 else Z.of_nat (length segs), segs)
  end.

Definition LookUpAddr (addr : Z) : ST am Z := GetPhysAddr addr default_order.
Definition LookUpAddrAcrossBound (addr v_len : Z) (max_num : nat) : ST am (Z * list (Z * Z)) :=
  GetPhysAddrBound addr v_len max_num default_order.

Definition LookUpAddrIfNotAcrossBound (addr v_len : Z) : ST am Z :=
  '(ret, segs) ← LookUpAddrAcrossBound addr v_len 2;
  if ret =? 1 then need OutOfBounds (fst <$> segs !! 0%nat) else mret 0.

(** ** Specification *)

Definition known (t : AlignType) : Prop := t ≠ kAlignUnknown.
Definition covers (c : PhysChunk) (a : Z) : Prop :=
  start_addr c <= a < start_addr c + GetChunkSize c.

(** A registered page: aligned, in the user half of the address space, with a physical
    range that does not wrap. *)
Definition wf_chunk (c : PhysChunk) : Prop :=
  known (align_type c) ∧ start_addr c mod GetChunkSize c = 0 ∧ 0 < start_addr c ∧
  start_addr c + GetChunkSize c <= 2 ^ 63 ∧
  0 < phys_addr c ∧ phys_addr c + GetChunkSize c <= 2 ^ 64.

Definition wf_table (m : gmap Z PhysChunk) : Prop :=
  (∀ k c, m !! k = Some c → start_addr c = k ∧ wf_chunk c) ∧
  (∀ k k' c c' a, m !! k = Some c → m !! k' = Some c' → covers c a → covers c' a → k = k').

(** The cache holds entries of the global table only. *)
Definition am_ok (s : am) : Prop :=
  wf_table (memory_info_by_vaddr_ s) ∧
  t_tls_memory_info_by_vaddr_ s ⊆ memory_info_by_vaddr_ s.

(** The physical address of one byte. *)
Definition translate (m : gmap Z PhysChunk) (a : Z) : option Z :=
  (λ c, phys_addr c + (a - start_addr c)) <$> TableLookUp m a default_order.

(** The physical address of byte [o] of a segment list. *)
Fixpoint seg_at (segs : list (Z * Z)) (o : Z) : option Z :=
  match segs with
  | [] => None
  | (p, n) :: segs => if o <? n then Some (p + o) else seg_at segs (o - n)
  end.
Definition seg_sum (segs : list (Z * Z)) : Z := foldr (λ x acc, snd x + acc) 0 segs.

(** ** Lemmas on page arithmetic *)

Lemma pagesize_pow2 t : known t → ∃ k, 12 <= k <= 30 ∧ AlignTypeToPageSize t = 2 ^ k.
Proof.
  intros Ht. destruct t; [exists 12|exists 21|exists 30|exists 29|done]; split; done || lia.
Qed.
Lemma pagesize_pos t : known t → 4096 <= AlignTypeToPageSize t <= 2 ^ 30.
Proof. by destruct t. Qed.

Lemma page_align_pow2 a k :
  in_range 64 a → 0 <= k < 64 → VESAL_PAGE_ALIGN a (2 ^ k) = a - a mod 2 ^ k.
Proof.
  intros Ha Hk. unfold VESAL_PAGE_ALIGN, VESAL_PAGEMASK, unot.
  assert (0 < 2 ^ k < 2 ^ 64) by (split; [lia|apply Z.pow_lt_mono_r; lia]).
  rewrite wrap_small by (unfold in_range; lia).
  replace (2 ^ 64 - 1 - (2 ^ k - 1)) with (Z.shiftl (Z.ones (64 - k)) k).
  2:{ rewrite Z.shiftl_mul_pow2, Z.ones_equiv by lia.
      replace (2 ^ 64) with (2 ^ (64 - k) * 2 ^ k)
        by (rewrite <- Z.pow_add_r by lia; f_equal; lia). lia. }
  replace (a - a mod 2 ^ k) with (Z.shiftl (Z.shiftr a k) k).
  2:{ rewrite Z.shiftl_mul_pow2, Z.shiftr_div_pow2 by lia.
      pose proof (Z.div_mod a (2 ^ k)). lia. }
  apply Z.bits_inj'. intros i Hi. rewrite Z.land_spec.
  destruct (Z.lt_ge_cases i k); [by rewrite !Z.shiftl_spec_low, andb_false_r by lia|].
  rewrite !Z.shiftl_spec, Z.shiftr_spec by lia. replace (i - k + k) with i by lia.
  destruct (Z.lt_ge_cases i 64).
  - by rewrite Z.ones_spec_low, andb_true_r by lia.
  - by rewrite (in_range_testbit 64 a i) by (done || lia).
Qed.

Lemma align_page a t :
  in_range 64 a → known t → AlignPage a t = a - a mod AlignTypeToPageSize t.
Proof.
  intros Ha Ht. destruct (pagesize_pow2 t Ht) as (k & Hk & E). unfold AlignPage.
  rewrite E. apply page_align_pow2; [done|lia].
Qed.

Lemma covers_align c a :
  in_range 64 a → wf_chunk c → covers c a ↔ AlignPage a (align_type c) = start_addr c.
Proof.
  intros Ha (Ht & Hm & _). rewrite align_page by done. unfold covers, GetChunkSize in *.
  pose proof (pagesize_pos _ Ht) as Hp. set (n := AlignTypeToPageSize _) in *.
  pose proof (Z.div_mod a n). pose proof (Z.mod_pos_bound a n).
  pose proof (Z.div_mod (start_addr c) n). split; [|lia].
  intros Hc. assert (a `div` n = start_addr c `div` n) by nia. nia.
Qed.

(** ** Lookups find exactly the covering page *)

Lemma table_lookup_sound m a order c :
  wf_table m → in_range 64 a → TableLookUp m a order = Some c →
  m !! start_addr c = Some c ∧ covers c a.
Proof.
  intros [Hm _] Ha. induction order as [|t order IH]; [done|]. cbn [TableLookUp].
  destruct (m !! AlignPage a t) as [c'|] eqn:E; [|done].
  case_bool_decide as Et; [|done]. intros [= ->].
  destruct (Hm _ _ E) as [Hs Hw]. split; [by rewrite Hs|].
  apply covers_align; [done..|]. by rewrite Et.
Qed.

Lemma table_lookup_complete m a order c :
  wf_table m → in_range 64 a → m !! start_addr c = Some c → covers c a →
  align_type c ∈ order → TableLookUp m a order = Some c.
Proof.
  intros Hwf Ha Hc Hcov. pose proof Hwf as [Hm Hd].
  destruct (Hm _ _ Hc) as [_ Hw].
  induction order as [|t order IH]; [by intros ?%not_elem_of_nil|].
  cbn [TableLookUp]. intros Hin.
  assert (∀ c', m !! AlignPage a t = Some c' → align_type c' = t → c' = c) as Huniq.
  { intros c' E Et. destruct (Hm _ _ E) as [Hs' Hw'].
    assert (covers c' a) by (apply covers_align; [done..|by rewrite Et]).
    rewrite <- Hs' in E. assert (start_addr c' = start_addr c) as Hs by eauto.
    rewrite Hs in E. congruence. }
  apply elem_of_cons in Hin as [<-|Hin].
  - apply covers_align in Hcov; [|done..]. by rewrite Hcov, Hc, bool_decide_true.
  - destruct (m !! AlignPage a t) as [c'|] eqn:E; [|auto].
    case_bool_decide; [|auto]. f_equal. auto.
Qed.

Lemma order_all c : wf_chunk c → align_type c ∈ default_order.
Proof. intros [Hk _]. unfold default_order. destruct (align_type c); set_solver. Qed.

Definition reg (m : gmap Z PhysChunk) (c : PhysChunk) : Prop := m !! start_addr c = Some c.

Lemma lookup_global m a c :
  wf_table m → in_range 64 a → TableLookUp m a default_order = Some c ↔ reg m c ∧ covers c a.
Proof.
  intros Hwf Ha. split; [by apply table_lookup_sound|]. intros [Hr Hc].
  apply table_lookup_complete; try done. apply order_all. by apply (proj1 Hwf) in Hr as [_ ?].
Qed.

Lemma wf_table_subset m m' : wf_table m → m' ⊆ m → wf_table m'.
Proof. intros [H1 H2] Hs. split; intros; [eapply H1|eapply H2]; eauto using lookup_weaken. Qed.

(** The thread cache does not change what a lookup returns, and stays a subset. *)
Lemma wp_lookup_cached a s (Q : option PhysChunk → am → Prop) :
  am_ok s → in_range 64 a →
  (∀ s', am_ok s' → memory_info_by_vaddr_ s' = memory_info_by_vaddr_ s →
     not_covered s' = not_covered s →
     Q (TableLookUp (memory_info_by_vaddr_ s) a default_order) s') →
  wp (lookup_cached a default_order) Q s.
Proof.
  intros [Hwf Hsub] Ha HQ. unfold lookup_cached. wp_steps.
  destruct (TableLookUp (t_tls_memory_info_by_vaddr_ s) a default_order) as [c|] eqn:Et.
  - apply table_lookup_sound in Et as [Hr Hc]; eauto using wf_table_subset.
    wp_steps. rewrite <- (proj2 (lookup_global _ _ c Hwf Ha)); [apply HQ|]; try done.
    split; [by eapply lookup_weaken|done].
  - destruct (TableLookUp (memory_info_by_vaddr_ s) a default_order) as [c|] eqn:Eg.
    + wp_steps. apply HQ; [|done..]. split; [done|]. cbn.
      apply insert_subseteq_l; [|done]. by apply lookup_global in Eg as [? _].
    + wp_steps. by apply HQ.
Qed.

Lemma seg_sum_nonneg segs : Forall (λ x, 0 <= snd x) segs → 0 <= seg_sum segs.
Proof. induction 1 as [|[]]; [done|]. unfold seg_sum in *. cbn in *. lia. Qed.

(** What the loop of [GetPhysAddrBound] has established after [segs] with [l] bytes left. *)
Record bound_post (m : gmap Z PhysChunk) (n : nat) (curr left_ : Z)
    (segs : list (Z * Z)) (l : Z) (cs : list PhysChunk) : Prop := {
  bp_left : 0 <= l <= left_;
  bp_len : (length segs <= n)%nat;
  bp_stop : l ≠ 0 → length segs = n;
  bp_pos : Forall (λ x, 0 < snd x) segs;
  bp_sum : seg_sum segs = left_ - l;
  bp_at : ∀ o, 0 <= o < left_ - l → seg_at segs o = translate m (curr + o);
  bp_pages : length cs = length segs;
  bp_nodup : NoDup cs;
  bp_cov : ∀ o, 0 <= o < left_ - l → ∃ c, c ∈ cs ∧ covers c (curr + o);
  bp_reg : Forall (λ c, reg m c ∧ (∃ o, 0 <= o < left_ - l ∧ covers c (curr + o)) ∧
                       (l ≠ 0 → start_addr c + GetChunkSize c <= curr + (left_ - l))) cs }.

Lemma bound_post_nil m curr left_ n :
  0 <= left_ → (left_ = 0 ∨ n = O) → bound_post m n curr left_ [] left_ [].
Proof. intros Hl Hn. split; cbn; try done; try lia; try (intros; lia). apply NoDup_nil_2. Qed.

Lemma translate_covers m c a :
  wf_table m → in_range 64 a → reg m c → covers c a →
  translate m a = Some (phys_addr c + (a - start_addr c)).
Proof.
  intros Hwf Ha Hr Hc. unfold translate.
  by rewrite (proj2 (lookup_global m a c Hwf Ha) (conj Hr Hc)).
Qed.

(** One more segment [(phys, k)] in front, inside page [c]. *)
Lemma bound_post_cons m n curr left_ segs l cs c k :
  wf_table m → 0 <= curr → curr + left_ <= 2 ^ 63 → reg m c → covers c curr →
  0 < k <= left_ → curr + k <= start_addr c + GetChunkSize c →
  (k = left_ ∨ curr + k = start_addr c + GetChunkSize c) →
  bound_post m n (curr + k) (left_ - k) segs l cs →
  bound_post m (S n) curr left_ ((phys_addr c + (curr - start_addr c), k) :: segs) l (c :: cs).
Proof.
  intros Hwf Hc0 Hlim Hr Hcov Hk Hend Hmax []. unfold covers in Hcov. split; cbn [length seg_at]; try lia.
  - constructor; [cbn; lia|done].
  - unfold seg_sum in *. cbn. lia.
  - intros o Ho. destruct (o <? k) eqn:Eo.
    + rewrite (translate_covers m c) by (unfold in_range, covers; done || lia). f_equal. lia.
    + rewrite bp_at0 by lia. f_equal. lia.
  - constructor; [|done]. intros Hin. rewrite Forall_forall in bp_reg0.
    destruct (bp_reg0 _ Hin) as (_ & (o & Ho & Hco) & _). unfold covers in Hco. lia.
  - intros o Ho. destruct (Z.lt_ge_cases o k).
    + exists c. split; [by left|]. unfold covers. lia.
    + destruct (bp_cov0 (o - k)) as (c' & ? & ?); [lia|]. exists c'. split; [by right|].
      by replace (curr + o) with (curr + k + (o - k)) by lia.
  - constructor.
    + split; [done|]. split; [exists 0; unfold covers; lia|]. intros Hl. lia.
    + eapply Forall_impl; [exact bp_reg0|]. cbn. intros c' (? & (o & Ho & Hco) & He).
      split; [done|]. split; [exists (k + o); rewrite Z.add_assoc; split; [lia|done]|].
      intros Hl. specialize (He Hl). lia.
Qed.

Lemma wp_bound_loop n : ∀ curr left_ s,
  am_ok s → 0 <= curr → 0 <= left_ → curr + left_ <= 2 ^ 63 →
  wp (bound_loop n default_order curr left_) (λ r s',
    am_ok s' ∧ memory_info_by_vaddr_ s' = memory_info_by_vaddr_ s ∧
    not_covered s' = not_covered s ∧
    match r with
    | None => ∃ o, 0 <= o < left_ ∧ translate (memory_info_by_vaddr_ s) (curr + o) = None
    | Some (segs, l) => ∃ cs, bound_post (memory_info_by_vaddr_ s) n curr left_ segs l cs
    end) s.
Proof.
  induction n as [|n IH]; intros curr left_ s Hok Hc Hl Hlim; cbn [bound_loop].
  { wp_steps. eauto 10 using bound_post_nil. }
  destruct (left_ =? 0) eqn:El.
  { wp_steps. split_and!; try done. exists []. apply bound_post_nil; [done|left; lia]. }
  wp_steps. apply wp_lookup_cached; [done|unfold in_range; lia|].
  intros s1 Hok1 Em1 En1. destruct (TableLookUp _ curr _) as [c|] eqn:Ec.
  2:{ wp_steps. split_and!; try done. exists 0. rewrite Z.add_0_r. split; [lia|].
      unfold translate. by rewrite Ec. }
  pose proof Hok as [Hwf _]. apply lookup_global in Ec as [Hr Hcov]; [|done|unfold in_range; lia].
  destruct (proj1 Hwf _ _ Hr) as [_ (Hk & _ & Hs & Hse & Hp & Hpe)].
  pose proof (pagesize_pos _ Hk) as Hsz. pose proof Hcov as Hcov'.
  unfold covers in Hcov'. fold (GetChunkSize c) in Hsz.
  rewrite (wrap_small 64 (start_addr c + _)) by (unfold in_range; lia).
  rewrite (wrap_small 64 (curr - _)) by (unfold in_range; lia).
  rewrite (wrap_small 64 (phys_addr c + _)) by (unfold in_range; lia).
  rewrite (wrap_small 64 (curr + _)) by (unfold in_range; lia).
  destruct (curr + left_ <=? _) eqn:Ele.
  - wp_steps. eapply wp_mono; [apply (IH curr 0); [done|lia..]|].
    intros r s2 (Hok2 & Em2 & En2 & Hr2). wp_steps. rewrite Em1 in *.
    split_and!; try congruence; try done. destruct r as [[segs l]|]; cbn [fmap option_fmap option_map].
    + destruct Hr2 as [cs Hcs].
      assert (segs = [] ∧ l = 0 ∧ cs = []) as (-> & -> & ->).
      { destruct Hcs. assert (l = 0) as -> by lia. destruct segs as [|[x y] segs].
        - by destruct cs.
        - apply Forall_cons in bp_pos0 as [? Hp']. unfold seg_sum in bp_sum0. cbn in bp_sum0.
          fold (seg_sum segs) in bp_sum0. cbn in *. assert (0 <= seg_sum segs); [|lia]. apply seg_sum_nonneg.
          eapply Forall_impl; [exact Hp'|]. cbn. lia. }
      exists [c]. eapply bound_post_cons; try done; try lia.
      replace (left_ - left_) with 0 by lia. apply bound_post_nil; [lia|by left].
    + destruct Hr2 as (o & Ho & _). lia.
  - set (k := start_addr c + GetChunkSize c - curr).
    rewrite (wrap_small 64 k) by (unfold in_range; lia).
    rewrite (wrap_small 64 (curr + k)) by (unfold in_range; lia).
    rewrite (wrap_small 64 (left_ - k)) by (unfold in_range; lia).
    wp_steps. eapply wp_mono; [apply (IH (curr + k) (left_ - k)); [done|lia..]|].
    intros r s2 (Hok2 & Em2 & En2 & Hr2). wp_steps. rewrite Em1 in *.
    split_and!; try congruence; try done. destruct r as [[segs l]|]; cbn [fmap option_fmap option_map].
    + destruct Hr2 as [cs Hcs]. exists (c :: cs). eapply bound_post_cons; try done; try lia.
    + destruct Hr2 as (o & Ho & Ht). exists (k + o). rewrite Z.add_assoc. split; [lia|done].
Qed.

Lemma seg_at_some segs o :
  Forall (λ x, 0 < snd x) segs → 0 <= o < seg_sum segs → is_Some (seg_at segs o).
Proof.
  revert o. induction segs as [|[p n] segs IH]; intros o Hp Ho; unfold seg_sum in Ho; cbn in *.
  { lia. }
  fold (seg_sum segs) in Ho. apply Forall_cons in Hp as [Hn Hp]. cbn in *.
  destruct (o <? n) eqn:E; [eauto|]. apply IH; [done|lia].
Qed.

Lemma wp_GetPhysAddrBound n vaddr v_len s (Q : Z * list (Z * Z) → am → Prop) :
  am_ok s → 0 <= vaddr → 0 <= v_len → vaddr + v_len <= 2 ^ 63 →
  (∀ s' ret segs, am_ok s' → memory_info_by_vaddr_ s' = memory_info_by_vaddr_ s →
     (ret = 0 ∧ (∃ o, 0 <= o < v_len ∧ translate (memory_info_by_vaddr_ s) (vaddr + o) = None) ∨
      ∃ l cs, bound_post (memory_info_by_vaddr_ s) n vaddr v_len segs l cs ∧
              ret = if 0 <? l then 0 else Z.of_nat (length segs)) →
     Q (ret, segs) s') →
  wp (GetPhysAddrBound vaddr v_len n default_order) Q s.
Proof.
  intros Hok Ha Hl Hlim HQ. unfold GetPhysAddrBound. wp_steps.
  eapply wp_mono; [by apply wp_bound_loop|].
  intros [[segs l]|] s' (Hok' & Em & _ & Hr).
  - wp_steps. apply wp_when; intros _; wp_steps; destruct Hr as [cs Hcs]; apply HQ; try done; eauto.
  - wp_steps. apply HQ; eauto.
Qed.

(** With two output slots, one segment comes out exactly for buffers inside one page. *)
Lemma one_page_iff m addr v_len segs l cs :
  wf_table m → 0 < v_len → 0 <= addr → addr + v_len <= 2 ^ 63 →
  bound_post m 2 addr v_len segs l cs →
  let ret := if 0 <? l then 0 else Z.of_nat (length segs) in
  (∀ c, reg m c → covers c addr → covers c (addr + v_len - 1) → ret = 1) ∧
  (ret = 1 → ∃ c n, segs = [(phys_addr c + (addr - start_addr c), n)] ∧ reg m c ∧
                  covers c addr ∧ covers c (addr + v_len - 1)).
Proof.
  intros Hwf Hl Ha Hlim []. cbn zeta. split.
  - intros c Hr Hc Hce.
    assert (Forall (λ x, x = c) cs) as Hall.
    { eapply Forall_impl; [exact bp_reg0|]. cbn. intros c' (Hr' & (o & Ho & Hco) & _).
      unfold reg, covers in *. assert (start_addr c' = start_addr c) as Hs.
      { eapply (proj2 Hwf _ _ c' c (addr + o)); unfold covers; try done; lia. }
      rewrite Hs in Hr'. congruence. }
    assert (length cs <= 1)%nat.
    { destruct cs as [|c1 [|c2 cs]]; cbn; try lia. exfalso.
      do 2 (apply Forall_cons in Hall as [-> Hall]).
      apply NoDup_cons in bp_nodup0 as [Hn _]. apply Hn. by left. }
    destruct (0 <? l) eqn:El; [lia|].
    assert (length segs ≠ 0)%nat; [|lia].
    destruct segs; [|done]. unfold seg_sum in bp_sum0. cbn in *. lia.
  - destruct (0 <? l) eqn:El; [done|]. assert (l = 0) as -> by lia. intros Hlen.
    destruct segs as [|[p n] [|]]; cbn in Hlen; try lia.
    destruct cs as [|c [|]]; try done. rewrite Forall_singleton in bp_reg0.
    destruct bp_reg0 as (Hr & _ & _).
    destruct (bp_cov0 0) as (c1 & Hin1 & Hc1); [lia|]. apply list_elem_of_singleton in Hin1 as ->.
    destruct (bp_cov0 (v_len - 1)) as (c2 & Hin2 & Hc2); [lia|].
    apply list_elem_of_singleton in Hin2 as ->. rewrite Z.add_0_r in Hc1.
    specialize (bp_at0 0 ltac:(lia)). rewrite Forall_singleton in bp_pos0. cbn in bp_pos0. cbn [seg_at] in bp_at0.
    rewrite (proj2 (Z.ltb_lt 0 n)) in bp_at0 by lia.
    rewrite !Z.add_0_r, (translate_covers _ c) in bp_at0; [|done|unfold in_range; lia|done|done].
    exists c, n. split_and!; try done; [|by rewrite Z.add_sub_assoc in Hc2].
    repeat f_equal. congruence.
Qed.

(** ** Properties of the lookups *)

(** C28: [GetPhysAddrBound] either returns at most [max_num] non-empty segments that
    together have the buffer's length and map every byte of the buffer to the physical
    address its registered page gives it, or returns 0, and then the buffer is empty, has
    an unregistered byte, or touches more than [max_num] distinct registered pages. This holds
    in a thread whose cache agrees with the table ([am_ok]), and the lookup keeps it so; a
    thread that has translated a page before it was registered again has a cache that does not
    agree ([reregistered_page_stale]). *)
Theorem get_phys_addr_bound_correct n vaddr v_len s :
  am_ok s → 0 <= vaddr → 0 <= v_len → vaddr + v_len <= 2 ^ 63 →
  wp (GetPhysAddrBound vaddr v_len n default_order) (λ '(ret, segs) s',
    let m := memory_info_by_vaddr_ s in
    am_ok s' ∧ memory_info_by_vaddr_ s' = m ∧
    (ret ≠ 0 → ret = Z.of_nat (length segs) ∧ (length segs <= n)%nat ∧
       Forall (λ x, 0 < snd x) segs ∧ seg_sum segs = v_len ∧
       ∀ o, 0 <= o < v_len → is_Some (seg_at segs o) ∧ seg_at segs o = translate m (vaddr + o)) ∧
    (ret = 0 → v_len = 0 ∨ (∃ o, 0 <= o < v_len ∧ translate m (vaddr + o) = None) ∨
       ∃ cs, length cs = S n ∧ NoDup cs ∧
         Forall (λ c, m !! start_addr c = Some c ∧
                      ∃ o, 0 <= o < v_len ∧ covers c (vaddr + o)) cs)) s.
Proof.
  intros Hok Ha Hl Hlim. apply wp_GetPhysAddrBound; try done.
  intros s' ret segs Hok' Em [[-> Hu]|(l & cs & [] & ->)]; split_and!; try done; eauto.
  - intros Hr. destruct (0 <? l) eqn:El; [done|]. assert (l = 0) as -> by lia.
    split_and!; try done; [lia|]. intros o Ho. split; [apply seg_at_some; [done|lia]|].
    apply bp_at0. lia.
  - intros Hr. destruct (decide (v_len = 0)); [by left|right].
    destruct (0 <? l) eqn:El.
    2:{ destruct segs; [|done]. unfold seg_sum in bp_sum0. cbn in *. lia. }
    destruct (translate (memory_info_by_vaddr_ s) (vaddr + (v_len - l))) as [p|] eqn:Et.
    2:{ left. exists (v_len - l). split; [lia|done]. }
    right. unfold translate in Et. apply fmap_Some in Et as (c & Hc & _).
    pose proof Hok as [Hwf _]. apply lookup_global in Hc as [Hreg Hcov]; [|done|unfold in_range; lia].
    assert (l ≠ 0) as Hl0 by lia. exists (c :: cs). cbn [length]. rewrite bp_pages0, bp_stop0 by done.
    split_and!; [done|..].
    + constructor; [|done]. intros Hin. rewrite Forall_forall in bp_reg0.
      destruct (bp_reg0 _ Hin) as (_ & _ & He). specialize (He Hl0). unfold covers in Hcov. lia.
    + constructor; [split; [done|]; exists (v_len - l); split; [lia|done]|].
      eapply Forall_impl; [exact bp_reg0|]. cbn. intros c' (? & (o & ? & ?) & _).
      split; [done|]. exists o. split; [lia|done].
Qed.

(** [LookUpAddrIfNotAcrossBound] on a non-empty buffer returns a non-zero address
    exactly when one registered page holds the whole buffer, and then it is the physical
    address of its first byte. *)
Theorem lookup_one_page_correct addr v_len s :
  am_ok s → 0 <= addr → 0 < v_len → addr + v_len <= 2 ^ 63 →
  wp (LookUpAddrIfNotAcrossBound addr v_len) (λ r _,
    (∀ c, memory_info_by_vaddr_ s !! start_addr c = Some c → covers c addr →
          covers c (addr + v_len - 1) → r = phys_addr c + (addr - start_addr c)) ∧
    (r ≠ 0 → ∃ c, memory_info_by_vaddr_ s !! start_addr c = Some c ∧ covers c addr ∧
          covers c (addr + v_len - 1) ∧ r = phys_addr c + (addr - start_addr c))) s.
Proof.
  intros Hok Ha Hl Hlim. unfold LookUpAddrIfNotAcrossBound, LookUpAddrAcrossBound. wp_steps.
  pose proof Hok as [Hwf _].
  apply wp_GetPhysAddrBound; [done|lia..|].
  intros s' ret segs _ _ [[-> (o & Ho & Hu)]|(l & cs & Hp & ->)]; cbn beta iota.
  { eval_cmp. wp_steps. split; [|done]. intros c Hr Hc Hce. unfold covers in *.
    rewrite (translate_covers _ c) in Hu; [done|done|unfold in_range; lia|done|unfold covers; lia]. }
  destruct (one_page_iff _ _ _ _ _ _ Hwf Hl Ha Hlim Hp) as [H1 H2].
  destruct ((if 0 <? l then 0 else Z.of_nat (length segs)) =? 1) eqn:E.
  - apply Z.eqb_eq in E. destruct (H2 E) as (c & n & -> & Hr & Hc & Hce).
    eapply wp_need; [done|]. split; [|eauto 10].
    intros c' Hr' Hc' _. assert (start_addr c' = start_addr c) as Hs.
    { eapply (proj2 Hwf); [exact Hr'|exact Hr|exact Hc'|exact Hc]. }
    unfold reg in *. rewrite Hs in Hr'. by simplify_eq.
  - wp_steps. split; [|done]. intros c Hr Hc Hce. exfalso.
    specialize (H1 c Hr Hc Hce). lia.
Qed.

(** ** Registration *)

Definition page_pfn (os : OsPages) (a : Z) : Z :=
  match pagemap_read os (u64 (a `div` getpagesize os * kPagemapEntrySize)) with
  | Some pfn => Z.land pfn kPFNMask
  | None => 0
  end.
(** The physical address the operating system reports for the page at [a]. *)
Definition os_phys (os : OsPages) (a : Z) : Z := CalcPhysAddr os a (page_pfn os a).
Definition filled (os : OsPages) (c : PhysChunk) : PhysChunk :=
  c <| phys_addr := os_phys os (start_addr c) |>.

Lemma pfns_ok os addrs :
  pagemap_opens os = true → GetPageFrameNumberOrZero os addrs = Ok (page_pfn os <$> addrs).
Proof. intros H. unfold GetPageFrameNumberOrZero. by rewrite H. Qed.

Lemma fill_spec os chunks :
  Forall (λ c, phys_addr c = 0) chunks →
  FillPhysAddrIfMissing os (page_pfn os <$> (start_addr <$> chunks)) chunks =
  Ok (if forallb (λ c, negb (os_phys os (start_addr c) =? 0)) chunks
      then Some (filled os <$> chunks) else None).
Proof.
  induction 1 as [|c cs Hc _ IH]; [done|]. cbn [fmap list_fmap forallb FillPhysAddrIfMissing].
  rewrite Hc, Z.eqb_refl. change (phys_addr (upd _ _ _)) with (os_phys os (start_addr c)).
  destruct (os_phys os (start_addr c) =? 0); [done|]. rewrite IH, bind_Ok. cbn [negb andb].
  by destruct (forallb _ cs).
Qed.

Lemma lookup_insert_chunks_other cs m k :
  k ∉ start_addr <$> cs → insert_chunks cs m !! k = m !! k.
Proof.
  revert m. induction cs as [|c cs IH]; intros m Hk; [done|].
  change (insert_chunks (c :: cs) m) with (insert_chunks cs (<[start_addr c := c]> m)).
  rewrite IH by (intros Hin; apply Hk; by right). apply lookup_insert_ne. set_solver.
Qed.
Lemma lookup_insert_chunks cs m c :
  NoDup (start_addr <$> cs) → c ∈ cs → insert_chunks cs m !! start_addr c = Some c.
Proof.
  revert m. induction cs as [|c' cs IH]; intros m Hnd Hin; [set_solver|].
  apply NoDup_cons in Hnd as [Hni Hnd].
  change (insert_chunks (c' :: cs) m) with (insert_chunks cs (<[start_addr c' := c']> m)).
  apply elem_of_cons in Hin as [->|Hin]; [|by apply IH].
  rewrite lookup_insert_chunks_other by done. apply lookup_insert_eq.
Qed.
Lemma lookup_insert_chunks_inv cs m k c :
  NoDup (start_addr <$> cs) → insert_chunks cs m !! k = Some c →
  (c ∈ cs ∧ k = start_addr c) ∨ m !! k = Some c.
Proof.
  intros Hnd Hl. destruct (decide (k ∈ start_addr <$> cs)) as [Hin|Hni].
  - apply list_elem_of_fmap in Hin as (c' & -> & Hin).
    rewrite (lookup_insert_chunks _ _ c') in Hl by done. simplify_eq. by left.
  - right. by rewrite lookup_insert_chunks_other in Hl.
Qed.

(** The pages of a validated region: aligned, consecutive, and they tile it. *)
Lemma validate_spec m :
  ValidateExternalMemInfo m = true →
  virtual_addr m ≠ 0 ∧ len m ≠ 0 ∧ known (PageSizeToAlignType (page_size m)) ∧
  AlignTypeToPageSize (PageSizeToAlignType (page_size m)) = page_size m ∧
  VESAL_IS_PAGE_ALIGNED (virtual_addr m) (page_size m) = true ∧ len m mod page_size m = 0.
Proof.
  unfold ValidateExternalMemInfo. intros H. repeat case_match; try done.
  rewrite !Z.eqb_neq in *. rewrite negb_false_iff in *.
  assert (∃ t, known t ∧ page_size m = AlignTypeToPageSize t) as (t & Ht & E).
  { destruct (page_size m =? VESAL_PAGESIZE PAGE_BIT_NUM_1GB) eqn:E1;
      [exists kPage1Gb; split; [done|by apply Z.eqb_eq]|].
    destruct (page_size m =? VESAL_PAGESIZE PAGE_BIT_NUM_2MB) eqn:E2;
      [exists kPage2Mb; split; [done|by apply Z.eqb_eq]|].
    destruct (page_size m =? VESAL_PAGESIZE PAGE_BIT_NUM_512MB) eqn:E3; [|done].
    exists kPage512Mb; split; [done|by apply Z.eqb_eq]. }
  assert (PageSizeToAlignType (page_size m) = t) as -> by (rewrite E; by destruct t).
  split_and!; try done; try lia.
Qed.

Lemma info_chunks_page m c :
  ValidateExternalMemInfo m = true → 0 < virtual_addr m → 0 <= len m →
  virtual_addr m + len m <= 2 ^ 63 → c ∈ info_chunks m →
  phys_addr c = 0 ∧ known (align_type c) ∧ GetChunkSize c = page_size m ∧
  start_addr c mod page_size m = 0 ∧ virtual_addr m <= start_addr c ∧
  start_addr c + page_size m <= virtual_addr m + len m ∧
  ∃ i, 0 <= i ∧ start_addr c = virtual_addr m + i * page_size m.
Proof.
  intros Hv Ha Hl Hlim Hin. destruct (validate_spec m Hv) as (_ & _ & Hk & Hps & Hal & Hmod).
  pose proof (pagesize_pos _ Hk) as Hp. rewrite Hps in Hp.
  apply list_elem_of_fmap in Hin as (i & -> & Hi). apply elem_of_seq in Hi.
  pose proof (Z.div_mod (len m) (page_size m)) as Hdm.
  pose proof (Z.div_pos (len m) (page_size m)).
  assert (virtual_addr m mod page_size m = 0) as Hvm.
  { unfold VESAL_IS_PAGE_ALIGNED in Hal. apply Z.eqb_eq in Hal.
    destruct (pagesize_pow2 _ Hk) as (k & Hk' & E). rewrite Hps in E. rewrite E in Hal |- *.
    rewrite page_align_pow2 in Hal; [|unfold in_range; lia|lia]. lia. }
  assert (0 <= Z.of_nat i * page_size m /\ Z.of_nat i * page_size m + page_size m <= len m) as Hib
    by nia.
  unfold GetChunkSize. cbn [phys_addr start_addr align_type].
  rewrite wrap_small by (unfold in_range; lia).
  split_and!; try done; try lia.
  - by rewrite Z.mod_add by lia.
  - exists (Z.of_nat i). lia.
Qed.

Lemma info_chunks_cover m a :
  ValidateExternalMemInfo m = true → 0 < virtual_addr m → 0 <= len m →
  virtual_addr m + len m <= 2 ^ 63 → virtual_addr m <= a < virtual_addr m + len m →
  ∃ c, c ∈ info_chunks m ∧ start_addr c = a - (a - virtual_addr m) mod page_size m.
Proof.
  intros Hv Ha Hl Hlim Hin. destruct (validate_spec m Hv) as (_ & _ & Hk & Hps & _ & Hmod).
  pose proof (pagesize_pos _ Hk) as Hp. rewrite Hps in Hp.
  pose proof (Z.div_mod (len m) (page_size m)). set (d := a - virtual_addr m).
  pose proof (Z.div_mod d (page_size m)). pose proof (Z.mod_pos_bound d (page_size m)).
  assert (0 <= d `div` page_size m < len m `div` page_size m) as Hd.
  { split; [apply Z.div_pos; lia|]. apply Z.div_lt_upper_bound; [lia|]. lia. }
  eexists. split.
  - apply list_elem_of_fmap. exists (Z.to_nat (d `div` page_size m)). split; [done|].
    apply elem_of_seq. lia.
  - cbn [start_addr]. rewrite Z2Nat.id by lia.
    rewrite wrap_small by (unfold in_range; nia). nia.
Qed.

Lemma info_chunks_nodup m :
  ValidateExternalMemInfo m = true → 0 < virtual_addr m → 0 <= len m →
  virtual_addr m + len m <= 2 ^ 63 → NoDup (start_addr <$> info_chunks m).
Proof.
  intros Hv Ha Hl Hlim. destruct (validate_spec m Hv) as (_ & _ & Hk & Hps & _ & Hmod).
  pose proof (pagesize_pos _ Hk) as Hp. rewrite Hps in Hp.
  pose proof (Z.div_mod (len m) (page_size m)). pose proof (Z.div_pos (len m) (page_size m)).
  unfold info_chunks. rewrite <- list_fmap_compose. apply NoDup_fmap_2_strong; [|apply NoDup_seq].
  intros i j Hi Hj. rewrite !elem_of_seq in *. cbn.
  rewrite !wrap_small by (unfold in_range; nia). intros E.
  assert ((Z.of_nat i - Z.of_nat j) * page_size m = 0) by lia. nia.
Qed.

Definition region_free (m : gmap Z PhysChunk) (i : MemoryInfo) : Prop :=
  ∀ k c a, m !! k = Some c → virtual_addr i <= a < virtual_addr i + len i → ¬ covers c a.

Lemma wf_insert_region os m i :
  wf_table m → ValidateExternalMemInfo i = true → 0 < virtual_addr i → 0 <= len i →
  virtual_addr i + len i <= 2 ^ 63 → region_free m i →
  (∀ a, virtual_addr i <= a < virtual_addr i + len i →
        0 <= os_phys os a ∧ os_phys os a + page_size i <= 2 ^ 64) →
  forallb (λ c, negb (os_phys os (start_addr c) =? 0)) (info_chunks i) = true →
  wf_table (insert_chunks (filled os <$> info_chunks i) m).
Proof.
  intros Hwf Hv Ha Hl Hlim Hfree Hos Hall.
  assert (NoDup (start_addr <$> (filled os <$> info_chunks i))) as Hnd.
  { rewrite <- list_fmap_compose. by apply info_chunks_nodup. }
  assert (∀ c, c ∈ filled os <$> info_chunks i →
            wf_chunk c ∧ virtual_addr i <= start_addr c ∧ GetChunkSize c = page_size i ∧
            start_addr c + page_size i <= virtual_addr i + len i ∧
            ∃ j, 0 <= j ∧ start_addr c = virtual_addr i + j * page_size i) as Hnew.
  { intros c' (c & -> & Hin)%list_elem_of_fmap.
    destruct (info_chunks_page i c) as (? & Hk & Hsz & Hmod & Hlo & Hhi & Hj); try done.
    pose proof (pagesize_pos _ Hk). unfold GetChunkSize in Hsz.
    specialize (Hos (start_addr c) ltac:(lia)). fold (GetChunkSize c) in Hsz.
    rewrite forallb_forall in Hall. specialize (Hall c (proj1 (list_elem_of_In _ _) Hin)).
    rewrite negb_true_iff, Z.eqb_neq in Hall.
    split_and!; [|done..]. unfold wf_chunk. change (GetChunkSize (filled os c)) with (GetChunkSize c).
    change (start_addr (filled os c)) with (start_addr c).
    change (phys_addr (filled os c)) with (os_phys os (start_addr c)).
    rewrite Hsz. split_and!; try done; lia. }
  split.
  - intros k c Hlk. apply lookup_insert_chunks_inv in Hlk as [[Hin ->]|Hlk]; [|by apply Hwf|done].
    split; [done|]. by apply Hnew.
  - intros k k' c c' a H1 H2 Hc Hc'.
    destruct (lookup_insert_chunks_inv _ _ _ _ Hnd H1) as [[Hin ->]|H1'];
      destruct (lookup_insert_chunks_inv _ _ _ _ Hnd H2) as [[Hin' ->]|H2'].
    + destruct (Hnew _ Hin) as (_ & _ & Hs1 & _ & j1 & _ & E1).
      destruct (Hnew _ Hin') as (Hw & _ & Hs2 & _ & j2 & _ & E2).
      destruct Hw as (Hk & _). pose proof (pagesize_pos _ Hk) as Hp. unfold covers in *.
      fold (GetChunkSize c') in Hp. rewrite Hs1, Hs2, E1, E2 in *. assert (j1 = j2) by nia. by subst.
    + destruct (Hnew _ Hin) as (_ & Hlo & Hs & Hhi & _). exfalso.
      eapply (Hfree _ _ a H2'); [|done]. unfold covers in *. lia.
    + destruct (Hnew _ Hin') as (_ & Hlo & Hs & Hhi & _). exfalso.
      eapply (Hfree _ _ a H1'); [|done]. unfold covers in *. lia.
    + by eapply (proj2 Hwf).
Qed.

Lemma wp_LookUpAddr a s c :
  am_ok s → in_range 64 a → reg (memory_info_by_vaddr_ s) c → covers c a →
  wp (LookUpAddr a) (λ r _, r = phys_addr c + (a - start_addr c)) s.
Proof.
  intros Hok Ha Hr Hc. unfold LookUpAddr, GetPhysAddr. wp_steps.
  apply wp_lookup_cached; [done..|]. intros s' _ _ _. pose proof Hok as [Hwf _].
  rewrite (proj2 (lookup_global _ _ c Hwf Ha)) by done. wp_steps.
  destruct (proj1 Hwf _ _ Hr) as [_ (Hk & _ & Hs & Hse & Hp & Hpe)]. unfold covers in Hc.
  rewrite !wrap_small; unfold in_range; rewrite ?wrap_small by (unfold in_range; lia); lia.
Qed.

(** C29: with a cache that agrees with the table, and the page files of the kernel readable,
    registering a region that overlaps no registered page either fails and leaves the
    table unchanged, or succeeds, keeps the table well formed and makes [LookUpAddr] return,
    for every address of the region, the physical address the operating system reported
    for its page plus the offset in the page. *)
Theorem register_lookup_roundtrip os i s :
  am_ok s → 0 < virtual_addr i → 0 <= len i → virtual_addr i + len i <= 2 ^ 63 →
  region_free (memory_info_by_vaddr_ s) i → pagemap_opens os = true → kpageflags_opens os = true →
  (∀ a, virtual_addr i <= a < virtual_addr i + len i →
        0 <= os_phys os a ∧ os_phys os a + page_size i <= 2 ^ 64) →
  wp (AddExternalEntry os i) (λ ok s',
    am_ok s' ∧ (ok = false → s' = s) ∧
    (ok = true → ∀ a, virtual_addr i <= a < virtual_addr i + len i →
       let page := a - (a - virtual_addr i) mod page_size i in
       os_phys os page ≠ 0 ∧ wp (LookUpAddr a) (λ r _, r = os_phys os page + (a - page)) s')) s.
Proof.
  intros Hok Ha Hl Hlim Hfree Hopen Hflag Hos. unfold AddExternalEntry, AddExternalEntries.
  cbn [forallb]. rewrite andb_true_r. destruct (ValidateExternalMemInfo i) eqn:Hv; cbn [negb].
  2:{ wp_steps. done. }
  cbn zeta. change ([i] ≫= info_chunks) with (info_chunks i ++ []). rewrite app_nil_r.
  rewrite pfns_ok by done. unfold GetPageFlagOrZero. rewrite Hflag. wp_steps.
  destruct (negb _); [wp_steps; done|].
  rewrite fill_spec by (apply Forall_forall; intros c Hc; by apply (info_chunks_page i c)).
  wp_steps. destruct (forallb _ _) eqn:Hall; wp_steps; [|done].
  pose proof Hok as [Hwf Hsub]. set (s' := upd _ _ _).
  assert (NoDup (start_addr <$> (filled os <$> info_chunks i))) as Hnd.
  { rewrite <- list_fmap_compose. by apply info_chunks_nodup. }
  assert (am_ok s') as Hok'.
  { split; [by apply wf_insert_region|]. cbn. trans (memory_info_by_vaddr_ s); [done|].
    apply map_subseteq_spec. intros k c Hk. rewrite lookup_insert_chunks_other; [done|].
    intros (c' & -> & Hin)%list_elem_of_fmap. apply list_elem_of_fmap in Hin as (c0 & -> & Hin).
    destruct (info_chunks_page i c0) as (_ & Hkn & Hsz & _ & Hlo & Hhi & _); try done.
    destruct (proj1 Hwf _ _ Hk) as [Es Hw]. eapply (Hfree _ _ (start_addr c0) Hk); [|].
    - pose proof (pagesize_pos _ Hkn). unfold GetChunkSize in Hsz. lia.
    - unfold covers. rewrite Es. change (start_addr (filled os c0)) with (start_addr c0).
      pose proof (pagesize_pos _ (proj1 Hw)). unfold GetChunkSize. lia. }
  split_and!; [done|done|]. intros _ a Hra. set (page := a - _ mod _).
  destruct (info_chunks_cover i a) as (c & Hin & Hs); try done.
  destruct (info_chunks_page i c) as (_ & Hkn & Hsz & _ & Hlo & Hhi & _); try done.
  pose proof (pagesize_pos _ Hkn). unfold GetChunkSize in Hsz.
  split.
  - rewrite forallb_forall in Hall. specialize (Hall c (proj1 (list_elem_of_In _ _) Hin)).
    rewrite negb_true_iff, Z.eqb_neq in Hall. unfold page. by rewrite <- Hs.
  - replace page with (start_addr c).
    change (os_phys os (start_addr c)) with (phys_addr (filled os c)).
    apply (wp_LookUpAddr a s' (filled os c)); [done|unfold in_range; lia| |].
    + apply lookup_insert_chunks; [done|]. by apply list_elem_of_fmap_2.
    + unfold covers, GetChunkSize. cbn -[AlignTypeToPageSize].
      pose proof (Z.mod_pos_bound (a - virtual_addr i) (page_size i)). lia.
Qed.

(** ** Witnesses *)

(** A kernel with 4 KiB frames that maps virtual address [a] to frame [base + a / 4096]. *)
Definition demo_os (base : Z) : OsPages :=
  MkOsPages 4096 true (λ off, Some (base + off `div` 8)) true (λ _, Some (Z.shiftl 1 17)).
Definition demo_info : MemoryInfo := MkMemoryInfo 0x200000 0 0x400000 0x200000.
Definition demo_table : gmap Z PhysChunk :=
  {[ 0x200000 := MkPhysChunk 0x200000 0x40000000 kPage2Mb;
     0x400000 := MkPhysChunk 0x400000 0x80000000 kPage2Mb ]}.
Definition demo_am : am := MkAm demo_table ∅ 0.

Lemma demo_am_ok : am_ok demo_am.
Proof.
  split; [|apply map_empty_subseteq]. cbn. unfold demo_table. split.
  - intros k c H. rewrite !lookup_insert_Some, lookup_singleton_Some in H.
    destruct H as [[<- <-]|[_ [<- <-]]];
      (split; [done|]); unfold wf_chunk; cbn; split_and!; try done.
  - intros k k' c c' a H H' Hc Hc'. rewrite !lookup_insert_Some, lookup_singleton_Some in H, H'.
    unfold covers in *.
    destruct H as [[<- <-]|[_ [<- <-]]];
      destruct H' as [[<- <-]|[_ [<- <-]]]; try done;
      unfold GetChunkSize in *; cbn in *; unfold VESAL_PAGESIZE, PAGE_BIT_NUM_2MB in *;
      change (Z.shiftl 1 21) with 0x200000 in *; lia.
Qed.

(** A buffer across the two pages of the demo table: two segments. *)
Lemma get_phys_addr_bound_correct_witness :
  let segs := [(0x401ff000, 0x1000); (0x80000000, 0x1000)] in
  seg_sum segs = 0x2000 ∧
  ∀ o, 0 <= o < 0x2000 →
    is_Some (seg_at segs o) ∧ seg_at segs o = translate demo_table (0x3ff000 + o).
Proof.
  pose proof (get_phys_addr_bound_correct 2 0x3ff000 0x2000 demo_am demo_am_ok
                ltac:(lia) ltac:(lia) ltac:(lia)) as H.
  eapply wp_run in H; [|vm_compute; reflexivity]. cbn beta iota in H.
  destruct H as (_ & _ & H & _). destruct (H ltac:(done)) as (_ & _ & _ & H1 & H2).
  split; [exact H1|exact H2].
Defined.

Lemma lookup_one_page_correct_witness :
  wp (LookUpAddrIfNotAcrossBound 0x200010 0x100) (λ r _, r = 0x40000010) demo_am ∧
  wp (LookUpAddrIfNotAcrossBound 0x3ff000 0x2000) (λ r _, r = 0) demo_am.
Proof.
  split.
  - eapply wp_mono; [apply (lookup_one_page_correct 0x200010 0x100 demo_am demo_am_ok); lia|].
    intros r _ [H _]. apply (H (MkPhysChunk 0x200000 0x40000000 kPage2Mb)); vm_compute; done.
  - vm_compute. done.
Defined.

Lemma register_lookup_roundtrip_witness :
  ∃ s', AddExternalEntry (demo_os 0x1000) demo_info (MkAm ∅ ∅ 0) = Ok (true, s') ∧
        wp (LookUpAddr 0x400123) (λ r _, r = (0x1000 + 0x400) * 4096 + 0x123) s'.
Proof.
  assert (H : am_ok (MkAm ∅ ∅ 0)).
  { split; [|done]. by split; [intros k c H|intros k k' c c' a H]. }
  eapply (register_lookup_roundtrip (demo_os 0x1000) demo_info) in H;
    [|done|done|done| |done|done|].
  - eexists. split; [vm_compute; reflexivity|].
    eapply wp_run in H; [|vm_compute; reflexivity]. cbn beta iota in H.
    destruct H as (_ & _ & H). destruct (H eq_refl 0x400123 ltac:(done)) as [_ Hw].
    exact Hw.
  - by intros k c a Hk.
  - intros a Ha. change (0x200000 <= a < 0x600000) in Ha.
    assert (0x200 <= a `div` 4096 < 0x600) as Hd.
    { split; [apply Z.div_le_lower_bound|apply Z.div_lt_upper_bound]; lia. }
    unfold os_phys, page_pfn, CalcPhysAddr. cbn [pagemap_read demo_os getpagesize].
    unfold kPagemapEntrySize. rewrite wrap_small by (unfold in_range; lia).
    rewrite Z.div_mul by done. change kPFNMask with (Z.ones 55).
    rewrite Z.land_ones, Z.mod_small by lia. rewrite (proj2 (Z.eqb_neq _ _)) by lia.
    pose proof (Z.mod_pos_bound a 4096). change (page_size demo_info) with 0x200000.
    rewrite wrap_small by (unfold in_range; lia). lia.
Defined.

(** The thread cache goes stale. A page is registered, translated once, and later
    registered again after the kernel has given the same virtual page another frame (the
    user unmapped and remapped it): the table has the new frame, and [LookUpAddr] in that
    thread still returns the address in the old one. *)
Theorem reregistered_page_stale :
  match (AddExternalEntry (demo_os 0x1000) demo_info;;
         LookUpAddr 0x200000;;
         AddExternalEntry (demo_os 0x9000) demo_info;;
         LookUpAddr 0x200000) (MkAm ∅ ∅ 0) with
  | Ok (r, s) => r = (0x1000 + 0x200) * 4096 ∧
                 translate (memory_info_by_vaddr_ s) 0x200000 = Some ((0x9000 + 0x200) * 4096)
  | Err _ => False
  end.
Proof. vm_compute. done. Qed.
