(* ===== verification/DsaDesc.v ===== *)
(** * DSA descriptors and completion records (src/dsa-uio-config/idxd.h, dsa_uio_config.c)

    A descriptor is 64 bytes of memory, a completion record 32. The [Fill*] functions
    store into the packed fields of [struct dsa_hw_desc] and leave every other byte as it
    was; [DsaCheckCompletion] and [GetCrcInDsaCompletionRecord] read the record. Fields are
    laid out as on x86-64: little endian, bit-fields from the least significant bit. *)

From Stdlib Require Import ZArith Lia.
From stdpp Require Import prelude gmap.
From S2P Require Import Prelude.
Open Scope Z_scope.

(** ** Descriptor flags, opcodes and completion codes *)

Definition IDXD_OP_FLAG_FENCE : Z := 0x0001.
Definition IDXD_OP_FLAG_CRAV : Z := 0x0004.
Definition IDXD_OP_FLAG_RCR : Z := 0x0008.
Definition IDXD_OP_FLAG_CC : Z := 0x0100.

Inductive dsa_opcode :=
| DSA_OPCODE_NOOP | DSA_OPCODE_BATCH | DSA_OPCODE_DRAIN | DSA_OPCODE_MEMMOVE
| DSA_OPCODE_MEMFILL | DSA_OPCODE_COMPARE | DSA_OPCODE_COMPVAL | DSA_OPCODE_CR_DELTA
| DSA_OPCODE_AP_DELTA | DSA_OPCODE_DUALCAST | DSA_OPCODE_TRANSL_FETCH | DSA_OPCODE_CRCGEN
| DSA_OPCODE_COPY_CRC | DSA_OPCODE_DIF_CHECK | DSA_OPCODE_DIF_INS | DSA_OPCODE_DIF_STRP
| DSA_OPCODE_DIF_UPDT | DSA_OPCODE_DIX_GEN | DSA_OPCODE_CFLUSH.

Definition opcode_value (o : dsa_opcode) : Z :=
  match o with
  | DSA_OPCODE_NOOP => 0 | DSA_OPCODE_BATCH => 1 | DSA_OPCODE_DRAIN => 2
  | DSA_OPCODE_MEMMOVE => 3 | DSA_OPCODE_MEMFILL => 4 | DSA_OPCODE_COMPARE => 5
  | DSA_OPCODE_COMPVAL => 6 | DSA_OPCODE_CR_DELTA => 7 | DSA_OPCODE_AP_DELTA => 8
  | DSA_OPCODE_DUALCAST => 9 | DSA_OPCODE_TRANSL_FETCH => 10 | DSA_OPCODE_CRCGEN => 0x10
  | DSA_OPCODE_COPY_CRC => 0x11 | DSA_OPCODE_DIF_CHECK => 0x12 | DSA_OPCODE_DIF_INS => 0x13
  | DSA_OPCODE_DIF_STRP => 0x14 | DSA_OPCODE_DIF_UPDT => 0x15 | DSA_OPCODE_DIX_GEN => 0x17
  | DSA_OPCODE_CFLUSH => 0x20
  end.

Inductive dsa_completion_status :=
| DSA_COMP_NONE | DSA_COMP_SUCCESS | DSA_COMP_SUCCESS_PRED | DSA_COMP_PAGE_FAULT_NOBOF
| DSA_COMP_PAGE_FAULT_IR | DSA_COMP_BATCH_FAIL | DSA_COMP_BATCH_PAGE_FAULT
| DSA_COMP_DR_OFFSET_NOINC | DSA_COMP_DR_OFFSET_ERANGE | DSA_COMP_DIF_ERR
| DSA_COMP_BAD_OPCODE | DSA_COMP_INVALID_FLAGS | DSA_COMP_NOZERO_RESERVE
| DSA_COMP_XFER_ERANGE | DSA_COMP_DESC_CNT_ERANGE | DSA_COMP_DR_ERANGE
| DSA_COMP_OVERLAP_BUFFERS | DSA_COMP_DCAST_ERR | DSA_COMP_DESCLIST_ALIGN
| DSA_COMP_INT_HANDLE_INVAL | DSA_COMP_CRA_XLAT | DSA_COMP_CRA_ALIGN | DSA_COMP_ADDR_ALIGN
| DSA_COMP_PRIV_BAD | DSA_COMP_TRAFFIC_CLASS_CONF | DSA_COMP_PFAULT_RDBA | DSA_COMP_HW_ERR1
| DSA_COMP_HW_ERR_DRB | DSA_COMP_TRANSLATION_FAIL | DSA_COMP_DRAIN_EVL
| DSA_COMP_BATCH_EVL_ERR.

Definition completion_value (s : dsa_completion_status) : Z :=
  match s with
  | DSA_COMP_NONE => 0 | DSA_COMP_SUCCESS => 1 | DSA_COMP_SUCCESS_PRED => 2
  | DSA_COMP_PAGE_FAULT_NOBOF => 3 | DSA_COMP_PAGE_FAULT_IR => 4 | DSA_COMP_BATCH_FAIL => 5
  | DSA_COMP_BATCH_PAGE_FAULT => 6 | DSA_COMP_DR_OFFSET_NOINC => 7
  | DSA_COMP_DR_OFFSET_ERANGE => 8 | DSA_COMP_DIF_ERR => 9 | DSA_COMP_BAD_OPCODE => 0x10
  | DSA_COMP_INVALID_FLAGS => 0x11 | DSA_COMP_NOZERO_RESERVE => 0x12
  | DSA_COMP_XFER_ERANGE => 0x13 | DSA_COMP_DESC_CNT_ERANGE => 0x14
  | DSA_COMP_DR_ERANGE => 0x15 | DSA_COMP_OVERLAP_BUFFERS => 0x16 | DSA_COMP_DCAST_ERR => 0x17
  | DSA_COMP_DESCLIST_ALIGN => 0x18 | DSA_COMP_INT_HANDLE_INVAL => 0x19
  | DSA_COMP_CRA_XLAT => 0x1a | DSA_COMP_CRA_ALIGN => 0x1b | DSA_COMP_ADDR_ALIGN => 0x1c
  | DSA_COMP_PRIV_BAD => 0x1d | DSA_COMP_TRAFFIC_CLASS_CONF => 0x1e
  | DSA_COMP_PFAULT_RDBA => 0x1f | DSA_COMP_HW_ERR1 => 0x20 | DSA_COMP_HW_ERR_DRB => 0x21
  | DSA_COMP_TRANSLATION_FAIL => 0x22 | DSA_COMP_DRAIN_EVL => 0x26
  | DSA_COMP_BATCH_EVL_ERR => 0x27
  end.

(** ** struct dsa_hw_desc: offset and size in bytes of the fields the library uses.
    Members of one union share an offset. [flags] is the 24-bit field above [pasid]'s
    word, [opcode] the 8-bit field after it. *)

Inductive desc_field :=
| f_flags | f_opcode | f_completion_addr | f_src_addr | f_desc_list_addr | f_dst_addr
| f_xfer_size | f_desc_count | f_crc_seed.

Definition desc_offset (f : desc_field) : nat :=
  match f with
  | f_flags => 4 | f_opcode => 7 | f_completion_addr => 8
  | f_src_addr | f_desc_list_addr => 16 | f_dst_addr => 24
  | f_xfer_size | f_desc_count => 32 | f_crc_seed => 40
  end.
Definition desc_bytes (f : desc_field) : nat :=
  match f with
  | f_flags => 3 | f_opcode => 1
  | f_completion_addr | f_src_addr | f_desc_list_addr | f_dst_addr => 8
  | f_xfer_size | f_desc_count | f_crc_seed => 4
  end.

Definition GetDsaHwDescSize : nat := 64.
Definition GetDsaCompletionRecordSize : nat := 32.

Definition set_field (f : desc_field) (v : Z) (desc : list Z) : list Z :=
  store (desc_offset f) (desc_bytes f) v desc.
Definition get_field (f : desc_field) (desc : list Z) : Z :=
  load (desc_offset f) (desc_bytes f) desc.

(** ** The descriptor builders: the assignments in source order. *)

Definition FillBatch (desc_list_size desc_list_addr completion_record_addr : Z)
    (desc : list Z) : list Z :=
  let desc := set_field f_opcode (opcode_value DSA_OPCODE_BATCH) desc in
  let desc := set_field f_flags (Z.lor IDXD_OP_FLAG_RCR IDXD_OP_FLAG_CRAV) desc in
  let desc := set_field f_desc_count desc_list_size desc in
  let desc := set_field f_desc_list_addr desc_list_addr desc in
  set_field f_completion_addr completion_record_addr desc.

Definition FillCrc (src len seed completion_record_addr : Z) (desc : list Z) : list Z :=
  let desc := set_field f_opcode (opcode_value DSA_OPCODE_CRCGEN) desc in
  let desc := set_field f_flags (Z.lor IDXD_OP_FLAG_RCR IDXD_OP_FLAG_CRAV) desc in
  let desc := set_field f_xfer_size len desc in
  let desc := set_field f_src_addr src desc in
  let desc := set_field f_crc_seed seed desc in
  set_field f_completion_addr completion_record_addr desc.

Definition FillCopy (src len dst completion_record_addr : Z) (desc : list Z) : list Z :=
  let desc := set_field f_opcode (opcode_value DSA_OPCODE_MEMMOVE) desc in
  let desc := set_field f_flags
    (Z.lor (Z.lor IDXD_OP_FLAG_RCR IDXD_OP_FLAG_CRAV) IDXD_OP_FLAG_CC) desc in
  let desc := set_field f_xfer_size len desc in
  let desc := set_field f_src_addr src desc in
  let desc := set_field f_dst_addr dst desc in
  set_field f_completion_addr completion_record_addr desc.

Definition FillCopyWithCrc (src len dst seed completion_record_addr : Z)
    (desc : list Z) : list Z :=
  let desc := set_field f_opcode (opcode_value DSA_OPCODE_COPY_CRC) desc in
  let desc := set_field f_flags
    (Z.lor (Z.lor IDXD_OP_FLAG_RCR IDXD_OP_FLAG_CRAV) IDXD_OP_FLAG_CC) desc in
  let desc := set_field f_xfer_size len desc in
  let desc := set_field f_src_addr src desc in
  let desc := set_field f_dst_addr dst desc in
  let desc := set_field f_crc_seed seed desc in
  set_field f_completion_addr completion_record_addr desc.

Definition FillFence (completion_record_addr : Z) (desc : list Z) : list Z :=
  let desc := set_field f_opcode (opcode_value DSA_OPCODE_NOOP) desc in
  let desc := set_field f_flags
    (Z.lor (Z.lor IDXD_OP_FLAG_RCR IDXD_OP_FLAG_CRAV) IDXD_OP_FLAG_FENCE) desc in
  set_field f_completion_addr completion_record_addr desc.

(** ** Completion records: [status] is byte 0, [crc_val] the 8 bytes at offset 16. *)

Definition DSA_TASK_WIP : Z := 0.
Definition DSA_TASK_SUCCESS : Z := 1.
Definition DSA_TASK_FAILURE : Z := -1.

Definition cr_status (cr : list Z) : Z := load 0 1 cr.
Definition cr_crc_val (cr : list Z) : Z := load 16 8 cr.

Definition GetCrcInDsaCompletionRecord (cr : list Z) : Z := u32 (cr_crc_val cr).

Definition DsaCheckCompletion (cr : list Z) : Z :=
  if cr_status cr =? completion_value DSA_COMP_NONE then DSA_TASK_WIP
  else if cr_status cr =? completion_value DSA_COMP_SUCCESS then DSA_TASK_SUCCESS
  else DSA_TASK_FAILURE.

(** ** Lemmas *)

Definition disjoint_fields (f g : desc_field) : bool :=
  bool_decide (desc_offset f + desc_bytes f <= desc_offset g)%nat
  || bool_decide (desc_offset g + desc_bytes g <= desc_offset f)%nat.

Section fields.
Context (desc : list Z) (Hlen : length desc = GetDsaHwDescSize).

Lemma field_room f : (desc_offset f + desc_bytes f <= length desc)%nat.
Proof using Hlen. rewrite Hlen. destruct f; cbn; unfold GetDsaHwDescSize; lia. Qed.
Lemma set_field_length f v : length (set_field f v desc) = GetDsaHwDescSize.
Proof using Hlen. unfold set_field. rewrite store_length by apply field_room. done. Qed.
Lemma get_set_field f v :
  get_field f (set_field f v desc) = wrap (8 * Z.of_nat (desc_bytes f)) v.
Proof using Hlen. apply load_store, field_room. Qed.
Lemma get_set_field_ne f g v :
  disjoint_fields f g = true → get_field f (set_field g v desc) = get_field f desc.
Proof using Hlen.
  intros H. apply load_store_ne; [apply field_room|]. unfold disjoint_fields in H.
  apply orb_true_iff in H as [H|H]; apply bool_decide_eq_true in H; lia.
Qed.
Lemma set_field_other g v i :
  (i < desc_offset g ∨ desc_offset g + desc_bytes g <= i)%nat →
  set_field g v desc !! i = desc !! i.
Proof using Hlen. apply lookup_store, field_room. Qed.
End fields.

(** A builder is a sequence of assignments. *)
Definition build (l : list (desc_field * Z)) (desc : list Z) : list Z :=
  foldl (λ d fv, set_field fv.1 fv.2 d) desc l.

Fixpoint separate (l : list (desc_field * Z)) : bool :=
  match l with
  | [] => true
  | fv :: l => forallb (λ gw, disjoint_fields fv.1 gw.1) l && separate l
  end.

Lemma build_length l desc :
  length desc = GetDsaHwDescSize → length (build l desc) = GetDsaHwDescSize.
Proof. revert desc. induction l; intros desc H; [done|]. by apply IHl, set_field_length. Qed.

Lemma build_frame l desc f :
  length desc = GetDsaHwDescSize → forallb (λ gw, disjoint_fields f gw.1) l = true →
  get_field f (build l desc) = get_field f desc.
Proof.
  revert desc. induction l as [|[g w] l IH]; intros desc H Hd; [done|].
  apply andb_true_iff in Hd as [Hg Hl]. change (build _ _) with (build l (set_field g w desc)).
  rewrite IH by (done || by apply set_field_length). by apply get_set_field_ne.
Qed.

(** With separate fields, every assignment is readable at the end. *)
Lemma build_get l desc f v :
  length desc = GetDsaHwDescSize → separate l = true → (f, v) ∈ l →
  get_field f (build l desc) = wrap (8 * Z.of_nat (desc_bytes f)) v.
Proof.
  revert desc. induction l as [|[g w] l IH]; intros desc H Hs Hin; [by apply not_elem_of_nil in Hin|].
  apply andb_true_iff in Hs as [Hg Hs].
  change (build _ _) with (build l (set_field g w desc)).
  apply elem_of_cons in Hin as [[= -> ->]|Hin]; [|by apply IH; [apply set_field_length|..]].
  rewrite build_frame by (done || by apply set_field_length). by apply get_set_field.
Qed.

Lemma build_other l desc i :
  length desc = GetDsaHwDescSize →
  Forall (λ fv, (i < desc_offset fv.1 ∨ desc_offset fv.1 + desc_bytes fv.1 <= i)%nat) l →
  build l desc !! i = desc !! i.
Proof.
  revert desc. induction l as [|[g w] l IH]; intros desc H Hi; [done|].
  apply Forall_cons in Hi as [Hg Hi]. change (build _ _) with (build l (set_field g w desc)).
  rewrite IH by (done || by apply set_field_length). by apply set_field_other.
Qed.

(** Descriptor [d] was made from [old] by writing the given fields, each readable at its
    width, and no other byte. *)
Definition written (old d : list Z) (l : list (desc_field * Z)) : Prop :=
  length d = GetDsaHwDescSize ∧
  Forall (λ fv, get_field fv.1 d = wrap (8 * Z.of_nat (desc_bytes fv.1)) fv.2) l ∧
  ∀ i, Forall (λ fv, (i < desc_offset fv.1 ∨ desc_offset fv.1 + desc_bytes fv.1 <= i)%nat) l →
       d !! i = old !! i.

Lemma build_written l desc :
  length desc = GetDsaHwDescSize → separate l = true → written desc (build l desc) l.
Proof.
  intros H Hs. split; [by apply build_length|]. split.
  - apply Forall_forall. intros [f v] Hin. by apply build_get.
  - intros i. by apply build_other.
Qed.

(** ** Properties *)

(** Each descriptor builder stores exactly the opcode, the flags, the addresses, the
    length (truncated to 32 bits), the seed and the completion address it is given, every
    one of them readable in the finished descriptor, and changes no other byte: what an
    earlier use left in the remaining fields is still there. *)
Theorem fill_descriptors_spec desc src len dst seed cr n list_addr :
  length desc = GetDsaHwDescSize →
  written desc (FillCopy src len dst cr desc)
    [(f_opcode, 3); (f_flags, 0x10C); (f_xfer_size, len); (f_src_addr, src);
     (f_dst_addr, dst); (f_completion_addr, cr)] ∧
  written desc (FillCrc src len seed cr desc)
    [(f_opcode, 0x10); (f_flags, 0xC); (f_xfer_size, len); (f_src_addr, src);
     (f_crc_seed, seed); (f_completion_addr, cr)] ∧
  written desc (FillCopyWithCrc src len dst seed cr desc)
    [(f_opcode, 0x11); (f_flags, 0x10C); (f_xfer_size, len); (f_src_addr, src);
     (f_dst_addr, dst); (f_crc_seed, seed); (f_completion_addr, cr)] ∧
  written desc (FillBatch n list_addr cr desc)
    [(f_opcode, 1); (f_flags, 0xC); (f_desc_count, n); (f_desc_list_addr, list_addr);
     (f_completion_addr, cr)] ∧
  written desc (FillFence cr desc)
    [(f_opcode, 0); (f_flags, 0xD); (f_completion_addr, cr)].
Proof.
  intros H. split_and!;
    match goal with |- written _ _ ?l => exact (build_written l desc H eq_refl) end.
Qed.

(** The copy of 8 KiB from 0x1000 to 0x9000 with its record at 0x100. *)
Lemma fill_descriptors_spec_witness :
  get_field f_xfer_size (FillCopy 0x1000 0x2000 0x9000 0x100 (replicate 64 0)) = 0x2000 ∧
  get_field f_dst_addr (FillCopy 0x1000 0x2000 0x9000 0x100 (replicate 64 0)) = 0x9000.
Proof.
  destruct (fill_descriptors_spec (replicate 64 0) 0x1000 0x2000 0x9000 0 0x100 0 0 eq_refl)
    as ((_ & H & _) & _).
  repeat (apply Forall_cons_1 in H as [? H]). split; assumption.
Defined.

(** [DsaCheckCompletion] reports work in progress exactly while the status byte is
    [DSA_COMP_NONE], success exactly for [DSA_COMP_SUCCESS], and failure for every other
    documented status and every other byte; the CRC it hands out is the low 32 bits of the
    record's [crc_val]. *)
Theorem check_completion_spec cr :
  let r := DsaCheckCompletion cr in
  (r = DSA_TASK_WIP ↔ cr_status cr = completion_value DSA_COMP_NONE) ∧
  (r = DSA_TASK_SUCCESS ↔ cr_status cr = completion_value DSA_COMP_SUCCESS) ∧
  (r = DSA_TASK_FAILURE ↔ cr_status cr ≠ completion_value DSA_COMP_NONE ∧
                          cr_status cr ≠ completion_value DSA_COMP_SUCCESS) ∧
  (∀ st, cr_status cr = completion_value st → st ≠ DSA_COMP_NONE → st ≠ DSA_COMP_SUCCESS →
         r = DSA_TASK_FAILURE) ∧
  ((length cr = GetDsaCompletionRecordSize)%nat →
   ∀ crc, GetCrcInDsaCompletionRecord (store 16 8 crc cr) = u32 crc).
Proof.
  cbn zeta. unfold DsaCheckCompletion, DSA_TASK_WIP, DSA_TASK_SUCCESS, DSA_TASK_FAILURE.
  change (completion_value DSA_COMP_NONE) with 0. change (completion_value DSA_COMP_SUCCESS) with 1.
  destruct (Z.eqb_spec (cr_status cr) 0) as [E0|E0], (Z.eqb_spec (cr_status cr) 1) as [E1|E1];
    split_and!; try (split; intros; lia); try lia.
  all: try (intros Hl crc; unfold GetCrcInDsaCompletionRecord, cr_crc_val;
            rewrite load_store by (rewrite Hl; unfold GetDsaCompletionRecordSize; lia);
            change (8 * Z.of_nat 8) with 64; unfold wrap;
            change (2 ^ 64) with (2 ^ 32 * 2 ^ 32);
            rewrite Z.rem_mul_r, Z.mul_comm, Z.mod_add, Z.mod_mod by lia; done).
  all: intros st E Hn Hs; rewrite E in *; by destruct st.
Qed.
