(* ===== verification/DsaUio.v ===== *)
(** * The DSA user-space driver (src/dsa-uio-config/user_device.c, dsa_uio_config.c)

    Discovery of the DSA devices bound to a UIO driver, configuration of a device through
    its BAR0 registers, and the table that hands out work queues ([GetNextWorkQueue],
    [ReturnWorkQueue], [EnableDsaWQs]).

    The operating system (shell commands, sysfs files, mmap) and the device's reaction to
    a command or a reset are the parameter [Os]. BAR0 is a map from byte offset to the
    register that starts there. [udi] and [uwi] are the module's static arrays; a pointer
    to an entry is its index. [pthread_mutex] sections run without interleaving. *)

From Stdlib Require Import ZArith Lia.
From stdpp Require Import prelude gmap strings.
From S2P Require Import Prelude.
Open Scope Z_scope.

(** ** Constants *)

Definition ENOMEM : Z := 12.
Definition EIO : Z := 5.
Definition EBUSY : Z := 16.
Definition DSA_DEV_ID : Z := 0x0b25.
Definition MAX_USER_DEVICE : Z := 64.
Definition WQ_SIZE_IDX : Z := 0.
Definition WQ_MODE_IDX : Z := 2.
Definition WQ_SIZES_IDX : Z := 3.
Definition WQ_STATE_IDX : Z := 6.
Definition WQ_MODE_DEDICATED : Z := 1.
Definition WQ_PRIORITY_SHIFT : Z := 4.
Definition WQ_BATCH_SZ_SHIFT : Z := 5.
Definition WQ_STATE_SHIFT : Z := 30.
Definition WQ_STATE_ENABLED : Z := 1.
Definition WQ_IDX : Z := 0.
Definition GENSTS_DEV_STATE_MASK : Z := 0x03.
Definition GENSTS_DEV_STATE_ENABLED : Z := 0x01.
Definition CMDSTATUS_ACTIVE_MASK : Z := Z.shiftl 1 31.
Definition CMDSTATUS_ERR_MASK : Z := 0xFF.
Definition IDXD_CMD_SHIFT : Z := 20.
Definition PCI_COMMAND_MASTER : Z := 0x4.
Definition max_queues : Z := 1.

Inductive rte_idxd_cmds :=
| idxd_enable_dev | idxd_disable_dev | idxd_drain_all | idxd_abort_all | idxd_reset_device
| idxd_enable_wq | idxd_disable_wq | idxd_drain_wq | idxd_abort_wq | idxd_reset_wq.
Definition cmd_value (c : rte_idxd_cmds) : Z :=
  match c with
  | idxd_enable_dev => 1 | idxd_disable_dev => 2 | idxd_drain_all => 3 | idxd_abort_all => 4
  | idxd_reset_device => 5 | idxd_enable_wq => 6 | idxd_disable_wq => 7 | idxd_drain_wq => 8
  | idxd_abort_wq => 9 | idxd_reset_wq => 10
  end.

(** Offsets of the BAR0 registers ([struct rte_idxd_bar0]) and of the fields of one group
    entry ([struct rte_idxd_grpcfg], 64 bytes). *)
Definition reg_version : Z := 0x00.
Definition reg_gencap : Z := 0x10.
Definition reg_wqcap : Z := 0x20.
Definition reg_grpcap : Z := 0x30.
Definition reg_engcap : Z := 0x38.
Definition reg_offsets : Z := 0x60.
Definition reg_gensts : Z := 0x90.
Definition reg_cmd : Z := 0xA0.
Definition reg_cmdstatus : Z := 0xA8.
Definition sizeof_grpcfg : Z := 64.
Definition off_grpengcfg : Z := 32.
Definition off_grpflags : Z := 40.

(** ** Hardware and operating system *)

Record hw := MkHw { bar0 : gmap Z Z; pci_command : Z }.
#[export] Instance eta_hw : Eta hw := λ r, MkHw (bar0 r) (pci_command r).
Definition rd (h : hw) (off : Z) : Z := default 0 (bar0 h !! off).
Definition wr (off v : Z) (h : hw) : hw := h <| bar0 ::= <[off := v]> |>.

(** Outcome of reading a device id file: an [errno] or the number it holds. *)
Inductive file_read := OpenFails (err : Z) | ReadFails (err : Z) | Content (v : Z).

Record Os := MkOs {
  (** popen of the counting command: [None] when it fails, else the rc and value of fscanf *)
  count_uio : option (Z * Z);
  count_vfio : option (Z * Z);
  bdf_lines : option (list string);
  numa_file : string → option Z;
  device_file : string → file_read;
  (** lines printed by "which lsof | wc -l" and by lsof for a device, [None] when unreadable *)
  lsof_found : option Z;
  lsof_users : string → option Z;
  (** mmap of a resource file, 0 when it fails *)
  map_resource : string → string → Z;
  uio_name_of : string → option string;
  reset_cmd_rc : string → Z;
  open_config : string → option Z;  (** [Some errno] when open fails *)
  pread_ok : bool;
  pwrite_ok : bool;
  alloc_ok : bool;                   (** calloc and malloc succeed *)
  hw_reset : hw → hw;
  (** effect of writing the command register, and the values later reads of cmdstatus see *)
  hw_exec : hw → Z → hw * (nat → Z) }.

(** ** State *)

Record idxd_pci_common := MkPci { wq_cfg_sz : Z; regs : Z; wq_regs_base : Z; grp_regs : Z }.

Record udev_info := MkUdev {
  bdf : option string; dev_id : Z; pci : option idxd_pci_common; dmap_fd : Z;
  wq_avail : Z; dev_nb_wq : Z; nb_engines : Z; numa_node : Z;
  resource0 : Z; resource1 : Z; init_done : bool }.
#[export] Instance eta_udev : Eta udev_info := λ r,
  MkUdev (bdf r) (dev_id r) (pci r) (dmap_fd r) (wq_avail r) (dev_nb_wq r) (nb_engines r)
         (numa_node r) (resource0 r) (resource1 r) (init_done r).
(** calloc'ed entry *)
Definition udev_zero : udev_info := MkUdev None 0 None 0 0 0 0 0 0 0 false.

Record ud_wq_info := MkUdWq { ptr : Z; wq_id : Z; wq_udi : nat }.
#[export] Instance eta_udwq : Eta ud_wq_info := λ r, MkUdWq (ptr r) (wq_id r) (wq_udi r).

Record ud := MkUd {
  udi : list udev_info; uwi : list ud_wq_info; nb_udev : nat; nb_wq : Z;
  uio_cnt : Z; vfio_cnt : Z; errno : Z; hws : gmap string hw }.
#[export] Instance eta_ud : Eta ud := λ r,
  MkUd (udi r) (uwi r) (nb_udev r) (nb_wq r) (uio_cnt r) (vfio_cnt r) (errno r) (hws r).

Definition get_udev (i : nat) : ST ud udev_info :=
  s ← get; need OutOfBounds (udi s !! i).
Definition upd_udev (i : nat) (f : udev_info → udev_info) : ST ud unit :=
  modify (λ s, s <| udi ::= alter f i |>).
Definition get_hw (b : string) : ST ud hw := s ← get; need NullDeref (hws s !! b).
Definition put_hw (b : string) (h : hw) : ST ud unit := modify (λ s, s <| hws ::= <[b := h]> |>).

(** ** Device commands *)

(** The polling loop: [n] is [1000 - i]; [k] counts the reads of cmdstatus. *)
Fixpoint cmd_poll (st : nat → Z) (n k : nat) : Z :=
  let err_code := u8 (st k) in
  match n with
  | O | S O => err_code
  | S n => if Z.land (st (S k)) CMDSTATUS_ACTIVE_MASK =? 0
           then Z.land err_code CMDSTATUS_ERR_MASK
           else cmd_poll st n (S (S k))
  end.

Definition idxd_pci_dev_command (os : Os) (b : string) (p : option idxd_pci_common)
    (command : rte_idxd_cmds) : ST ud Z :=
  need NullDeref p;;
  let qid := if (cmd_value idxd_disable_wq <=? cmd_value command)
                && (cmd_value command <=? cmd_value idxd_reset_wq) then Z.shiftl 1 0 else 0 in
  let cmd := Z.lor (Z.shiftl (cmd_value command) IDXD_CMD_SHIFT) qid in
  h ← get_hw b;
  let '(h, st) := hw_exec os (wr reg_cmd cmd h) cmd in
  put_hw b h;;
  mret (cmd_poll st 1000 0).

(** Byte offset, in BAR0, of word [k] of a work queue's configuration. *)
Definition idxd_get_wq_cfg (p : idxd_pci_common) (wq_idx k : Z) : Z :=
  wq_regs_base p + Z.shiftl wq_idx (5 + wq_cfg_sz p) + 4 * k.

Definition pci_uio_set_bus_master (os : Os) (b : string) : ST ud Z :=
  if negb (pread_ok os) then mret (- EIO)
  else
    h ← get_hw b;
    if negb (Z.land (pci_command h) PCI_COMMAND_MASTER =? 0) then mret 0
    else if negb (pwrite_ok os) then mret (- EIO)
    else put_hw b (h <| pci_command ::= λ r, Z.lor r PCI_COMMAND_MASTER |>);; mret 0.

Definition uio_setup_device (os : Os) (b : string) : ST ud Z :=
  match uio_name_of os b with
  | None => mret (- EIO)
  | Some uio_name =>
      if reset_cmd_rc os b =? -1 then mret (- EIO)
      else
        h ← get_hw b;
        put_hw b (hw_reset os h);;
        match open_config os uio_name with
        | Some e => modify (λ s, s <| errno := e |>);; mret (- e)
        | None => pci_uio_set_bus_master os b;; mret 0
        end
  end.

(** ** Device configuration *)

(** [pci->grp_regs[i]] field at [off]: its BAR0 offset. *)
Definition grp_reg (p : idxd_pci_common) (i : Z) (off : Z) : Z :=
  grp_regs p + sizeof_grpcfg * i + off.

Definition set_tc (v : Z) : Z :=
  let v := Z.lor (Z.ldiff v 0x7) 1 in Z.lor (Z.ldiff v 0x38) (Z.shiftl 1 3).

Definition clear_group (p : idxd_pci_common) (h : hw) (i : nat) : hw :=
  let h := wr (grp_reg p (Z.of_nat i) off_grpengcfg) 0 h in
  let h := wr (grp_reg p (Z.of_nat i) 0) 0 h in
  if Z.land (Z.shiftr (rd h reg_version) 8) 0xFF <=? 2
  then wr (grp_reg p 0 off_grpflags) (set_tc (rd h (grp_reg p 0 off_grpflags))) h else h.

Definition clear_wq (p : idxd_pci_common) (h : hw) (i : nat) : hw :=
  wr (idxd_get_wq_cfg p (Z.of_nat i) 0) 0 h.

Definition assign_engine (p : idxd_pci_common) (h : hw) (i : nat) : hw :=
  wr (grp_reg p 0 off_grpengcfg)
     (u64 (Z.lor (rd h (grp_reg p 0 off_grpengcfg)) (Z.shiftl 1 (Z.of_nat i)))) h.

Definition assign_wq (p : idxd_pci_common) (nb_groups wq_size lg2_max_copy lg2_max_batch : Z)
    (h : hw) (i : nat) : hw :=
  let g := grp_reg p (Z.of_nat i mod nb_groups) 0 in
  let h := wr g (u64 (Z.lor (rd h g) (Z.shiftl 1 (Z.of_nat i)))) h in
  let h := wr (idxd_get_wq_cfg p (Z.of_nat i) WQ_SIZE_IDX) wq_size h in
  let h := wr (idxd_get_wq_cfg p (Z.of_nat i) WQ_MODE_IDX)
              (Z.lor (Z.shiftl 1 WQ_PRIORITY_SHIFT) WQ_MODE_DEDICATED) h in
  wr (idxd_get_wq_cfg p (Z.of_nat i) WQ_SIZES_IDX)
     (Z.lor lg2_max_copy (Z.shiftl lg2_max_batch WQ_BATCH_SZ_SHIFT)) h.

(** The register writes of the configuration branch, up to the enable command. Dividing
    by zero work queues or taking an index modulo zero groups faults. *)
Definition configure (p : idxd_pci_common) (max_engines : Z) (h : hw) : res hw :=
  let nb_groups := u8 (rd h reg_grpcap) in
  let nb_engines := u8 (rd h reg_engcap) in
  let nb_wqs := u8 (Z.shiftr (rd h reg_wqcap) 16) in
  let total_wq_size := u16 (rd h reg_wqcap) in
  let lg2_max_copy_size := Z.land (u8 (Z.shiftr (rd h reg_gencap) 16)) 0x1F in
  let lg2_max_batch := Z.land (u8 (Z.shiftr (rd h reg_gencap) 21)) 0x0F in
  let h := foldl (clear_group p) h (seq 0 (Z.to_nat nb_groups)) in
  let h := foldl (clear_wq p) h (seq 0 (Z.to_nat nb_wqs)) in
  let nb_wqs := if negb (max_queues =? 0) && (max_queues <? nb_wqs) then max_queues else nb_wqs in
  let h := foldl (assign_engine p) h (seq 0 (Z.to_nat (Z.min nb_engines max_engines))) in
  if nb_wqs =? 0 then Err DivByZero
  else
    let wq_size := total_wq_size `div` nb_wqs in
    if nb_groups =? 0 then Err DivByZero
    else Ok (foldl (assign_wq p nb_groups wq_size lg2_max_copy_size lg2_max_batch) h
                   (seq 0 (Z.to_nat nb_wqs))).

Definition init_pci_device (os : Os) (d : nat) (read_only : bool) : ST ud Z :=
  u ← get_udev d;
  if negb (alloc_ok os) then mret (- ENOMEM)
  else
    check_null (resource0 u);;
    b ← need NullDeref (bdf u);
    h ← get_hw b;
    let grp_offset := u16 (rd h reg_offsets) in
    let wq_offset := u16 (Z.shiftr (rd h reg_offsets) 16) in
    let p := MkPci (Z.land (Z.shiftr (rd h reg_wqcap) 24) 0x0F) (resource0 u)
                   (wq_offset * 0x100) (grp_offset * 0x100) in
    s ← get;
    if negb read_only then
      if negb (Z.land (rd h reg_gensts) GENSTS_DEV_STATE_MASK =? 0) then mret (- errno s)
      else if negb (Z.land (rd h reg_cmdstatus) CMDSTATUS_ACTIVE_MASK =? 0) then mret (- errno s)
      else
        h ← lift (configure p (nb_engines u) h);
        put_hw b h;;
        err_code ← idxd_pci_dev_command os b (Some p) idxd_enable_dev;
        if negb (err_code =? 0) then mret (- EIO)
        else upd_udev d (λ u, u <| pci := Some p |>);; mret 0
    else
      if negb (Z.land (rd h reg_gensts) GENSTS_DEV_STATE_MASK =? GENSTS_DEV_STATE_ENABLED)
      then mret (- errno s)
      else if negb (Z.shiftr (rd h (idxd_get_wq_cfg p WQ_IDX WQ_STATE_IDX)) WQ_STATE_SHIFT
                    =? WQ_STATE_ENABLED)
      then mret (- errno s)
      else upd_udev d (λ u, u <| pci := Some p |>);; mret 0.

(** ** Bringing up a device *)

(** Returns 1 when lsof sees a process using the device, 0 otherwise or when unknown. *)
Definition uio_dev_busy (os : Os) (b : string) : bool :=
  match lsof_found os with
  | None => false
  | Some _ => match lsof_users os b with
              | None => false
              | Some cnt => negb (cnt =? 0)
              end
  end.

Definition uio_map (os : Os) (b resource : string) : Z := map_resource os b resource.

(** strtoul overflows to ULONG_MAX; otherwise the result is truncated to int. *)
Definition pci_dev_id (os : Os) (b : string) : ST ud Z :=
  match device_file os b with
  | OpenFails e | ReadFails e => modify (λ s, s <| errno := e |>);; mret (- e)
  | Content didl =>
      s ← get;
      if didl =? 2 ^ 64 - 1 then mret (- errno s) else mret (s32 didl)
  end.

Definition uio_init (os : Os) (d : nat) (read_only : bool) : ST ud Z :=
  u ← get_udev d;
  b ← need NullDeref (bdf u);
  if negb read_only && uio_dev_busy os b then mret (- EBUSY)
  else
    upd_udev d (λ u, u <| resource0 := uio_map os b "resource0" |>);;
    upd_udev d (λ u, u <| resource1 := uio_map os b "resource2" |>);;
    rc ← (if negb read_only then uio_setup_device os b else mret 0);
    if negb (rc =? 0) then mret rc
    else
      rc ← init_pci_device os d read_only;
      if negb (rc =? 0) then mret rc
      else
        upd_udev d (λ u, u <| dmap_fd := -1 |>);;
        rc ← pci_dev_id os b;
        if rc <? 0 then mret rc
        else upd_udev d (λ u, u <| dev_id := s16 rc |>);; mret 0.

(** ** Discovery *)

Definition udev_count (r : option (Z * Z)) : Z :=
  match r with
  | None => 0
  | Some (rc, v) =>
      let cnt := if rc =? 1 then v else 0 in
      if MAX_USER_DEVICE <? cnt then 0
      else if (rc =? 0) || (rc =? -1) then 0 else cnt
  end.
Definition vfio_dev_count (os : Os) : Z := udev_count (count_vfio os).
Definition uio_dev_count (os : Os) : Z := udev_count (count_uio os).

(** Length of the command that asprintf builds for the numa_node file. *)
Definition numa_cmd_len (b : string) : Z := 35 + Z.of_nat (String.length b).

(** The device loop: [i] is the next entry to fill, [rc] the variable the loop leaves
    behind. A device of another kind is skipped and its entry reused. *)
Fixpoint probe_loop (os : Os) (nb_user_eng : Z) (lines : list string) (i : nat) (rc : Z)
    : ST ud Z :=
  s ← get;
  if bool_decide (nb_udev s <= i)%nat then mret rc
  else match lines with
  | [] => mret rc
  | line :: lines =>
      if bool_decide (line = EmptyString) then mret 0
      else
        upd_udev i (λ u, u <| bdf := Some line |>);;
        upd_udev i (λ u, u <| numa_node := default (-1) (numa_file os line) |>);;
        id ← pci_dev_id os line;
        upd_udev i (λ u, u <| dev_id := s16 id |>);;
        if s16 id <? 0 then mret (s16 id)
        else if negb (s16 id =? DSA_DEV_ID) then
          probe_loop os nb_user_eng lines i (numa_cmd_len line)
        else
          upd_udev i (λ u, u <| nb_engines := u32 nb_user_eng |>);;
          upd_udev i (λ u, u <| dev_nb_wq := 1 |>);;
          upd_udev i (λ u, u <| wq_avail := 1 |>);;
          modify (λ s, s <| nb_wq ::= Z.add 1 |>);;
          probe_loop os nb_user_eng lines (S i) 0
  end.

Definition dpdk_init : Z := 0.

Definition user_driver_init (os : Os) (nb_user_eng : Z) : ST ud Z :=
  modify (λ s, s <| uio_cnt := uio_dev_count os |>);;
  modify (λ s, s <| vfio_cnt := vfio_dev_count os |>);;
  let n := uio_dev_count os in
  modify (λ s, s <| nb_udev := Z.to_nat n |>);;
  if n =? 0 then mret (-1)
  else if negb (dpdk_init =? 0) then mret dpdk_init
  else if negb (alloc_ok os) || (n <? 0) then mret (- ENOMEM)
  else
    modify (λ s, s <| udi := replicate (Z.to_nat n) udev_zero |>);;
    match bdf_lines os with
    | None => mret (- EIO)
    | Some lines =>
        modify (λ s, s <| nb_wq := 0 |>);;
        rc ← probe_loop os nb_user_eng lines 0 0;
        if negb (rc =? 0) then mret rc
        else modify (λ s, s <| uwi := replicate (Z.to_nat (nb_wq s)) (MkUdWq 0 0 0) |>);; mret 0
    end.

(** ** The work queue table *)

(** lfind: the first entry whose [ptr] equals the key. *)
Definition find_ptr (key : Z) (l : list ud_wq_info) : option nat :=
  fst <$> list_find (λ w, ptr w = key) l.

(** The bdf without its "0000:" prefix. *)
Definition bdf_tail (b : string) : string := String.substring 5 (String.length b - 5) b.

(** [__builtin_ffs(x) - 1] on a positive value. *)
Fixpoint ctz (p : positive) : Z :=
  match p with xO p => 1 + ctz p | _ => 0 end.
Definition ffs1 (x : Z) : Z := match x with Zpos p => ctz p | Zneg p => ctz p | 0 => -1 end.

Fixpoint wq_find_loop (os : Os) (dname : option string) (numa : Z) (read_only : bool)
    (pq : nat) (todo : list nat) (id : Z) : ST ud unit :=
  match todo with
  | [] => mret ()
  | i :: todo =>
      pd ← get_udev i;
      other ← match dname with
              | None => mret false
              | Some dn => b ← need NullDeref (bdf pd); mret (bool_decide (dn ≠ bdf_tail b))
              end;
      if other : bool then wq_find_loop os dname numa read_only pq todo id
      else if (bool_decide (dname = None) && negb (numa =? -1)) && negb (numa =? numa_node pd)
      then wq_find_loop os dname numa read_only pq todo id
      else if bool_decide (dname ≠ None) && (wq_avail pd =? 0) then mret ()
      else if wq_avail pd =? 0 then wq_find_loop os dname numa read_only pq todo id
      else if negb (id =? -1) && (Z.land (wq_avail pd) (Z.shiftl 1 id) =? 0) then mret ()
      else
        let id := if id =? -1 then ffs1 (wq_avail pd) else id in
        rc ← (if negb (init_done pd) then uio_init os i read_only else mret 0);
        if negb (rc =? 0) then
          if bool_decide (dname ≠ None) then mret ()
          else wq_find_loop os dname numa read_only pq todo id
        else
          upd_udev i (λ u, u <| init_done := true |>);;
          pd ← get_udev i;
          (if read_only then mret 0
           else b ← need NullDeref (bdf pd); idxd_pci_dev_command os b (pci pd) idxd_enable_wq);;
          upd_udev i (λ u, u <| wq_avail ::= λ a, Z.land a (Z.lnot (Z.shiftl 1 id)) |>);;
          modify (λ s, s <| uwi ::= alter (λ _,
            MkUdWq (u64 (resource1 pd + id * 4096 * 4)) id i) pq |>)
  end.

Definition ud_wq_find (os : Os) (dname : option string) (id : Z) (shared : bool) (numa : Z)
    (read_only : bool) : ST ud (option nat) :=
  if shared then mret None
  else
    s ← get;
    match find_ptr 0 (take (Z.to_nat (nb_wq s)) (uwi s)) with
    | None => mret None
    | Some pq =>
        wq_find_loop os dname numa read_only pq (seq 0 (nb_udev s)) id;;
        s ← get;
        w ← need OutOfBounds (uwi s !! pq);
        mret (if ptr w =? 0 then None else Some pq)
    end.

Definition ud_wq_get (os : Os) (dname : option string) (id : Z) (shared : bool) (numa : Z)
    (read_only : bool) : ST ud Z :=
  r ← ud_wq_find os dname id shared numa read_only;
  match r with
  | None => mret 0
  | Some pq => s ← get; w ← need OutOfBounds (uwi s !! pq); mret (ptr w)
  end.

Record UioWqInfo := MkUioWqInfo { info_bdf : option string; info_numa_node : Z; portal : Z }.

Definition ud_wq_get_next (os : Os) : ST ud (option UioWqInfo) :=
  r ← ud_wq_find os None (-1) false (-1) true;
  match r with
  | None => mret None
  | Some pq =>
      s ← get;
      w ← need OutOfBounds (uwi s !! pq);
      pd ← get_udev (wq_udi w);
      mret (Some (MkUioWqInfo (bdf pd) (numa_node pd) (ptr w)))
  end.

Definition ud_wq_unmap (p : Z) : ST ud unit :=
  s ← get;
  pq ← need NullDeref (find_ptr p (take (Z.to_nat (nb_wq s)) (uwi s)));
  w ← need OutOfBounds (uwi s !! pq);
  upd_udev (wq_udi w) (λ u, u <| wq_avail ::= λ a, Z.lor a (Z.shiftl 1 (wq_id w)) |>);;
  modify (λ s, s <| uwi ::= alter (λ w, w <| ptr := 0 |>) pq |>).

Record wq_info := MkWqInfo {
  dname : option string; wqi_dmap_fd : Z; wqi_size : Z; dwq : Z; dev_is_dsa : bool }.

Definition ud_wq_info_get (p : Z) : ST ud wq_info :=
  s ← get;
  pq ← need NullDeref (find_ptr p (take (Z.to_nat (nb_wq s)) (uwi s)));
  w ← need OutOfBounds (uwi s !! pq);
  pd ← get_udev (wq_udi w);
  pc ← need NullDeref (pci pd);
  b ← need NullDeref (bdf pd);
  h ← get_hw b;
  mret (MkWqInfo (bdf pd) (dmap_fd pd) (rd h (idxd_get_wq_cfg pc 0 WQ_SIZE_IDX)) 1
                 (dev_id pd =? 0xb25)).

Definition ud_iommu_disabled : ST ud bool := s ← get; mret (negb (uio_cnt s =? 0)).

(** ** Entry points of dsa_uio_config.c *)

(** [init] is the function's static flag; the result is the new flag and the code. *)
Definition InitDsaConfig (os : Os) (init : bool) : ST ud (bool * Z) :=
  if init then mret (true, 0)
  else rc ← user_driver_init os (-1); mret (true, rc).

Definition GetNextWorkQueue (os : Os) : ST ud (option UioWqInfo) := ud_wq_get_next os.

Definition ReturnWorkQueue (info : UioWqInfo) : ST ud unit :=
  if negb (portal info =? 0) then ud_wq_unmap (portal info) else mret ().

Fixpoint enable_loop (os : Os) (fuel : nat) (enabled_wq_num : Z) : ST ud Z :=
  match fuel with
  | O => raise OutOfFuel
  | S fuel =>
      result ← ud_wq_get os None (-1) false (-1) false;
      if result =? 0 then mret enabled_wq_num
      else enable_loop os fuel (enabled_wq_num + 1)
  end.
(** Every round takes one free entry of [uwi]. *)
Definition EnableDsaWQs (os : Os) : ST ud Z :=
  s ← get; enable_loop os (S (length (uwi s))) 0.
