(* ===== verification/DsaUioTable.v ===== *)
(** * The DSA work queue table: invariant and properties

    The table [uwi] hands every queue out at most once: the invariant [ud_inv], its
    preservation by discovery, search and return, and the theorems on
    [GetNextWorkQueue], [ReturnWorkQueue], [EnableDsaWQs] and [user_driver_init]. *)

From Stdlib Require Import ZArith Lia.
From stdpp Require Import prelude gmap strings.
From S2P Require Import Prelude DsaUio.
Open Scope Z_scope.

(** ** The invariant of the work queue table *)

Definition used (w : ud_wq_info) : Prop := ptr w ≠ 0.
#[export] Instance used_dec w : Decision (used w).
Proof. unfold used. apply _. Defined.

(** The devices the system lists. *)
Definition bdfs (os : Os) : list string := default [] (bdf_lines os).

Record ud_inv (os : Os) (s : ud) : Prop := {
  inv_uwi : Z.of_nat (length (uwi s)) = nb_wq s;
  inv_udi : length (udi s) = nb_udev s;
  (** a free queue belongs to a known device *)
  inv_avail : ∀ i u, udi s !! i = Some u →
    wq_avail u = 0 ∨ wq_avail u = 1 ∧ ∃ b, bdf u = Some b;
  inv_hw : ∀ i u b, udi s !! i = Some u → bdf u = Some b → b ∈ bdfs os ∧ is_Some (hws s !! b);
  inv_bdf : ∀ i j u v b, udi s !! i = Some u → udi s !! j = Some v →
    bdf u = Some b → bdf v = Some b → i = j;
  inv_init : ∀ i u b, udi s !! i = Some u → bdf u = Some b → init_done u = true →
    resource1 u = map_resource os b "resource2";
  (** an entry in use holds queue 0 of a device that has no free queue *)
  inv_used : ∀ j w, uwi s !! j = Some w → used w → wq_id w = 0 ∧
    ∃ u b, udi s !! wq_udi w = Some u ∧ wq_avail u = 0 ∧ bdf u = Some b ∧
           ptr w = map_resource os b "resource2";
  inv_excl : ∀ j k w v, uwi s !! j = Some w → uwi s !! k = Some v → used w → used v →
    wq_udi w = wq_udi v → j = k }.

Definition used_count (s : ud) : nat := length (filter used (uwi s)).

(** What the driver relies on and does not check: opening and mapping the resource files
    succeeds, so that a mapped BAR is a non-null address, and the portals of two devices are
    mapped at different addresses. What happens otherwise is in [unmapped_registers_fault] and
    [unmapped_portal_lost] below. *)
Definition maps_ok (os : Os) : Prop :=
  (∀ b, map_resource os b "resource0" ≠ 0) ∧
  (∀ b, 0 < map_resource os b "resource2" < 2 ^ 64) ∧
  (∀ b b', b ∈ bdfs os → b' ∈ bdfs os →
     map_resource os b "resource2" = map_resource os b' "resource2" → b = b').

(** Device [d] may have new registers and resources; everything else is as before. *)
Record dev_frame (d : nat) (u : udev_info) (s s' : ud) (u' : udev_info) : Prop := {
  df_udi : udi s' = <[d := u']> (udi s);
  df_uwi : uwi s' = uwi s;
  df_nu : nb_udev s' = nb_udev s;
  df_nw : nb_wq s' = nb_wq s;
  df_hws : ∀ b, is_Some (hws s' !! b) ↔ is_Some (hws s !! b);
  df_bdf : bdf u' = bdf u;
  df_avail : wq_avail u' = wq_avail u;
  df_init : init_done u' = init_done u }.

Lemma dev_frame_refl d u s : udi s !! d = Some u → dev_frame d u s s u.
Proof. intros. split; try done. by rewrite list_insert_id. Qed.

Lemma dev_frame_trans d u u1 u2 s s1 s2 :
  dev_frame d u s s1 u1 → dev_frame d u1 s1 s2 u2 → dev_frame d u s s2 u2.
Proof.
  intros [] []. split; try congruence.
  - rewrite df_udi1, df_udi0. apply list_insert_insert_eq.
  - intros b. by rewrite df_hws1.
Qed.

Lemma wp_get_udev i u s (Q : udev_info → ud → Prop) :
  udi s !! i = Some u → Q u s → wp (get_udev i) Q s.
Proof. intros E HQ. unfold get_udev. wp_steps. by apply (wp_need _ _ u). Qed.
Lemma wp_get_hw b h s (Q : hw → ud → Prop) : hws s !! b = Some h → Q h s → wp (get_hw b) Q s.
Proof. intros E HQ. unfold get_hw. wp_steps. by apply (wp_need _ _ h). Qed.

(** One field update of device [d], followed by [Q]. *)
Lemma wp_upd_udev d f u s (Q : unit → ud → Prop) :
  udi s !! d = Some u →
  bdf (f u) = bdf u → wq_avail (f u) = wq_avail u → init_done (f u) = init_done u →
  (∀ s', dev_frame d u s s' (f u) → udi s' !! d = Some (f u) → hws s' = hws s → errno s' = errno s →
         Q () s') →
  wp (upd_udev d f) Q s.
Proof.
  intros E H1 H2 H3 HQ. unfold upd_udev. wp_steps. apply HQ; try done.
  - split; try done. cbn. by apply list_alter_insert.
  - cbn. by rewrite list_lookup_alter_eq, E.
Qed.

Lemma put_hw_frame d u b h s :
  udi s !! d = Some u → is_Some (hws s !! b) → dev_frame d u s (s <| hws ::= <[b := h]> |>) u.
Proof.
  intros E Hb. split; try done; cbn.
  - by rewrite list_insert_id.
  - intros b'. destruct (decide (b' = b)) as [->|]; [|by rewrite lookup_insert_ne].
    rewrite lookup_insert_eq. split; eauto.
Qed.

Lemma wp_dev_command os b p c s (Q : Z → ud → Prop) :
  is_Some (hws s !! b) →
  (∀ h r, Q r (s <| hws ::= <[b := h]> |>)) → wp (idxd_pci_dev_command os b (Some p) c) Q s.
Proof.
  intros [h E] HQ. unfold idxd_pci_dev_command, need. wp_steps. apply (wp_get_hw b h); [done|].
  destruct (hw_exec os _ _) as [h' st]. unfold put_hw. wp_steps. apply HQ.
Qed.

(** The state a reset leaves a device in: disabled, idle, with at least one group and one
    work queue. *)
Definition ready (h : hw) : Prop :=
  Z.land (rd h reg_gensts) GENSTS_DEV_STATE_MASK = 0 ∧
  Z.land (rd h reg_cmdstatus) CMDSTATUS_ACTIVE_MASK = 0 ∧
  u8 (rd h reg_grpcap) ≠ 0 ∧ u8 (Z.shiftr (rd h reg_wqcap) 16) ≠ 0.

Lemma configure_ok p n h : ready h → ∃ h', configure p n h = Ok h'.
Proof.
  intros (_ & _ & Hg & Hw). unfold configure. cbn zeta.
  assert (∀ w, w ≠ 0 →
    ((if negb (max_queues =? 0) && (max_queues <? w) then max_queues else w) =? 0) = false) as Hq.
  { intros w Hn. apply Z.eqb_neq. destruct (_ && _); [done|lia]. }
  rewrite Hq by done. apply Z.eqb_neq in Hg. rewrite Hg. eauto.
Qed.

Section bring_up.
Context (os : Os) (Hmaps : maps_ok os).
Implicit Types (u : udev_info) (s : ud).

Lemma wp_init_pci_device d ro u b h s (Q : Z → ud → Prop) :
  udi s !! d = Some u → bdf u = Some b → hws s !! b = Some h → resource0 u ≠ 0 →
  (ro = false → ready h) →
  (∀ rc s' u', dev_frame d u s s' u' → udi s' !! d = Some u' → resource1 u' = resource1 u →
     (rc = 0 → ro = false → is_Some (pci u')) → Q rc s') →
  wp (init_pci_device os d ro) Q s.
Proof using Type.
  intros E Eb Eh Hr Hrdy HQ. pose proof (dev_frame_refl d u s E) as Hrefl.
  unfold init_pci_device. wp_steps. apply (wp_get_udev d u); [done|].
  destruct (alloc_ok os); cbn [negb]; [|wp_steps; by apply (HQ _ s u)].
  wp_steps. unfold check_null. rewrite (proj2 (Z.eqb_neq _ _) Hr). wp_steps.
  apply (wp_need _ _ b); [done|]. apply wp_bind, (wp_get_hw b h); [done|]. wp_steps.
  set (p := MkPci _ _ _ _). destruct ro; cbn [negb].
  - do 2 (destruct (negb _); [wp_steps; by apply (HQ _ s u)|]). wp_steps.
    apply (wp_upd_udev d _ u); try done. intros s' Hf Hu _ _. wp_steps. by eapply HQ.
  - destruct (Hrdy eq_refl) as (H1 & H2 & _). rewrite H1, H2. cbn [negb Z.eqb].
    destruct (configure_ok p (nb_engines u) h (Hrdy eq_refl)) as [h' ->]. wp_steps.
    unfold put_hw. wp_steps. apply wp_dev_command; [cbn; rewrite lookup_insert_eq; eauto|].
    intros h2 r. set (s1 := s <| hws ::= <[b := h']> |>).
    set (s2 := s1 <| hws ::= <[b := h2]> |>).
    assert (dev_frame d u s s2 u) as Hf.
    { eapply dev_frame_trans; [apply put_hw_frame; eauto|]. apply put_hw_frame; [done|].
      cbn. rewrite lookup_insert_eq; eauto. }
    destruct (negb _) eqn:Er; wp_steps; [apply (HQ _ s2 u); try done; lia|].
    apply (wp_upd_udev d _ u); try done. intros s' Hf' Hu _ _. wp_steps.
    eapply HQ; [by eapply dev_frame_trans|done|done|]. intros _ _. eexists. done.
Qed.

Lemma wp_uio_setup_device d b u h s (Q : Z → ud → Prop) :
  udi s !! d = Some u → hws s !! b = Some h →
  (∀ rc s', dev_frame d u s s' u → udi s' !! d = Some u →
     (rc = 0 → ∃ h', hws s' !! b = Some h' ∧ bar0 h' = bar0 (hw_reset os h)) → Q rc s') →
  (∀ n e, open_config os n = Some e → e ≠ 0) →
  wp (uio_setup_device os b) Q s.
Proof using Type.
  intros E Eh HQ He. pose proof (dev_frame_refl d u s E) as Hrefl.
  unfold uio_setup_device. destruct (uio_name_of os b) as [n|]; [|wp_steps; by apply HQ].
  destruct (_ =? -1); [wp_steps; by apply HQ|]. wp_steps. apply (wp_get_hw b h); [done|].
  unfold put_hw. wp_steps. set (s1 := upd hws _ _).
  assert (dev_frame d u s s1 u) as Hf1 by (apply put_hw_frame; eauto).
  assert (hws s1 !! b = Some (hw_reset os h)) as Eh1 by apply lookup_insert_eq.
  destruct (open_config os n) as [e|] eqn:Eo; wp_steps.
  - apply HQ; [|done|]; [destruct Hf1; by split|]. specialize (He _ _ Eo). lia.
  - unfold pci_uio_set_bus_master. destruct (negb _); wp_steps; [apply HQ; eauto|].
    apply (wp_get_hw b (hw_reset os h)); [done|]. 
    do 2 (destruct (negb _); [wp_steps; apply HQ; eauto|]). unfold put_hw. wp_steps.
    set (s2 := upd hws _ s1). apply HQ; [|done|].
    + eapply dev_frame_trans; [done|]. apply put_hw_frame; eauto.
    + intros _. eexists. split; [apply lookup_insert_eq|]. done.
Qed.

(** What configuring (not just opening) a device relies on. *)
Definition setup_env : Prop :=
  (∀ h, ready (hw_reset os h)) ∧ (∀ n e, open_config os n = Some e → e ≠ 0).

Lemma wp_pci_dev_id d b u s (Q : Z → ud → Prop) :
  udi s !! d = Some u →
  (∀ rc s', dev_frame d u s s' u → udi s' !! d = Some u → Q rc s') →
  wp (pci_dev_id os b) Q s.
Proof using Type.
  intros E HQ. pose proof (dev_frame_refl d u s E) as []. unfold pci_dev_id.
  destruct (device_file os b); wp_steps; [apply HQ; [by split|done]..|].
  destruct (_ =? _); wp_steps; (apply HQ; [by split|done]).
Qed.

Lemma wp_uio_init d ro u b s (Q : Z → ud → Prop) :
  udi s !! d = Some u → bdf u = Some b → is_Some (hws s !! b) → (ro = false → setup_env) →
  (∀ rc s' u', dev_frame d u s s' u' → udi s' !! d = Some u' →
     (rc = 0 → resource1 u' = map_resource os b "resource2" ∧
               (ro = false → is_Some (pci u'))) → Q rc s') →
  wp (uio_init os d ro) Q s.
Proof using Hmaps.
  intros E Eb Hb Henv HQ. pose proof (dev_frame_refl d u s E) as Hrefl.
  unfold uio_init. wp_steps. apply (wp_get_udev d u); [done|]. wp_steps.
  apply (wp_need _ _ b); [done|].
  destruct (negb ro && _); [wp_steps; by apply (HQ _ s u)|].
  wp_steps. apply (wp_upd_udev d _ u); try done. intros s1 Hf1 E1 Hh1 _. wp_steps.
  eapply (wp_upd_udev d); [exact E1|done..|]. intros s2 Hf2 E2 Hh2 _. wp_steps.
  set (u2 := _ : udev_info) in E2. pose proof (dev_frame_trans _ _ _ _ _ _ _ Hf1 Hf2) as Hf.
  rewrite <- Hh1, <- Hh2 in Hb. clear Hf1 Hf2 Hh1 Hh2 E1.
  assert (wp (if negb ro then uio_setup_device os b else mret 0) (λ rc s3,
    dev_frame d u s s3 u2 ∧ udi s3 !! d = Some u2 ∧
    (rc = 0 → ∃ h, hws s3 !! b = Some h ∧ (ro = false → ready h))) s2) as Hset.
  { destruct Hb as [h Eh]. destruct ro; cbn [negb]; wp_steps; [split_and!; eauto; naive_solver|].
    destruct (Henv eq_refl) as [Hrst Hopen].
    eapply wp_uio_setup_device; [done..| |done]. intros rc s3 Hf3 E3 Hh3.
    split_and!; [by eapply dev_frame_trans|done|]. intros Hrc.
    destruct (Hh3 Hrc) as (h' & Eh' & Hbar). exists h'. split; [done|]. intros _.
    specialize (Hrst h). unfold ready, rd in *. by rewrite Hbar. }
  eapply wp_mono; [exact Hset|]. clear Hset. intros rc s3 (Hf3 & E3 & H3).
  destruct (Z.eqb_spec rc 0) as [->|Hrc]; cbn [negb].
  2:{ wp_steps. apply (HQ _ s3 u2); try done. }
  destruct (H3 eq_refl) as (h & Eh & Hrdy). wp_steps.
  eapply (wp_init_pci_device d ro u2 b h); [done|done|done|apply Hmaps|done|].
  intros rc s4 u4 Hf4 E4 Hr4 Hp4. pose proof (dev_frame_trans _ _ _ _ _ _ _ Hf3 Hf4) as Hf'.
  destruct (Z.eqb_spec rc 0) as [->|Hrc]; cbn [negb].
  2:{ wp_steps. by apply (HQ _ s4 u4). }
  wp_steps. apply (wp_upd_udev d _ u4); try done. intros s5 Hf5 E5 _ _. wp_steps.
  eapply wp_pci_dev_id; [exact E5|]. intros rc s6 Hf6 E6.
  destruct (rc <? 0) eqn:Erc; wp_steps.
  - eapply (HQ _ s6); [|exact E6|lia].
    eapply dev_frame_trans; [done|]. by eapply dev_frame_trans.
  - eapply (wp_upd_udev d); [exact E6|done..|]. intros s7 Hf7 E7 _ _. wp_steps.
    eapply (HQ _ s7); [|exact E7|].
    + eapply dev_frame_trans; [done|]. eapply dev_frame_trans; [done|].
      by eapply dev_frame_trans.
    + intros _. split; [exact Hr4|]. intros. by apply Hp4.
Qed.
End bring_up.

(** ** The table invariant through a search *)

(** Free queue, initialised and name of every device. *)
Definition summary (s : ud) : list (Z * bool * option string) :=
  (λ u, (wq_avail u, init_done u, bdf u)) <$> udi s.
Definition pci_inv (s : ud) : Prop :=
  ∀ i u, udi s !! i = Some u → init_done u = true → is_Some (pci u).

Lemma dev_frame_summary d u s s' u' :
  udi s !! d = Some u → dev_frame d u s s' u' → summary s' = summary s.
Proof.
  intros E []. unfold summary. rewrite df_udi0, list_fmap_insert, df_avail0, df_init0, df_bdf0.
  apply list_insert_id. by rewrite list_lookup_fmap, E.
Qed.

Lemma dev_frame_pci d u s s' u' :
  pci_inv s → init_done u = false → dev_frame d u s s' u' → pci_inv s'.
Proof.
  intros Hp Hid [] i v. rewrite df_udi0, list_lookup_insert. case_decide; [|apply Hp].
  intros [= <-]. congruence.
Qed.

Lemma dev_frame_inv os d u s s' u' :
  ud_inv os s → udi s !! d = Some u → init_done u = false → dev_frame d u s s' u' → ud_inv os s'.
Proof.
  intros [] E Hid [].
  assert (∀ i v', udi s' !! i = Some v' → ∃ v, udi s !! i = Some v ∧ wq_avail v' = wq_avail v ∧
            bdf v' = bdf v ∧ (init_done v' = true → v' = v)) as Hback.
  { intros i v'. rewrite df_udi0, list_lookup_insert. case_decide as Hi; [|by eauto 10].
    intros [= <-]. destruct Hi as [-> _]. exists u. split_and!; try done. congruence. }
  assert (∀ i v, udi s !! i = Some v → ∃ v', udi s' !! i = Some v' ∧ wq_avail v' = wq_avail v ∧
            bdf v' = bdf v) as Hfwd.
  { intros i v Hv. rewrite df_udi0, list_lookup_insert. case_decide as Hi; [|by eauto].
    destruct Hi as [-> _]. simplify_eq. eauto. }
  split; try congruence.
  - by rewrite df_udi0, length_insert, df_nu0.
  - intros i v' Hv'. destruct (Hback _ _ Hv') as (v & Hv & -> & -> & _).
    by apply (inv_avail0 _ _ Hv).
  - intros i v' b Hv' Hb. destruct (Hback _ _ Hv') as (v & Hv & _ & Ev & _).
    destruct (inv_hw0 _ _ b Hv ltac:(congruence)) as [? ?]. split; [done|]. by apply df_hws0.
  - intros i j v' w' b Hv' Hw' Hb1 Hb2. destruct (Hback _ _ Hv') as (v & Hv & _ & Ev & _).
    destruct (Hback _ _ Hw') as (w & Hw & _ & Ew & _). apply (inv_bdf0 i j v w b); congruence.
  - intros i v' b Hv' Hb Hi. destruct (Hback _ _ Hv') as (v & Hv & _ & _ & Ev).
    specialize (Ev Hi). subst v'. eauto.
  - rewrite df_uwi0. intros j w Hw Hu. destruct (inv_used0 _ _ Hw Hu) as (? & v & b & Hv & ? & ? & ?).
    split; [done|]. destruct (Hfwd _ _ Hv) as (v' & ? & ? & ?). exists v', b. split_and!; congruence.
  - by rewrite df_uwi0.
Qed.

Section search.
Context (os : Os) (Hmaps : maps_ok os) (ro : bool) (Henv : ro = false → setup_env os).

(** The device came up: mark it initialised. *)
Lemma mark_init s d u b :
  ud_inv os s → udi s !! d = Some u → bdf u = Some b →
  resource1 u = map_resource os b "resource2" →
  ud_inv os (s <| udi ::= alter (λ u, u <| init_done := true |>) d |>).
Proof using Type.
  intros [] E Eb Er. set (f := λ u : udev_info, u <| init_done := true |>).
  pose proof (list_lookup_alter_if f (udi s) d) as Hl.
  assert (∀ i v, bdf ((if decide (d = i) then f else id) v) = bdf v) as Hbf.
  { intros i v. by destruct (decide (d = i)). }
  split; cbn; try done.
  - by rewrite length_alter.
  - intros i u'. rewrite Hl, fmap_Some. intros (v & Hv & ->). specialize (inv_avail0 _ _ Hv).
    by case_decide.
  - intros i v b'. rewrite Hl, fmap_Some. intros (v' & Hv & ->). rewrite Hbf. by eapply inv_hw0.
  - intros i j v w b' Hv Hw. rewrite Hl, fmap_Some in Hv, Hw. destruct Hv as (v' & Hv & ->).
    destruct Hw as (w' & Hw & ->). intros Hb1 Hb2.
    rewrite Hbf in Hb1, Hb2. by apply (inv_bdf0 i j v' w' b').
  - intros i v b' Hv. rewrite Hl, fmap_Some in Hv. destruct Hv as (v' & Hv & ->).
    case_decide; [|by eapply inv_init0]. subst i. simplify_eq. cbn. intros. congruence.
  - intros j w Hw Hu. destruct (inv_used0 _ _ Hw Hu) as (? & v & b' & Hv & ? & ? & ?).
    split; [done|]. exists ((if decide (d = wq_udi w) then f else id) v), b'.
    rewrite Hl, Hv. split_and!; try done; by case_decide.
Qed.

(** Queue 0 of device [d] goes to the free entry [pq]. *)
Lemma take_queue s d u b pq w :
  ud_inv os s → udi s !! d = Some u → wq_avail u = 1 → bdf u = Some b →
  uwi s !! pq = Some w → ¬ used w →
  ud_inv os (s <| udi ::= alter (λ u, u <| wq_avail ::= λ a, Z.land a (Z.lnot (Z.shiftl 1 0)) |>) d |>
               <| uwi ::= <[pq := MkUdWq (map_resource os b "resource2") 0 d]> |>).
Proof using Hmaps.
  intros [] E Ea Eb Ew Hfree.
  set (f := λ u : udev_info, u <| wq_avail ::= λ a, Z.land a (Z.lnot (Z.shiftl 1 0)) |>).
  pose proof (list_lookup_alter_if f (udi s) d) as Hl.
  assert (∀ i v, bdf ((if decide (d = i) then f else id) v) = bdf v) as Hbf.
  { intros i v. by destruct (decide (d = i)). }
  assert (∀ j x, uwi s !! j = Some x → used x → wq_udi x ≠ d) as Hnew.
  { intros j x Hx Hu Hd. destruct (inv_used0 _ _ Hx Hu) as (_ & v & ? & Hv & ? & _).
    rewrite Hd in Hv. simplify_eq. congruence. }
  split; cbn; try done.
  - by rewrite length_insert.
  - by rewrite length_alter.
  - intros i u'. rewrite Hl, fmap_Some. intros (v & Hv & ->). specialize (inv_avail0 _ _ Hv).
    case_decide; [|done]. subst. simplify_eq. left. cbn. by rewrite Ea.
  - intros i v b'. rewrite Hl, fmap_Some. intros (v' & Hv & ->). rewrite Hbf. by eapply inv_hw0.
  - intros i j v x b' Hv Hw. rewrite Hl, fmap_Some in Hv, Hw. destruct Hv as (v' & Hv & ->).
    destruct Hw as (w' & Hw & ->). intros Hb1 Hb2.
    rewrite Hbf in Hb1, Hb2. by apply (inv_bdf0 i j v' w' b').
  - intros i v b' Hv. rewrite Hl, fmap_Some in Hv. destruct Hv as (v' & Hv & ->).
    case_decide; [|by eapply inv_init0]. subst i. simplify_eq. cbn. by eapply inv_init0.
  - intros j x Hx Hu. rewrite list_lookup_insert in Hx. case_decide as Hj.
    + simplify_eq. cbn. split; [done|]. exists (f u), b. rewrite Hl, decide_True, E by done.
      split_and!; try done. cbn. by rewrite Ea.
    + destruct (inv_used0 _ _ Hx Hu) as (? & v & b' & Hv & ? & ? & ?). split; [done|].
      exists v, b'. rewrite Hl, decide_False, Hv by (intros Hd; by eapply Hnew). done.
  - intros j k x y Hx Hy Hux Huy Heq. rewrite list_lookup_insert in Hx, Hy.
    case_decide as Hj; case_decide as Hk; simplify_eq; cbn in *.
    + destruct Hj, Hk. congruence.
    + exfalso. by eapply Hnew.
    + exfalso. by eapply Hnew.
    + by eapply inv_excl0.
Qed.

Lemma put_hw_inv s b h :
  ud_inv os s → is_Some (hws s !! b) → ud_inv os (s <| hws ::= <[b := h]> |>).
Proof using Type.
  intros [] Hb. split; try done. intros i u b' E Eb. cbn in *.
  destruct (inv_hw0 _ _ _ E Eb) as [? ?]. split; [done|].
  destruct (decide (b' = b)) as [->|]; cbn.
  - rewrite lookup_insert_eq. eauto.
  - by rewrite lookup_insert_ne.
Qed.

(** The end of a successful round: mark, enable the queue, take it. *)
Lemma wp_finish i u b pq w s :
  ud_inv os s → (ro = false → pci_inv s) → udi s !! i = Some u → wq_avail u = 1 →
  bdf u = Some b → is_Some (hws s !! b) → resource1 u = map_resource os b "resource2" →
  (ro = false → is_Some (pci u)) → uwi s !! pq = Some w → ¬ used w →
  wp (upd_udev i (λ u, u <| init_done := true |>);;
      pd ← get_udev i;
      (if ro then mret 0
       else b ← need NullDeref (bdf pd); idxd_pci_dev_command os b (pci pd) idxd_enable_wq);;
      upd_udev i (λ u, u <| wq_avail ::= λ a, Z.land a (Z.lnot (Z.shiftl 1 0)) |>);;
      modify (λ s, s <| uwi ::= alter (λ _,
          MkUdWq (u64 (resource1 pd + 0 * 4096 * 4)) 0 i) pq |>))
     (λ _ s', ud_inv os s' ∧ (ro = false → pci_inv s') ∧ nb_udev s' = nb_udev s ∧
        nb_wq s' = nb_wq s ∧ summary s' = <[i := (0, true, Some b)]> (summary s) ∧
        uwi s' = <[pq := MkUdWq (map_resource os b "resource2") 0 i]> (uwi s)) s.
Proof using Hmaps Henv.
  intros Hinv Hpci E Ea Eb Hb Er Hp Hpq Hfree.
  unfold upd_udev. wp_steps. set (s2 := s <| udi ::= alter (λ u : udev_info, u <| init_done := true |>) i |>).
  set (u2 := u <| init_done := true |>).
  assert (udi s2 !! i = Some u2) as E2 by (cbn; by rewrite list_lookup_alter_eq, E).
  assert (ud_inv os s2) as Hinv2 by (by eapply mark_init).
  apply (wp_get_udev i u2); [done|]. wp_steps.
  assert (wp (if ro then mret 0
              else b ← need NullDeref (bdf u2);
                   idxd_pci_dev_command os b (pci u2) idxd_enable_wq) (λ _ s3,
            ud_inv os s3 ∧ udi s3 = udi s2 ∧ uwi s3 = uwi s2 ∧ nb_udev s3 = nb_udev s2 ∧
            nb_wq s3 = nb_wq s2) s2) as Hc.
  { destruct ro; wp_steps; [done|]. apply (wp_need _ _ b); [done|].
    destruct (Hp eq_refl) as [p Ep]. change (pci u2) with (pci u). rewrite Ep.
    apply wp_dev_command; [done|]. intros h r. split_and!; try done. by apply put_hw_inv. }
  eapply wp_mono; [exact Hc|]. clear Hc. intros _ s3 (Hinv3 & Eudi & Euwi & En1 & En2).
  wp_steps.
  assert (u64 (resource1 u2 + 0 * 4096 * 4) = map_resource os b "resource2") as ->.
  { change (resource1 u2) with (resource1 u). rewrite Er, wrap_small; [lia|].
    pose proof (proj1 (proj2 Hmaps) b). unfold in_range. lia. }
  assert (uwi s3 !! pq = Some w) as Ew by (by rewrite Euwi).
  assert (udi s3 !! i = Some u2) as E3 by (by rewrite Eudi).
  pose proof (take_queue s3 i u2 b pq w Hinv3 E3 Ea Eb Ew Hfree) as Ht.
  split_and!; try done.
  - destruct Ht. split; try done; cbn in *; by rewrite ?(list_alter_insert _ _ _ _ Ew).
  - intros Hro j v. cbn. rewrite Eudi. cbn. rewrite !list_lookup_alter.
    destruct (decide (i = j)) as [->|]; [|by apply Hpci].
    rewrite decide_True, E by done. intros [= <-] _. by apply Hp.
  - unfold summary. cbn. rewrite Eudi. cbn. rewrite list_alter_alter_eq.
    rewrite (list_alter_insert _ _ _ _ E), list_fmap_insert. cbn. by rewrite Ea, Eb.
  - cbn. rewrite (list_alter_insert _ _ _ _ Ew), Euwi. done.
Qed.

(** Outcome of a search through [todo] with free entry [pq]: nothing taken, and then no
    device of [todo] that was already up had a free queue; or queue 0 of [d] taken. *)
Definition nothing_taken (todo : list nat) (s s' : ud) : Prop :=
  uwi s' = uwi s ∧ summary s' = summary s ∧
  ∀ i b, i ∈ todo → summary s !! i = Some (1, true, b) → False.
Definition queue_taken (todo : list nat) (pq : nat) (s s' : ud) : Prop :=
  ∃ d b i, d ∈ todo ∧ summary s !! d = Some (1, i, Some b) ∧
    summary s' = <[d := (0, true, Some b)]> (summary s) ∧
    uwi s' = <[pq := MkUdWq (map_resource os b "resource2") 0 d]> (uwi s).

Lemma nothing_taken_cons i todo s s1 s' :
  summary s1 = summary s → uwi s1 = uwi s →
  (∀ b, summary s !! i ≠ Some (1, true, b)) →
  nothing_taken todo s1 s' → nothing_taken (i :: todo) s s'.
Proof using Type.
  intros Es Eu Hi (? & ? & H3). split_and!; try congruence. rewrite Es in H3.
  intros j b [->|Hj]%elem_of_cons; [apply Hi|by eapply H3].
Qed.
Lemma queue_taken_cons i todo pq s s1 s' :
  summary s1 = summary s → uwi s1 = uwi s →
  queue_taken todo pq s1 s' → queue_taken (i :: todo) pq s s'.
Proof using Type.
  intros Es Eu (d & b & i' & ? & ? & ? & ?). exists d, b, i'. rewrite <- Es, <- Eu.
  split_and!; try done. by right.
Qed.

Lemma wp_wq_find_loop pq w todo : ∀ id s,
  ud_inv os s → (ro = false → pci_inv s) → (id = -1 ∨ id = 0) →
  uwi s !! pq = Some w → ¬ used w → Forall (λ i, i < length (udi s))%nat todo →
  wp (wq_find_loop os None (-1) ro pq todo id) (λ _ s',
    ud_inv os s' ∧ (ro = false → pci_inv s') ∧ nb_udev s' = nb_udev s ∧ nb_wq s' = nb_wq s ∧
    (nothing_taken todo s s' ∨ queue_taken todo pq s s')) s.
Proof using Hmaps Henv.
  induction todo as [|i todo IH]; intros id s Hinv Hpci Hid Hpq Hfree Htodo.
  { cbn [wq_find_loop]. wp_steps. split_and!; try done. left. split_and!; try done.
    by intros ? ? ?%not_elem_of_nil. }
  apply Forall_cons in Htodo as [Hi Htodo]. cbn [wq_find_loop].
  destruct (lookup_lt_is_Some_2 _ _ Hi) as [u E].
  assert (summary s !! i = Some (wq_avail u, init_done u, bdf u)) as Esum
    by (unfold summary; by rewrite list_lookup_fmap, E).
  wp_steps. apply (wp_get_udev i u); [done|]. wp_steps.
  rewrite bool_decide_true by done. cbn [andb negb]. eval_cmp. cbn [negb andb].
  rewrite (bool_decide_false (None ≠ None)) by auto. cbn [andb].
  destruct (inv_avail _ _ Hinv _ _ E) as [Ea|(Ea & b & Eb)]; rewrite Ea in *; eval_cmp.
  { eapply wp_mono; [by apply IH|]. intros _ s' (? & ? & ? & ? & [H|H]); split_and!; try done.
    - left. eapply nothing_taken_cons; try done. intros b'. rewrite Esum. congruence.
    - right. by eapply queue_taken_cons. }
  pose proof (inv_hw _ _ Hinv _ _ _ E Eb) as [_ Hb].
  replace (negb (id =? -1) && (Z.land 1 (Z.shiftl 1 id) =? 0)) with false
    by (destruct Hid as [-> | ->]; done).
  replace (if id =? -1 then ffs1 1 else id) with 0 by (destruct Hid as [-> | ->]; done).
  wp_steps.
  assert (wp (if negb (init_done u) then uio_init os i ro else mret 0) (λ rc s1,
    ∃ u1, ud_inv os s1 ∧ (ro = false → pci_inv s1) ∧ dev_frame i u s s1 u1 ∧
      udi s1 !! i = Some u1 ∧ (rc ≠ 0 → init_done u = false) ∧
      (rc = 0 → resource1 u1 = map_resource os b "resource2" ∧
                (ro = false → is_Some (pci u1)))) s) as Hup.
  { destruct (init_done u) eqn:Ei; cbn [negb].
    - wp_steps. exists u. split_and!; try done; [by apply dev_frame_refl|]. intros _.
      split; [by eapply (inv_init os s Hinv)|]. intros Hro. by eapply (Hpci Hro).
    - eapply (wp_uio_init os Hmaps i ro u b); try done. intros rc s1 u1 Hf E1 Hrc.
      exists u1. split_and!; try done; [by eapply dev_frame_inv|].
      intros Hro. by eapply dev_frame_pci; [apply Hpci| |]. }
  eapply wp_mono; [exact Hup|]. clear Hup.
  intros rc s1 (u1 & Hinv1 & Hpci1 & Hf & E1 & Hrn & Hrz).
  pose proof (dev_frame_summary _ _ _ _ _ E Hf) as Hsum. pose proof Hf as [].
  destruct (Z.eqb_spec rc 0) as [->|Hrc]; cbn [negb].
  2:{ eapply wp_mono; [apply (IH 0 s1); try done; [by right|by rewrite df_uwi0|]|].
      { eapply Forall_impl; [exact Htodo|]. intros j. cbn. by rewrite df_udi0, length_insert. }
      intros _ s' (? & ? & ? & ? & [H|H]); split_and!; try done; try congruence.
      - left. eapply nothing_taken_cons; try done. intros b'. rewrite Esum, (Hrn Hrc). congruence.
      - right. by eapply queue_taken_cons. }
  destruct (Hrz eq_refl) as [Hr1 Hp1]. clear Hrn Hrz IH.
  assert (wq_avail u1 = 1) as Ha1 by congruence. assert (bdf u1 = Some b) as Hb1 by congruence.
  assert (is_Some (hws s1 !! b)) as Hh1 by (by apply df_hws0).
  assert (uwi s1 !! pq = Some w) as Hpq1 by (by rewrite df_uwi0).
  eapply wp_mono; [by apply (wp_finish i u1 b pq w s1)|].
  intros _ s' (? & ? & ? & ? & Hs' & Hu'). split_and!; try done; try congruence. right.
  exists i, b, (init_done u). rewrite <- Hsum, <- df_uwi0, Hsum, Esum, Eb, <- Hsum.
  split_and!; try done. by left.
Qed.
End search.

(** A portal is out when an entry in use holds it. *)
Definition portal_out (s : ud) (p : Z) : Prop := ∃ j w, uwi s !! j = Some w ∧ used w ∧ ptr w = p.
Definition exclusive (s : ud) : Prop :=
  ∀ j k w v, uwi s !! j = Some w → uwi s !! k = Some v → used w → used v →
    ptr w = ptr v → j = k.

Lemma find_ptr_spec key l :
  match find_ptr key l with
  | Some j => ∃ w, l !! j = Some w ∧ ptr w = key
  | None => Forall (λ w, ptr w ≠ key) l
  end.
Proof.
  unfold find_ptr. destruct (list_find _ l) as [[j w]|] eqn:E; cbn.
  - apply list_find_Some in E as (? & ? & _). eauto.
  - by apply list_find_None in E.
Qed.

Lemma used_count_insert l pq w v :
  l !! pq = Some w → ¬ used w → used v →
  length (filter used (<[pq := v]> l)) = S (length (filter used l)).
Proof.
  intros E Hn Hv. rewrite insert_take_drop by (by eapply lookup_lt_Some).
  rewrite <- (take_drop_middle l pq w E) at 3. rewrite !filter_app, !filter_cons, !length_app.
  rewrite decide_True, decide_False by done. cbn. lia.
Qed.

Lemma inv_known os s i u b :
  ud_inv os s → udi s !! i = Some u → bdf u = Some b → b ∈ bdfs os.
Proof. intros Hinv Hu Hb. by destruct (inv_hw _ _ Hinv _ _ _ Hu Hb). Qed.

Lemma inv_exclusive os s : maps_ok os → ud_inv os s → exclusive s.
Proof.
  intros Hmaps Hinv j k w v Hj Hk Huw Huv Hp.
  destruct (inv_used _ _ Hinv _ _ Hj Huw) as (_ & u1 & b1 & ? & _ & ? & E1).
  destruct (inv_used _ _ Hinv _ _ Hk Huv) as (_ & u2 & b2 & ? & _ & ? & E2).
  assert (b1 = b2) as -> by (apply Hmaps; [by eauto using inv_known..|congruence]).
  assert (wq_udi w = wq_udi v) by (by eapply (inv_bdf _ _ Hinv)).
  by eapply (inv_excl _ _ Hinv).
Qed.

Lemma all_used_count l : Forall used l → length (filter used l) = length l.
Proof. induction 1 as [|w l Hw _ IH]; [done|]. rewrite filter_cons, decide_True by done. cbn. lia. Qed.

(** What a search for any queue returns. *)
Definition search_result (os : Os) (s s' : ud) (r : option nat) : Prop :=
  match r with
  | None => uwi s' = uwi s ∧ summary s' = summary s ∧
      (used_count s = length (uwi s) ∨ ∀ d b, summary s !! d ≠ Some (1, true, b))
  | Some pq => ∃ d b i, summary s !! d = Some (1, i, Some b) ∧
      summary s' = <[d := (0, true, Some b)]> (summary s) ∧
      uwi s' = <[pq := MkUdWq (map_resource os b "resource2") 0 d]> (uwi s) ∧
      (pq < length (uwi s))%nat ∧ used_count s' = S (used_count s) ∧
      ∀ w, uwi s !! pq = Some w → ¬ used w
  end.

Lemma wp_ud_wq_find os ro s :
  maps_ok os → (ro = false → setup_env os) → ud_inv os s → (ro = false → pci_inv s) →
  wp (ud_wq_find os None (-1) false (-1) ro) (λ r s',
    ud_inv os s' ∧ (ro = false → pci_inv s') ∧ search_result os s s' r) s.
Proof.
  intros Hmaps Henv Hinv Hpci. unfold ud_wq_find. wp_steps.
  assert (Z.to_nat (nb_wq s) = length (uwi s)) as -> by (pose proof (inv_uwi _ _ Hinv); lia).
  rewrite take_ge by done. pose proof (find_ptr_spec 0 (uwi s)) as Hf.
  destruct (find_ptr 0 (uwi s)) as [pq|].
  2:{ wp_steps. split_and!; try done. cbn. split_and!; try done. left. by apply all_used_count. }
  destruct Hf as (w & Hw & Hp). assert (¬ used w) as Hfree by (unfold used; lia).
  wp_steps. eapply wp_mono.
  { apply (wp_wq_find_loop os Hmaps ro Henv pq w); try done; [by left|].
    apply Forall_forall. intros i Hi%elem_of_seq. rewrite (inv_udi _ _ Hinv). lia. }
  intros _ s' (Hinv' & Hpci' & _ & _ & [(Hu & Hs & Hn)|(d & b & i & _ & Hd & Hs & Hu)]); wp_steps.
  - apply (wp_need _ _ w); [by rewrite Hu|]. wp_steps. rewrite Hp. cbn. split_and!; try done.
    right. intros d b Hd. eapply (Hn d b); [|done]. apply elem_of_seq.
    apply lookup_lt_Some in Hd. unfold summary in Hd. rewrite length_fmap in Hd.
    pose proof (inv_udi _ _ Hinv). lia.
  - assert (pq < length (uwi s))%nat as Hlt by (by eapply lookup_lt_Some).
    eapply wp_need; [by rewrite Hu, list_lookup_insert_eq|]. wp_steps. cbn [ptr].
    pose proof (proj1 (proj2 Hmaps) b) as Hm. rewrite (proj2 (Z.eqb_neq _ _)) by lia.
    split_and!; try done. exists d, b, i. split_and!; try done; [|intros w'; rewrite Hw; by intros [= <-]].
    unfold used_count. rewrite Hu. eapply used_count_insert; [done..|]. unfold used. cbn. lia.
Qed.

(** ** Properties of the work queue table *)

(** Filling a free entry puts its portal out and no other. *)
Lemma portal_out_insert s s' pq v :
  uwi s' = <[pq := v]> (uwi s) → (pq < length (uwi s))%nat →
  (∀ w, uwi s !! pq = Some w → ¬ used w) →
  ∀ p, portal_out s' p ↔ (used v ∧ p = ptr v) ∨ portal_out s p.
Proof.
  intros Hu Hlt Hfree p. unfold portal_out. rewrite Hu. split.
  - intros (j & w & [(-> & -> & _) | [Hne Hj]]%list_lookup_insert_Some & Hw & <-); [by left|right; eauto].
  - intros [[Hv ->] | (j & w & Hj & Hw & <-)]; [exists pq, v; by rewrite list_lookup_insert_eq|].
    exists j, w. rewrite list_lookup_insert_ne; [done|]. intros ->. by apply (Hfree w).
Qed.

(** One search: what it hands out and which portals are out afterwards. *)
Lemma wp_GetNextWorkQueue os s :
  maps_ok os → ud_inv os s →
  wp (GetNextWorkQueue os) (λ r s',
    ud_inv os s' ∧ exclusive s' ∧ length (uwi s') = length (uwi s) ∧
    match r with
    | Some info => ∃ d b i,
        info_bdf info = Some b ∧ portal info = map_resource os b "resource2" ∧ portal info ≠ 0 ∧
        summary s !! d = Some (1, i, Some b) ∧
        summary s' = <[d := (0, true, Some b)]> (summary s) ∧
        ¬ portal_out s (portal info) ∧ used_count s' = S (used_count s) ∧
        ∀ p, portal_out s' p ↔ p = portal info ∨ portal_out s p
    | None => uwi s' = uwi s ∧ summary s' = summary s ∧
        (used_count s = length (uwi s) ∨ ∀ d b, summary s !! d ≠ Some (1, true, b))
    end) s.
Proof.
  intros Hmaps Hinv. unfold GetNextWorkQueue, ud_wq_get_next. wp_steps.
  eapply wp_mono; [by apply wp_ud_wq_find|]. intros r s' (Hinv' & _ & Hr).
  pose proof (inv_exclusive _ _ Hmaps Hinv') as Hex.
  destruct r as [pq|]; [|wp_steps; cbn in Hr; destruct Hr as (Hu & ? & ?); split_and!; try done; by rewrite Hu].
  destruct Hr as (d & b & i & Hd & Hs & Hu & Hlt & Hcnt & Hfree). wp_steps.
  assert (uwi s' !! pq = Some (MkUdWq (map_resource os b "resource2") 0 d)) as Epq
    by (by rewrite Hu, list_lookup_insert_eq).
  eapply wp_need; [exact Epq|]. wp_steps. cbn [wq_udi].
  assert (∃ u, udi s' !! d = Some u ∧ bdf u = Some b) as (u & Eu & Eb).
  { assert (summary s' !! d = Some (0, true, Some b)) as Hsd.
    { rewrite Hs. apply list_lookup_insert_eq. by eapply lookup_lt_Some. }
    unfold summary in Hsd. rewrite list_lookup_fmap, fmap_Some in Hsd.
    destruct Hsd as (u & ? & ?). exists u. split; congruence. }
  apply (wp_get_udev d u); [done|]. wp_steps. split_and!; [done..|by rewrite Hu, length_insert|]. exists d, b, i. cbn.
  pose proof (proj1 (proj2 Hmaps) b) as Hm.
  split_and!; try done; [lia| |intros p; rewrite (portal_out_insert s s' pq _ Hu Hlt Hfree); cbn; unfold used; cbn; intuition lia].
  intros (j & w & Hj & Huw & Hp).
  destruct (inv_used _ _ Hinv _ _ Hj Huw) as (_ & v & b' & Hv & Ha & Hb' & E).
  unfold summary in Hd. rewrite list_lookup_fmap, fmap_Some in Hd. destruct Hd as (v' & Hv' & [=]).
  assert (b' = b) as ->.
  { apply Hmaps; [by eauto using inv_known|eapply (inv_known _ s d v'); congruence|congruence]. }
  assert (wq_udi w = d) by (eapply (inv_bdf _ _ Hinv); [exact Hv|exact Hv'|done|congruence]).
  simplify_eq. congruence.
Qed.

(** C23: as long as the resource files of the devices can be opened and mapped ([maps_ok]),
    [GetNextWorkQueue] returns without a fault. When it hands out a queue, the portal is the
    mapped one of a device whose queue was free, it is not out already, and afterwards the
    device has no free queue, one more entry is in use and no two entries in use share a
    portal. When it hands out nothing the table is unchanged, and either every entry is in
    use or no device that is up has a free queue. *)
Theorem get_next_work_queue_exclusive os s :
  maps_ok os → ud_inv os s →
  wp (GetNextWorkQueue os) (λ r s',
    ud_inv os s' ∧ exclusive s' ∧
    match r with
    | Some info => ∃ d b i,
        info_bdf info = Some b ∧ portal info = map_resource os b "resource2" ∧ portal info ≠ 0 ∧
        summary s !! d = Some (1, i, Some b) ∧
        summary s' = <[d := (0, true, Some b)]> (summary s) ∧
        ¬ portal_out s (portal info) ∧ portal_out s' (portal info) ∧
        used_count s' = S (used_count s)
    | None => uwi s' = uwi s ∧ summary s' = summary s ∧
        (used_count s = length (uwi s) ∨ ∀ d b, summary s !! d ≠ Some (1, true, b))
    end) s.
Proof.
  intros Hmaps Hinv. eapply wp_mono; [by apply wp_GetNextWorkQueue|]. intros r s' (? & ? & _ & Hr).
  split_and!; try done. destruct r as [info|]; [|done].
  destruct Hr as (d & b & i & ? & ? & ? & ? & ? & ? & ? & Hp). exists d, b, i. split_and!; try done.
  apply Hp. by left.
Qed.

(** Entry [j] gives its queue back. *)
Lemma give_back os s j w u b :
  maps_ok os → ud_inv os s → uwi s !! j = Some w → used w → udi s !! wq_udi w = Some u →
  bdf u = Some b →
  ud_inv os (s <| udi ::= alter (λ u, u <| wq_avail ::= λ a, Z.lor a (Z.shiftl 1 0) |>) (wq_udi w) |>
               <| uwi ::= alter (λ w, w <| ptr := 0 |>) j |>).
Proof.
  intros Hmaps [] Ej Huw Eu Eb.
  set (f := λ u : udev_info, u <| wq_avail ::= λ a, Z.lor a (Z.shiftl 1 0) |>).
  assert (∀ i v, bdf ((if decide (wq_udi w = i) then f else id) v) = bdf v) as Hbf.
  { intros i v. by case_decide. }
  assert (∀ k x, alter (λ w : ud_wq_info, w <| ptr := 0 |>) j (uwi s) !! k = Some x → used x →
                 k ≠ j ∧ uwi s !! k = Some x) as Hback.
  { intros k x. rewrite list_lookup_alter. case_decide as Hjk; [|intros ??; split; congruence].
    rewrite fmap_Some. intros (y & _ & ->) Hx. by exfalso. }
  split; cbn; try done.
  - by rewrite length_alter.
  - by rewrite length_alter.
  - intros i v. rewrite list_lookup_alter_if, fmap_Some. intros (v' & Hv & ->).
    specialize (inv_avail0 _ _ Hv). case_decide; [|done]. subst. simplify_eq. right.
    split; [|eauto]. cbn. destruct inv_avail0 as [->|[-> _]]; done.
  - intros i v b'. rewrite list_lookup_alter_if, fmap_Some. intros (v' & Hv & ->). rewrite Hbf.
    by eapply inv_hw0.
  - intros i k v x b' Hv Hx. rewrite list_lookup_alter_if, fmap_Some in Hv, Hx.
    destruct Hv as (v' & Hv & ->), Hx as (x' & Hx & ->). rewrite !Hbf. by apply (inv_bdf0 i k v' x').
  - intros i v b' Hv. rewrite list_lookup_alter_if, fmap_Some in Hv. destruct Hv as (v' & Hv & ->).
    case_decide; [|by eapply inv_init0]. subst i. cbn. by eapply inv_init0.
  - intros k x Hx Hux. destruct (Hback _ _ Hx Hux) as [Hkj Hx'].
    destruct (inv_used0 _ _ Hx' Hux) as (? & v & b' & Hv & Ha & Hb' & ?). split; [done|].
    exists v, b'. rewrite list_lookup_alter_if, decide_False, Hv; [done|].
    intros Hd. apply Hkj. by eapply inv_excl0.
  - intros k l x y Hx Hy Hux Huy Heq. destruct (Hback _ _ Hx Hux), (Hback _ _ Hy Huy).
    by eapply inv_excl0.
Qed.

Lemma used_count_release l j w v :
  l !! j = Some w → used w → ¬ used v →
  length (filter used l) = S (length (filter used (<[j := v]> l))).
Proof.
  intros E Hw Hv. rewrite <- (used_count_insert (<[j := v]> l) j v w); try done.
  - by rewrite list_insert_insert_eq, list_insert_id.
  - apply list_lookup_insert_eq. by eapply lookup_lt_Some.
Qed.

(** Returning a queue that is out, with what stays out. *)
Lemma wp_ReturnWorkQueue os s p n i0 :
  maps_ok os → ud_inv os s → portal_out s p →
  wp (ReturnWorkQueue (MkUioWqInfo n i0 p)) (λ _ s',
    ud_inv os s' ∧ exclusive s' ∧ length (uwi s') = length (uwi s) ∧ used_count s = S (used_count s') ∧
    (∀ q, portal_out s' q ↔ portal_out s q ∧ q ≠ p) ∧
    ∃ d b i, p = map_resource os b "resource2" ∧ summary s !! d = Some (0, i, Some b) ∧
             summary s' = <[d := (1, i, Some b)]> (summary s)) s.
Proof.
  intros Hmaps Hinv (j0 & w0 & Hj0 & Hu0 & <-). unfold ReturnWorkQueue. cbn [portal].
  rewrite (proj2 (Z.eqb_neq (ptr w0) 0)) by exact Hu0. cbn [negb].
  unfold ud_wq_unmap. wp_steps.
  assert (Z.to_nat (nb_wq s) = length (uwi s)) as -> by (pose proof (inv_uwi _ _ Hinv); lia).
  rewrite take_ge by done. pose proof (find_ptr_spec (ptr w0) (uwi s)) as Hf.
  pose proof (inv_exclusive _ _ Hmaps Hinv) as Hex.
  destruct (find_ptr (ptr w0) (uwi s)) as [j|].
  2:{ exfalso. rewrite Forall_forall in Hf. by apply (Hf w0); [eapply list_elem_of_lookup_2|]. }
  destruct Hf as (w & Hj & Hp). assert (used w) as Hu by (unfold used in *; congruence).
  assert (j = j0) as -> by (by eapply Hex). assert (w0 = w) as -> by congruence. clear Hj0 Hu0.
  apply (wp_need _ _ j0); [done|]. wp_steps. apply (wp_need _ _ w); [done|].
  destruct (inv_used _ _ Hinv _ _ Hj Hu) as (Hid & u & b & Eu & Ha & Eb & Hm).
  unfold upd_udev. wp_steps. rewrite Hid.
  pose proof (give_back os s j0 w u b Hmaps Hinv Hj Hu Eu Eb) as Hinv'. set (s' := upd uwi _ _) in *.
  pose proof (inv_exclusive _ _ Hmaps Hinv') as Hex'. split_and!; try done.
  - cbn. by rewrite length_alter.
  - unfold used_count. cbn. rewrite (list_alter_insert _ _ _ _ Hj).
    apply (used_count_release _ _ w); [done..|]. unfold used. cbn. auto.
  - intros q. split.
    + intros (k & x & Hk & Hux & Hpx). cbn in Hk. rewrite list_lookup_alter in Hk. case_decide as Hjk.
      * apply fmap_Some in Hk as (? & _ & ->). exfalso. by apply Hux.
      * split; [by exists k, x|]. intros ->. apply Hjk. by eapply Hex.
    + intros [(k & x & Hk & Hux & <-) Hne]. exists k, x. split_and!; try done. cbn.
      rewrite list_lookup_alter_ne; [done|]. intros ->. congruence.
  - exists (wq_udi w), b, (init_done u). unfold summary. cbn.
    rewrite list_lookup_fmap, Eu, (list_alter_insert _ _ _ _ Eu), list_fmap_insert. cbn.
    by rewrite Ha, Eb.
Qed.

(** Returning a queue that is out always succeeds: its portal is no longer out, one
    entry fewer is in use, the device it belongs to has its queue free again (so the next
    search can hand it out), and the table stays consistent. *)
Theorem return_work_queue_releases os s p n i0 :
  maps_ok os → ud_inv os s → portal_out s p →
  wp (ReturnWorkQueue (MkUioWqInfo n i0 p)) (λ _ s',
    ud_inv os s' ∧ exclusive s' ∧ ¬ portal_out s' p ∧ used_count s = S (used_count s') ∧
    ∃ d b i, p = map_resource os b "resource2" ∧ summary s !! d = Some (0, i, Some b) ∧
             summary s' = <[d := (1, i, Some b)]> (summary s)) s.
Proof.
  intros Hmaps Hinv Hout. eapply wp_mono; [by apply wp_ReturnWorkQueue|]. intros _ s' (? & ? & _ & ? & Hp & ?).
  split_and!; try done. rewrite Hp. tauto.
Qed.

Lemma wp_enable_loop os :
  maps_ok os → setup_env os → ∀ fuel n s,
  ud_inv os s → pci_inv s → (length (uwi s) - used_count s < fuel)%nat →
  wp (enable_loop os fuel n) (λ r s',
    ud_inv os s' ∧ pci_inv s' ∧ length (uwi s') = length (uwi s) ∧
    r = n + Z.of_nat (used_count s') - Z.of_nat (used_count s) ∧
    (used_count s <= used_count s')%nat ∧
    (used_count s' = length (uwi s') ∨ ∀ d b, summary s' !! d ≠ Some (1, true, b))) s.
Proof.
  intros Hmaps Henv. induction fuel as [|fuel IH]; intros n s Hinv Hpci Hfuel; [lia|].
  cbn [enable_loop]. unfold ud_wq_get. wp_steps.
  eapply wp_mono; [by apply (wp_ud_wq_find os false)|].
  intros r s1 (Hinv1 & Hpci1 & Hr). specialize (Hpci1 eq_refl).
  destruct r as [pq|].
  - destruct Hr as (d & b & i & _ & _ & Hu & Hlt & Hcnt & _). wp_steps.
    eapply wp_need; [by rewrite Hu, list_lookup_insert_eq|]. wp_steps. cbn [ptr].
    pose proof (proj1 (proj2 Hmaps) b) as Hm. rewrite (proj2 (Z.eqb_neq _ _)) by lia.
    assert (length (uwi s1) = length (uwi s)) as Hl by (by rewrite Hu, length_insert).
    eapply wp_mono; [apply (IH (n + 1) s1); [done..|]|].
    + unfold used_count in *. pose proof (length_filter used (uwi s1)). lia.
    + intros r s2 (? & ? & ? & -> & ? & ?). split_and!; try done; lia.
  - destruct Hr as (Hu & Hs & Hn). wp_steps. eval_cmp. wp_steps.
    unfold used_count in *. rewrite Hu, Hs. split_and!; try done; lia.
Qed.

(** [EnableDsaWQs] terminates: each round either finds nothing and stops or takes one
    more entry, so it returns the number of queues it enabled, which is at most the number
    of entries that were free, and no further queue can be taken from a device that is up. *)
Theorem enable_dsa_wqs_terminates os s :
  maps_ok os → setup_env os → ud_inv os s → pci_inv s →
  wp (EnableDsaWQs os) (λ n s',
    ud_inv os s' ∧ exclusive s' ∧ length (uwi s') = length (uwi s) ∧
    n = Z.of_nat (used_count s') - Z.of_nat (used_count s) ∧
    0 <= n <= Z.of_nat (length (uwi s)) - Z.of_nat (used_count s) ∧
    (used_count s' = length (uwi s') ∨ ∀ d b, summary s' !! d ≠ Some (1, true, b))) s.
Proof.
  intros Hmaps Henv Hinv Hpci. unfold EnableDsaWQs. wp_steps.
  eapply wp_mono; [apply (wp_enable_loop os Hmaps Henv (S (length (uwi s))) 0 s); try done|].
  - unfold used_count. pose proof (length_filter used (uwi s)). lia.
  - intros n s' (? & _ & Hl & -> & Hst & Hn). split_and!; try done; try lia.
    + by apply (inv_exclusive os).
    + unfold used_count in *. pose proof (length_filter used (uwi s')). lia.
Qed.

(** ** Discovery establishes the invariant *)

(** Before reading [lines], with [i] entries filled. *)
Record probe_inv (all : list string) (s : ud) (i : nat) (lines : list string) : Prop := {
  pi_sub : ∀ l, l ∈ lines → l ∈ all;
  pi_len : length (udi s) = nb_udev s;
  pi_wq : nb_wq s = Z.of_nat i;
  pi_dev : ∀ k u, udi s !! k = Some u → init_done u = false ∧
    ((k < i)%nat ∧ wq_avail u = 1 ∧ is_Some (bdf u) ∨ (i <= k)%nat ∧ wq_avail u = 0);
  pi_bdf : ∀ k u b, udi s !! k = Some u → bdf u = Some b →
    (b ∈ all ∧ is_Some (hws s !! b)) ∧ b ∉ lines;
  pi_nodup : ∀ k l u v b, udi s !! k = Some u → udi s !! l = Some v →
    bdf u = Some b → bdf v = Some b → k = l }.

(** One line read into entry [i]; [i'] is the next entry to fill. *)
Lemma probe_step all s s' i i' line lines u' :
  probe_inv all s i (line :: lines) → NoDup (line :: lines) → is_Some (hws s !! line) →
  (i < nb_udev s)%nat → udi s' = <[i := u']> (udi s) → nb_udev s' = nb_udev s → hws s' = hws s →
  nb_wq s' = Z.of_nat i' → bdf u' = Some line → init_done u' = false →
  (i' = i ∧ wq_avail u' = 0 ∨ i' = S i ∧ wq_avail u' = 1) → probe_inv all s' i' lines.
Proof.
  intros [] [Hni Hnd]%NoDup_cons Hhw Hi Eudi En Eh Ew Eb Eid Ecase.
  assert (line ∈ all) as Hall by (apply pi_sub0; by left).
  split; rewrite ?Eudi, ?En, ?Eh; try done.
  - intros l Hl. apply pi_sub0. by right.
  - by rewrite length_insert.
  - intros k u. rewrite list_lookup_insert. case_decide as Hk.
    + intros [= <-]. destruct Hk as [-> _]. split; [done|].
      destruct Ecase as [[-> ?]|[-> ?]]; [right|left]; split_and!; eauto; lia.
    + intros Hu. destruct (pi_dev0 _ _ Hu) as [? Hc]. split; [done|].
      apply lookup_lt_Some in Hu. destruct (decide (k = i)) as [->|]; [lia|].
      destruct Ecase as [[-> ?]|[-> ?]]; destruct Hc as [(? & ? & ?)|[? ?]];
        (left; split_and!; [lia|done|done]) || (right; split_and!; [lia|done]).
  - intros k u b. rewrite list_lookup_insert. case_decide as Hk.
    + intros [= <-]. rewrite Eb. by intros [= <-].
    + intros Hu Hb. destruct (pi_bdf0 _ _ _ Hu Hb) as [? Hn]. split; [done|].
      by apply not_elem_of_cons in Hn as [_ ?].
  - intros k l u v b. rewrite !list_lookup_insert.
    assert (∀ k u, udi s !! k = Some u → bdf u = Some line → False) as Hnew.
    { intros k0 u0 Hu0 Hb0. destruct (pi_bdf0 _ _ _ Hu0 Hb0) as [_ Hn]. apply Hn. by left. }
    case_decide as Hk; case_decide as Hl; intros Hu Hv Hb1 Hb2.
    + destruct Hk, Hl. congruence.
    + exfalso. eapply (Hnew l v); [done|congruence].
    + exfalso. eapply (Hnew k u); [done|congruence].
    + by eapply pi_nodup0.
Qed.

Lemma wp_probe_loop os eng all lines : ∀ i rc s,
  probe_inv all s i lines → NoDup lines → Forall (λ l, is_Some (hws s !! l)) lines →
  wp (probe_loop os eng lines i rc) (λ r s',
    uwi s' = uwi s ∧ hws s' = hws s ∧ (r = 0 → ∃ i', probe_inv all s' i' [])) s.
Proof.
  induction lines as [|line lines IH]; intros i rc s Hp Hnd Hhw; cbn [probe_loop]; wp_steps.
  { destruct (bool_decide _); wp_steps; eauto. }
  case_bool_decide as Hi.
  { wp_steps. split_and!; try done. intros _. exists i. destruct Hp. split; try done.
    { by intros l ?%not_elem_of_nil. }
    intros k u b Hu Hb. split; [by eapply pi_bdf0|apply not_elem_of_nil]. }
  case_bool_decide as Hl.
  { wp_steps. split_and!; try done. intros _. exists i. destruct Hp. split; try done.
    { by intros l ?%not_elem_of_nil. }
    intros k u b Hu Hb. split; [by eapply pi_bdf0|apply not_elem_of_nil]. }
  destruct (lookup_lt_is_Some_2 (udi s) i) as [u Eu]; [rewrite (pi_len _ _ _ _ Hp); lia|].
  apply Forall_cons in Hhw as [Hh1 Hhw]. pose proof Hnd as [_ Hnd']%NoDup_cons.
  destruct (pi_dev _ _ _ _ Hp _ _ Eu) as [Eid [(? & _ & _)|[_ Ea]]]; [lia|].
  unfold upd_udev. wp_steps. set (s1 := upd udi _ _).
  assert (∃ u1, udi s1 = <[i := u1]> (udi s) ∧ udi s1 !! i = Some u1 ∧ bdf u1 = Some line ∧
            init_done u1 = false ∧ wq_avail u1 = 0) as (u1 & E1 & Eu1 & Hb1 & Hi1 & Ha1).
  { eexists. split; [unfold s1; cbn; by rewrite list_alter_alter_eq, (list_alter_insert _ _ _ _ Eu)|].
    split; [unfold s1; cbn; by rewrite list_alter_alter_eq, list_lookup_alter_eq, Eu|]. cbn. done. }
  assert (wp (pci_dev_id os line) (λ _ s2, udi s2 = udi s1 ∧ uwi s2 = uwi s ∧ hws s2 = hws s ∧
            nb_udev s2 = nb_udev s ∧ nb_wq s2 = nb_wq s) s1) as Hid.
  { unfold pci_dev_id. destruct (device_file os line); wp_steps; try done.
    destruct (_ =? _); wp_steps; done. }
  eapply wp_mono; [exact Hid|]. clear Hid. intros id s2 (E2 & Euw & Ehw & Enu & Enw). wp_steps.
  destruct (s16 id <? 0) eqn:Eneg; [wp_steps; split_and!; try done; lia|].
  destruct (negb _).
  - eapply wp_mono; [apply IH|].
    + eapply (probe_step all s _ i i line lines (u1 <| dev_id := s16 id |>)); try done; try lia.
      * cbn. rewrite E2, (list_alter_insert _ _ _ _ Eu1), E1. apply list_insert_insert_eq.
      * cbn. rewrite Enw. apply Hp.
      * left. done.
    + done.
    + cbn. by rewrite Ehw.
    + intros r s' (H1 & H2 & ?). cbn in H1, H2. split_and!; try done; congruence.
  - wp_steps. eapply wp_mono; [apply IH|].
    + eapply (probe_step all s _ i (S i) line lines
                (u1 <| dev_id := s16 id |> <| nb_engines := u32 eng |> <| dev_nb_wq := 1 |>
                    <| wq_avail := 1 |>)); try done; try lia.
      * cbn. rewrite !list_alter_alter_eq, E2, (list_alter_insert _ _ _ _ Eu1), E1.
        apply list_insert_insert_eq.
      * cbn. rewrite Enw, (pi_wq _ _ _ _ Hp). lia.
      * right. done.
    + done.
    + cbn. by rewrite Ehw.
    + intros r s' (H1 & H2 & ?). cbn in H1, H2. split_and!; try done; congruence.
Qed.

Lemma no_used_entry n : filter used (replicate n (MkUdWq 0 0 0)) = [].
Proof.
  induction n as [|n IH]; [done|]. change (replicate (S n) ?w) with (w :: replicate n w).
  rewrite filter_cons, decide_False; [done|]. intros Hu. by apply Hu.
Qed.

Lemma wp_user_driver_init os eng lines s :
  bdf_lines os = Some lines → NoDup lines → Forall (λ l, is_Some (hws s !! l)) lines →
  wp (user_driver_init os eng) (λ rc s',
    rc = 0 → ud_inv os s' ∧ pci_inv s' ∧ used_count s' = O ∧
      ∀ d a i b, summary s' !! d = Some (a, i, b) →
        i = false ∧ (a = 1 ↔ (d < length (uwi s'))%nat)) s.
Proof.
  intros Hlines Hnd Hhw. unfold user_driver_init. wp_steps.
  destruct (uio_dev_count os =? 0); [by wp_steps|]. cbn [negb dpdk_init]. eval_cmp. cbn [negb].
  destruct (_ || _); [by wp_steps|]. wp_steps. rewrite Hlines. wp_steps.
  set (n := Z.to_nat (uio_dev_count os)). set (s1 := upd nb_wq _ _).
  assert (probe_inv lines s1 0 lines) as Hp.
  { split; cbn; try done; [by rewrite length_replicate|..].
    - intros k u [-> _]%lookup_replicate. split; [done|]. right. split; [lia|done].
    - by intros k u b [-> _]%lookup_replicate.
    - by intros k l u v b [-> _]%lookup_replicate. }
  eapply wp_mono; [by apply (wp_probe_loop os eng lines lines 0 0 s1)|].
  intros rc s2 (_ & _ & H). destruct (Z.eqb_spec rc 0) as [->|]; cbn [negb]; [|by wp_steps].
  destruct (H eq_refl) as [i' Hp']. wp_steps. intros _.
  destruct Hp'. set (s3 := upd uwi _ s2).
  assert (Z.to_nat (nb_wq s2) = i') as Ei by lia.
  assert (∀ j w, uwi s3 !! j = Some w → used w → False) as Hnone.
  { intros j w [-> _]%lookup_replicate Hu. by apply Hu. }
  split_and!.
  - split; cbn; try done.
    + rewrite length_replicate. lia.
    + intros k u Hu. destruct (pi_dev0 _ _ Hu) as [_ [(_ & -> & [b ?])|[_ ->]]]; eauto.
    + intros k u b Hu Hb. destruct (pi_bdf0 _ _ _ Hu Hb) as [[? ?] _]. unfold bdfs.
      by rewrite Hlines.
    + intros k u b Hu Hb Hi. destruct (pi_dev0 _ _ Hu). congruence.
    + intros j w Hw Hu. destruct (Hnone _ _ Hw Hu).
    + intros j k w v Hw Hv Hu. destruct (Hnone _ _ Hw Hu).
  - intros k u Hu Hi. destruct (pi_dev0 _ _ Hu). congruence.
  - unfold used_count. cbn [uwi s3 upd]. by rewrite no_used_entry.
  - intros d a i b. unfold summary. rewrite list_lookup_fmap, fmap_Some.
    intros (u & Hu & [= -> -> ->]). cbn. rewrite length_replicate, Ei.
    destruct (pi_dev0 _ _ Hu) as [? [(? & -> & _)|[? ->]]]; split; try done; lia.
Qed.

(** C30: driver initialisation never faults, and when it returns 0 the table satisfies the
    invariant with no queue out and no device brought up, and the devices with a free queue
    are the first ones, as many as the table has entries. *)
Theorem user_driver_init_establishes os eng lines s :
  bdf_lines os = Some lines → NoDup lines → Forall (λ l, is_Some (hws s !! l)) lines →
  wp (user_driver_init os eng) (λ rc s',
    rc = 0 → ud_inv os s' ∧ pci_inv s' ∧ used_count s' = O ∧
      ∀ d a i b, summary s' !! d = Some (a, i, b) →
        i = false ∧ (a = 1 ↔ (d < length (uwi s'))%nat)) s.
Proof. apply wp_user_driver_init. Qed.

(** ** Witnesses: two devices with four groups, eight queues and four engines *)

Definition demo_regs (gensts state : Z) : gmap Z Z :=
  {[ reg_gencap := Z.lor (Z.shiftl 31 16) (Z.shiftl 10 21); reg_wqcap := Z.lor 128 (Z.shiftl 8 16);
     reg_grpcap := 4; reg_engcap := 4; reg_offsets := Z.lor 4 (Z.shiftl 6 16);
     reg_gensts := gensts; 0x600 + 24 := Z.shiftl state 30 ]}.
Definition demo_hw (gensts state : Z) : hw := MkHw (demo_regs gensts state) 0.
Definition demo_lines : list string := ["0000:6a:01.0"; "0000:6f:01.0"]%string.
Definition demo_map (b r : string) : Z :=
  if decide (r = "resource0"%string) then 0x7000
  else if decide (b = "0000:6a:01.0"%string) then 0x10000 else 0x20000.
Definition demo_os (m : string → string → Z) : Os :=
  MkOs (Some (1, 2)) (Some (1, 0)) (Some demo_lines) (λ _, Some 0) (λ _, Content 0x0b25)
    (Some 1) (λ _, Some 0) m (λ _, Some "uio0"%string) (λ _, 0) (λ _, None) true true true
    (λ _, demo_hw 0 0) (λ h _, (h, λ _, 0)).
Definition demo_uio : Os := demo_os demo_map.
Definition demo_boot (err : Z) (h : hw) : ud :=
  MkUd [] [] 0 0 0 0 err {[ "0000:6a:01.0" := h; "0000:6f:01.0" := h ]}%string.
Definition demo_ud (err : Z) (h : hw) : ud :=
  match user_driver_init demo_uio (-1) (demo_boot err h) with Ok (_, s) => s | Err _ => demo_boot err h end.
(** Both devices enabled, queue enabled. *)
Definition demo_up : ud := demo_ud 2 (demo_hw 1 1).

Lemma demo_maps : maps_ok demo_uio.
Proof.
  split_and!.
  - intros b. done.
  - intros b. cbn. unfold demo_map. rewrite decide_False by done. by destruct (decide _).
  - intros b b' Hb Hb'. cbn in *. unfold demo_map. rewrite !decide_False by done.
    unfold demo_lines in *. rewrite !elem_of_cons, elem_of_nil in Hb, Hb'.
    destruct Hb as [->|[->|[]]], Hb' as [->|[->|[]]]; done.
Qed.
Lemma demo_inv h :
  (∃ s, user_driver_init demo_uio (-1) (demo_boot 2 h) = Ok (0, s)) →
  ud_inv demo_uio (demo_ud 2 h) ∧ pci_inv (demo_ud 2 h).
Proof.
  intros [s E].
  assert (wp (user_driver_init demo_uio (-1)) (λ rc s',
    rc = 0 → ud_inv demo_uio s' ∧ pci_inv s') (demo_boot 2 h)) as H.
  { eapply wp_mono; [apply (wp_user_driver_init demo_uio (-1) demo_lines); [done| |]|].
    - by apply (bool_decide_unpack _).
    - repeat constructor; eexists; reflexivity.
    - intros rc s' H ->. by destruct (H eq_refl) as (? & ? & _). }
  unfold demo_ud. rewrite E. apply (wp_run _ _ _ _ _ E) in H. by apply H.
Qed.
Lemma demo_up_inv : ud_inv demo_uio demo_up.
Proof. apply demo_inv. eexists. by vm_compute. Qed.
Lemma demo_down_inv : ud_inv demo_uio (demo_ud 2 (demo_hw 0 0)) ∧ pci_inv (demo_ud 2 (demo_hw 0 0)).
Proof. apply demo_inv. eexists. by vm_compute. Qed.

Definition result {S A} (r : res (A * S)) : option A :=
  match r with Ok (a, _) => Some a | Err _ => None end.

Lemma get_next_work_queue_exclusive_witness :
  portal <$> mjoin (result (GetNextWorkQueue demo_uio demo_up)) = Some 0x10000 ∧
  wp (GetNextWorkQueue demo_uio) (λ r s', exclusive s' ∧
    match r with Some info => portal_out s' (portal info) | None => True end) demo_up.
Proof.
  split; [vm_compute; reflexivity|].
  eapply wp_mono; [exact (get_next_work_queue_exclusive demo_uio demo_up demo_maps demo_up_inv)|].
  intros [info|] s' (_ & Hex & H); split; try done.
  by destruct H as (d & b & i & _ & _ & _ & _ & _ & _ & ? & _).
Defined.

(** When the registers cannot be mapped [uio_map] returns 0, and [init_pci_device] reads them
    through that address without looking. *)
Theorem unmapped_registers_fault :
  GetNextWorkQueue (demo_os (λ b r, if decide (r = "resource0"%string) then 0 else demo_map b r)) demo_up = Err NullDeref.
Proof. vm_compute. reflexivity. Qed.
(** When only the portal cannot be mapped, the search clears the bit of the queue and writes a
    null pointer into the entry: nothing is handed out, the device has lost its queue, and once
    every device has been tried the table is empty while no queue is out. *)
Definition demo_lost : ud :=
  match (GetNextWorkQueue (demo_os (λ b r, if decide (r = "resource2"%string) then 0 else demo_map b r));;
         GetNextWorkQueue (demo_os (λ b r, if decide (r = "resource2"%string) then 0 else demo_map b r))) demo_up with
  | Ok (_, s) => s | Err _ => demo_up end.
Theorem unmapped_portal_lost :
  used_count demo_lost = O ∧ wq_avail <$> udi demo_lost = [0; 0] ∧ result (GetNextWorkQueue demo_uio demo_lost) = Some None.
Proof. split_and!; vm_compute; reflexivity. Qed.

(** [demo_up] with the first queue handed out. *)
Definition demo_out : ud :=
  match GetNextWorkQueue demo_uio demo_up with Ok (_, s) => s | Err _ => demo_up end.
Lemma demo_out_inv : ud_inv demo_uio demo_out ∧ portal_out demo_out 0x10000.
Proof.
  split.
  - assert (wp (GetNextWorkQueue demo_uio) (λ _ s', ud_inv demo_uio s') demo_up) as H.
    { eapply wp_mono; [apply (wp_GetNextWorkQueue _ _ demo_maps demo_up_inv)|]. by intros r s' [? _]. }
    unfold demo_out. destruct (GetNextWorkQueue demo_uio demo_up) as [[r s']|] eqn:E.
    + by apply (wp_run _ _ _ _ _ E) in H.
    + apply demo_up_inv.
  - exists 0%nat. eexists. split; [by vm_compute|]. done.
Qed.

Lemma return_work_queue_releases_witness :
  wp (ReturnWorkQueue (MkUioWqInfo (Some "0000:6a:01.0"%string) 0 0x10000)) (λ _ s',
    ¬ portal_out s' 0x10000 ∧ used_count demo_out = S (used_count s')) demo_out.
Proof.
  destruct demo_out_inv as [Hi Ho].
  eapply wp_mono; [exact (return_work_queue_releases demo_uio demo_out 0x10000
    (Some "0000:6a:01.0"%string) 0 demo_maps Hi Ho)|].
  intros _ s' (_ & _ & Hn & Hc & _). split; [exact Hn|exact Hc].
Defined.

Lemma demo_setup : setup_env demo_uio.
Proof. split; [intros h; vm_compute; done|intros n e; discriminate]. Qed.

Lemma enable_dsa_wqs_terminates_witness :
  result (EnableDsaWQs demo_uio (demo_ud 2 (demo_hw 0 0))) = Some 2 ∧
  wp (EnableDsaWQs demo_uio) (λ n s', exclusive s' ∧ 0 <= n) (demo_ud 2 (demo_hw 0 0)).
Proof.
  destruct demo_down_inv as [Hi Hp]. split; [vm_compute; reflexivity|].
  eapply wp_mono; [exact (enable_dsa_wqs_terminates demo_uio (demo_ud 2 (demo_hw 0 0))
                            demo_maps demo_setup Hi Hp)|].
  intros n s' (_ & Hex & _ & _ & Hn & _). split; [exact Hex|apply Hn].
Defined.

Lemma user_driver_init_establishes_witness :
  ∃ s', user_driver_init demo_uio (-1) (demo_boot 2 (demo_hw 1 1)) = Ok (0, s') ∧
        ud_inv demo_uio s' ∧ length (uwi s') = 2%nat.
Proof.
  pose proof (user_driver_init_establishes demo_uio (-1) demo_lines (demo_boot 2 (demo_hw 1 1))) as H.
  eexists. split; [vm_compute; reflexivity|]. split; [|done].
  eapply wp_run in H; [|vm_compute; reflexivity|done| |].
  - exact (proj1 (H eq_refl)).
  - by apply (bool_decide_unpack _).
  - repeat constructor; eexists; reflexivity.
Defined.
