(* ===== verification/DsaUioDevice.v ===== *)
(** * DSA device commands and configuration: properties

    What [idxd_pci_dev_command] reports, the registers [configure] leaves behind, and the
    error codes that hide a failure. *)

From Stdlib Require Import ZArith Lia.
From stdpp Require Import prelude gmap strings.
From S2P Require Import Prelude DsaUio DsaUioTable.
Open Scope Z_scope.

(** ** Device commands *)

Definition busy (st : Z) : Prop := Z.land st CMDSTATUS_ACTIVE_MASK ≠ 0.

Lemma u8_mask z : Z.land (u8 z) CMDSTATUS_ERR_MASK = u8 z.
Proof. change CMDSTATUS_ERR_MASK with (Z.ones 8). rewrite <- wrap_land by done. by apply wrap_wrap. Qed.

Lemma cmd_poll_SS st n k :
  cmd_poll st (S (S n)) k =
  if Z.land (st (S k)) CMDSTATUS_ACTIVE_MASK =? 0 then u8 (st k) else cmd_poll st (S n) (S (S k)).
Proof. rewrite <- (u8_mask (st k)) at 1. done. Qed.

Lemma cmd_poll_done st n k j :
  (S j < n)%nat → (∀ i, (i < j)%nat → busy (st (k + 2 * i + 1)%nat)) → ¬ busy (st (k + 2 * j + 1)%nat) →
  cmd_poll st n k = u8 (st (k + 2 * j)%nat).
Proof.
  revert n k. induction j as [|j IH]; intros n k Hn Hb Hd; (destruct n as [|[|n]]; [lia|lia|]);
    rewrite cmd_poll_SS.
  - replace (k + 2 * 0 + 1)%nat with (S k) in Hd by lia. replace (k + 2 * 0)%nat with k by lia.
    unfold busy in Hd. destruct (Z.eqb_spec (Z.land (st (S k)) CMDSTATUS_ACTIVE_MASK) 0); [done|].
    by exfalso.
  - specialize (Hb 0%nat ltac:(lia)) as Hb0. replace (k + 2 * 0 + 1)%nat with (S k) in Hb0 by lia.
    rewrite (proj2 (Z.eqb_neq _ _) Hb0). rewrite (IH (S n) (S (S k))); [f_equal; f_equal; lia|lia| |].
    + intros i Hi. specialize (Hb (S i) ltac:(lia)). by replace (S (S k) + 2 * i + 1)%nat
        with (k + 2 * S i + 1)%nat by lia.
    + by replace (S (S k) + 2 * j + 1)%nat with (k + 2 * S j + 1)%nat by lia.
Qed.

Lemma cmd_poll_timeout st n k :
  (∀ i, (S i < n)%nat → busy (st (k + 2 * i + 1)%nat)) →
  cmd_poll st n k = u8 (st (k + 2 * (n - 1))%nat).
Proof.
  revert k. induction n as [|n IH]; intros k Hb; [cbn; f_equal; f_equal; lia|].
  destruct n as [|n]; [cbn; f_equal; f_equal; lia|]. rewrite cmd_poll_SS.
  specialize (Hb 0%nat ltac:(lia)) as Hb0. replace (k + 2 * 0 + 1)%nat with (S k) in Hb0 by lia.
  rewrite (proj2 (Z.eqb_neq _ _) Hb0), (IH (S (S k))); [f_equal; f_equal; lia|].
  intros i Hi. specialize (Hb (S i) ltac:(lia)).
  by replace (S (S k) + 2 * i + 1)%nat with (k + 2 * S i + 1)%nat by lia.
Qed.

(** C40: what [idxd_pci_dev_command] returns after the device is given a command: the low
    byte of the status read just before the first read that sees the command complete, or
    of the 1000th when none does. So a command whose failure becomes visible between those
    two reads is reported as a success, and so is one that never completes. *)
Theorem dev_command_result :
  (∀ st j, (j < 999)%nat → (∀ i, (i < j)%nat → busy (st (2 * i + 1)%nat)) →
     ¬ busy (st (2 * j + 1)%nat) → cmd_poll st 1000 0 = u8 (st (2 * j)%nat)) ∧
  (∀ st, (∀ i, (i < 999)%nat → busy (st (2 * i + 1)%nat)) →
     cmd_poll st 1000 0 = u8 (st 1998%nat)) ∧
  (let fails_late := λ k : nat, if decide (k = 0%nat) then CMDSTATUS_ACTIVE_MASK else 5 in
   cmd_poll fails_late 1000 0 = 0) ∧
  cmd_poll (λ _, CMDSTATUS_ACTIVE_MASK) 1000 0 = 0.
Proof.
  split_and!.
  - intros st j Hj Hb Hd. by apply (cmd_poll_done st 1000 0 j); [lia|..].
  - intros st Hb. apply (cmd_poll_timeout st 1000 0). intros i Hi. apply Hb. lia.
  - by vm_compute.
  - by vm_compute.
Qed.

(** ** Configuration of a device *)

Lemma rd_wr_eq off v h : rd (wr off v h) off = v.
Proof. unfold rd, wr. cbn. by rewrite lookup_insert_eq. Qed.
Lemma rd_wr_ne off off' v h : off ≠ off' → rd (wr off v h) off' = rd h off'.
Proof. intros. unfold rd, wr. cbn. by rewrite lookup_insert_ne. Qed.

Section folds.
Context (step : hw → nat → hw) (off : Z).
(** No step writes the register. *)
Lemma fold_frame l h :
  (∀ h i, i ∈ l → rd (step h i) off = rd h off) → rd (foldl step h l) off = rd h off.
Proof.
  revert h. induction l as [|i l IH]; intros h H; [done|]. cbn. rewrite IH.
  - apply H. by left.
  - intros h' j Hj. apply H. by right.
Qed.
(** Step [i0] writes [v], the others leave the register alone. *)
Lemma fold_write l h i0 v :
  i0 ∈ l → (∀ h, rd (step h i0) off = v) →
  (∀ h i, i ∈ l → i ≠ i0 → rd (step h i) off = rd h off) → rd (foldl step h l) off = v.
Proof.
  induction l as [|i l IH] using rev_ind; intros Hin Hv Ho; [by apply not_elem_of_nil in Hin|].
  rewrite foldl_snoc. destruct (decide (i = i0)) as [->|Hi]; [apply Hv|].
  rewrite Ho by (done || apply elem_of_app; right; by left).
  apply elem_of_app in Hin as [Hin|Hin%list_elem_of_singleton]; [|congruence].
  apply IH; [done..|]. intros h' j Hj. apply Ho, elem_of_app. by left.
Qed.
End folds.

(** The group and work queue tables the device announces lie behind the general registers
    and do not overlap. *)
Definition tables_apart (p : idxd_pci_common) (nb_groups nb_wqs : Z) : Prop :=
  0 <= wq_cfg_sz p ∧ 0x100 <= grp_regs p ∧ 0x100 <= wq_regs_base p ∧
  (grp_regs p + sizeof_grpcfg * nb_groups <= wq_regs_base p ∨
   wq_regs_base p + nb_wqs * 2 ^ (5 + wq_cfg_sz p) <= grp_regs p).

Lemma wq_cfg_addr p i k :
  0 <= wq_cfg_sz p → idxd_get_wq_cfg p i k = wq_regs_base p + i * 2 ^ (5 + wq_cfg_sz p) + 4 * k.
Proof. intros. unfold idxd_get_wq_cfg. rewrite Z.shiftl_mul_pow2 by lia. done. Qed.

Section configured.
Context (p : idxd_pci_common) (h : hw) (max_engines : Z).
Let nb_groups := u8 (rd h reg_grpcap).
Let nb_wqs := u8 (Z.shiftr (rd h reg_wqcap) 16).
Let n_eng := Z.min (u8 (rd h reg_engcap)) max_engines.
Context (Hrdy : ready h) (Htab : tables_apart p nb_groups nb_wqs) (Heng : 0 <= n_eng <= 64).

Let h1 := foldl (clear_group p) h (seq 0 (Z.to_nat nb_groups)).
Let h2 := foldl (clear_wq p) h1 (seq 0 (Z.to_nat nb_wqs)).
Let h3 := foldl (assign_engine p) h2 (seq 0 (Z.to_nat n_eng)).

Local Lemma groups_range : 1 <= nb_groups < 256.
Proof. pose proof (wrap_range 8 (rd h reg_grpcap)). destruct Hrdy as (_ & _ & Hg & _).
  unfold in_range, nb_groups in *. lia. Qed.
Local Lemma wqs_range : 1 <= nb_wqs < 256.
Proof. pose proof (wrap_range 8 (Z.shiftr (rd h reg_wqcap) 16)).
  destruct Hrdy as (_ & _ & _ & Hg). unfold in_range, nb_wqs in *. lia. Qed.

Local Lemma stride : 32 <= 2 ^ (5 + wq_cfg_sz p).
Proof. destruct Htab as [? _]. change 32 with (2 ^ 5). apply Z.pow_le_mono_r; lia. Qed.

(** Word [k] of queue [i] lies in the queue table. *)
Local Lemma wq_addr_range i k :
  (i < Z.to_nat nb_wqs)%nat → 0 <= k < 8 →
  wq_regs_base p <= idxd_get_wq_cfg p (Z.of_nat i) k <
  wq_regs_base p + nb_wqs * 2 ^ (5 + wq_cfg_sz p).
Proof.
  intros Hi Hk. pose proof stride. destruct Htab as [? _]. rewrite wq_cfg_addr by done. nia.
Qed.
Local Lemma grp_addr_range g off :
  (g < Z.to_nat nb_groups)%nat → 0 <= off < 64 →
  grp_regs p <= grp_reg p (Z.of_nat g) off < grp_regs p + sizeof_grpcfg * nb_groups.
Proof. intros. unfold grp_reg, sizeof_grpcfg. lia. Qed.

Local Ltac apart :=
  let go := unfold grp_reg, sizeof_grpcfg, off_grpengcfg, off_grpflags in *; lia in go.

(** Registers outside the group table are not touched by clearing the groups. *)
Local Lemma clear_groups_frame off :
  off < grp_regs p ∨ grp_regs p + sizeof_grpcfg * nb_groups <= off → rd h1 off = rd h off.
Proof.
  intros Ho. apply fold_frame. intros h' i Hi%elem_of_seq. unfold clear_group. cbn zeta.
  pose proof groups_range.
  pose proof (grp_addr_range i off_grpengcfg ltac:(lia) ltac:(done)).
  pose proof (grp_addr_range i 0 ltac:(lia) ltac:(done)).
  pose proof (grp_addr_range 0 off_grpflags ltac:(lia) ltac:(done)).
  destruct (_ <=? 2); rewrite !rd_wr_ne; try done; change (Z.of_nat 0) with 0 in *; lia.
Qed.
Local Lemma clear_groups_zero g off :
  (g < Z.to_nat nb_groups)%nat → off = 0 ∨ off = off_grpengcfg →
  rd h1 (grp_reg p (Z.of_nat g) off) = 0.
Proof.
  intros Hg Hoff. apply (fold_write _ _ _ _ g); [apply elem_of_seq; lia|..].
  - intros h'. unfold clear_group. cbn zeta. destruct Hoff as [-> | ->];
      destruct (_ <=? 2); repeat (rewrite rd_wr_eq || rewrite rd_wr_ne by apart); done.
  - intros h' i Hi Hne. unfold clear_group. cbn zeta. destruct Hoff as [-> | ->];
      destruct (_ <=? 2); repeat (rewrite rd_wr_eq || rewrite rd_wr_ne by apart); done.
Qed.

Local Lemma clear_wqs_frame off :
  off < wq_regs_base p ∨ wq_regs_base p + nb_wqs * 2 ^ (5 + wq_cfg_sz p) <= off →
  rd h2 off = rd h1 off.
Proof.
  intros Ho. apply fold_frame. intros h' i Hi%elem_of_seq. unfold clear_wq.
  pose proof (wq_addr_range i 0 ltac:(lia) ltac:(done)). rewrite rd_wr_ne; [done|lia].
Qed.
Local Lemma clear_wqs_zero i :
  (i < Z.to_nat nb_wqs)%nat → rd h2 (idxd_get_wq_cfg p (Z.of_nat i) 0) = 0.
Proof.
  intros Hi. apply (fold_write _ _ _ _ i); [apply elem_of_seq; lia|..].
  - intros h'. apply rd_wr_eq.
  - intros h' j Hj Hne. apply rd_wr_ne. pose proof stride. destruct Htab as [? _].
    rewrite !wq_cfg_addr by done. nia.
Qed.

Local Lemma engines_frame off : off ≠ grp_reg p 0 off_grpengcfg → rd h3 off = rd h2 off.
Proof.
  intros Ho. apply fold_frame. intros h' i _. unfold assign_engine. by rewrite rd_wr_ne.
Qed.
Local Lemma engines_mask m h0 :
  (m <= 64)%nat → rd h0 (grp_reg p 0 off_grpengcfg) = 0 →
  rd (foldl (assign_engine p) h0 (seq 0 m)) (grp_reg p 0 off_grpengcfg) = Z.ones (Z.of_nat m).
Proof.
  intros Hm H0. induction m as [|m IH]; [done|].
  rewrite seq_S, foldl_snoc. unfold assign_engine at 1. rewrite rd_wr_eq, IH by lia.
  replace (Z.of_nat (S m)) with (Z.of_nat m + 1) by lia. cbn [Nat.add].
  assert (Z.lor (Z.ones (Z.of_nat m)) (Z.shiftl 1 (Z.of_nat m)) = Z.ones (Z.of_nat m + 1)) as ->.
  { apply Z.bits_inj'. intros i Hi. rewrite Z.lor_spec, !Z.testbit_ones_nonneg by lia.
    rewrite Z.shiftl_1_l, Z.pow2_bits_eqb by lia.
    destruct (Z.ltb_spec i (Z.of_nat m)), (Z.ltb_spec i (Z.of_nat m + 1)),
      (Z.eqb_spec (Z.of_nat m) i); done || lia. }
  apply wrap_small. unfold in_range. rewrite Z.ones_equiv.
  assert (2 ^ (Z.of_nat m + 1) <= 2 ^ 64) by (apply Z.pow_le_mono_r; lia). lia.
Qed.

Lemma configured :
  let w i k := idxd_get_wq_cfg p (Z.of_nat i) k in
  let g i off := grp_reg p (Z.of_nat i) off in
  ∃ h', configure p max_engines h = Ok h' ∧
    rd h' (w 0%nat WQ_SIZE_IDX) = u16 (rd h reg_wqcap) ∧
    rd h' (w 0%nat WQ_MODE_IDX) = 17 ∧
    rd h' (w 0%nat WQ_SIZES_IDX) =
      Z.lor (Z.land (u8 (Z.shiftr (rd h reg_gencap) 16)) 0x1F)
            (Z.shiftl (Z.land (u8 (Z.shiftr (rd h reg_gencap) 21)) 0x0F) 5) ∧
    (∀ i, (0 < i < Z.to_nat nb_wqs)%nat → rd h' (w i WQ_SIZE_IDX) = 0) ∧
    rd h' (g 0%nat 0) = 1 ∧ rd h' (g 0%nat off_grpengcfg) = Z.ones n_eng ∧
    (∀ i, (0 < i < Z.to_nat nb_groups)%nat → rd h' (g i 0) = 0 ∧ rd h' (g i off_grpengcfg) = 0) ∧
    ∀ off, off < 0x100 → rd h' off = rd h off.
Proof.
  pose proof groups_range as Hgr. pose proof wqs_range as Hwr. pose proof stride as Hst.
  pose proof Htab as (Hsz & Hg0 & Hw0 & Hsep).
  assert (configure p max_engines h = Ok (assign_wq p nb_groups (u16 (rd h reg_wqcap))
    (Z.land (u8 (Z.shiftr (rd h reg_gencap) 16)) 0x1F)
    (Z.land (u8 (Z.shiftr (rd h reg_gencap) 21)) 0x0F) h3 0)) as E.
  { unfold configure. cbn zeta. fold nb_groups nb_wqs n_eng h1 h2 h3.
    replace (if _ && _ then max_queues else nb_wqs) with 1
      by (unfold max_queues; destruct (Z.ltb_spec 1 nb_wqs); cbn; lia).
    rewrite (proj2 (Z.eqb_neq nb_groups 0)) by lia. rewrite Z.div_1_r. done. }
  intros w g. eexists. split; [exact E|].
  assert (∀ k, 0 <= k < 8 → wq_regs_base p <= w 0%nat k <
            wq_regs_base p + nb_wqs * 2 ^ (5 + wq_cfg_sz p)) as Hw0r
    by (intros; apply wq_addr_range; lia).
  assert (∀ i off, (i < Z.to_nat nb_groups)%nat → 0 <= off < 64 →
            grp_regs p <= g i off < grp_regs p + sizeof_grpcfg * nb_groups) as Hgrr
    by (intros; by apply grp_addr_range).
  assert (Z.of_nat 0 mod nb_groups = Z.of_nat 0) as Hmod by (apply Z.mod_0_l; lia).
  unfold assign_wq. cbn zeta. rewrite Hmod. fold (g 0%nat 0).
  change (idxd_get_wq_cfg p (Z.of_nat 0)) with (w 0%nat).
  pose proof (Hw0r WQ_SIZE_IDX ltac:(done)) as A0. pose proof (Hw0r WQ_MODE_IDX ltac:(done)) as A2.
  pose proof (Hw0r WQ_SIZES_IDX ltac:(done)) as A3.
  pose proof (Hgrr 0%nat 0 ltac:(lia) ltac:(done)) as B0.
  assert (w 0%nat WQ_SIZE_IDX ≠ w 0%nat WQ_MODE_IDX ∧ w 0%nat WQ_SIZE_IDX ≠ w 0%nat WQ_SIZES_IDX ∧
          w 0%nat WQ_MODE_IDX ≠ w 0%nat WQ_SIZES_IDX) as (N1 & N2 & N3).
  { unfold w, WQ_SIZE_IDX, WQ_MODE_IDX, WQ_SIZES_IDX. rewrite !wq_cfg_addr by done. lia. }
  assert (∀ i off, (i < Z.to_nat nb_groups)%nat → off = 0 ∨ off = off_grpengcfg →
            rd h2 (g i off) = 0) as Hg2.
  { intros i off Hi Ho. rewrite clear_wqs_frame; [by apply clear_groups_zero|].
    pose proof (Hgrr i off Hi ltac:(destruct Ho as [-> | ->]; done)). lia. }
  assert (g 0%nat 0 ≠ grp_reg p 0 off_grpengcfg) as Hge by (unfold g; apart).
  pose proof (Hgrr 0%nat off_grpengcfg ltac:(lia) ltac:(done)) as Be.
  change (g 0%nat off_grpengcfg) with (grp_reg p 0 off_grpengcfg) in *. split_and!.
  - rewrite !rd_wr_ne by congruence. by rewrite rd_wr_eq.
  - rewrite rd_wr_ne by congruence. by rewrite rd_wr_eq.
  - by rewrite rd_wr_eq.
  - intros i Hi. assert (w i WQ_SIZE_IDX ≠ w 0%nat WQ_SIZE_IDX ∧
      w i WQ_SIZE_IDX ≠ w 0%nat WQ_MODE_IDX ∧ w i WQ_SIZE_IDX ≠ w 0%nat WQ_SIZES_IDX) as (M1 & M2 & M3).
    { unfold w, WQ_SIZE_IDX, WQ_MODE_IDX, WQ_SIZES_IDX. rewrite !wq_cfg_addr by done. nia. }
    pose proof (wq_addr_range i WQ_SIZE_IDX ltac:(lia) ltac:(done)) as Ai. fold (w i WQ_SIZE_IDX) in Ai.
    rewrite !rd_wr_ne by (congruence || lia). rewrite engines_frame by lia.
    apply clear_wqs_zero. lia.
  - rewrite !rd_wr_ne by lia. rewrite rd_wr_eq, engines_frame, Hg2 by (done || lia || by left). done.
  - rewrite !rd_wr_ne by lia.
    unfold h3. rewrite <- (Z2Nat.id n_eng) at 2 by lia.
    apply (engines_mask (Z.to_nat n_eng)); [lia|]. apply (Hg2 0%nat off_grpengcfg); [lia|by right].
  - intros i Hi. split.
    + pose proof (Hgrr i 0 ltac:(lia) ltac:(done)) as Bi.
      rewrite !rd_wr_ne by (lia || (unfold g; apart)).
      rewrite engines_frame by (unfold g; apart). apply Hg2; [lia|by left].
    + pose proof (Hgrr i off_grpengcfg ltac:(lia) ltac:(done)) as Bi.
      rewrite !rd_wr_ne by (lia || (unfold g; apart)).
      rewrite engines_frame by (unfold g; apart). apply Hg2; [lia|by right].
  - intros off Ho. rewrite !rd_wr_ne by lia. rewrite engines_frame by lia.
    rewrite clear_wqs_frame, clear_groups_frame by lia. done.
Qed.
End configured.


(** Configuring a reset device whose announced tables do not overlap succeeds and
    leaves exactly one dedicated work queue of the full size, with the device's maximum
    transfer and batch sizes, alone in group 0 together with the first engines; every other
    queue has size 0, every other group is empty, and no general register is touched. *)
Theorem configure_spec p h max_engines :
  let nb_groups := u8 (rd h reg_grpcap) in
  let nb_wqs := u8 (Z.shiftr (rd h reg_wqcap) 16) in
  let n_eng := Z.min (u8 (rd h reg_engcap)) max_engines in
  let w i k := idxd_get_wq_cfg p (Z.of_nat i) k in
  let g i off := grp_reg p (Z.of_nat i) off in
  ready h → tables_apart p nb_groups nb_wqs → 0 <= n_eng <= 64 →
  ∃ h', configure p max_engines h = Ok h' ∧
    rd h' (w 0%nat WQ_SIZE_IDX) = u16 (rd h reg_wqcap) ∧
    rd h' (w 0%nat WQ_MODE_IDX) = 17 ∧
    rd h' (w 0%nat WQ_SIZES_IDX) =
      Z.lor (Z.land (u8 (Z.shiftr (rd h reg_gencap) 16)) 0x1F)
            (Z.shiftl (Z.land (u8 (Z.shiftr (rd h reg_gencap) 21)) 0x0F) 5) ∧
    (∀ i, (0 < i < Z.to_nat nb_wqs)%nat → rd h' (w i WQ_SIZE_IDX) = 0) ∧
    rd h' (g 0%nat 0) = 1 ∧ rd h' (g 0%nat off_grpengcfg) = Z.ones n_eng ∧
    (∀ i, (0 < i < Z.to_nat nb_groups)%nat → rd h' (g i 0) = 0 ∧ rd h' (g i off_grpengcfg) = 0) ∧
    ∀ off, off < 0x100 → rd h' off = rd h off.
Proof. cbn zeta. intros Hr Ht He. by apply configured. Qed.

Lemma configure_spec_witness :
  ∃ h', configure (MkPci 0 0x7000 0x600 0x400) (2 ^ 32 - 1) (demo_hw 0 0) = Ok h' ∧
        rd h' 0x600 = 128 ∧ rd h' 0x420 = 15.
Proof.
  destruct (configure_spec (MkPci 0 0x7000 0x600 0x400) (demo_hw 0 0) (2 ^ 32 - 1))
    as (h' & E & H1 & _ & _ & _ & _ & H2 & _).
  - vm_compute. done.
  - vm_compute. split_and!; try done. by left.
  - vm_compute. done.
  - exists h'. split; [exact E|]. split; [exact H1|exact H2].
Defined.

(** ** What the error codes hide *)

(** Opening a device in read-only mode when the device (or its queue) is not enabled
    returns [-errno], and nothing there sets [errno]: with [errno] 0 the call reports
    success, and [GetNextWorkQueue] hands out the portal of a disabled device. *)
Theorem disabled_device_handed_out :
  (∀ os d u b h s, udi s !! d = Some u → bdf u = Some b → hws s !! b = Some h →
     resource0 u ≠ 0 → alloc_ok os = true → errno s = 0 →
     Z.land (rd h reg_gensts) GENSTS_DEV_STATE_MASK ≠ GENSTS_DEV_STATE_ENABLED →
     init_pci_device os d true s = Ok (0, s)) ∧
  match GetNextWorkQueue demo_uio (demo_ud 0 (demo_hw 0 0)) with
  | Ok (Some info, s') =>
      portal info = 0x10000 ∧
      (λ h, Z.land (rd h reg_gensts) GENSTS_DEV_STATE_MASK) <$> hws s' !! "0000:6a:01.0"%string
        = Some 0
  | _ => False
  end.
Proof.
  split; [|by vm_compute]. intros os d u b h s Eu Eb Eh Hr Ha He Hg.
  assert (wp (init_pci_device os d true) (λ rc s', rc = 0 ∧ s' = s) s) as H.
  { unfold init_pci_device. wp_steps. apply (wp_get_udev d u); [done|]. rewrite Ha. cbn [negb].
    wp_steps. unfold check_null. rewrite (proj2 (Z.eqb_neq _ _) Hr). wp_steps.
    apply (wp_need _ _ b); [done|]. apply wp_bind, (wp_get_hw b h); [done|]. wp_steps. cbn [negb].
    rewrite (proj2 (Z.eqb_neq _ _) Hg). cbn [negb]. wp_steps. rewrite He. done. }
  unfold wp in H. destruct (init_pci_device os d true s) as [[rc s']|]; [|done].
  by destruct H as [-> ->].
Qed.

(** [demo_uio] with a device of another kind, of id [id], listed first. *)
Definition demo_foreign (id : Z) : Os :=
  MkOs (Some (1, 2)) (Some (1, 0)) (Some ("0000:01:00.0"%string :: demo_lines)) (λ _, Some 0)
    (λ b, Content (if decide (b = "0000:01:00.0"%string) then id else 0x0b25))
    (Some 1) (λ _, Some 0) demo_map (λ _, Some "uio0"%string) (λ _, 0) (λ _, None) true true true
    (λ _, demo_hw 0 0) (λ h _, (h, λ _, 0)).
Definition foreign_boot : ud :=
  (demo_boot 2 (demo_hw 1 1)) <| hws ::= <["0000:01:00.0"%string := demo_hw 0 0]> |>.

(** A device of another kind bound to the UIO driver is skipped when its id is below
    0x8000 (both DSA devices are found) and aborts the whole initialisation when it is not:
    the id is read into a [short], turns negative and is taken for an error. *)
Theorem foreign_device_id_aborts_init :
  (λ r, match r with Ok (rc, s) => Some (rc, length (uwi s)) | Err _ => None end)
    <$> [user_driver_init (demo_foreign 0x7fff) (-1) foreign_boot;
         user_driver_init (demo_foreign 0x8000) (-1) foreign_boot]
  = [Some (0, 2%nat); Some (- 0x8000, 0%nat)].
Proof. by vm_compute. Qed.
