(* ===== verification/ChunkPool.v ===== *)
(** * The chunk pool allocator (src/src/common/chunk_pool.{h,cc})

    Hugepages are cut into 2 MB chunks kept in a central list. A thread's [TLSCache] has one
    [TLSBlockCache] per block size; it fetches chunks from the centre, cuts each into equal
    blocks and keeps its chunks in doubly linked lists: recyclable (every block free),
    available (some block free); a chunk with no free block is in no list. A block freed by
    another thread is queued for its owner.

    This file is the program: chunk headers and block headers are two heaps keyed by
    address, [0] is the null pointer, a [TLSBlockCache*] is a pair of cache number and index.
    The MPSC queue of deferred deallocations is the list of its elements, in order (its
    implementation is the subject of [MpscQueue]). One call of an operation is one step:
    it touches its own thread's cache, the queue of another one, and the central list under
    the pool's mutex. Counters of chunks and bytes are unbounded [Z]: a chunk is 2 MB of a
    64-bit address space, so their [size_t] never wraps upwards, and the invariant shows
    that none goes below zero. *)

From Stdlib Require Import ZArith Lia.
From stdpp Require Import prelude gmap.
From S2P Require Import Prelude LinkedList.
Open Scope Z_scope.

(** ** Layout *)

Definition kBlockSizes : list Z :=
  [1024; 2 * 1024; 4 * 1024; 8 * 1024; 16 * 1024; 32 * 1024; 64 * 1024; 128 * 1024;
   256 * 1024; 512 * 1024].
Definition kBlockNum : nat := 10.
Definition sizeof_ChunkHeader : Z := 48.
Definition sizeof_BlockHeader : Z := 16.
Definition kChunkSize : Z := 2 * 1024 * 1024.
Definition kMemoryPoolMaxAllocate : Z := 512 * 1024.

Record BlockHeader := MkBlockHeader { b_chunk : Z; b_next : Z }.
#[export] Instance eta_BlockHeader : Eta BlockHeader :=
  λ r, MkBlockHeader (b_chunk r) (b_next r).

Record ChunkHeader := MkChunkHeader {
  c_prev : Z; c_next : Z; c_head : Z; c_cache : option (nat * nat);
  available_block_num : Z; total_block_num : Z }.
#[export] Instance eta_ChunkHeader : Eta ChunkHeader := λ r,
  MkChunkHeader (c_prev r) (c_next r) (c_head r) (c_cache r) (available_block_num r)
                (total_block_num r).

#[export] Program Instance chunk_snode : SNode ChunkHeader :=
  {| nd_next := c_next; set_next v n := n <| c_next := v |> |}.
Next Obligation. done. Qed.
#[export] Program Instance chunk_dnode : DNode ChunkHeader :=
  {| nd_prev := c_prev; set_prev v n := n <| c_prev := v |> |}.
Next Obligation. done. Qed.
Next Obligation. done. Qed.
Next Obligation. done. Qed.
#[export] Program Instance block_snode : SNode BlockHeader :=
  {| nd_next := b_next; set_next v n := n <| b_next := v |> |}.
Next Obligation. done. Qed.

Record TLSBlockCache := MkBlockCache {
  recyclable_chunks : Z; available_chunks : Z; block_size : Z;
  total_size : Z; recyclable_size : Z; in_use_size : Z }.
#[export] Instance eta_TLSBlockCache : Eta TLSBlockCache := λ r,
  MkBlockCache (recyclable_chunks r) (available_chunks r) (block_size r) (total_size r)
               (recyclable_size r) (in_use_size r).

Record TLSCache := MkTLSCache {
  block_caches : list TLSBlockCache; tls_total_chunk_num : Z; tls_recyclable_chunk_num : Z;
  thread_deallocate_tasks : list Z; thread_id : Z }.
#[export] Instance eta_TLSCache : Eta TLSCache := λ r,
  MkTLSCache (block_caches r) (tls_total_chunk_num r) (tls_recyclable_chunk_num r)
             (thread_deallocate_tasks r) (thread_id r).

Record PoolOption := MkPoolOption {
  cache_recycle_threshold_size_mb : Z; recycle_chunk_num : Z; fetch_chunk_num : Z }.

Record pool := MkPool {
  chunkh : gmap Z ChunkHeader; blockh : gmap Z BlockHeader;
  chunks_ : Z; chunk_num_ : Z; total_chunk_num_ : Z; initialized_ : bool; opt_ : PoolOption;
  tls_caches_ : gmap nat TLSCache; orphan_tls_caches_ : list nat;
  metrics_getchunks : Z; metrics_putchunks : Z; metrics_putchunks_size : Z;
  metrics_fail_allocate : Z }.
#[export] Instance eta_pool : Eta pool := λ r,
  MkPool (chunkh r) (blockh r) (chunks_ r) (chunk_num_ r) (total_chunk_num_ r) (initialized_ r)
         (opt_ r) (tls_caches_ r) (orphan_tls_caches_ r) (metrics_getchunks r)
         (metrics_putchunks r) (metrics_putchunks_size r) (metrics_fail_allocate r).

(** ** Memory accesses *)

Definition get_chunk (p : Z) : ST pool ChunkHeader :=
  check_null p;; s ← get; need NullDeref (chunkh s !! p).
Definition mod_chunk (p : Z) (f : ChunkHeader → ChunkHeader) : ST pool unit :=
  n ← get_chunk p; modify (λ s, s <| chunkh ::= <[p := f n]> |>).
Definition get_block (p : Z) : ST pool BlockHeader :=
  check_null p;; s ← get; need NullDeref (blockh s !! p).
Definition mod_block (p : Z) (f : BlockHeader → BlockHeader) : ST pool unit :=
  n ← get_block p; modify (λ s, s <| blockh ::= <[p := f n]> |>).
Definition get_cache (k : nat) : ST pool TLSCache :=
  s ← get; need NullDeref (tls_caches_ s !! k).
Definition mod_cache (k : nat) (f : TLSCache → TLSCache) : ST pool unit :=
  tc ← get_cache k; modify (λ s, s <| tls_caches_ ::= <[k := f tc]> |>).
Definition get_bc (k i : nat) : ST pool TLSBlockCache :=
  tc ← get_cache k; need OutOfBounds (block_caches tc !! i).
Definition mod_bc (k i : nat) (f : TLSBlockCache → TLSBlockCache) : ST pool unit :=
  bc ← get_bc k i; mod_cache k (λ tc, tc <| block_caches ::= <[i := f bc]> |>).

(** [if (p) p->prev = v] *)
Definition set_prev_if (p v : Z) : ST pool unit :=
  when (negb (p =? 0)) (mod_chunk p (λ n, n <| c_prev := v |>)).

(** ** The central list *)

(** [for (--n; n && p; n--) p = p->next]: [n] is the decremented count; the list has at
    most one node per header. *)
Fixpoint get_walk (fuel : nat) (n p : Z) : ST pool Z :=
  match fuel with
  | O => raise OutOfFuel
  | S fuel =>
      if (n =? 0) || (p =? 0) then mret p
      else c ← get_chunk p; get_walk fuel (n - 1) (c_next c)
  end.

Definition GetChunks (n : Z) : ST pool Z :=
  s ← get;
  if chunk_num_ s <? n then mret 0
  else
    modify (λ s, s <| chunk_num_ ::= λ c, c - n |>);;
    p ← get_walk (S (size (chunkh s))) (u64 (n - 1)) (chunks_ s);
    let r := chunks_ s in
    c ← get_chunk p;
    modify (λ s, s <| chunks_ := c_next c |>);;
    set_prev_if (c_next c) 0;;
    mod_chunk p (λ n, n <| c_next := 0 |>);;
    modify (λ s, s <| metrics_getchunks ::= Z.add 1 |>);;
    mret r.

(** [for (; p->next; n++) p = p->next]: the last node and the count. *)
Fixpoint put_walk (fuel : nat) (n p : Z) : ST pool (Z * Z) :=
  match fuel with
  | O => raise OutOfFuel
  | S fuel =>
      c ← get_chunk p;
      if c_next c =? 0 then mret (p, n) else put_walk fuel (n + 1) (c_next c)
  end.

Definition PutChunks (head : Z) : ST pool unit :=
  if head =? 0 then mret ()
  else
    s ← get;
    if negb (initialized_ s) then mret ()
    else
      '(p, n) ← put_walk (S (size (chunkh s))) 1 head;
      mod_chunk p (λ c, c <| c_next := chunks_ s |>);;
      set_prev_if (chunks_ s) p;;
      modify (λ s, s <| chunks_ := head |>);;
      modify (λ s, s <| chunk_num_ ::= Z.add n |>);;
      modify (λ s, s <| metrics_putchunks ::= Z.add 1 |>);;
      modify (λ s, s <| metrics_putchunks_size ::= Z.add (n * kChunkSize) |>).

(** ** Cutting chunks into blocks *)

(** [n] more blocks follow [p]: link them, terminate the last. *)
Fixpoint link_blocks (n : nat) (chunk p ele_size : Z) : ST pool unit :=
  match n with
  | O => modify (λ s, s <| blockh ::= <[p := MkBlockHeader chunk 0]> |>)
  | S n =>
      modify (λ s, s <| blockh ::= <[p := MkBlockHeader chunk (p + ele_size)]> |>);;
      link_blocks n chunk (p + ele_size) ele_size
  end.

Definition blocks_per_chunk (block_size : Z) : Z :=
  (kChunkSize - sizeof_ChunkHeader) `div` (block_size + sizeof_BlockHeader).

Fixpoint BuildBlocks (fuel : nat) (k i : nat) (chunks block_size : Z) : ST pool unit :=
  match fuel with
  | O => raise OutOfFuel
  | S fuel =>
      if chunks =? 0 then mret ()
      else
        let ele_size := block_size + sizeof_BlockHeader in
        let total := blocks_per_chunk block_size in
        mod_chunk chunks (λ c, c <| c_cache := Some (k, i) |> <| total_block_num := total |>
                                 <| available_block_num := total |>
                                 <| c_head := chunks + sizeof_ChunkHeader |>);;
        link_blocks (Z.to_nat (total - 1)) chunks (chunks + sizeof_ChunkHeader) ele_size;;
        c ← get_chunk chunks;
        BuildBlocks fuel k i (c_next c) block_size
  end.

(** ** Thread caches *)

Definition clz32 (x : Z) : Z := 31 - Z.log2 x.
Fixpoint popcount_pos (p : positive) : Z :=
  match p with xH => 1 | xO p => popcount_pos p | xI p => 1 + popcount_pos p end.
Definition popcount (x : Z) : Z := match x with Zpos p => popcount_pos p | _ => 0 end.

Definition GetBlockIndex (size : Z) : Z :=
  let x := Z.shiftr (size + 1023) 10 in
  let x := if negb (Z.land x (x - 1) =? 0)
           then Z.shiftr 0x80000000 (clz32 (u32 x) - 1) else x in
  popcount (u32 (x - 1)).

(** [TLSCache::Recycle]: when the cache is over the limit and has enough recyclable chunks,
    all of them go back to the centre. *)
Fixpoint recycle_loop (k : nat) (ixs : list nat) : ST pool unit :=
  match ixs with
  | [] => mret ()
  | i :: ixs =>
      bc ← get_bc k i;
      PutChunks (recyclable_chunks bc);;
      mod_bc k i (λ bc, bc <| recyclable_chunks := 0 |>);;
      mod_bc k i (λ bc, bc <| total_size ::= λ t, t - recyclable_size bc |>);;
      mod_bc k i (λ bc, bc <| recyclable_size := 0 |>);;
      recycle_loop k ixs
  end.

Definition Recycle (k : nat) : ST pool unit :=
  s ← get;
  tc ← get_cache k;
  if (u64 (Z.shiftl (cache_recycle_threshold_size_mb (opt_ s)) 20) <? tls_total_chunk_num tc * kChunkSize)
     && (recycle_chunk_num (opt_ s) <=? tls_recyclable_chunk_num tc)
  then
    recycle_loop k (seq 0 kBlockNum);;
    mod_cache k (λ tc, tc <| tls_total_chunk_num ::= λ t, t - tls_recyclable_chunk_num tc |>);;
    mod_cache k (λ tc, tc <| tls_recyclable_chunk_num := 0 |>)
  else mret ().

(** [chunk->prev = nullptr; chunk->next = list; if (list) list->prev = chunk]: put a chunk
    in front of the list that starts at [list]. *)
Definition push_chunk (chunk list : Z) : ST pool unit :=
  mod_chunk chunk (λ c, c <| c_prev := 0 |>);;
  mod_chunk chunk (λ c, c <| c_next := list |>);;
  set_prev_if list chunk.

(** Add a chunk to the available list. *)
Definition to_available (o i : nat) (chunk : Z) : ST pool unit :=
  bc ← get_bc o i;
  push_chunk chunk (available_chunks bc);;
  mod_bc o i (λ bc, bc <| available_chunks := chunk |>).

(** Move a chunk from the available to the recyclable list. *)
Definition to_recyclable (k o i : nat) (chunk : Z) : ST pool unit :=
  c ← get_chunk chunk;
  let prev := c_prev c in
  let next := c_next c in
  (if prev =? 0 then mod_bc o i (λ bc, bc <| available_chunks := next |>)
   else mod_chunk prev (λ p, p <| c_next := next |>));;
  set_prev_if next prev;;
  bc ← get_bc o i;
  push_chunk chunk (recyclable_chunks bc);;
  mod_bc o i (λ bc, bc <| recyclable_chunks := chunk |>);;
  mod_cache k (λ tc, tc <| tls_recyclable_chunk_num ::= Z.add 1 |>);;
  mod_bc o i (λ bc, bc <| recyclable_size ::= Z.add kChunkSize |>).

(** The block goes back to its chunk, the chunk to the list it now belongs to. *)
Definition free_block (k o i : nat) (block chunk : Z) : ST pool unit :=
  c ← get_chunk chunk;
  mod_block block (λ b, b <| b_next := c_head c |>);;
  mod_chunk chunk (λ c, c <| c_head := block |>);;
  mod_chunk chunk (λ c, c <| available_block_num ::= Z.add 1 |>);;
  mod_bc o i (λ bc, bc <| in_use_size ::= λ u, u - block_size bc |>);;
  c ← get_chunk chunk;
  when (available_block_num c =? 1) (to_available o i chunk);;
  c ← get_chunk chunk;
  when (available_block_num c =? total_block_num c) (to_recyclable k o i chunk).

Definition PutBlock (k : nat) (ptr : Z) : ST pool unit :=
  let block := ptr - sizeof_BlockHeader in
  b ← get_block block;
  let chunk := b_chunk b in
  c ← get_chunk chunk;
  '(o, i) ← need NullDeref (c_cache c);
  owner ← get_cache o;
  this ← get_cache k;
  if negb (thread_id owner =? thread_id this) then
    mod_cache o (λ tc, tc <| thread_deallocate_tasks ::= λ l, l ++ [ptr] |>)
  else
    free_block k o i block chunk;;
    Recycle k.

(** Pops and frees until the queue is empty; nothing pushes meanwhile. *)
Fixpoint deferred_loop (fuel : nat) (k : nat) : ST pool unit :=
  match fuel with
  | O => raise OutOfFuel
  | S fuel =>
      tc ← get_cache k;
      match thread_deallocate_tasks tc with
      | [] => mret ()
      | task :: rest =>
          mod_cache k (λ tc, tc <| thread_deallocate_tasks := rest |>);;
          PutBlock k task;;
          deferred_loop fuel k
      end
  end.
Definition DeferredDeallocate (k : nat) : ST pool unit :=
  tc ← get_cache k; deferred_loop (S (length (thread_deallocate_tasks tc))) k.

(** The chunks a cache takes from the centre: [false] when there are not enough. *)
Definition fetch_chunks (k i : nat) : ST pool bool :=
  s ← get;
  let n := fetch_chunk_num (opt_ s) in
  chunks ← GetChunks n;
  if chunks =? 0 then mret false
  else
    mod_cache k (λ tc, tc <| tls_total_chunk_num ::= Z.add n |>);;
    mod_cache k (λ tc, tc <| tls_recyclable_chunk_num ::= Z.add n |>);;
    mod_bc k i (λ bc, bc <| total_size ::= Z.add (n * kChunkSize) |>);;
    mod_bc k i (λ bc, bc <| recyclable_size ::= Z.add (n * kChunkSize) |>);;
    bs ← need OutOfBounds (kBlockSizes !! i);
    s ← get;
    BuildBlocks (S (size (chunkh s))) k i chunks bs;;
    mod_bc k i (λ bc, bc <| recyclable_chunks := chunks |>);;
    mret true.

(** Move the first recyclable chunk to the (empty) available list. *)
Definition take_recyclable (k i : nat) : ST pool unit :=
  bc ← get_bc k i;
  let chunk := recyclable_chunks bc in
  mod_bc k i (λ bc, bc <| available_chunks := chunk |>);;
  c ← get_chunk chunk;
  mod_bc k i (λ bc, bc <| recyclable_chunks := c_next c |>);;
  set_prev_if (c_next c) 0;;
  mod_chunk chunk (λ c, c <| c_next := 0 |>);;
  mod_bc k i (λ bc, bc <| recyclable_size ::= λ r, r - kChunkSize |>);;
  mod_cache k (λ tc, tc <| tls_recyclable_chunk_num ::= λ r, r - 1 |>).

(** Take the first block of the first available chunk. *)
Definition take_block (k i : nat) : ST pool Z :=
  bc ← get_bc k i;
  let chunk := available_chunks bc in
  c ← get_chunk chunk;
  let block := c_head c in
  b ← get_block block;
  mod_chunk chunk (λ c, c <| c_head := b_next b |>);;
  mod_chunk chunk (λ c, c <| available_block_num ::= λ a, a - 1 |>);;
  c ← get_chunk chunk;
  when (available_block_num c =? 0)
    (mod_bc k i (λ bc, bc <| available_chunks := c_next c |>);;
     set_prev_if (c_next c) 0);;
  bs ← need OutOfBounds (kBlockSizes !! i);
  mod_bc k i (λ bc, bc <| in_use_size ::= Z.add bs |>);;
  mret (block + sizeof_BlockHeader).

Definition GetBlock (k : nat) (size : Z) : ST pool Z :=
  let i := Z.to_nat (GetBlockIndex size) in
  bc ← get_bc k i;
  when ((available_chunks bc =? 0) && (recyclable_chunks bc =? 0)) (DeferredDeallocate k);;
  bc ← get_bc k i;
  ready ← (if available_chunks bc =? 0 then
             fetched ← (if recyclable_chunks bc =? 0 then fetch_chunks k i else mret true);
             when fetched (take_recyclable k i);;
             mret fetched
           else mret true);
  if ready : bool then take_block k i else mret 0.

(** ** Thread cache life cycle *)

Definition new_TLSCache : TLSCache :=
  MkTLSCache ((λ bs, MkBlockCache 0 0 bs 0 0 0) <$> kBlockSizes) 0 0 [] 0.

(** An orphan cache if there is one (the last), else a new one numbered [fresh]. *)
Definition AdoptOrNewTlsCache (fresh : nat) : ST pool nat :=
  s ← get;
  match last (orphan_tls_caches_ s) with
  | None => modify (λ s, s <| tls_caches_ ::= <[fresh := new_TLSCache]> |>);; mret fresh
  | Some k =>
      modify (λ s, s <| orphan_tls_caches_ ::= λ l, take (length l - 1) l |>);; mret k
  end.

Definition AttachThread (k : nat) (tid : Z) : ST pool unit :=
  mod_cache k (λ tc, tc <| thread_id := tid |>).
Definition DetachThread (k : nat) : ST pool unit :=
  mod_cache k (λ tc, tc <| thread_id := 0 |>).

(** First use of the pool by thread [tid]. *)
Definition GetOrNewTlsCache (fresh : nat) (tid : Z) : ST pool nat :=
  k ← AdoptOrNewTlsCache fresh; AttachThread k tid;; mret k.

Definition Recyclable (k : nat) : ST pool bool :=
  tc ← get_cache k; mret (tls_total_chunk_num tc =? tls_recyclable_chunk_num tc).

Fixpoint reset_loop (k : nat) (ixs : list nat) : ST pool unit :=
  match ixs with
  | [] => mret ()
  | i :: ixs =>
      bc ← get_bc k i;
      PutChunks (recyclable_chunks bc);;
      mod_bc k i (λ bc, bc <| recyclable_chunks := 0 |>);;
      mod_bc k i (λ bc, bc <| available_chunks := 0 |>);;
      mod_bc k i (λ bc, bc <| total_size := 0 |> <| recyclable_size := 0 |> <| in_use_size := 0 |>);;
      reset_loop k ixs
  end.
Definition TLSCache_Reset (k : nat) : ST pool unit :=
  DeferredDeallocate k;;
  reset_loop k (seq 0 kBlockNum);;
  mod_cache k (λ tc, tc <| tls_recyclable_chunk_num := 0 |> <| tls_total_chunk_num := 0 |>).
Definition destroy_TLSCache (k : nat) : ST pool unit :=
  TLSCache_Reset k;; modify (λ s, s <| tls_caches_ ::= delete k |>).

(** [~TLSCacheGuard]: a thread that ends. *)
Definition thread_exit (k : nat) : ST pool unit :=
  DeferredDeallocate k;;
  DetachThread k;;
  r ← Recyclable k;
  if r : bool then destroy_TLSCache k
  else modify (λ s, s <| orphan_tls_caches_ ::= λ l, l ++ [k] |>).

(** ** The pool's interface, called by a thread whose cache is [k] *)

Definition Allocate (k : nat) (size : Z) : ST pool Z :=
  if kMemoryPoolMaxAllocate <? size then mret 0
  else if size =? 0 then mret 0
  else
    p ← GetBlock k size;
    when (p =? 0) (modify (λ s, s <| metrics_fail_allocate ::= Z.add 1 |>));;
    mret p.

Definition Deallocate (k : nat) (ptr : Z) : ST pool unit :=
  if ptr =? 0 then mret () else PutBlock k ptr.

Definition GetMemoryUsage : ST pool Z :=
  s ← get; mret (if initialized_ s then total_chunk_num_ s * kChunkSize else 0).
