(* ===== verification/ChunkPoolInv.v ===== *)
(** * The chunk pool: layout, invariant and primitive steps

    Where every chunk is (a place [lid] and the list it is in), which blocks of it are free,
    and the relation [inv] between that picture and the heap of headers. *)

From Stdlib Require Import ZArith Lia.
From stdpp Require Import prelude gmap.
From S2P Require Import Prelude LinkedList ChunkPool.
Open Scope Z_scope.

(** ** Block layout *)

Definition bsz (i : nat) : Z := default 0 (kBlockSizes !! i).
Definition nblk (i : nat) : nat := Z.to_nat (blocks_per_chunk (bsz i)).
Definition block_at (c : Z) (i j : nat) : Z :=
  c + sizeof_ChunkHeader + Z.of_nat j * (bsz i + sizeof_BlockHeader).
Definition blocks (c : Z) (i : nat) : list Z := block_at c i <$> seq 0 (nblk i).

(** Per size: at least three blocks, and the last one ends inside the chunk. *)
Lemma layout_facts i :
  (i < kBlockNum)%nat →
  (3 <= nblk i)%nat ∧ 1024 <= bsz i ∧ kBlockSizes !! i = Some (bsz i) ∧
  blocks_per_chunk (bsz i) = Z.of_nat (nblk i) ∧
  sizeof_ChunkHeader + Z.of_nat (nblk i) * (bsz i + sizeof_BlockHeader) <= kChunkSize.
Proof.
  intros Hi. unfold kBlockNum in Hi.
  do 10 (destruct i as [|i]; [vm_compute; split_and!; try done; lia|]). lia.
Qed.

Lemma elem_of_blocks b c i :
  b ∈ blocks c i ↔ ∃ j, (j < nblk i)%nat ∧ b = block_at c i j.
Proof.
  unfold blocks. rewrite list_elem_of_fmap. split.
  - intros (j & -> & Hj%elem_of_seq). exists j. split; [lia|done].
  - intros (j & Hj & ->). exists j. split; [done|]. apply elem_of_seq. lia.
Qed.

(** A block with its header lies inside its chunk, after the chunk's header. *)
Lemma block_range b c i :
  (i < kBlockNum)%nat → b ∈ blocks c i →
  c + sizeof_ChunkHeader <= b ∧ b + sizeof_BlockHeader + bsz i <= c + kChunkSize.
Proof.
  intros Hi (j & Hj & ->)%elem_of_blocks. destruct (layout_facts i Hi) as (_ & Hb & _ & _ & Hn).
  unfold block_at, sizeof_ChunkHeader, sizeof_BlockHeader in *. nia.
Qed.
(** Two blocks of a chunk do not overlap. *)
Lemma block_apart b b' c i :
  (i < kBlockNum)%nat → b ∈ blocks c i → b' ∈ blocks c i → b ≠ b' →
  b + sizeof_BlockHeader + bsz i <= b' ∨ b' + sizeof_BlockHeader + bsz i <= b.
Proof.
  intros Hi (j & Hj & ->)%elem_of_blocks (j' & Hj' & ->)%elem_of_blocks Hne.
  destruct (layout_facts i Hi) as (_ & Hb & _). unfold block_at, sizeof_BlockHeader in *.
  assert (j ≠ j') by (intros ->; done). remember (bsz i + 16) as x eqn:Ex.
  destruct (Nat.lt_total j j') as [Hlt|[|Hlt]]; [left|done|right].
  - assert (Z.of_nat j * x + x <= Z.of_nat j' * x) by nia. lia.
  - assert (Z.of_nat j' * x + x <= Z.of_nat j * x) by nia. lia.
Qed.
Lemma chunk_of_block b c i :
  (i < kBlockNum)%nat → c mod kChunkSize = 0 → b ∈ blocks c i → b - b mod kChunkSize = c.
Proof.
  intros Hi Hc Hb. destruct (block_range _ _ _ Hi Hb) as [H1 H2].
  destruct (layout_facts i Hi) as (_ & Hs & _). unfold sizeof_ChunkHeader, sizeof_BlockHeader in *.
  assert (0 < kChunkSize) as Hp by done.
  pose proof (Z.div_mod c kChunkSize ltac:(done)) as Hdm.
  rewrite <- (Z.mod_unique_pos b kChunkSize (c `div` kChunkSize) (b - c)); lia.
Qed.
Lemma blocks_disjoint b c c' i i' :
  (i < kBlockNum)%nat → (i' < kBlockNum)%nat → c mod kChunkSize = 0 → c' mod kChunkSize = 0 →
  b ∈ blocks c i → b ∈ blocks c' i' → c = c'.
Proof. intros Hi Hi' Hc Hc' Hb Hb'. rewrite <- (chunk_of_block b c i), <- (chunk_of_block b c' i'); done. Qed.

(** ** Places *)

Inductive lid := Central | Rec (k i : nat) | Av (k i : nat) | Full (k i : nat).
#[export] Instance lid_eq_dec : EqDecision lid.
Proof. solve_decision. Defined.
Definition linked (l : lid) : bool := match l with Full _ _ => false | _ => true end.

Definition bc_of (s : pool) (k i : nat) : option TLSBlockCache :=
  tc ← tls_caches_ s !! k; block_caches tc !! i.
Definition root (s : pool) (l : lid) : Z :=
  match l with
  | Central => chunks_ s
  | Rec k i => default 0 (recyclable_chunks <$> bc_of s k i)
  | Av k i => default 0 (available_chunks <$> bc_of s k i)
  | Full _ _ => 0
  end.

(** The picture: the chunks in each place, the free blocks of each chunk. *)
Record ghost := MkGhost { gL : lid → list Z; gF : Z → list Z }.
Definition member (g : ghost) (c : Z) (k i : nat) : Prop :=
  c ∈ gL g (Rec k i) ∨ c ∈ gL g (Av k i) ∨ c ∈ gL g (Full k i).

Definition data (n : ChunkHeader) : Z * option (nat * nat) * Z * Z :=
  (c_head n, c_cache n, available_block_num n, total_block_num n).

Record blocks_ok (bh : gmap Z BlockHeader) (c : Z) (i : nat) (free : list Z) : Prop := {
  bo_chain : sseg bh free null;
  bo_nodup : NoDup free;
  bo_sub : ∀ b, b ∈ free → b ∈ blocks c i;
  bo_chunk : ∀ b, b ∈ blocks c i → ∃ n, bh !! b = Some n ∧ b_chunk n = c }.

Definition chunk_ok (s : pool) (g : ghost) (c : Z) (k i : nat) : Prop :=
  data <$> chunkh s !! c =
    Some (hdp null (gF g c), Some (k, i), Z.of_nat (length (gF g c)), Z.of_nat (nblk i)) ∧
  blocks_ok (blockh s) c i (gF g c).

Definition count_rec (g : ghost) (k : nat) : nat :=
  sum_list_with (λ i, length (gL g (Rec k i))) (seq 0 kBlockNum).
Definition count_all (g : ghost) (k : nat) : nat :=
  sum_list_with (λ i, length (gL g (Rec k i)) + length (gL g (Av k i)) + length (gL g (Full k i)))%nat
    (seq 0 kBlockNum).

(** A block of [k]'s that is not free. *)
Definition busy_block (g : ghost) (k : nat) (p : Z) : Prop :=
  ∃ c i, member g c k i ∧ (p - sizeof_BlockHeader ∈ blocks c i) ∧ p - sizeof_BlockHeader ∉ gF g c.

(** What the invariant needs to know of a cache: its number of block caches, the queue of
    deferred deallocations, the thread. *)
Definition cview (s : pool) (k : nat) : option (nat * list Z * Z) :=
  (λ tc, (length (block_caches tc), thread_deallocate_tasks tc, thread_id tc)) <$> tls_caches_ s !! k.

(** [exc] is a chunk that may be fully free in an available list (inside [GetBlock]). *)
Record inv (exc : option Z) (s : pool) (g : ghost) : Prop := {
  i_lists : lists_ok linked (chunkh s) (root s) (gL g);
  i_addr : ∀ l c, c ∈ gL g l → 0 < c ∧ c mod kChunkSize = 0 ∧ is_Some (chunkh s !! c);
  i_num : chunk_num_ s = Z.of_nat (length (gL g Central));
  i_shape : ∀ k n ts tid, cview s k = Some (n, ts, tid) → n = kBlockNum;
  i_where : ∀ c k i, member g c k i → is_Some (cview s k) ∧ (i < kBlockNum)%nat;
  i_chunk : ∀ c k i, member g c k i → chunk_ok s g c k i;
  i_rec : ∀ c k i, c ∈ gL g (Rec k i) → length (gF g c) = nblk i;
  i_av : ∀ c k i, c ∈ gL g (Av k i) → gF g c ≠ [] ∧ ((length (gF g c) < nblk i)%nat ∨ exc = Some c);
  i_full : ∀ c k i, c ∈ gL g (Full k i) → gF g c = [];
  i_tasks : ∀ k n ts tid, cview s k = Some (n, ts, tid) →
    NoDup ts ∧ ∀ p, p ∈ ts → busy_block g k p;
  i_tid : ∀ k k' n n' ts ts' tid, cview s k = Some (n, ts, tid) → cview s k' = Some (n', ts', tid) →
    tid ≠ 0 → k = k';
  i_init : initialized_ s = true;
  i_fetch : 1 <= fetch_chunk_num (opt_ s) < 2 ^ 64 }.

(** The chunk counters of every cache are exact. *)
Definition counters_ok (s : pool) (g : ghost) : Prop :=
  ∀ k tc, tls_caches_ s !! k = Some tc →
    tls_total_chunk_num tc = Z.of_nat (count_all g k) ∧
    tls_recyclable_chunk_num tc = Z.of_nat (count_rec g k).

Definition pool_ok (s : pool) (g : ghost) : Prop := inv None s g ∧ counters_ok s g.

(** Memory the user holds: busy and not waiting to be freed. *)
Definition outstanding (s : pool) (g : ghost) (p : Z) : Prop :=
  ∃ k n ts tid, cview s k = Some (n, ts, tid) ∧ busy_block g k p ∧ p ∉ ts.

(** The pool has the same chunks. *)
Definition same_chunks (g g' : ghost) : Prop := ∀ c, (∃ l, c ∈ gL g l) ↔ (∃ l, c ∈ gL g' l).

(** ** Primitive steps *)

Definition upd_ch (p : Z) (f : ChunkHeader → ChunkHeader) (s : pool) : pool :=
  s <| chunkh ::= alter f p |>.
Definition upd_bl (p : Z) (f : BlockHeader → BlockHeader) (s : pool) : pool :=
  s <| blockh ::= alter f p |>.
Definition upd_tc (k : nat) (f : TLSCache → TLSCache) (s : pool) : pool :=
  s <| tls_caches_ ::= alter f k |>.
Definition upd_bc (k i : nat) (f : TLSBlockCache → TLSBlockCache) (s : pool) : pool :=
  upd_tc k (λ tc, tc <| block_caches ::= alter f i |>) s.
Definition upd_prev (p v : Z) (s : pool) : pool := s <| chunkh ::= λ h, set_prev_at h p v |>.

Section prim.
Context (s : pool).

Lemma wp_get_chunk p n (Q : ChunkHeader → pool → Prop) :
  chunkh s !! p = Some n → p ≠ 0 → Q n s → wp (get_chunk p) Q s.
Proof.
  intros E Hp HQ. unfold get_chunk, check_null. rewrite (proj2 (Z.eqb_neq _ _) Hp). wp_steps.
  by apply (wp_need _ _ n).
Qed.
Lemma wp_mod_chunk p f n (Q : unit → pool → Prop) :
  chunkh s !! p = Some n → p ≠ 0 → Q () (upd_ch p f s) → wp (mod_chunk p f) Q s.
Proof.
  intros E Hp HQ. unfold mod_chunk. wp_steps. apply (wp_get_chunk p n); [done..|]. wp_steps.
  unfold upd_ch in HQ. cbn in *. by rewrite (map_alter_insert _ _ _ n) in HQ.
Qed.
Lemma wp_get_block p n (Q : BlockHeader → pool → Prop) :
  blockh s !! p = Some n → p ≠ 0 → Q n s → wp (get_block p) Q s.
Proof.
  intros E Hp HQ. unfold get_block, check_null. rewrite (proj2 (Z.eqb_neq _ _) Hp). wp_steps.
  by apply (wp_need _ _ n).
Qed.
Lemma wp_mod_block p f n (Q : unit → pool → Prop) :
  blockh s !! p = Some n → p ≠ 0 → Q () (upd_bl p f s) → wp (mod_block p f) Q s.
Proof.
  intros E Hp HQ. unfold mod_block. wp_steps. apply (wp_get_block p n); [done..|]. wp_steps.
  unfold upd_bl in HQ. cbn in *. by rewrite (map_alter_insert _ _ _ n) in HQ.
Qed.
Lemma wp_get_cache k tc (Q : TLSCache → pool → Prop) :
  tls_caches_ s !! k = Some tc → Q tc s → wp (get_cache k) Q s.
Proof. intros E HQ. unfold get_cache. wp_steps. by apply (wp_need _ _ tc). Qed.
Lemma wp_mod_cache k f tc (Q : unit → pool → Prop) :
  tls_caches_ s !! k = Some tc → Q () (upd_tc k f s) → wp (mod_cache k f) Q s.
Proof.
  intros E HQ. unfold mod_cache. wp_steps. apply (wp_get_cache k tc); [done|]. wp_steps.
  unfold upd_tc in HQ. cbn in *. by rewrite (map_alter_insert _ _ _ tc) in HQ.
Qed.
Lemma wp_get_bc k i bc (Q : TLSBlockCache → pool → Prop) :
  bc_of s k i = Some bc → Q bc s → wp (get_bc k i) Q s.
Proof.
  unfold bc_of. intros (tc & E & Eb)%bind_Some HQ. unfold get_bc. wp_steps.
  apply (wp_get_cache k tc); [done|]. by apply (wp_need _ _ bc).
Qed.
Lemma wp_set_prev_if p v (Q : unit → pool → Prop) :
  (p ≠ 0 → is_Some (chunkh s !! p)) → Q () (upd_prev p v s) → wp (set_prev_if p v) Q s.
Proof.
  intros Hp HQ. unfold set_prev_if, upd_prev, set_prev_at in *. destruct (Z.eqb_spec p 0) as [->|Hn].
  - cbn in *. by destruct s.
  - cbn [negb when]. destruct (Hp Hn) as [n E]. by apply (wp_mod_chunk p _ n).
Qed.
End prim.

Lemma wp_mod_bc s k i f bc (Q : unit → pool → Prop) :
  bc_of s k i = Some bc → Q () (upd_bc k i f s) → wp (mod_bc k i f) Q s.
Proof.
  intros E HQ. unfold mod_bc. wp_steps. apply (wp_get_bc _ k i bc); [done|].
  unfold bc_of in E. apply bind_Some in E as (tc & E & Eb).
  apply (wp_mod_cache _ k _ tc); [done|]. unfold upd_bc, upd_tc in *. cbn in *.
  rewrite !(map_alter_insert _ _ _ tc) in * by done. by rewrite (list_alter_insert _ _ _ _ Eb) in HQ.
Qed.

(** ** Reading a state after primitive steps *)

Lemma bc_of_upd_bc s k i f k' i' :
  bc_of (upd_bc k i f s) k' i' =
  (if decide (k = k' ∧ i = i') then f else id) <$> bc_of s k' i'.
Proof.
  unfold bc_of, upd_bc, upd_tc. cbn. rewrite lookup_alter. destruct (decide (k = k')) as [<-|Hk].
  - destruct (tls_caches_ s !! k) as [tc|]; [|done]. cbn. rewrite list_lookup_alter_if.
    destruct (decide (i = i')) as [<-|]; [rewrite decide_True by done|rewrite decide_False by tauto];
      by destruct (block_caches tc !! _).
  - rewrite decide_False by tauto. destruct (tls_caches_ s !! k') as [tc|]; [|done]. cbn.
    by destruct (block_caches tc !! i').
Qed.
Lemma bc_of_upd_tc s k f k' i' :
  (∀ tc, block_caches (f tc) = block_caches tc) → bc_of (upd_tc k f s) k' i' = bc_of s k' i'.
Proof.
  intros Hf. unfold bc_of, upd_tc. cbn. rewrite lookup_alter. case_decide; [|done]. subst.
  destruct (tls_caches_ s !! k') as [tc|]; [|done]. cbn. by rewrite Hf.
Qed.
Lemma cview_upd_bc s k i f k' : cview (upd_bc k i f s) k' = cview s k'.
Proof.
  unfold cview, upd_bc, upd_tc. cbn. rewrite lookup_alter. case_decide; [|done]. subst.
  destruct (tls_caches_ s !! k') as [tc|]; [|done]. cbn. by rewrite length_alter.
Qed.
Lemma cview_upd_tc s k f k' :
  (∀ tc, length (block_caches (f tc)) = length (block_caches tc) ∧
         thread_deallocate_tasks (f tc) = thread_deallocate_tasks tc ∧ thread_id (f tc) = thread_id tc) →
  cview (upd_tc k f s) k' = cview s k'.
Proof.
  intros Hf. unfold cview, upd_tc. cbn. rewrite lookup_alter. case_decide; [|done]. subst.
  destruct (tls_caches_ s !! k') as [tc|]; [|done]. cbn. by destruct (Hf tc) as (-> & -> & ->).
Qed.
Definition tview (s : pool) (k : nat) : option (Z * Z) :=
  (λ tc, (tls_total_chunk_num tc, tls_recyclable_chunk_num tc)) <$> tls_caches_ s !! k.
Lemma tview_upd_bc s k i f k' : tview (upd_bc k i f s) k' = tview s k'.
Proof.
  unfold tview, upd_bc, upd_tc. cbn. rewrite lookup_alter. case_decide; [|done]. subst.
  by destruct (tls_caches_ s !! k').
Qed.
Lemma tview_upd_tc s k f k' :
  tview (upd_tc k f s) k' =
  if decide (k = k') then (λ tc, (tls_total_chunk_num (f tc), tls_recyclable_chunk_num (f tc)))
                          <$> tls_caches_ s !! k else tview s k'.
Proof.
  unfold tview, upd_tc. cbn. rewrite lookup_alter. case_decide; [|done]. subst.
  by destruct (tls_caches_ s !! k').
Qed.

(** ** Steps inside one block cache *)

Section step.
Context (k i : nat).
Definition here : list lid := [Rec k i; Av k i; Full k i].

Lemma here_nodup : NoDup here.
Proof. apply (bool_decide_unpack (NoDup here)). unfold here. by rewrite bool_decide_true;
  [|repeat (constructor; [rewrite ?elem_of_cons, ?elem_of_nil; naive_solver|]); constructor]. Qed.

Lemma member_here g c : member g c k i ↔ c ∈ (here ≫= gL g).
Proof.
  unfold member, here. rewrite list_elem_of_bind. split.
  - intros [|[|]]; eexists; (split; [done|]); set_solver.
  - intros (l & Hc & Hl). set_solver.
Qed.

(** Everything outside the places [here] is untouched, and the same chunks are in them. *)
Record step_frame (s : pool) (g : ghost) (s' : pool) (g' : ghost) : Prop := {
  sf_root : ∀ l, l ∉ here → root s' l = root s l;
  sf_view : ∀ k', cview s' k' = cview s k';
  sf_num : chunk_num_ s' = chunk_num_ s;
  sf_init : initialized_ s' = initialized_ s;
  sf_opt : opt_ s' = opt_ s;
  sf_L : ∀ l, l ∉ here → gL g' l = gL g l;
  sf_perm : (here ≫= gL g') ≡ₚ (here ≫= gL g);
  sf_heap : ∀ c, ¬ member g c k i → chunkh s' !! c = chunkh s !! c;
  sf_dom : ∀ c, is_Some (chunkh s !! c) → is_Some (chunkh s' !! c);
  sf_F : ∀ c, ¬ member g c k i → gF g' c = gF g c;
  sf_block : ∀ b, (∀ c, member g c k i → b ∉ blocks c i) → blockh s' !! b = blockh s !! b }.

Lemma sf_member s g s' g' c : step_frame s g s' g' → member g' c k i ↔ member g c k i.
Proof. intros []. by rewrite !member_here, sf_perm0. Qed.
Lemma sf_member_other s g s' g' c k' i' :
  step_frame s g s' g' → (k', i') ≠ (k, i) → member g' c k' i' ↔ member g c k' i'.
Proof. intros [] Hne. unfold member. rewrite !sf_L0; [done|..]; unfold here; set_solver. Qed.
Lemma sf_same s g s' g' : step_frame s g s' g' → same_chunks g g'.
Proof.
  intros [] c.
  assert (∀ g1 g2, (∀ l, l ∉ here → gL g2 l = gL g1 l) → (here ≫= gL g2) ≡ₚ (here ≫= gL g1) →
            (∃ l, c ∈ gL g1 l) → ∃ l, c ∈ gL g2 l) as H.
  { intros g1 g2 Ho Hp [l Hl]. destruct (decide (l ∈ here)) as [Hh|Hh].
    - assert (c ∈ (here ≫= gL g2)) as Hc by (rewrite Hp; apply list_elem_of_bind; eauto).
      apply list_elem_of_bind in Hc as (l' & ? & _). eauto.
    - exists l. by rewrite Ho. }
  split; apply H; try done. intros l Hl. symmetry. by apply sf_L0.
Qed.

(** Membership in a cache determines it. *)
Lemma member_unique exc s g c k1 i1 k2 i2 :
  inv exc s g → member g c k1 i1 → member g c k2 i2 → (k1, i1) = (k2, i2).
Proof.
  intros [[_ Hd _] _ _ _ _ _ _ _ _ _ _ _ _] H1 H2. unfold member in *.
  destruct H1 as [H1|[H1|H1]], H2 as [H2|[H2|H2]]; pose proof (Hd _ _ _ H1 H2); congruence.
Qed.

Lemma inv_step exc exc' s g s' g' :
  inv exc s g → step_frame s g s' g' →
  (exc' = exc ∨ ∀ c, exc = Some c → member g c k i) →
  dll (chunkh s') (root s' (Rec k i)) (gL g' (Rec k i)) →
  dll (chunkh s') (root s' (Av k i)) (gL g' (Av k i)) →
  (∀ c, member g c k i → chunk_ok s' g' c k i) →
  (∀ c, c ∈ gL g' (Rec k i) → length (gF g' c) = nblk i) →
  (∀ c, c ∈ gL g' (Av k i) → gF g' c ≠ [] ∧ ((length (gF g' c) < nblk i)%nat ∨ exc' = Some c)) →
  (∀ c, c ∈ gL g' (Full k i) → gF g' c = []) →
  (∀ c b n ts tid, member g c k i → b ∈ gF g' c → b ∉ gF g c → cview s k = Some (n, ts, tid) →
     b + sizeof_BlockHeader ∉ ts) →
  inv exc' s' g'.
Proof.
  intros Hinv Hsf Hexc HdR HdA Hck HR HA HF Hts. pose proof Hinv as []. pose proof Hsf as [].
  assert (∀ c, member g c k i → (i < kBlockNum)%nat) as Hi by (intros c Hc; by destruct (i_where0 _ _ _ Hc)).
  assert (∀ l c, c ∈ gL g' l → ∃ l0, c ∈ gL g l0) as Hback.
  { intros l c Hc. apply (sf_same _ _ _ _ Hsf). eauto. }
  assert (∀ c k' i', (k', i') ≠ (k, i) → member g c k' i' → ¬ member g c k i) as Hoth.
  { intros c k' i' Hne H1 H2. apply Hne. by eapply member_unique. }
  split.
  - eapply (lists_step linked _ _ _ _ _ _ here i_lists0); eauto using here_nodup.
    + intros c Hc. apply sf_heap0. intros Hm%member_here.
      apply list_elem_of_bind in Hm as (l & ? & ?). by eapply Hc.
    + intros l Hl Hlk. unfold here in Hl. rewrite !elem_of_cons, elem_of_nil in Hl.
      destruct Hl as [->|[->|[->|[]]]]; done.
  - intros l c Hc. destruct (Hback _ _ Hc) as [l0 Hc0]. destruct (i_addr0 _ _ Hc0) as (? & ? & ?).
    split_and!; auto.
  - by rewrite sf_num0, sf_L0 by (unfold here; set_solver).
  - intros k' n ts tid. rewrite sf_view0. apply i_shape0.
  - intros c k' i' Hm. rewrite sf_view0. destruct (decide ((k', i') = (k, i))) as [[= -> ->]|Hne].
    + apply (i_where0 c). by apply (sf_member _ _ _ _ c Hsf).
    + apply (i_where0 c). by apply (sf_member_other _ _ _ _ c k' i' Hsf).
  - intros c k' i' Hm. destruct (decide ((k', i') = (k, i))) as [[= -> ->]|Hne].
    { apply Hck. by apply (sf_member _ _ _ _ c Hsf). }
    apply (sf_member_other _ _ _ _ c k' i' Hsf Hne) in Hm.
    pose proof (Hoth _ _ _ Hne Hm) as Hn. destruct (i_chunk0 _ _ _ Hm) as [Hd Hb].
    unfold chunk_ok. rewrite sf_heap0, sf_F0 by done. split; [done|].
    assert (∀ b, b ∈ blocks c i' → blockh s' !! b = blockh s !! b) as Hbl.
    { intros b Hbb. apply sf_block0. intros c2 Hm2 Hbb2.
      assert (c2 = c) as ->; [|done].
      assert (∀ x kk ii, member g x kk ii → ∃ l, x ∈ gL g l) as Hex by (unfold member; naive_solver).
      destruct (Hex _ _ _ Hm) as [l1 Hl1], (Hex _ _ _ Hm2) as [l2 Hl2].
      eapply (blocks_disjoint b c2 c i i'); [by eapply Hi|by destruct (i_where0 _ _ _ Hm)|..]; try done;
        by eapply i_addr0. }
    destruct Hb. split; try done.
    + eapply sseg_agree; [|done]. intros b Hbf. apply Hbl. by apply bo_sub0.
    + intros b Hbb. rewrite Hbl by done. by apply bo_chunk0.
  - intros c k' i' Hc. destruct (decide ((k', i') = (k, i))) as [[= -> ->]|Hne]; [by apply HR|].
    rewrite sf_L0 in Hc by (unfold here; set_solver).
    rewrite sf_F0 by (eapply Hoth; [exact Hne|by left]). by eapply i_rec0.
  - intros c k' i' Hc. destruct (decide ((k', i') = (k, i))) as [[= -> ->]|Hne]; [by apply HA|].
    rewrite sf_L0 in Hc by (unfold here; set_solver).
    assert (¬ member g c k i) as Hn by (eapply Hoth; [exact Hne|right; by left]).
    rewrite sf_F0 by done. destruct (i_av0 _ _ _ Hc) as [? [?|?]]; split; auto.
    destruct Hexc as [->|Hx]; [by right|]. exfalso. by apply Hn, Hx.
  - intros c k' i' Hc. destruct (decide ((k', i') = (k, i))) as [[= -> ->]|Hne]; [by apply HF|].
    rewrite sf_L0 in Hc by (unfold here; set_solver).
    rewrite sf_F0 by (eapply Hoth; [exact Hne|right; by right]). by eapply i_full0.
  - intros k' n ts tid. rewrite sf_view0. intros Hv. destruct (i_tasks0 _ _ _ _ Hv) as [Hnd Ht].
    split; [done|]. intros p Hp. destruct (Ht p Hp) as (c & i' & Hm & Hb & Hnf). exists c, i'.
    destruct (decide ((k', i') = (k, i))) as [[= -> ->]|Hne].
    + split_and!; [by apply (sf_member _ _ _ _ c Hsf)|done|]. intros Hf.
      eapply (Hts c (p - sizeof_BlockHeader)); try done.
      by replace (p - sizeof_BlockHeader + sizeof_BlockHeader) with p by lia.
    + split_and!; [by apply (sf_member_other _ _ _ _ c k' i' Hsf)|done|].
      rewrite sf_F0; [done|]. by eapply Hoth.
  - intros k1 k2 n1 n2 ts1 ts2 tid. rewrite !sf_view0. apply i_tid0.
  - by rewrite sf_init0.
  - by rewrite sf_opt0.
Qed.
End step.

(** ** Rewriting the views of a state *)

Lemma bc_of_upd_ch s p f k i : bc_of (upd_ch p f s) k i = bc_of s k i. Proof. done. Qed.
Lemma bc_of_upd_prev s p v k i : bc_of (upd_prev p v s) k i = bc_of s k i. Proof. done. Qed.
Lemma bc_of_upd_bl s p f k i : bc_of (upd_bl p f s) k i = bc_of s k i. Proof. done. Qed.
Lemma cview_upd_ch s p f k : cview (upd_ch p f s) k = cview s k. Proof. done. Qed.
Lemma cview_upd_prev s p v k : cview (upd_prev p v s) k = cview s k. Proof. done. Qed.
Lemma cview_upd_bl s p f k : cview (upd_bl p f s) k = cview s k. Proof. done. Qed.
Lemma tview_upd_ch s p f k : tview (upd_ch p f s) k = tview s k. Proof. done. Qed.
Lemma tview_upd_prev s p v k : tview (upd_prev p v s) k = tview s k. Proof. done. Qed.
Lemma tview_upd_bl s p f k : tview (upd_bl p f s) k = tview s k. Proof. done. Qed.
Lemma tview_upd_tc_f s k f F k' :
  (∀ tc, (tls_total_chunk_num (f tc), tls_recyclable_chunk_num (f tc)) =
         F (tls_total_chunk_num tc, tls_recyclable_chunk_num tc)) →
  tview (upd_tc k f s) k' = (if decide (k = k') then F else id) <$> tview s k'.
Proof.
  intros HF. rewrite tview_upd_tc. unfold tview. case_decide; subst; destruct (tls_caches_ s !! k') as [tc|]; try done.
  cbn. by rewrite HF.
Qed.
#[export] Hint Rewrite bc_of_upd_ch bc_of_upd_prev bc_of_upd_bl bc_of_upd_bc
  cview_upd_ch cview_upd_prev cview_upd_bl cview_upd_bc
  tview_upd_ch tview_upd_prev tview_upd_bl tview_upd_bc : pool.
#[export] Hint Rewrite bc_of_upd_tc cview_upd_tc using done : pool.

Lemma bc_of_some s k i :
  is_Some (cview s k) → (i < kBlockNum)%nat →
  (∀ n ts tid, cview s k = Some (n, ts, tid) → n = kBlockNum) → is_Some (bc_of s k i).
Proof.
  intros [[[n ts] tid] Hv] Hi Hn. pose proof (Hn _ _ _ Hv) as ->.
  unfold cview in Hv. apply fmap_Some in Hv as (tc & E & Hx). simplify_eq.
  unfold bc_of. rewrite E. cbn. apply lookup_lt_is_Some_2. lia.
Qed.
Lemma bc_lookup exc s g k i :
  inv exc s g → is_Some (cview s k) → (i < kBlockNum)%nat → ∃ bc, bc_of s k i = Some bc.
Proof.
  intros Hinv Hk Hi. apply bc_of_some; [done..|]. intros. by eapply (i_shape _ _ _ Hinv).
Qed.

(** Roots outside block cache [(k, i)]. *)
Lemma root_frame s s' k i :
  (∀ k' i', (k, i) ≠ (k', i') → bc_of s' k' i' = bc_of s k' i') → chunks_ s' = chunks_ s →
  ∀ l, l ∉ here k i → root s' l = root s l.
Proof.
  intros Hb Hc l Hl. unfold here in Hl. destruct l as [|k' i'|k' i'|k' i']; cbn; try done;
    rewrite Hb; try done; intros [= <- <-]; set_solver.
Qed.

Lemma root_rec s k i bc : bc_of s k i = Some bc → root s (Rec k i) = recyclable_chunks bc.
Proof. cbn. by intros ->. Qed.
Lemma root_av s k i bc : bc_of s k i = Some bc → root s (Av k i) = available_chunks bc.
Proof. cbn. by intros ->. Qed.

(** Replace the list at one place. *)
Definition lset (l : lid) (v : list Z) (L : lid → list Z) : lid → list Z :=
  λ l', if decide (l' = l) then v else L l'.
Lemma lset_eq l v L : lset l v L l = v.
Proof. unfold lset. by rewrite decide_True. Qed.
Lemma lset_ne l v L l' : l' ≠ l → lset l v L l' = L l'.
Proof. intros. unfold lset. by rewrite decide_False. Qed.
Definition fset (c : Z) (v : list Z) (F : Z → list Z) : Z → list Z :=
  λ c', if decide (c' = c) then v else F c'.
Lemma fset_eq c v F : fset c v F c = v.
Proof. unfold fset. by rewrite decide_True. Qed.
Lemma fset_ne c v F c' : c' ≠ c → fset c v F c' = F c'.
Proof. intros. unfold fset. by rewrite decide_False. Qed.
Ltac lset_simpl := repeat (rewrite lset_eq || rewrite lset_ne by done).

(** A decision about pairs that holds, or not. *)
Lemma decide_pair {A} (k i k' i' : nat) (x y : A) :
  (k, i) ≠ (k', i') → (if decide (k = k' ∧ i = i') then x else y) = y.
Proof. intros Hne. case_decide as H; [|done]. destruct H as [-> ->]. done. Qed.
Lemma decide_same {A} (k i : nat) (x y : A) : (if decide (k = k ∧ i = i) then x else y) = x.
Proof. by rewrite decide_True. Qed.
Lemma decide_eq {A} (k : nat) (x y : A) : (if decide (k = k) then x else y) = x.
Proof. by rewrite decide_True. Qed.
#[export] Hint Rewrite @decide_same @decide_eq : pool.
#[export] Hint Rewrite @decide_pair using done : pool.

(** The views after a sequence of primitive steps, for another block cache and this one. *)
Ltac pool_simpl := autorewrite with pool; cbn [id fmap option_fmap option_map].
