(* ===== verification/ChunkPoolSteps.v ===== *)
(** * The chunk pool: each stretch of pointer code keeps the invariant

    One lemma per stretch of [GetBlock] and [PutBlock]: which list the chunk moves to, what
    happens to its free blocks, and that [inv] and the chunk counters hold afterwards. *)

From Stdlib Require Import ZArith Lia.
From stdpp Require Import prelude gmap.
From S2P Require Import Prelude LinkedList ChunkPool ChunkPoolInv.
Open Scope Z_scope.

#[export] Hint Rewrite @option_fmap_id : pool.

(** ** Headers after relinking *)

Lemma data_set_prev_at (h : gmap Z ChunkHeader) p v c : data <$> set_prev_at h p v !! c = data <$> h !! c.
Proof.
  unfold set_prev_at. destruct (p =? 0); [done|]. rewrite lookup_alter. case_decide; [|done].
  subst. by destruct (h !! c) as [[]|].
Qed.
Lemma data_alter (h : gmap Z ChunkHeader) f (p c : Z) :
  (∀ n, data (f n) = data n) → data <$> alter f p h !! c = data <$> h !! c.
Proof.
  intros Hf. rewrite lookup_alter. case_decide; [|done]. subst.
  destruct (h !! c); [|done]. cbn. by rewrite Hf.
Qed.
Lemma some_set_prev_at (h : gmap Z ChunkHeader) p v c :
  is_Some (set_prev_at h p v !! c) ↔ is_Some (h !! c).
Proof. by rewrite <- !(fmap_is_Some data), data_set_prev_at. Qed.
Lemma some_alter {A} (h : gmap Z A) f p c : is_Some (alter f p h !! c) ↔ is_Some (h !! c).
Proof. rewrite lookup_alter. case_decide; [|done]. subst. by rewrite fmap_is_Some. Qed.

Lemma wp_mod_chunk_some s p f (Q : unit → pool → Prop) :
  is_Some (chunkh s !! p) → p ≠ 0 → Q () (upd_ch p f s) → wp (mod_chunk p f) Q s.
Proof. intros [n E] Hp HQ. by apply (wp_mod_chunk s p f n). Qed.
Lemma wp_mod_bc_some s k i f (Q : unit → pool → Prop) :
  is_Some (bc_of s k i) → Q () (upd_bc k i f s) → wp (mod_bc k i f) Q s.
Proof. intros [n E] HQ. by apply (wp_mod_bc s k i f n). Qed.
Lemma wp_mod_cache_some s k f (Q : unit → pool → Prop) :
  is_Some (cview s k) → Q () (upd_tc k f s) → wp (mod_cache k f) Q s.
Proof. unfold cview. rewrite fmap_is_Some. intros [tc E] HQ. by apply (wp_mod_cache s k f tc). Qed.

(** ** Chunk counters *)

Lemma counters_view s g :
  counters_ok s g ↔
  ∀ k a b, tview s k = Some (a, b) → a = Z.of_nat (count_all g k) ∧ b = Z.of_nat (count_rec g k).
Proof.
  unfold counters_ok, tview. split.
  - intros H k a b (tc & E & [= -> ->])%fmap_Some. by apply H.
  - intros H k tc E. eapply H. by rewrite E.
Qed.

Lemma sum_ext (f f' : nat → nat) l :
  (∀ j, j ∈ l → f' j = f j) → sum_list_with f' l = sum_list_with f l.
Proof.
  induction l as [|x l IH]; intros Hf; [done|]. cbn. rewrite (Hf x) by set_solver.
  by rewrite IH by set_solver.
Qed.
Lemma sum_change (f f' : nat → nat) (n i : nat) :
  (i < n)%nat → (∀ j, j ≠ i → f' j = f j) →
  (sum_list_with f' (seq 0 n) + f i = sum_list_with f (seq 0 n) + f' i)%nat.
Proof.
  intros Hi Hf. induction n as [|n IH]; [lia|]. rewrite seq_S, !sum_list_with_app. cbn.
  destruct (decide (i = n)) as [->|].
  - rewrite (sum_ext f f' (seq 0 n)); [lia|]. intros j Hj%elem_of_seq. apply Hf. lia.
  - rewrite (Hf n) by done. assert (i < n)%nat by lia. specialize (IH ltac:(lia)). lia.
Qed.

(** A step inside block cache [(k, i)]: the total stays, the recyclable count follows the
    recyclable list. *)
Lemma counters_step k i s g s' g' :
  (i < kBlockNum)%nat → counters_ok s g → step_frame k i s g s' g' →
  (∀ k', k' ≠ k → tview s' k' = tview s k') →
  (∀ a b, tview s k = Some (a, b) →
     tview s' k = Some (a, b + Z.of_nat (length (gL g' (Rec k i))) - Z.of_nat (length (gL g (Rec k i))))) →
  is_Some (tview s k) → counters_ok s' g'.
Proof.
  rewrite !counters_view. intros Hi Hc Hsf Ho Hk [[a b] Hab] k' a' b'.
  pose proof Hsf as [].
  assert (∀ l, l ∉ here k i → length (gL g' l) = length (gL g l)) as Hl by (intros; by rewrite sf_L).
  assert (length (here k i ≫= gL g') = length (here k i ≫= gL g)) as Hp by (by rewrite sf_perm).
  unfold here in Hp. cbn in Hp. rewrite !length_app in Hp. cbn in Hp.
  destruct (decide (k' = k)) as [->|Hne].
  - rewrite (Hk _ _ Hab). intros [= <- <-]. destruct (Hc _ _ _ Hab) as [-> ->]. unfold count_all, count_rec.
    pose proof (sum_change (λ i, length (gL g (Rec k i))) (λ i, length (gL g' (Rec k i))) kBlockNum i Hi) as H1.
    pose proof (sum_change (λ i, length (gL g (Rec k i)) + length (gL g (Av k i)) + length (gL g (Full k i)))%nat
      (λ i, length (gL g' (Rec k i)) + length (gL g' (Av k i)) + length (gL g' (Full k i)))%nat kBlockNum i Hi) as H2.
    specialize (H1 ltac:(intros; apply Hl; unfold here; set_solver)).
    specialize (H2 ltac:(intros; cbn beta; rewrite !Hl; [done|..]; unfold here; set_solver)).
    cbn beta in *. lia.
  - rewrite Ho by done. intros Hv. destruct (Hc _ _ _ Hv) as [-> ->]. unfold count_all, count_rec.
    split; f_equal; apply sum_ext; intros j _; rewrite !Hl; try done; unfold here; set_solver.
Qed.

(** ** Steps that touch one block cache *)

Record local (k i : nat) (s s' : pool) : Prop := {
  lc_bc : ∀ k' i', (k, i) ≠ (k', i') → bc_of s' k' i' = bc_of s k' i';
  lc_view : ∀ k', cview s' k' = cview s k';
  lc_chunks : chunks_ s' = chunks_ s;
  lc_num : chunk_num_ s' = chunk_num_ s;
  lc_init : initialized_ s' = initialized_ s;
  lc_opt : opt_ s' = opt_ s }.
Ltac solve_local :=
  try match goal with |- local _ _ _ ?x => unfold x end;
  split; [intros; by pool_simpl|intros; by pool_simpl|done..].

Lemma set_prev_at_other (h : gmap Z ChunkHeader) p v c :
  (p ≠ 0 → c ≠ p) → set_prev_at h p v !! c = h !! c.
Proof.
  intros Hp. unfold set_prev_at. destruct (Z.eqb_spec p 0); [done|]. rewrite lookup_alter_ne; [done|].
  intros ->. by apply Hp.
Qed.
Lemma hdp_other l c : c ∉ l → hdp null l ≠ 0 → c ≠ hdp null l.
Proof. destruct l as [|d l]; cbn; [done|]. intros Hc _ ->. apply Hc. by left. Qed.

(** Chunk headers changed only in their links, and only inside [(k, i)]. *)
Lemma relink_frame k i s g s' g' :
  local k i s s' → gF g' = gF g → blockh s' = blockh s →
  (∀ l, l ∉ here k i → gL g' l = gL g l) → (here k i ≫= gL g') ≡ₚ (here k i ≫= gL g) →
  (∀ c, ¬ member g c k i → chunkh s' !! c = chunkh s !! c) →
  (∀ c, data <$> chunkh s' !! c = data <$> chunkh s !! c) →
  step_frame k i s g s' g'.
Proof.
  intros [] HF Hb HL Hp Hh Hd. split; try done.
  - by apply root_frame.
  - intros c. by rewrite <- !(fmap_is_Some data), Hd.
  - by rewrite HF.
  - by rewrite Hb.
Qed.
Lemma relink_chunk exc k i s g s' g' c :
  inv exc s g → gF g' = gF g → blockh s' = blockh s →
  (∀ c, data <$> chunkh s' !! c = data <$> chunkh s !! c) →
  member g c k i → chunk_ok s' g' c k i.
Proof. intros Hinv HF Hb Hd Hc. unfold chunk_ok. rewrite Hd, HF, Hb. by eapply i_chunk. Qed.

Lemma tview_some s k : is_Some (cview s k) → is_Some (tview s k).
Proof. unfold cview, tview. by rewrite !fmap_is_Some. Qed.

(** ** [take_recyclable] *)

Lemma heads exc s g k i bc :
  inv exc s g → bc_of s k i = Some bc →
  recyclable_chunks bc = hdp null (gL g (Rec k i)) ∧ available_chunks bc = hdp null (gL g (Av k i)) ∧
  dll (chunkh s) (recyclable_chunks bc) (gL g (Rec k i)) ∧
  dll (chunkh s) (available_chunks bc) (gL g (Av k i)).
Proof.
  intros Hinv E. pose proof (i_lists _ _ _ Hinv) as [_ _ Hd].
  pose proof (Hd (Rec k i) eq_refl) as H1. pose proof (Hd (Av k i) eq_refl) as H2.
  rewrite (root_rec _ _ _ _ E) in H1. rewrite (root_av _ _ _ _ E) in H2.
  split_and!; [apply H1|apply H2|done|done].
Qed.

Lemma take_recyclable_ok s g k i c t :
  pool_ok s g → is_Some (cview s k) → (i < kBlockNum)%nat →
  gL g (Rec k i) = c :: t → gL g (Av k i) = [] →
  let g' := MkGhost (lset (Rec k i) t (lset (Av k i) [c] (gL g))) (gF g) in
  wp (take_recyclable k i) (λ _ s',
    inv (Some c) s' g' ∧ counters_ok s' g' ∧ step_frame k i s g s' g') s.
Proof.
  intros [Hinv Hcnt] Hk Hi HR HA g'. destruct (bc_lookup _ _ _ k i Hinv Hk Hi) as [bc Ebc].
  destruct (heads _ _ _ _ _ _ Hinv Ebc) as (Hr & Ha & HdR & HdA). rewrite HR in *. rewrite HA in *.
  cbn [hdp] in Hr, Ha. 
  assert (c ∈ gL g (Rec k i)) as Hc by (rewrite HR; by left).
  destruct (i_addr _ _ _ Hinv _ _ Hc) as (Hc0 & _ & [n En]).
  rewrite Hr in HdR. pose proof (dll_tail _ _ _ _ HdR En) as Hnx. change (c_next n = hdp null t) in Hnx.
  pose proof (lo_nodup _ _ _ _ (i_lists _ _ _ Hinv) (Rec k i)) as Hnd. rewrite HR in Hnd.
  assert (hdp null t ≠ 0 → is_Some (chunkh s !! hdp null t)) as Hnt.
  { intros Ht. destruct t as [|d t]; [done|]. eapply (i_addr _ _ _ Hinv (Rec k i)). rewrite HR. set_solver. }
  unfold take_recyclable. wp_steps. apply (wp_get_bc _ _ _ bc); [done|]. wp_steps.
  apply wp_mod_bc_some; [done|]. wp_steps. rewrite Hr.
  apply (wp_get_chunk _ _ n); [done|lia|]. wp_steps.
  apply wp_mod_bc_some; [pool_simpl; by rewrite Ebc|]. wp_steps. rewrite Hnx.
  apply wp_set_prev_if; [done|]. wp_steps.
  apply wp_mod_chunk_some; [by apply some_set_prev_at; exists n|lia|]. wp_steps.
  apply wp_mod_bc_some; [pool_simpl; by rewrite Ebc|]. wp_steps.
  apply wp_mod_cache_some; [by pool_simpl|].
  match goal with |- inv _ ?st _ ∧ _ => set (s' := st) end.
  assert (chunkh s' = alter (set_next null) (lastp null [c]) (set_prev_at (chunkh s) (hdp null t) null))
    as Hh by done.
  assert (∀ c, data <$> chunkh s' !! c = data <$> chunkh s !! c) as Hd.
  { intros d. by rewrite Hh, data_alter, data_set_prev_at. }
  assert (bc_of s' k i = Some (MkBlockCache (hdp null t) c (block_size bc) (total_size bc)
            (recyclable_size bc - kChunkSize) (in_use_size bc))) as Ebc'.
  { unfold s'. pool_simpl. by rewrite Ebc. }
  destruct (dll_cut (chunkh s) c t [c]) as [Hd1 Hd2]; [done..|].
  assert (step_frame k i s g s' g') as Hsf.
  { apply relink_frame; try done.
    - solve_local.
    - intros l Hl. unfold g', here in *. cbn. rewrite !lset_ne by set_solver. done.
    - unfold g', here. cbn. lset_simpl. rewrite HR, HA. cbn. solve_Permutation.
    - intros d Hdm. rewrite Hh. rewrite lookup_alter_ne.
      + apply set_prev_at_other, hdp_other. intros Hdt. apply Hdm. left. rewrite HR. by right.
      + intros <-. apply Hdm. left. by rewrite HR; left. }
  split_and!; [| |done].
  - apply (inv_step k i None _ s g); try done.
    + by right.
    + rewrite (root_rec _ _ _ _ Ebc'), Hh. unfold g'. cbn [gL]. by rewrite lset_eq.
    + rewrite (root_av _ _ _ _ Ebc'), Hh. unfold g'. cbn [gL]. rewrite lset_ne, lset_eq by done. done.
    + intros d Hm. by eapply relink_chunk.
    + intros d. unfold g'; cbn. rewrite lset_eq. intros Hdt. eapply (i_rec _ _ _ Hinv). rewrite HR. by right.
    + intros d. unfold g'; cbn. rewrite lset_ne, lset_eq by done. intros ->%list_elem_of_singleton.
      split; [|by right]. intros E. pose proof (i_rec _ _ _ Hinv _ _ _ Hc) as Hl. rewrite E in Hl. cbn in Hl.
      destruct (layout_facts i Hi). lia.
    + intros d. unfold g'; cbn. rewrite !lset_ne by done. apply (i_full _ _ _ Hinv).
  - apply (counters_step k i s g); try done.
    + intros k' Hk'. unfold s'. rewrite tview_upd_tc, decide_False by done. by pool_simpl.
    + intros a b Hv. unfold s'. erewrite tview_upd_tc_f with (F := λ '(a, b), (a, b - 1)) by done.
      pool_simpl. rewrite Hv. cbn. unfold g'. cbn. rewrite lset_eq, HR. cbn. do 2 f_equal. lia.
    + by apply tview_some.
Qed.

(** ** [take_block] *)

Lemma dll_data (h : gmap Z ChunkHeader) f c p l :
  (∀ n, c_prev (f n) = c_prev n ∧ c_next (f n) = c_next n) →
  dll h p l → dll (alter f c h) p l.
Proof.
  intros Hf [E Hd]. split; [done|]. destruct (h !! c) as [n|] eqn:En.
  - rewrite (map_alter_insert _ _ _ _ En). destruct (Hf n). by eapply dseg_data.
  - eapply dseg_agree; [|done]. intros d _. rewrite lookup_alter. case_decide; [|done]. subst. by rewrite En.
Qed.

Lemma chunk_member exc s g c k i :
  inv exc s g → member g c k i →
  (i < kBlockNum)%nat ∧ 0 < c ∧ c mod kChunkSize = 0 ∧
  ∃ n, chunkh s !! c = Some n ∧ c_head n = hdp null (gF g c) ∧ c_cache n = Some (k, i) ∧
       available_block_num n = Z.of_nat (length (gF g c)) ∧ total_block_num n = Z.of_nat (nblk i) ∧
       blocks_ok (blockh s) c i (gF g c).
Proof.
  intros Hinv Hm. destruct (i_where _ _ _ Hinv _ _ _ Hm) as [_ Hi]. split; [done|].
  destruct (i_chunk _ _ _ Hinv _ _ _ Hm) as [Hd Hb].
  assert (∃ l, c ∈ gL g l) as [l Hl] by (unfold member in Hm; naive_solver).
  destruct (i_addr _ _ _ Hinv _ _ Hl) as (? & ? & _). split_and!; try done.
  apply fmap_Some in Hd as (n & En & Hd). exists n. unfold data in Hd. simplify_eq. naive_solver.
Qed.

Lemma block_pos exc s g c k i b : inv exc s g → member g c k i → b ∈ blocks c i → 0 < b.
Proof.
  intros Hinv Hm Hb. destruct (chunk_member _ _ _ _ _ _ Hinv Hm) as (Hi & Hc & _).
  destruct (block_range _ _ _ Hi Hb). unfold sizeof_ChunkHeader in *. lia.
Qed.

(** The blocks of a chunk are not blocks of another one. *)
Lemma member_blocks exc s g c d k i k' i' b :
  inv exc s g → member g c k i → member g d k' i' → b ∈ blocks c i → b ∈ blocks d i' → c = d.
Proof.
  intros Hinv Hc Hd Hb Hb'. destruct (chunk_member _ _ _ _ _ _ Hinv Hc) as (? & _ & ? & _).
  destruct (chunk_member _ _ _ _ _ _ Hinv Hd) as (? & _ & ? & _). by apply (blocks_disjoint b c d i i').
Qed.

(** The free list of chunk [c] becomes [f], and [c] may change place inside its cache. *)
Section free_step.
Context (exc exc' : option Z) (k i : nat) (c : Z) (f : list Z) (s s' : pool) (g g' : ghost).
Hypothesis Hinv : inv exc s g.
Hypothesis Hc : member g c k i.
Hypothesis Hlocal : local k i s s'.
Hypothesis HF : gF g' = fset c f (gF g).
Hypothesis HL : ∀ l, l ∉ here k i → gL g' l = gL g l.
Hypothesis Hperm : (here k i ≫= gL g') ≡ₚ (here k i ≫= gL g).
Hypothesis Hdata : ∀ d, data <$> chunkh s' !! d =
  if decide (d = c) then Some (hdp null f, Some (k, i), Z.of_nat (length f), Z.of_nat (nblk i))
  else data <$> chunkh s !! d.
Hypothesis Hheap : ∀ d, ¬ member g d k i → chunkh s' !! d = chunkh s !! d.
Hypothesis Hfree : blocks_ok (blockh s') c i f.
Hypothesis Hblock : ∀ b, b ∉ blocks c i → blockh s' !! b = blockh s !! b.

Lemma free_frame : step_frame k i s g s' g'.
Proof using Hinv Hc Hlocal HF HL Hperm Hdata Hheap Hblock.
  destruct Hlocal. split; try done.
  - by apply root_frame.
  - intros d. rewrite <- !(fmap_is_Some data), Hdata. case_decide; [|done]. by eexists.
  - intros d Hd. rewrite HF, fset_ne; [done|]. by intros ->.
  - intros b Hb. apply Hblock. by apply Hb.
Qed.
Lemma free_chunk d : member g d k i → chunk_ok s' g' d k i.
Proof using Hinv Hc HF Hdata Hfree Hblock.
  intros Hd. unfold chunk_ok. rewrite Hdata, HF. case_decide as E; [subst; by rewrite fset_eq|].
  rewrite fset_ne by done. destruct (i_chunk _ _ _ Hinv _ _ _ Hd) as [Hdd Hb]. split; [done|].
  assert (∀ b, b ∈ blocks d i → blockh s' !! b = blockh s !! b) as Hag.
  { intros b Hbd. apply Hblock. intros Hbc. apply E. symmetry. by eapply (member_blocks _ _ _ c d). }
  destruct Hb. split; try done.
  - eapply sseg_agree; [|done]. intros b Hbf. apply Hag. by apply bo_sub.
  - intros b Hb. rewrite Hag by done. by apply bo_chunk.
Qed.
Lemma free_inv :
  (exc' = exc ∨ ∀ c, exc = Some c → member g c k i) →
  dll (chunkh s') (root s' (Rec k i)) (gL g' (Rec k i)) →
  dll (chunkh s') (root s' (Av k i)) (gL g' (Av k i)) →
  (∀ c, c ∈ gL g' (Rec k i) → length (gF g' c) = nblk i) →
  (∀ c, c ∈ gL g' (Av k i) → gF g' c ≠ [] ∧ ((length (gF g' c) < nblk i)%nat ∨ exc' = Some c)) →
  (∀ c, c ∈ gL g' (Full k i) → gF g' c = []) →
  (∀ b n ts tid, b ∈ f → b ∉ gF g c → cview s k = Some (n, ts, tid) → b + sizeof_BlockHeader ∉ ts) →
  inv exc' s' g'.
Proof using Hinv Hc Hlocal HF HL Hperm Hdata Hheap Hfree Hblock.
  intros He HdR HdA HR HA HFu Ht. apply (inv_step k i exc exc' s g); try done.
  - apply free_frame.
  - apply free_chunk.
  - intros d b n ts tid Hd Hb Hnb. rewrite HF in Hb. destruct (decide (d = c)) as [->|Hne].
    + rewrite fset_eq in Hb. by eapply Ht.
    + by rewrite fset_ne in Hb.
Qed.
End free_step.

(** Writing the data fields of one header: [s1] is [s] with header [c] replaced by [n1]. *)
Record hdr_set (c : Z) (n1 : ChunkHeader) (s s1 : pool) : Prop := {
  hs_ch : ∀ d, chunkh s1 !! d = if decide (d = c) then Some n1 else chunkh s !! d;
  hs_dll : ∀ p l, dll (chunkh s) p l → dll (chunkh s1) p l;
  hs_block : blockh s1 = blockh s;
  hs_bc : ∀ k i, bc_of s1 k i = bc_of s k i;
  hs_tview : ∀ k, tview s1 k = tview s k;
  hs_local : ∀ k i, local k i s s1 }.

Lemma wp_hdr_set {A} s c n f1 f2 (m : unit → ST pool A) Q :
  chunkh s !! c = Some n → 0 < c →
  (∀ n, c_prev (f1 n) = c_prev n ∧ c_next (f1 n) = c_next n) →
  (∀ n, c_prev (f2 n) = c_prev n ∧ c_next (f2 n) = c_next n) →
  (∀ s1, hdr_set c (f2 (f1 n)) s s1 → wp (m ()) Q s1) →
  wp (mod_chunk c f1) (λ _ s', wp (mod_chunk c f2 ≫= m) Q s') s.
Proof.
  intros En Hc H1 H2 HQ. apply wp_mod_chunk_some; [done|lia|]. wp_steps.
  apply wp_mod_chunk_some; [by apply some_alter|lia|]. apply HQ. split; try done.
  - intros d. unfold upd_ch. cbn. rewrite !lookup_alter. case_decide as E; [|by rewrite decide_False].
    subst. rewrite En. by repeat case_decide.
  - intros p l Hd. apply (dll_data (alter f1 c (chunkh s)) f2); [done|]. by apply (dll_data _ f1).
Qed.
Lemma local_trans k i s s1 s' : local k i s s1 → local k i s1 s' → local k i s s'.
Proof.
  intros [B1 V1 ? ? ? ?] [B2 V2 ? ? ? ?]. split; [|congruence..].
  intros k' i' Hne. by rewrite B2, B1.
Qed.

(** A block leaves the free list of the first available chunk, which leaves the available
    list with its last one. *)
Definition take_ghost (k i : nat) (c : Z) (t f : list Z) (g : ghost) : ghost :=
  MkGhost (match f with [] => lset (Av k i) t (lset (Full k i) (c :: gL g (Full k i)) (gL g)) | _ => gL g end)
          (fset c f (gF g)).

Lemma blocks_ok_pop bh c i b f : blocks_ok bh c i (b :: f) → blocks_ok bh c i f.
Proof.
  intros []. apply NoDup_cons in bo_nodup as [_ ?]. destruct bo_chain as (_ & _ & ?).
  split; try done. intros d Hd. apply bo_sub. by right.
Qed.

Lemma free_length bh c i l : blocks_ok bh c i l → (length l <= nblk i)%nat.
Proof.
  intros []. replace (nblk i) with (length (blocks c i)) by (unfold blocks; by rewrite length_fmap, length_seq).
  by apply submseteq_length, NoDup_submseteq.
Qed.

Lemma dll_set_prev_other (h : gmap Z ChunkHeader) p l q v :
  (q ≠ 0 → q ∉ l) → dll h p l → dll (set_prev_at h q v) p l.
Proof.
  intros Hq. apply dll_agree. intros c Hc. apply set_prev_at_other. intros H ->. by apply Hq.
Qed.
Lemma dll_alter_other (h : gmap Z ChunkHeader) f p l q :
  q ∉ l → dll h p l → dll (alter f q h) p l.
Proof. intros Hq. apply dll_agree. intros c Hc. apply lookup_alter_ne. by intros ->. Qed.

Section take_fin.
Context (exc : option Z) (k i : nat) (c b : Z) (t f : list Z) (s s1 s' : pool) (g : ghost) (n1 : ChunkHeader).
Hypothesis Hinv : inv exc s g.
Hypothesis Hcnt : counters_ok s g.
Hypothesis Hexc : exc = None ∨ exc = Some c.
Hypothesis HA : gL g (Av k i) = c :: t.
Hypothesis HF : gF g c = b :: f.
Hypothesis Hs1 : hdr_set c n1 s s1.
Hypothesis Hn1 : data n1 = (hdp null f, Some (k, i), Z.of_nat (length f), Z.of_nat (nblk i)).
Hypothesis Hlocal : local k i s1 s'.
Hypothesis Hdata : ∀ d, data <$> chunkh s' !! d = data <$> chunkh s1 !! d.
Hypothesis Hheap : ∀ d, ¬ member g d k i → chunkh s' !! d = chunkh s1 !! d.
Hypothesis Hblock : blockh s' = blockh s1.
Hypothesis Htview : ∀ k', tview s' k' = tview s1 k'.
Let g' := take_ghost k i c t f g.
Hypothesis HdR : dll (chunkh s') (root s' (Rec k i)) (gL g (Rec k i)).
Hypothesis HdA : dll (chunkh s') (root s' (Av k i)) (gL g' (Av k i)).

Lemma take_fin : inv None s' g' ∧ counters_ok s' g' ∧ step_frame k i s g s' g'.
Proof using Type*.
  assert (member g c k i) as Hm by (right; left; rewrite HA; by left).
  destruct (chunk_member _ _ _ _ _ _ Hinv Hm) as (Hi & _ & _ & _ & _ & _ & _ & _ & _ & Hbo).
  rewrite HF in Hbo. 
  assert (local k i s s') as Hloc by (eapply local_trans; [by apply (hs_local _ _ _ _ Hs1)|done]).
  assert (∀ d, data <$> chunkh s' !! d = if decide (d = c)
    then Some (hdp null f, Some (k, i), Z.of_nat (length f), Z.of_nat (nblk i))
    else data <$> chunkh s !! d) as Hd.
  { intros d. rewrite Hdata, (hs_ch _ _ _ _ Hs1). case_decide; [|done]. cbn. by rewrite Hn1. }
  assert (∀ d, ¬ member g d k i → chunkh s' !! d = chunkh s !! d) as Hh.
  { intros d Hnd. rewrite Hheap, (hs_ch _ _ _ _ Hs1), decide_False by (done || by intros ->). done. }
  assert (blockh s' = blockh s) as Hb by (by rewrite Hblock, (hs_block _ _ _ _ Hs1)).
  assert (∀ l, l ∉ here k i → gL g' l = gL g l) as HL.
  { intros l Hl. unfold g', take_ghost, here in *. cbn. destruct f; [|done]. by rewrite !lset_ne by set_solver. }
  assert (here k i ≫= gL g' ≡ₚ here k i ≫= gL g) as Hp.
  { unfold g', take_ghost, here. cbn. destruct f; [|done]. lset_simpl. rewrite HA. cbn. solve_Permutation. }
  assert (gL g' (Rec k i) = gL g (Rec k i)) as HR.
  { unfold g', take_ghost. cbn. destruct f; [|done]. by lset_simpl. }
  assert (gF g' = fset c f (gF g)) as HF' by done.
  assert (step_frame k i s g s' g') as Hsf.
  { by apply (free_frame exc k i c f s s' g g'); try rewrite Hb. }
  pose proof (i_lists _ _ _ Hinv) as [_ Hdj _]. split_and!; [| |done].
  - apply (free_inv exc None k i c f s s' g g'); try done; try rewrite Hb; try rewrite HR; try done.
    + by eapply blocks_ok_pop.
    + right. intros d Hd'. destruct Hexc as [-> | ->]; [done|]. by simplify_eq.
    + intros d Hdr. rewrite HF', fset_ne; [by eapply (i_rec _ _ _ Hinv)|]. intros ->.
      assert (c ∈ gL g (Av k i)) as Hc by (rewrite HA; by left). by pose proof (Hdj _ _ _ Hdr Hc).
    + intros d Hda. rewrite HF'. destruct (decide (d = c)) as [->|Hne].
      * rewrite fset_eq. unfold g', take_ghost in Hda. cbn in Hda. destruct f as [|b' f'] eqn:Ef.
        { rewrite lset_eq in Hda. pose proof (lo_nodup _ _ _ _ (i_lists _ _ _ Hinv) (Av k i)) as Hnd.
          rewrite HA in Hnd. by apply NoDup_cons in Hnd as [? _]. }
        split; [done|left]. pose proof (free_length _ _ _ _ Hbo). cbn in *. lia.
      * rewrite fset_ne by done.
        assert (d ∈ gL g (Av k i)) as Hd2.
        { unfold g', take_ghost in Hda. cbn in Hda. destruct f; [|done]. rewrite lset_eq in Hda. rewrite HA. by right. }
        destruct (i_av _ _ _ Hinv _ _ _ Hd2) as [? [?|?]]; split; auto. destruct Hexc as [-> | ->]; simplify_eq.
    + intros d Hdf. rewrite HF'. destruct (decide (d = c)) as [->|Hne].
      * rewrite fset_eq. destruct f; [done|]. exfalso. unfold g', take_ghost in Hdf. cbn in Hdf.
        assert (c ∈ gL g (Av k i)) as Hc by (rewrite HA; by left). by pose proof (Hdj _ _ _ Hdf Hc).
      * rewrite fset_ne by done. apply (i_full _ _ _ Hinv _ k i). unfold g', take_ghost in Hdf. cbn in Hdf.
        destruct f; [|done]. rewrite lset_ne, lset_eq in Hdf by done. set_solver.
    + intros b' m ts tid Hb' Hnb. rewrite HF in Hnb. set_solver.
  - apply (counters_step k i s g); try done.
    + intros k' _. by rewrite Htview, (hs_tview _ _ _ _ Hs1).
    + intros x y Hv. rewrite Htview, (hs_tview _ _ _ _ Hs1), Hv, HR. do 2 f_equal. lia.
    + destruct (i_where _ _ _ Hinv _ _ _ Hm) as [? _]. by apply tview_some.
Qed.
End take_fin.

Lemma take_block_ok exc s g k i c t b f :
  inv exc s g → counters_ok s g → is_Some (cview s k) → (i < kBlockNum)%nat →
  gL g (Av k i) = c :: t → (exc = None ∨ exc = Some c) → gF g c = b :: f →
  wp (take_block k i) (λ r s', let g' := take_ghost k i c t f g in
    r = b + sizeof_BlockHeader ∧ inv None s' g' ∧ counters_ok s' g' ∧ step_frame k i s g s' g') s.
Proof.
  intros Hinv Hcnt Hk Hi HA Hexc HF. destruct (bc_lookup _ _ _ k i Hinv Hk Hi) as [bc Ebc].
  destruct (heads _ _ _ _ _ _ Hinv Ebc) as (_ & Ha & HdR & HdA).
  assert (member g c k i) as Hm by (right; left; rewrite HA; by left).
  destruct (chunk_member _ _ _ _ _ _ Hinv Hm) as (_ & Hc0 & _ & n & En & Hhd & Hca & Hav & Htot & Hbo).
  rewrite HF in Hhd, Hav, Hbo. cbn [hdp] in Hhd.
  pose proof (bo_chain _ _ _ _ Hbo) as (Hb0 & (m & Em & Hmx) & _). change (b_next m = hdp null f) in Hmx.
  pose proof (lo_nodup _ _ _ _ (i_lists _ _ _ Hinv) (Av k i)) as Hnd. rewrite HA in Ha, HdA, Hnd.
  cbn [hdp] in Ha.
  assert (hdp null t ≠ 0 → is_Some (chunkh s !! hdp null t)) as Hnt.
  { intros Ht. destruct t as [|d t]; [done|]. eapply (i_addr _ _ _ Hinv (Av k i)). rewrite HA. set_solver. }
  rewrite Ha in HdA. pose proof (dll_tail _ _ _ _ HdA En) as Hnx. change (c_next n = hdp null t) in Hnx.
  destruct (layout_facts i Hi) as (_ & _ & Hbs & _).
  unfold take_block. wp_steps. apply (wp_get_bc _ _ _ bc); [done|]. wp_steps. rewrite Ha.
  apply (wp_get_chunk _ _ n); [done|lia|]. wp_steps. rewrite Hhd.
  apply (wp_get_block _ _ m); [done..|]. wp_steps. rewrite Hmx.
  apply (wp_hdr_set s c n); [done|done|done|done|]. intros s1 Hs.
  wp_steps. eapply wp_get_chunk; [by rewrite (hs_ch _ _ _ _ Hs), decide_True|lia|]. wp_steps. cbn [available_block_num c_next upd]. rewrite Hav, Hnx. cbn [length].
  destruct f as [|b' f'].
  - cbn [length Z.of_nat]. change (Z.of_nat 1 - 1 =? 0) with true. cbn [when].
    wp_steps. apply wp_mod_bc_some; [by rewrite (hs_bc _ _ _ _ Hs), Ebc|]. wp_steps.
    apply wp_set_prev_if.
    { intros Ht. change (is_Some (chunkh s1 !! hdp 0 t)). rewrite (hs_ch _ _ _ _ Hs).
      case_decide; [done|]. by apply Hnt. }
    wp_steps. apply (wp_need _ _ (bsz i)); [done|]. wp_steps.
    apply wp_mod_bc_some; [pool_simpl; by rewrite (hs_bc _ _ _ _ Hs), Ebc|]. wp_steps.
    split; [done|]. eapply (take_fin exc k i c b t []); try done.
    + unfold data. cbn. by rewrite Hca, Htot, Hav.
    + solve_local.
    + intros d. apply data_set_prev_at.
    + intros d Hd. apply set_prev_at_other, hdp_other. intros Hdt. apply Hd. right. left. rewrite HA. by right.
    + intros k'. by pool_simpl.
    + cbn [root]. pool_simpl. rewrite (hs_bc _ _ _ _ Hs), Ebc. cbn.
      apply dll_set_prev_other; [|by apply (hs_dll _ _ _ _ Hs)]. intros Ht Hin.
      assert (hdp 0 t ∈ gL g (Av k i)) as Hin2 by (rewrite HA; destruct t; cbn in *; [done|set_solver]).
      pose proof (lo_disj _ _ _ _ (i_lists _ _ _ Hinv) _ _ _ Hin Hin2). done.
    + cbn [root]. pool_simpl. rewrite (hs_bc _ _ _ _ Hs), Ebc. cbn. rewrite lset_eq.
      eapply dll_pop; [done|]. by apply (hs_dll _ _ _ _ Hs).
  - replace (Z.of_nat (S (length (b' :: f'))) - 1 =? 0) with false by (cbn [length]; symmetry; apply Z.eqb_neq; lia).
    cbn [when]. wp_steps. apply (wp_need _ _ (bsz i)); [done|]. wp_steps.
    apply wp_mod_bc_some; [by rewrite (hs_bc _ _ _ _ Hs), Ebc|]. wp_steps.
    split; [done|]. eapply (take_fin exc k i c b t (b' :: f')); try done.
    + unfold data. cbn [c_head c_cache available_block_num total_block_num upd]. rewrite Hca, Htot, Hav.
      do 3 f_equal. cbn [length]. lia.
    + solve_local.
    + intros k'. by pool_simpl.
    + cbn [root]. pool_simpl. rewrite (hs_bc _ _ _ _ Hs), Ebc. cbn. by apply (hs_dll _ _ _ _ Hs).
    + cbn [root]. pool_simpl. rewrite (hs_bc _ _ _ _ Hs), Ebc. cbn. rewrite HA, Ha. by apply (hs_dll _ _ _ _ Hs).
Qed.

(** ** The free path of [PutBlock] *)

Lemma blocks_ok_push bh c i b f :
  blocks_ok bh c i f → b ∈ blocks c i → b ∉ f → b ≠ 0 →
  blocks_ok (alter (λ m, m <| b_next := hdp null f |>) b bh) c i (b :: f).
Proof.
  intros [] Hb Hnf Hb0. destruct (bo_chunk b Hb) as (m & Em & Hm). split.
  - split; [done|]. split.
    + eexists. rewrite lookup_alter_eq, Em. done.
    + eapply sseg_agree; [|done]. intros d Hd. apply lookup_alter_ne. by intros ->.
  - by constructor.
  - set_solver.
  - intros d Hd. rewrite lookup_alter. case_decide; [|by apply bo_chunk]. subst. rewrite Em. by eexists.
Qed.

Section put_fin.
Context (k i : nat) (c b : Z) (s s' : pool) (g g' : ghost).
Let f := gF g c.
Hypothesis Hok : pool_ok s g.
Hypothesis Hm : member g c k i.
Hypothesis Hb : b ∈ blocks c i.
Hypothesis Hnf : b ∉ f.
Hypothesis Htask : ∀ n ts tid, cview s k = Some (n, ts, tid) → b + sizeof_BlockHeader ∉ ts.
Hypothesis Hlocal : local k i s s'.
Hypothesis Hdata : ∀ d, data <$> chunkh s' !! d =
  if decide (d = c) then Some (b, Some (k, i), Z.of_nat (S (length f)), Z.of_nat (nblk i))
  else data <$> chunkh s !! d.
Hypothesis Hheap : ∀ d, ¬ member g d k i → chunkh s' !! d = chunkh s !! d.
Hypothesis Hblock : blockh s' = alter (λ m, m <| b_next := hdp null f |>) b (blockh s).
Hypothesis HF : gF g' = fset c (b :: f) (gF g).
Hypothesis HL : ∀ l, l ∉ here k i → gL g' l = gL g l.
Hypothesis Hperm : (here k i ≫= gL g') ≡ₚ (here k i ≫= gL g).
Hypothesis HdR : dll (chunkh s') (root s' (Rec k i)) (gL g' (Rec k i)).
Hypothesis HdA : dll (chunkh s') (root s' (Av k i)) (gL g' (Av k i)).
Hypothesis HR : ∀ d, d ∈ gL g' (Rec k i) →
  d = c ∧ S (length f) = nblk i ∨ d ≠ c ∧ d ∈ gL g (Rec k i).
Hypothesis HA : ∀ d, d ∈ gL g' (Av k i) →
  d = c ∧ (S (length f) < nblk i)%nat ∨ d ≠ c ∧ d ∈ gL g (Av k i).
Hypothesis HFu : ∀ d, d ∈ gL g' (Full k i) → d ≠ c ∧ d ∈ gL g (Full k i).
Hypothesis Hto : ∀ k', k' ≠ k → tview s' k' = tview s k'.
Hypothesis Htk : ∀ x y, tview s k = Some (x, y) → tview s' k =
  Some (x, y + Z.of_nat (length (gL g' (Rec k i))) - Z.of_nat (length (gL g (Rec k i)))).

Lemma put_fin : pool_ok s' g' ∧ step_frame k i s g s' g'.
Proof using Type*.
  destruct Hok as [Hinv Hcnt]. destruct (chunk_member _ _ _ _ _ _ Hinv Hm) as (Hi & _ & _ & n & _ & _ & _ & _ & _ & Hbo).
  pose proof (block_pos _ _ _ _ _ _ _ Hinv Hm Hb) as Hb0.
  assert (∀ b', b' ∉ blocks c i → blockh s' !! b' = blockh s !! b') as Hbl.
  { intros b' Hb'. rewrite Hblock. apply lookup_alter_ne. by intros ->. }
  assert (step_frame k i s g s' g') as Hsf by (by apply (free_frame None k i c (b :: f) s s' g g')).
  split_and!; [|done]. split.
  - apply (free_inv None None k i c (b :: f) s s' g g'); try done.
    + rewrite Hblock. apply blocks_ok_push; try done. lia.
    + by left.
    + intros d Hd. rewrite HF. destruct (HR d Hd) as [[-> ?]|[? Hd']].
      * by rewrite fset_eq.
      * rewrite fset_ne by done. by eapply (i_rec _ _ _ Hinv).
    + intros d Hd. rewrite HF. destruct (HA d Hd) as [[-> ?]|[? Hd']].
      * rewrite fset_eq. split; [done|]. by left.
      * rewrite fset_ne by done. by eapply (i_av _ _ _ Hinv).
    + intros d Hd. rewrite HF. destruct (HFu d Hd) as [? Hd']. rewrite fset_ne by done.
      by eapply (i_full _ _ _ Hinv).
    + intros b' m ts tid [->|?]%elem_of_cons Hnb; [by apply Htask|done].
  - apply (counters_step k i s g); try done.
    destruct (i_where _ _ _ Hinv _ _ _ Hm) as [? _]. by apply tview_some.
Qed.
End put_fin.

(** Relinking only replaces the heap of headers. *)
Definition upd_h (h : gmap Z ChunkHeader) (s : pool) : pool := s <| chunkh := h |>.
Lemma bc_of_upd_h h s k i : bc_of (upd_h h s) k i = bc_of s k i. Proof. done. Qed.
Lemma cview_upd_h h s k : cview (upd_h h s) k = cview s k. Proof. done. Qed.
Lemma tview_upd_h h s k : tview (upd_h h s) k = tview s k. Proof. done. Qed.
#[export] Hint Rewrite bc_of_upd_h cview_upd_h tview_upd_h : pool.

Definition pushed (h : gmap Z ChunkHeader) (c p : Z) : gmap Z ChunkHeader :=
  set_prev_at (alter (λ m, set_next p (set_prev null m)) c h) p c.

Lemma wp_push_chunk s c p (Q : unit → pool → Prop) :
  is_Some (chunkh s !! c) → c ≠ 0 → (p ≠ 0 → is_Some (chunkh s !! p)) →
  Q () (upd_h (pushed (chunkh s) c p) s) → wp (push_chunk c p) Q s.
Proof.
  intros Hc Hc0 Hp HQ. unfold push_chunk. wp_steps. apply wp_mod_chunk_some; [done..|]. wp_steps.
  apply wp_mod_chunk_some; [by apply some_alter|done|]. wp_steps.
  apply wp_set_prev_if; [intros; by do 2 apply some_alter; apply Hp|].
  unfold upd_prev, upd_ch. cbn. unfold pushed, upd_h in HQ. cbn in HQ. by rewrite alter_alter_eq.
Qed.
Lemma data_pushed h c p d : data <$> pushed h c p !! d = data <$> h !! d.
Proof. unfold pushed. by rewrite data_set_prev_at, data_alter. Qed.
Lemma pushed_other h c p d : d ≠ c → (p ≠ 0 → d ≠ p) → pushed h c p !! d = h !! d.
Proof. intros Hc Hp. unfold pushed. rewrite set_prev_at_other by done. by apply lookup_alter_ne. Qed.

(** Moving [c] to the front of the list rooted at [p]: other lists stay. *)
Lemma dll_pushed_other h c p q l t :
  c ∉ l → (∀ d, d ∈ t → d ∉ l) → dll h p t → dll h q l → dll (pushed h c p) q l.
Proof.
  intros Hc Ht [-> _] Hl. apply dll_set_prev_other; [|by apply dll_alter_other].
  destruct t as [|d t]; cbn; [done|]. intros _. apply Ht. by left.
Qed.
Lemma dll_pushed h c p t :
  NoDup t → c ∉ t → c ≠ 0 → is_Some (h !! c) → dll h p t → dll (pushed h c p) c (c :: t).
Proof. intros ? ? ? [n En] ?. by eapply dll_push. Qed.

Lemma wp_to_available s k i c bc (Q : unit → pool → Prop) :
  bc_of s k i = Some bc → is_Some (chunkh s !! c) → c ≠ 0 →
  (available_chunks bc ≠ 0 → is_Some (chunkh s !! available_chunks bc)) →
  Q () (upd_bc k i (λ bc, bc <| available_chunks := c |>) (upd_h (pushed (chunkh s) c (available_chunks bc)) s)) →
  wp (to_available k i c) Q s.
Proof.
  intros Eb Hc Hc0 Hp HQ. unfold to_available. wp_steps. apply (wp_get_bc _ _ _ bc); [done|]. wp_steps.
  apply wp_push_chunk; [done..|]. wp_steps. apply wp_mod_bc_some; [by pool_simpl|done].
Qed.

Lemma data_unlink (h : gmap Z ChunkHeader) p x d : data <$> unlink h p x !! d = data <$> h !! d.
Proof. unfold unlink. rewrite data_set_prev_at. destruct (p =? 0); [done|]. by apply data_alter. Qed.
Lemma some_unlink (h : gmap Z ChunkHeader) p x d : is_Some (unlink h p x !! d) ↔ is_Some (h !! d).
Proof. by rewrite <- !(fmap_is_Some data), data_unlink. Qed.
Lemma unlink_other (h : gmap Z ChunkHeader) p x d :
  (p ≠ 0 → d ≠ p) → (x ≠ 0 → d ≠ x) → unlink h p x !! d = h !! d.
Proof.
  intros Hp Hx. unfold unlink. rewrite set_prev_at_other by done. destruct (Z.eqb_spec p 0); [done|].
  apply lookup_alter_ne. intros ->. by apply Hp.
Qed.

Record recycled (k i : nat) (c : Z) (n : ChunkHeader) (bc : TLSBlockCache) (s s' : pool) : Prop := {
  rc_heap : chunkh s' = pushed (unlink (chunkh s) (c_prev n) (c_next n)) c (recyclable_chunks bc);
  rc_rec : root s' (Rec k i) = c;
  rc_av : root s' (Av k i) = if c_prev n =? 0 then c_next n else available_chunks bc;
  rc_block : blockh s' = blockh s;
  rc_local : local k i s s';
  rc_tview : ∀ k', tview s' k' = (if decide (k = k') then λ '(x, y), (x, 1 + y) else id) <$> tview s k' }.

Lemma wp_to_recyclable s k i c n bc (Q : unit → pool → Prop) :
  bc_of s k i = Some bc → is_Some (cview s k) → chunkh s !! c = Some n → c ≠ 0 →
  (c_prev n ≠ 0 → is_Some (chunkh s !! c_prev n)) → (c_next n ≠ 0 → is_Some (chunkh s !! c_next n)) →
  (recyclable_chunks bc ≠ 0 → is_Some (chunkh s !! recyclable_chunks bc)) →
  (∀ s', recycled k i c n bc s s' → Q () s') → wp (to_recyclable k k i c) Q s.
Proof.
  intros Eb Hk En Hc0 Hp Hx Hr HQ. unfold to_recyclable. wp_steps.
  apply (wp_get_chunk _ _ n); [done..|]. wp_steps.
  destruct (c_prev n =? 0) eqn:Ez.
  - apply wp_mod_bc_some; [done|]. wp_steps. apply wp_set_prev_if; [done|]. wp_steps.
    eapply wp_get_bc; [pool_simpl; by rewrite Eb|]. wp_steps. cbn [upd recyclable_chunks].
    apply wp_push_chunk; [by apply some_set_prev_at|done|intros; apply some_set_prev_at; by apply Hr|]. wp_steps.
    apply wp_mod_bc_some; [pool_simpl; by rewrite Eb|]. wp_steps.
    apply wp_mod_cache_some; [by pool_simpl|]. wp_steps.
    apply wp_mod_bc_some; [pool_simpl; by rewrite Eb|]. wp_steps. apply HQ. split; try done.
    + unfold unlink. by rewrite Ez.
    + cbn [root]. pool_simpl. by rewrite Eb.
    + cbn [root]. pool_simpl. by rewrite Eb, Ez.
    + solve_local.
    + intros k'. pool_simpl. by erewrite tview_upd_tc_f with (F := λ '(a, b), (a, 1 + b)) by done; pool_simpl.
  - apply Z.eqb_neq in Ez as Ez'. apply wp_mod_chunk_some; [by apply Hp|done|]. wp_steps.
    apply wp_set_prev_if; [intros; apply some_alter; by apply Hx|]. wp_steps.
    eapply wp_get_bc; [pool_simpl; by rewrite Eb|]. wp_steps.
    apply wp_push_chunk; [by apply some_set_prev_at, some_alter|done|
      intros; apply some_set_prev_at, some_alter; by apply Hr|]. wp_steps.
    apply wp_mod_bc_some; [pool_simpl; by rewrite Eb|]. wp_steps.
    apply wp_mod_cache_some; [by pool_simpl|]. wp_steps.
    apply wp_mod_bc_some; [pool_simpl; by rewrite Eb|]. wp_steps. apply HQ. split; try done.
    + unfold unlink. by rewrite Ez.
    + cbn [root]. pool_simpl. by rewrite Eb.
    + cbn [root]. pool_simpl. by rewrite Eb, Ez.
    + solve_local.
    + intros k'. pool_simpl. by erewrite tview_upd_tc_f with (F := λ '(a, b), (a, 1 + b)) by done; pool_simpl.
Qed.

(** The state after the block is back in its chunk, before the chunk changes list. *)
Record freed (k i : nat) (c b : Z) (n1 : ChunkHeader) (g : ghost) (s s2 : pool) : Prop := {
  fr_data : data n1 = (b, Some (k, i), Z.of_nat (S (length (gF g c))), Z.of_nat (nblk i));
  fr_ch : ∀ d, chunkh s2 !! d = if decide (d = c) then Some n1 else chunkh s !! d;
  fr_dll : ∀ p l, dll (chunkh s) p l → dll (chunkh s2) p l;
  fr_block : blockh s2 = alter (λ m, m <| b_next := hdp null (gF g c) |>) b (blockh s);
  fr_rec : root s2 (Rec k i) = root s (Rec k i);
  fr_av : root s2 (Av k i) = root s (Av k i);
  fr_local : local k i s s2;
  fr_tview : ∀ k', tview s2 k' = tview s k' }.

Section freed.
Context (k i : nat) (c b : Z) (n1 : ChunkHeader) (g : ghost) (s s2 : pool).
Hypothesis Hok : pool_ok s g.
Hypothesis Hm : member g c k i.
Hypothesis Hb : b ∈ blocks c i.
Hypothesis Hnf : b ∉ gF g c.
Hypothesis Htask : ∀ n ts tid, cview s k = Some (n, ts, tid) → b + sizeof_BlockHeader ∉ ts.
Hypothesis Hfr : freed k i c b n1 g s s2.
Let F' := fset c (b :: gF g c) (gF g).

Lemma freed_lists l : linked l = true → dll (chunkh s) (root s l) (gL g l) ∧ NoDup (gL g l).
Proof using Hok. destruct Hok as [Hinv _]. pose proof (i_lists _ _ _ Hinv) as []. auto. Qed.
Lemma freed_apart l l' d : d ∈ gL g l → d ∈ gL g l' → l = l'.
Proof using Hok. destruct Hok as [Hinv _]. apply (i_lists _ _ _ Hinv). Qed.
Lemma freed_c : 0 < c ∧ (3 <= nblk i)%nat.
Proof using Hok Hm.
  destruct Hok as [Hinv _]. destruct (chunk_member _ _ _ _ _ _ Hinv Hm) as (Hi & ? & _).
  by destruct (layout_facts i Hi).
Qed.
Lemma freed_data s' :
  (∀ d, data <$> chunkh s' !! d = data <$> chunkh s2 !! d) →
  ∀ d, data <$> chunkh s' !! d =
    if decide (d = c) then Some (b, Some (k, i), Z.of_nat (S (length (gF g c))), Z.of_nat (nblk i))
    else data <$> chunkh s !! d.
Proof using Hfr.
  intros Hd d. rewrite Hd, (fr_ch _ _ _ _ _ _ _ _ Hfr). case_decide; [|done]. cbn.
  by rewrite (fr_data _ _ _ _ _ _ _ _ Hfr).
Qed.
Lemma freed_heap d : ¬ member g d k i → chunkh s2 !! d = chunkh s !! d.
Proof using Hfr Hm. intros Hd. rewrite (fr_ch _ _ _ _ _ _ _ _ Hfr), decide_False; [done|]. by intros ->. Qed.

(** The chunk had free blocks and still has busy ones. *)
Lemma put_stay :
  c ∈ gL g (Av k i) → S (length (gF g c)) ≠ nblk i → 
  pool_ok s2 (MkGhost (gL g) F') ∧ step_frame k i s g s2 (MkGhost (gL g) F').
Proof using Hok Hm Hb Hnf Htask Hfr.
  intros Hc Hlt. pose proof Hfr as [].
  assert (length (gF g c) < nblk i)%nat as Hlen.
  { destruct Hok as [Hinv _]. by destruct (i_av _ _ _ Hinv _ _ _ Hc) as [_ [?|?]]. }
  apply (put_fin k i c b s s2 g); try done.
  - by apply freed_data.
  - apply freed_heap.
  - rewrite fr_rec0. by apply fr_dll0, freed_lists.
  - rewrite fr_av0. by apply fr_dll0, freed_lists.
  - intros d Hd. right. split; [|done]. intros ->. by pose proof (freed_apart _ _ _ Hd Hc).
  - intros d Hd. destruct (decide (d = c)); [left; split; [done|lia]|by right].
  - intros d Hd. split; [|done]. intros ->. by pose proof (freed_apart _ _ _ Hd Hc).
  - intros x y Hxy. rewrite fr_tview0, Hxy. do 2 f_equal. cbn. lia.
Qed.

(** The chunk was full. *)
Lemma put_avail l1 l2 :
  gL g (Full k i) = l1 ++ c :: l2 → gF g c = [] →
  let s' := upd_bc k i (λ bc, bc <| available_chunks := c |>)
              (upd_h (pushed (chunkh s2) c (root s2 (Av k i))) s2) in
  let g' := MkGhost (lset (Full k i) (l1 ++ l2) (lset (Av k i) (c :: gL g (Av k i)) (gL g))) F' in
  is_Some (bc_of s2 k i) → pool_ok s' g' ∧ step_frame k i s g s' g'.
Proof using Hok Hm Hb Hnf Htask Hfr.
  intros HFu HF s' g' [bc2 Eb]. destruct freed_c as [Hc0 Hn3]. pose proof Hfr as [].
  assert (c ∈ gL g (Full k i)) as Hc by (rewrite HFu; set_solver).
  assert (∀ l, l ≠ Full k i → c ∉ gL g l) as Hcl by (intros l Hl Hin; by apply Hl, (freed_apart l (Full k i) c)).
  destruct (freed_lists (Av k i) eq_refl) as [HdA HndA]. destruct (freed_lists (Rec k i) eq_refl) as [HdR HndR].
  assert (bc_of s' k i = Some (bc2 <| available_chunks := c |>)) as Eb'.
  { unfold s'. pool_simpl. by rewrite Eb. }
  apply (put_fin k i c b s s' g); try done.
  - eapply local_trans; [done|]. unfold s'. solve_local.
  - apply freed_data. intros d. apply data_pushed.
  - intros d Hd. rewrite <- freed_heap by done. apply pushed_other; [by intros ->|].
    rewrite fr_av0. destruct HdA as [-> _]. apply hdp_other. intros Hin. apply Hd. by right; left.
  - intros l Hl. unfold g', here in *. cbn. by rewrite !lset_ne by set_solver.
  - unfold g', here. cbn. lset_simpl. rewrite HFu. cbn. solve_Permutation.
  - rewrite (root_rec _ _ _ _ Eb'). unfold g'. cbn [gL recyclable_chunks upd]. lset_simpl.
    pose proof (root_rec _ _ _ _ Eb) as Er. rewrite fr_rec0 in Er. rewrite <- Er.
    apply (dll_pushed_other _ _ _ _ _ (gL g (Av k i))); [by apply Hcl| |rewrite fr_av0; by apply fr_dll0|by apply fr_dll0].
    intros d H1 H2. by pose proof (freed_apart _ _ _ H1 H2).
  - rewrite (root_av _ _ _ _ Eb'). unfold g'. cbn [gL available_chunks upd]. lset_simpl.
    apply dll_pushed; [done|by apply Hcl|lia| |rewrite fr_av0; by apply fr_dll0].
    rewrite fr_ch0, decide_True; by eexists || done.
  - intros d. unfold g'; cbn. lset_simpl. intros Hd. right. split; [|done]. intros ->. by apply (Hcl (Rec k i)).
  - intros d. unfold g'; cbn. lset_simpl. intros [->|Hd]%elem_of_cons.
    + left. split; [done|]. rewrite HF. cbn. lia.
    + right. split; [|done]. intros ->. by apply (Hcl (Av k i)).
  - intros d. unfold g'; cbn. lset_simpl. intros Hd. rewrite HFu. split; [|set_solver]. intros ->.
    pose proof (lo_nodup _ _ _ _ (i_lists _ _ _ (proj1 Hok)) (Full k i)) as Hnd. rewrite HFu in Hnd.
    apply NoDup_app in Hnd as (_ & Hd1 & [Hd2 _]%NoDup_cons). set_solver.
  - intros k' Hk'. unfold s'. pool_simpl. done.
  - intros x y Hxy. unfold s', g'. pool_simpl. rewrite fr_tview0, Hxy. cbn. lset_simpl. do 2 f_equal. lia.
Qed.

(** The chunk has all its blocks again. *)
Lemma put_recyc l1 l2 bc2 s' :
  gL g (Av k i) = l1 ++ c :: l2 → S (length (gF g c)) = nblk i →
  bc_of s2 k i = Some bc2 → recycled k i c n1 bc2 s2 s' →
  let g' := MkGhost (lset (Av k i) (l1 ++ l2) (lset (Rec k i) (c :: gL g (Rec k i)) (gL g))) F' in
  pool_ok s' g' ∧ step_frame k i s g s' g'.
Proof using Hok Hm Hb Hnf Htask Hfr.
  intros HAv Hlen Eb Hrc g'. destruct freed_c as [Hc0 Hn3]. pose proof Hfr as []. pose proof Hrc as [].
  assert (c ∈ gL g (Av k i)) as Hc by (rewrite HAv; set_solver).
  assert (∀ l, l ≠ Av k i → c ∉ gL g l) as Hcl by (intros l Hl Hin; by apply Hl, (freed_apart l (Av k i) c)).
  destruct (freed_lists (Av k i) eq_refl) as [HdA HndA]. destruct (freed_lists (Rec k i) eq_refl) as [HdR HndR].
  rewrite <- (root_rec _ _ _ _ Eb) in rc_heap0. rewrite <- (root_av _ _ _ _ Eb) in rc_av0.
  assert (chunkh s2 !! c = Some n1) as En1 by (by rewrite fr_ch0, decide_True).
  apply fr_dll0 in HdA, HdR. rewrite HAv in HdA, HndA. rewrite <- fr_av0 in HdA. rewrite <- fr_rec0 in HdR.
  destruct (dll_node _ _ _ _ _ _ HdA En1) as (Hpv & Hnx & _).
  change (c_prev n1 = lastp null l1) in Hpv. change (c_next n1 = hdp null l2) in Hnx.
  pose proof (dll_unlink _ _ _ _ _ _ HndA HdA En1) as HdU.
  change (nd_prev n1) with (c_prev n1) in HdU. change (nd_next n1) with (c_next n1) in HdU.
  assert (∀ d, d ∉ gL g (Av k i) → unlink (chunkh s2) (c_prev n1) (c_next n1) !! d = chunkh s2 !! d) as Hun.
  { intros d Hd. rewrite HAv in Hd. apply unlink_other.
    - rewrite Hpv. intros Hz ->. apply Hd, elem_of_app. left. apply lastp_in. intros ->. by apply Hz.
    - rewrite Hnx. apply hdp_other. set_solver. }
  assert (c ∉ l1 ++ l2) as Hc12.
  { apply NoDup_app in HndA as (_ & Hd1 & [Hd2 _]%NoDup_cons). set_solver. }
  apply (put_fin k i c b s s' g); try done.
  - by eapply local_trans.
  - apply freed_data. intros d. by rewrite rc_heap0, data_pushed, data_unlink.
  - intros d Hd. rewrite <- freed_heap by done. rewrite rc_heap0, pushed_other, Hun; [done|..].
    + intros Hin. apply Hd. by right; left.
    + by intros ->.
    + destruct HdR as [-> _]. apply hdp_other. intros Hin. apply Hd. by left.
  - by rewrite rc_block0.
  - intros l Hl. unfold g', here in *. cbn. by rewrite !lset_ne by set_solver.
  - unfold g', here. cbn. lset_simpl. rewrite HAv. cbn. solve_Permutation.
  - rewrite rc_rec0, rc_heap0. unfold g'. cbn [gL]. lset_simpl. apply dll_pushed; [done|by apply Hcl|lia| |].
    + by apply some_unlink; eexists.
    + apply (dll_agree (chunkh s2)); [|done]. intros d Hd. apply Hun. intros Hd2.
      by pose proof (freed_apart _ _ _ Hd Hd2).
  - rewrite rc_av0, rc_heap0. unfold g'. cbn [gL]. lset_simpl.
    apply (dll_pushed_other _ _ _ _ _ (gL g (Rec k i))); [done| | |done].
    + intros d H1 H2. assert (d ∈ gL g (Av k i)) as H3 by (rewrite HAv; set_solver).
      by pose proof (freed_apart _ _ _ H1 H3).
    + apply (dll_agree (chunkh s2)); [|done]. intros d Hd. apply Hun. intros Hd2.
      by pose proof (freed_apart _ _ _ Hd Hd2).
  - intros d. unfold g'; cbn. lset_simpl. intros [->|Hd]%elem_of_cons; [by left|].
    right. split; [|done]. intros ->. by apply (Hcl (Rec k i)).
  - intros d. unfold g'; cbn. lset_simpl. intros Hd. right. split; [by intros ->|]. rewrite HAv. set_solver.
  - intros d. unfold g'; cbn. lset_simpl. intros Hd. split; [|done]. intros ->. by apply (Hcl (Full k i)).
  - intros k' Hk'. rewrite rc_tview0, decide_False by done. rewrite fr_tview0. apply option_fmap_id.
  - intros x y Hxy. rewrite rc_tview0, decide_True, fr_tview0, Hxy by done. unfold g'. cbn. lset_simpl.
    cbn. do 2 f_equal. lia.
Qed.
End freed.

(** Every block of a recyclable chunk is free. *)
Lemma rec_all_free exc s g c k i b :
  inv exc s g → c ∈ gL g (Rec k i) → b ∈ blocks c i → b ∈ gF g c.
Proof.
  intros Hinv Hc Hb. assert (member g c k i) as Hm by (by left).
  destruct (i_chunk _ _ _ Hinv _ _ _ Hm) as [_ []]. pose proof (i_rec _ _ _ Hinv _ _ _ Hc) as Hl.
  rewrite (submseteq_length_Permutation (gF g c) (blocks c i)); [done|by apply NoDup_submseteq|].
  unfold blocks. rewrite length_fmap, length_seq. lia.
Qed.

(** The second half of [free_block]. *)
Lemma free_lists_ok s s2 g k i c b n1 :
  pool_ok s g → member g c k i → b ∈ blocks c i → b ∉ gF g c →
  (∀ n ts tid, cview s k = Some (n, ts, tid) → b + sizeof_BlockHeader ∉ ts) →
  freed k i c b n1 g s s2 →
  wp (c0 ← get_chunk c;
      when (available_block_num c0 =? 1) (to_available k i c);;
      c0 ← get_chunk c;
      when (available_block_num c0 =? total_block_num c0) (to_recyclable k k i c))
    (λ _ s', ∃ g', pool_ok s' g' ∧ step_frame k i s g s' g' ∧ gF g' = fset c (b :: gF g c) (gF g)) s2.
Proof.
  intros Hok Hm Hb Hnf Ht Hfr. pose proof Hok as [Hinv _]. pose proof Hfr as [Hdat Hch Hdll _ Hrr Hra Hlc _].
  destruct (freed_c k i c g s Hok Hm) as [Hc0 Hn3]. pose proof (lc_view _ _ _ _ Hlc k) as Hk2.
  destruct (i_where _ _ _ Hinv _ _ _ Hm) as [Hk Hi].
  assert (chunkh s2 !! c = Some n1) as En1 by (by rewrite Hch, decide_True).
  assert (∀ l d, d ∈ gL g l → is_Some (chunkh s2 !! d)) as Hsome.
  { intros l d Hd. rewrite Hch. case_decide; [by eexists|]. by apply (i_addr _ _ _ Hinv l). }
  assert (is_Some (bc_of s2 k i)) as [bc2 Eb2] by (eapply (bc_of_some s2); [by rewrite Hk2|done|];
    intros; eapply (i_shape _ _ _ Hinv k); by rewrite <- Hk2).
  assert (∀ l, l = Rec k i ∨ l = Av k i → root s2 l ≠ 0 → is_Some (chunkh s2 !! root s2 l)) as Hroot.
  { intros l Hl Hz. assert (root s2 l = hdp null (gL g l)) as Er.
    { transitivity (root s l); [by destruct Hl as [-> | ->]|].
      apply (lo_dll _ _ _ _ (i_lists _ _ _ Hinv) l). by destruct Hl as [-> | ->]. }
    rewrite Er in *. apply (Hsome l), hdp_in. intros E. by rewrite E in Hz. }
  assert (available_block_num n1 = Z.of_nat (S (length (gF g c))) ∧ total_block_num n1 = Z.of_nat (nblk i))
    as [Hav Htot] by (unfold data in Hdat; by simplify_eq).
  wp_steps. apply (wp_get_chunk _ _ n1); [done|lia|]. wp_steps. rewrite Hav.
  destruct (decide (gF g c = [])) as [EF|EF].
  - (* the chunk was full *)
    assert (c ∈ gL g (Full k i)) as Hc.
    { destruct Hm as [Hx|[Hx|Hx]]; [|by destruct (i_av _ _ _ Hinv _ _ _ Hx)|done].
      apply (i_rec _ _ _ Hinv) in Hx. rewrite EF in Hx. cbn in Hx. lia. }
    apply list_elem_of_split in Hc as (l1 & l2 & HFu).
    destruct (put_avail k i c b n1 g s s2 Hok Hm Hb Hnf Ht Hfr l1 l2 HFu EF) as [Hok' Hsf]; [by eexists|].
    replace (Z.of_nat (S (length (gF g c))) =? 1) with true by (by rewrite EF). cbn [when].
    apply (wp_to_available _ _ _ _ bc2); [done|by eexists|lia| |].
    { rewrite <- (root_av _ _ _ _ Eb2). apply Hroot. by right. }
    rewrite <- (root_av _ _ _ _ Eb2).
    pose proof (data_pushed (chunkh s2) c (root s2 (Av k i)) c) as Hd. rewrite En1 in Hd.
    apply fmap_Some in Hd as (n2 & En2 & Hd2).
    wp_steps. apply (wp_get_chunk _ _ n2); [done|lia|].
    assert (available_block_num n2 =? total_block_num n2 = false) as ->; [|eexists; split_and!; [exact Hok'|exact Hsf|done]].
    apply Z.eqb_neq. unfold data in Hd2. assert (available_block_num n2 = 1 ∧ total_block_num n2 = Z.of_nat (nblk i)) as [-> ->]; [|lia].
    rewrite EF in Hav. cbn in Hav. injection Hd2 as _ _ <- <-. done.
  - (* the chunk was available *)
    assert (c ∈ gL g (Av k i)) as Hc.
    { destruct Hm as [Hx|[Hx|Hx]]; [|done|].
      - exfalso. apply Hnf. by apply (rec_all_free None s g c k i).
      - apply (i_full _ _ _ Hinv) in Hx. congruence. }
    replace (Z.of_nat (S (length (gF g c))) =? 1) with false
      by (symmetry; apply Z.eqb_neq; destruct (gF g c); cbn; [done|lia]).
    cbn [when]. wp_steps. apply (wp_get_chunk _ _ n1); [done|lia|]. rewrite Hav, Htot.
    destruct (Z.eqb_spec (Z.of_nat (S (length (gF g c)))) (Z.of_nat (nblk i))) as [El|El]; cbn [when].
    + apply Nat2Z.inj in El. apply list_elem_of_split in Hc as (l1 & l2 & HAv).
      pose proof (lo_dll _ _ _ _ (i_lists _ _ _ Hinv) (Av k i) eq_refl) as HdA. apply Hdll in HdA.
      rewrite HAv in HdA. destruct (dll_node _ _ _ _ _ _ HdA En1) as (Hpv & Hnx & _).
      apply (wp_to_recyclable _ _ _ _ n1 bc2); [done|by rewrite Hk2|done|lia|..].
      * change (c_prev n1 = lastp null l1) in Hpv. rewrite Hpv. intros Hz. apply (Hsome (Av k i)). rewrite HAv.
        apply elem_of_app. left. apply lastp_in. intros ->. by apply Hz.
      * change (c_next n1 = hdp null l2) in Hnx. rewrite Hnx. intros Hz. apply (Hsome (Av k i)). rewrite HAv.
        apply elem_of_app. right. right. apply hdp_in. intros ->. by apply Hz.
      * rewrite <- (root_rec _ _ _ _ Eb2). apply Hroot. by left.
      * intros s' Hrc. destruct (put_recyc k i c b n1 g s s2 Hok Hm Hb Hnf Ht Hfr l1 l2 bc2 s') as [? ?]; [done..|].
        by eexists.
    + destruct (put_stay k i c b n1 g s s2) as [? ?]; try done; [congruence|]. by eexists.
Qed.

Lemma free_block_ok s g k i c b :
  pool_ok s g → member g c k i → b ∈ blocks c i → b ∉ gF g c →
  (∀ n ts tid, cview s k = Some (n, ts, tid) → b + sizeof_BlockHeader ∉ ts) →
  wp (free_block k k i b c) (λ _ s', ∃ g', pool_ok s' g' ∧ step_frame k i s g s' g' ∧
    gF g' = fset c (b :: gF g c) (gF g)) s.
Proof.
  intros Hok Hm Hb Hnf Ht. pose proof Hok as [Hinv _].
  destruct (chunk_member _ _ _ _ _ _ Hinv Hm) as (Hi & Hc0 & _ & n & En & Hhd & Hca & Hav & Htot & Hbo).
  destruct (i_where _ _ _ Hinv _ _ _ Hm) as [Hk _]. destruct (bc_lookup _ _ _ k i Hinv Hk Hi) as [bc Ebc].
  pose proof (block_pos _ _ _ _ _ _ _ Hinv Hm Hb) as Hb0.
  destruct (bo_chunk _ _ _ _ Hbo b Hb) as (m & Em & _).
  unfold free_block. wp_steps. apply (wp_get_chunk _ _ n); [done|lia|]. wp_steps. rewrite Hhd.
  apply (wp_mod_block _ _ _ m); [done|lia|]. wp_steps.
  apply (wp_hdr_set _ c n); [done..|]. intros s1 Hs. apply wp_bind.
  apply wp_mod_bc_some; [by rewrite (hs_bc _ _ _ _ Hs); pool_simpl; rewrite Ebc|].
  eapply (free_lists_ok s _ g k i c b (n <| c_head := b |> <| available_block_num ::= Z.add 1 |>)); try done. split.
  - unfold data. cbn [c_head c_cache available_block_num total_block_num upd]. rewrite Hca, Htot, Hav. do 2 f_equal. lia.
  - apply (hs_ch _ _ _ _ Hs).
  - apply (hs_dll _ _ _ _ Hs).
  - apply (hs_block _ _ _ _ Hs).
  - cbn. pool_simpl. rewrite (hs_bc _ _ _ _ Hs). pool_simpl. by rewrite Ebc.
  - cbn. pool_simpl. rewrite (hs_bc _ _ _ _ Hs). pool_simpl. by rewrite Ebc.
  - apply (local_trans _ _ _ (upd_bl b (λ b0, b0 <| b_next := hdp 0 (gF g c) |>) s)); [solve_local|].
    eapply local_trans; [apply (hs_local _ _ _ _ Hs)|]. solve_local.
  - intros k'. pool_simpl. by rewrite (hs_tview _ _ _ _ Hs).
Qed.
