(* ===== verification/ChunkPoolCentral.v ===== *)
(** * The chunk pool: exchange of chunks with the central list

    [PutChunks] and [Recycle] give the recyclable chunks of a cache back, [fetch_chunks]
    takes chunks from the centre and cuts them into blocks. *)

From Stdlib Require Import ZArith Lia.
From stdpp Require Import prelude gmap.
From S2P Require Import Prelude LinkedList ChunkPool ChunkPoolInv ChunkPoolSteps.
Open Scope Z_scope.

(** ** What a caller cannot notice *)

(** Same threads and queues, same memory in use, same chunks, same options. *)
Record quiet (s : pool) (g : ghost) (s' : pool) (g' : ghost) : Prop := {
  q_view : ∀ k, cview s' k = cview s k;
  q_busy : ∀ k p, busy_block g' k p ↔ busy_block g k p;
  q_same : same_chunks g g';
  q_opt : opt_ s' = opt_ s }.

Lemma quiet_refl s g : quiet s g s g.
Proof. by split. Qed.
Lemma quiet_trans s g s1 g1 s2 g2 : quiet s g s1 g1 → quiet s1 g1 s2 g2 → quiet s g s2 g2.
Proof.
  intros [V1 B1 S1 O1] [V2 B2 S2 O2]. split.
  - intros k. by rewrite V2, V1.
  - intros k p. by rewrite B2, B1.
  - intros c. by rewrite (S1 c), (S2 c).
  - by rewrite O2, O1.
Qed.
Lemma quiet_outstanding s g s' g' p : quiet s g s' g' → outstanding s' g' p ↔ outstanding s g p.
Proof. intros [V B _ _]. unfold outstanding. setoid_rewrite V. by setoid_rewrite B. Qed.

(** ** Walking a list *)

Lemma put_walk_ok s l : ∀ fuel n c,
  sseg (chunkh s) (c :: l) null → (length l < fuel)%nat →
  wp (put_walk fuel n c) (λ r s', s' = s ∧ r = (lastp c l, n + Z.of_nat (length l))) s.
Proof.
  induction l as [|d l IH]; intros [|fuel] n c (Hc & (m & Em & Hm) & Hs) Hf; try (cbn in Hf; lia);
    cbn [put_walk]; wp_steps; (apply (wp_get_chunk _ _ m); [done..|]).
  - change (c_next m = 0) in Hm. rewrite Hm. cbn. unfold lastp. cbn. split; [done|]. f_equal. lia.
  - change (c_next m = d) in Hm. rewrite Hm. destruct Hs as [Hd Hs]. rewrite (proj2 (Z.eqb_neq _ _) Hd).
    eapply wp_mono; [apply IH; [done|cbn in Hf; lia]|]. intros r s' [-> ->]. rewrite lastp_cons.
    split; [done|]. f_equal. cbn [length]. lia.
Qed.

Lemma get_walk_ok s t : ∀ l fuel c,
  sseg (chunkh s) (c :: l ++ t) null → (length l < fuel)%nat →
  wp (get_walk fuel (Z.of_nat (length l)) c) (λ r s', s' = s ∧ r = lastp c l) s.
Proof.
  induction l as [|d l IH]; intros [|fuel] c (Hc & (m & Em & Hm) & Hs) Hf; try (cbn in Hf; lia); cbn [get_walk].
  - by wp_steps.
  - replace (Z.of_nat (length (d :: l)) =? 0) with false by (symmetry; apply Z.eqb_neq; cbn; lia).
    rewrite (proj2 (Z.eqb_neq _ _) Hc). cbn [orb]. wp_steps. apply (wp_get_chunk _ _ m); [done..|].
    replace (Z.of_nat (length (d :: l)) - 1) with (Z.of_nat (length l)) by (cbn [length]; lia).
    change (c_next m = d) in Hm. rewrite Hm, lastp_cons. apply IH; [done|cbn in Hf; lia].
Qed.

(** ** Giving chunks back *)

(** Everything but the heap of headers and the central list. *)
Record same_caches (s s' : pool) : Prop := {
  sc_block : blockh s' = blockh s;
  sc_bc : ∀ k i, bc_of s' k i = bc_of s k i;
  sc_view : ∀ k, cview s' k = cview s k;
  sc_tview : ∀ k, tview s' k = tview s k;
  sc_init : initialized_ s' = initialized_ s;
  sc_opt : opt_ s' = opt_ s }.

Record gave (u : list Z) (s s' : pool) : Prop := {
  gv_heap : chunkh s' = set_prev_at (alter (set_next (chunks_ s)) (lastp null u) (chunkh s)) (chunks_ s) (lastp null u);
  gv_chunks : chunks_ s' = hdp null u;
  gv_num : chunk_num_ s' = chunk_num_ s + Z.of_nat (length u);
  gv_same : same_caches s s' }.

Lemma PutChunks_gave s u t :
  initialized_ s = true → u ≠ [] → NoDup u →
  dll (chunkh s) (hdp null u) u → dll (chunkh s) (chunks_ s) t →
  wp (PutChunks (hdp null u)) (λ _ s', gave u s s') s.
Proof.
  intros Hini Hu Hnd [_ Hd] [Hch Ht]. destruct u as [|c u]; [done|]. apply dseg_sseg in Hd.
  assert (∀ d, d ∈ c :: u → d ≠ 0 ∧ is_Some (chunkh s !! d)) as Hin by (intros d; by apply (sseg_lookup _ _ null)).
  unfold PutChunks. cbn [hdp]. destruct (Hin c) as [Hc0 _]; [by left|].
  rewrite (proj2 (Z.eqb_neq _ _) Hc0). wp_steps. rewrite Hini. cbn [negb]. wp_steps.
  eapply wp_mono; [apply (put_walk_ok s u); [done|]|].
  { pose proof (nodes_bound (chunkh s) (c :: u) Hnd) as Hb. cbn in Hb. specialize (Hb ltac:(naive_solver)). lia. }
  intros r s' [-> ->]. wp_steps. rewrite <- (lastp_cons null).
  destruct (Hin (lastp null (c :: u))) as [Hl0 Hls]; [by apply lastp_in|].
  apply wp_mod_chunk_some; [done..|]. wp_steps. apply wp_set_prev_if.
  { intros Hz. apply some_alter. rewrite Hch in *. destruct t as [|d t]; [done|].
    by destruct Ht as (_ & (m & Em & _) & _). }
  wp_steps. split; [done..|cbn; lia|]. by split.
Qed.

(** The places a chunk moves between when a cache gives back or fetches. *)
Definition exch (k i : nat) : list lid := [Central; Rec k i].
Lemma exch_nodup k i : NoDup (exch k i).
Proof. unfold exch. repeat (constructor; [rewrite ?elem_of_cons, ?elem_of_nil; naive_solver|]). constructor. Qed.

Definition give_ghost (k i : nat) (g : ghost) : ghost :=
  MkGhost (lset Central (gL g (Rec k i) ++ gL g Central) (lset (Rec k i) [] (gL g))) (gF g).

Lemma give_other k i g l : l ∉ exch k i → gL (give_ghost k i g) l = gL g l.
Proof. intros Hl. unfold exch in Hl. cbn. by rewrite !lset_ne by set_solver. Qed.
Lemma give_member k i g c k' i' : member (give_ghost k i g) c k' i' → member g c k' i'.
Proof.
  unfold member. rewrite (give_other _ _ _ (Av k' i')), (give_other _ _ _ (Full k' i')) by (unfold exch; set_solver).
  cbn. rewrite (lset_ne Central) by done. unfold lset. case_decide; set_solver.
Qed.
(** A chunk with a busy block is not given back. *)
Lemma give_busy exc s k i g k' p : inv exc s g → busy_block (give_ghost k i g) k' p ↔ busy_block g k' p.
Proof.
  intros Hinv. split; intros (c & i' & Hm & Hb & Hf); exists c, i'; split_and!; try done.
  - by eapply give_member.
  - unfold member in *. rewrite !(give_other k i g (Av k' i')), !(give_other k i g (Full k' i')) by (unfold exch; set_solver).
    destruct Hm as [Hm|Hm]; [|by right]. by pose proof (rec_all_free _ _ _ _ _ _ _ Hinv Hm Hb).
Qed.

Lemma give_same k i g : same_chunks g (give_ghost k i g).
Proof.
  intros c. split; intros [l Hl].
  - destruct (decide (l = Central)) as [->|H1]; [exists Central; cbn; rewrite lset_eq; set_solver|].
    destruct (decide (l = Rec k i)) as [->|H2]; [exists Central; cbn; rewrite lset_eq; set_solver|].
    exists l. rewrite give_other by (unfold exch; set_solver). done.
  - cbn in Hl. unfold lset in Hl. repeat case_decide; set_solver.
Qed.

Section give.
Context (exc : option Z) (k i : nat) (s s' : pool) (g : ghost).
Hypothesis Hinv : inv exc s g.
Let g' := give_ghost k i g.
Hypothesis Hview : ∀ k', cview s' k' = cview s k'.
Hypothesis Hroot : ∀ l, l ∉ exch k i → root s' l = root s l.
Hypothesis Hblock : blockh s' = blockh s.
Hypothesis Hini : initialized_ s' = initialized_ s.
Hypothesis Hopt : opt_ s' = opt_ s.
Hypothesis Hnum : chunk_num_ s' = chunk_num_ s + Z.of_nat (length (gL g (Rec k i))).
Hypothesis Hdata : ∀ d, data <$> chunkh s' !! d = data <$> chunkh s !! d.
Hypothesis Hheap : ∀ d, d ∉ gL g Central → d ∉ gL g (Rec k i) → chunkh s' !! d = chunkh s !! d.
Hypothesis HdC : dll (chunkh s') (root s' Central) (gL g (Rec k i) ++ gL g Central).
Hypothesis HdR : root s' (Rec k i) = null.

Lemma give_inv : inv exc s' g'.
Proof using Type*.
  pose proof Hinv as []. split.
  - eapply (lists_step linked _ _ _ _ _ _ (exch k i) i_lists); eauto using exch_nodup.
    + intros l Hl. split; [by apply give_other|by apply Hroot].
    + unfold g', exch. cbn. lset_simpl. solve_Permutation.
    + intros c Hc. apply Hheap; apply Hc; unfold exch; set_solver.
    + intros l Hl _. unfold exch in Hl. rewrite !elem_of_cons, elem_of_nil in Hl.
      destruct Hl as [->|[->|[]]]; unfold g'; cbn [give_ghost gL]; lset_simpl; [done|].
      rewrite HdR. by apply dll_nil.
  - intros l c Hc. assert (∃ l, c ∈ gL g l) as [l0 Hl0] by (apply (give_same k i); eauto).
    destruct (i_addr _ _ Hl0) as (? & ? & Hs). split_and!; try done.
    by rewrite <- (fmap_is_Some data), Hdata, fmap_is_Some.
  - rewrite Hnum. unfold g'. cbn [give_ghost gL]. rewrite lset_eq, length_app. lia.
  - intros k' n ts tid. rewrite Hview. apply i_shape.
  - intros c k' i' Hm. rewrite Hview. eapply i_where. by eapply give_member.
  - intros c k' i' Hm. unfold chunk_ok. rewrite Hdata, Hblock. eapply i_chunk. by eapply give_member.
  - intros c k' i' Hc. apply (i_rec _ k'). unfold g' in Hc. cbn in Hc. rewrite (lset_ne Central) in Hc by done.
    unfold lset in Hc. case_decide; set_solver.
  - intros c k' i' Hc. apply (i_av _ k'). unfold g' in Hc. by rewrite give_other in Hc by (unfold exch; set_solver).
  - intros c k' i' Hc. apply (i_full _ k' i'). unfold g' in Hc. by rewrite give_other in Hc by (unfold exch; set_solver).
  - intros k' n ts tid. rewrite Hview. intros Hv. destruct (i_tasks _ _ _ _ Hv) as [? Ht]. split; [done|].
    intros p Hp. apply (give_busy exc s); auto.
  - intros k1 k2 n1 n2 ts1 ts2 tid. rewrite !Hview. apply i_tid.
  - by rewrite Hini.
  - by rewrite Hopt.
Qed.
End give.

Lemma inv_lists exc s g l :
  inv exc s g → linked l = true → dll (chunkh s) (root s l) (gL g l) ∧ NoDup (gL g l).
Proof. intros [[] _ _ _ _ _ _ _ _ _ _ _ _]. auto. Qed.
Lemma inv_apart exc s g l l' c : inv exc s g → c ∈ gL g l → c ∈ gL g l' → l = l'.
Proof. intros [[] _ _ _ _ _ _ _ _ _ _ _ _]. eauto. Qed.

(** Clearing the recyclable list of a cache whose chunks were given back. *)
Lemma give_done exc k i s s1 s' g bc :
  inv exc s g → bc_of s k i = Some bc →
  (gL g (Rec k i) ≠ [] ∧ gave (gL g (Rec k i)) s s1 ∨ s1 = s ∧ gL g (Rec k i) = []) →
  local k i s1 s' → chunkh s' = chunkh s1 → blockh s' = blockh s1 →
  root s' (Rec k i) = null → root s' (Av k i) = available_chunks bc →
  inv exc s' (give_ghost k i g) ∧ quiet s g s' (give_ghost k i g).
Proof.
  intros Hinv Eb Hg [] Hh Hb HrR HrA. destruct (inv_lists _ _ _ Central Hinv eq_refl) as [HdC HnC].
  destruct (inv_lists _ _ _ (Rec k i) Hinv eq_refl) as [HdR HnR].
  assert (same_caches s s1) as [] by (destruct Hg as [[_ []]|[-> _]]; [done|by split]).
  assert (∀ l, l ∉ exch k i → root s' l = root s l) as Hr.
  { intros l Hl. unfold exch in Hl. destruct l as [|k' i'|k' i'|k' i'] eqn:El; try done; [set_solver|..].
    - cbn. rewrite lc_bc, sc_bc0; [done|]. intros [= <- <-]. set_solver.
    - destruct (decide ((k, i) = (k', i'))) as [[= <- <-]|Hne]; [by rewrite HrA, (root_av _ _ _ _ Eb)|].
      cbn. by rewrite lc_bc, sc_bc0. }
  assert (inv exc s' (give_ghost k i g)) as Hi.
  { apply (give_inv exc k i s); try done; try congruence.
    - rewrite lc_num. destruct Hg as [[_ []]|[-> ->]]; [done|cbn; lia].
    - intros d. rewrite Hh. destruct Hg as [[_ []]|[-> _]]; [|done].
      by rewrite gv_heap0, data_set_prev_at, data_alter.
    - intros d Hd1 Hd2. rewrite Hh. destruct Hg as [[Hne []]|[-> _]]; [|done].
      rewrite gv_heap0, set_prev_at_other.
      + apply lookup_alter_ne. intros <-. by apply Hd2, lastp_in.
      + destruct HdC as [E _]. change (root s Central) with (chunks_ s) in E. rewrite E. by apply hdp_other.
    - change (root s' Central) with (chunks_ s'). rewrite Hh, lc_chunks. destruct Hg as [[Hne []]|[-> E]]; [|by rewrite E].
      rewrite gv_heap0, gv_chunks0. apply dll_concat; [|done|done|].
      + apply NoDup_app. split_and!; [done| |done]. intros d H1 H2. by pose proof (inv_apart _ _ _ _ _ _ Hinv H1 H2).
      + destruct HdR as [E Hd]. by split. }
  split; [done|]. split; [intros; by rewrite lc_view|intros; by eapply give_busy|apply give_same|congruence].
Qed.

(** One round of the loops of [Recycle] and [Reset]. *)
Lemma give_round exc k i s g bc (Q : unit → pool → Prop) :
  inv exc s g → bc_of s k i = Some bc →
  (∀ s1, (gL g (Rec k i) ≠ [] ∧ gave (gL g (Rec k i)) s s1 ∨ s1 = s ∧ gL g (Rec k i) = []) →
     bc_of s1 k i = Some bc → Q () s1) →
  wp (PutChunks (recyclable_chunks bc)) Q s.
Proof.
  intros Hinv Eb HQ. destruct (inv_lists _ _ _ (Rec k i) Hinv eq_refl) as [HdR HnR].
  destruct (inv_lists _ _ _ Central Hinv eq_refl) as [HdC HnC].
  rewrite (root_rec _ _ _ _ Eb) in HdR. pose proof HdR as [Er _].
  destruct (decide (gL g (Rec k i) = [])) as [E|E].
  - rewrite Er, E. unfold PutChunks. cbn. apply HQ; auto.
  - rewrite Er in *. eapply wp_mono; [by eapply PutChunks_gave; try done; eapply i_init|].
    intros [] s1 Hg. apply HQ; [by left|]. destruct Hg as [_ _ _ []]. by rewrite sc_bc0.
Qed.

Record recycled_all (k : nat) (ixs : list nat) (s : pool) (g : ghost) (s' : pool) (g' : ghost) : Prop := {
  ra_quiet : quiet s g s' g';
  ra_F : gF g' = gF g;
  ra_L : ∀ l, l ≠ Central → (∀ i, i ∈ ixs → l ≠ Rec k i) → gL g' l = gL g l;
  ra_none : ∀ i, i ∈ ixs → gL g' (Rec k i) = [];
  ra_tview : ∀ k', tview s' k' = tview s k' }.

Lemma recycle_loop_ok k ixs : ∀ s g,
  inv None s g → is_Some (cview s k) → (∀ i, i ∈ ixs → (i < kBlockNum)%nat) →
  wp (recycle_loop k ixs) (λ _ s', ∃ g', inv None s' g' ∧ recycled_all k ixs s g s' g') s.
Proof.
  induction ixs as [|i ixs IH]; intros s g Hinv Hk Hi.
  - exists g. split; [done|]. split; try done; [set_solver].
  - destruct (bc_lookup _ _ _ k i Hinv Hk) as [bc Eb]; [apply Hi; by left|].
    cbn [recycle_loop]. wp_steps. apply (wp_get_bc _ _ _ bc); [done|]. wp_steps.
    apply (give_round _ k i _ _ _ _ Hinv Eb). intros s1 Hg Eb1. wp_steps.
    apply wp_mod_bc_some; [done|]. wp_steps. apply wp_mod_bc_some; [pool_simpl; by rewrite Eb1|]. wp_steps.
    apply wp_mod_bc_some; [pool_simpl; by rewrite Eb1|]. wp_steps.
    match goal with |- wp _ _ ?st => destruct (give_done None k i s s1 st g bc) as [Hi' Hq'] end; try done.
    { solve_local. }
    { cbn [root]. pool_simpl. by rewrite Eb1. }
    { cbn [root]. pool_simpl. by rewrite Eb1. }
    eapply wp_mono; [apply (IH _ _ Hi')|].
    + by rewrite (q_view _ _ _ _ Hq').
    + intros j Hj. apply Hi. by right.
    + intros _ s' (g' & Hinv' & []). exists g'. split; [done|]. split.
      * by eapply quiet_trans.
      * done.
      * intros l Hl1 Hl2. rewrite ra_L0 by set_solver. apply give_other. unfold exch. set_solver.
      * intros j [->|Hj]%elem_of_cons; [|by apply ra_none0].
        destruct (decide (i ∈ ixs)); [by apply ra_none0|]. rewrite ra_L0; [|done|intros; congruence].
        cbn. rewrite lset_ne, lset_eq by done. done.
      * intros k'. rewrite ra_tview0. pool_simpl. destruct Hg as [[_ [_ _ _ []]]|[-> _]]; [|done]. by rewrite sc_tview0.
Qed.

(** Writes the picture does not depend on. *)
Lemma inv_ext exc s s' g :
  inv exc s g → chunkh s' = chunkh s → blockh s' = blockh s → chunks_ s' = chunks_ s →
  chunk_num_ s' = chunk_num_ s → (∀ k i, bc_of s' k i = bc_of s k i) → (∀ k, cview s' k = cview s k) →
  initialized_ s' = initialized_ s → opt_ s' = opt_ s → inv exc s' g.
Proof.
  intros [] Hh Hb Hc Hn Hbc Hv Hi Ho.
  assert (∀ l, root s' l = root s l) as Hr by (intros []; cbn; by rewrite ?Hbc).
  destruct i_lists. split; try (intros *; rewrite ?Hv, ?Hh, ?Hn, ?Hi, ?Ho; by eauto).
  - split; [done..|]. intros l Hl. rewrite Hr, Hh. auto.
  - intros c k i Hm. unfold chunk_ok. rewrite Hh, Hb. by apply i_chunk.
Qed.
Lemma inv_upd_tc exc s g k f :
  (∀ tc, block_caches (f tc) = block_caches tc ∧
         thread_deallocate_tasks (f tc) = thread_deallocate_tasks tc ∧ thread_id (f tc) = thread_id tc) →
  inv exc s g → inv exc (upd_tc k f s) g.
Proof.
  intros Hf Hinv. apply (inv_ext exc s); try done.
  - intros. apply bc_of_upd_tc. intros. apply Hf.
  - intros. apply cview_upd_tc. intros tc. destruct (Hf tc) as (-> & ? & ?). done.
Qed.

Lemma sum_add (f h : nat → nat) l :
  (sum_list_with (λ i, f i + h i) l = sum_list_with f l + sum_list_with h l)%nat.
Proof. induction l as [|i l IH]; [done|]. cbn. lia. Qed.
Definition count_rest (g : ghost) (k : nat) : nat :=
  sum_list_with (λ i, length (gL g (Av k i)) + length (gL g (Full k i)))%nat (seq 0 kBlockNum).
Lemma count_split g k : count_all g k = (count_rec g k + count_rest g k)%nat.
Proof. unfold count_all, count_rec, count_rest. rewrite <- sum_add. apply sum_ext. intros. lia. Qed.
Lemma count_rest_eq g g' k :
  (∀ i, gL g' (Av k i) = gL g (Av k i)) → (∀ i, gL g' (Full k i) = gL g (Full k i)) →
  count_rest g' k = count_rest g k.
Proof. intros H1 H2. apply sum_ext. intros j _. by rewrite H1, H2. Qed.
Lemma count_rec_eq g g' k : (∀ i, gL g' (Rec k i) = gL g (Rec k i)) → count_rec g' k = count_rec g k.
Proof. intros H1. apply sum_ext. intros j _. by rewrite H1. Qed.

Lemma Recycle_ok s g k :
  pool_ok s g → is_Some (cview s k) →
  wp (Recycle k) (λ _ s', ∃ g', pool_ok s' g' ∧ quiet s g s' g') s.
Proof.
  intros [Hinv Hcnt] Hk. pose proof Hk as [[[n ts] tid] Hv]. unfold cview in Hv.
  apply fmap_Some in Hv as (tc & Etc & _). unfold Recycle. wp_steps. apply (wp_get_cache _ _ tc); [done|].
  destruct (_ && _); [|wp_steps; exists g; split; [done|apply quiet_refl]].
  wp_steps. eapply wp_mono; [apply (recycle_loop_ok k (seq 0 kBlockNum) s g Hinv Hk)|].
  { intros i Hi%elem_of_seq. lia. }
  intros _ s1 (g1 & Hinv1 & []). wp_steps.
  apply wp_mod_cache_some; [by rewrite (q_view _ _ _ _ ra_quiet0)|]. wp_steps.
  apply wp_mod_cache_some; [pool_simpl; by rewrite (q_view _ _ _ _ ra_quiet0)|].
  exists g1. split; [split|].
  - by do 2 (apply inv_upd_tc; [done|]).
  - rewrite counters_view in *. intros k' a b.
    erewrite tview_upd_tc_f with (F := λ '(a, b), (a, 0)) by done.
    erewrite tview_upd_tc_f with (F := λ '(a, b), (a - b, b)) by done. rewrite ra_tview0.
    rewrite !count_split, (count_rest_eq g g1) by (intros; by apply ra_L0). case_decide as Ek; rewrite ?option_fmap_id.
    + subst k'. destruct (tview s k) as [[x y]|] eqn:Et; [|done]. cbn [fmap option_fmap option_map]. intros [= <- <-].
      destruct (Hcnt _ _ _ Et) as [-> ->]. rewrite count_split.
      assert (count_rec g1 k = 0%nat) as ->; [|lia].
      unfold count_rec. rewrite (sum_ext (λ _, 0%nat)); [by vm_compute|]. intros j Hj. by rewrite ra_none0.
    + intros Et. destruct (Hcnt _ _ _ Et) as [-> ->]. rewrite count_split, (count_rec_eq g g1); [done|].
      intros j. apply ra_L0; [done|congruence].
  - eapply quiet_trans; [done|]. split; [|done..]. intros k'. by pool_simpl.
Qed.

(** ** Taking chunks *)

Record took (u t : list Z) (s s' : pool) : Prop := {
  tk_heap : chunkh s' = alter (set_next null) (lastp null u) (set_prev_at (chunkh s) (hdp null t) null);
  tk_chunks : chunks_ s' = hdp null t;
  tk_num : chunk_num_ s' = chunk_num_ s - Z.of_nat (length u);
  tk_same : same_caches s s' }.

Lemma GetChunks_took s g n :
  inv None s g → 1 <= n < 2 ^ 64 →
  wp (GetChunks n) (λ r s',
    if chunk_num_ s <? n then r = 0 ∧ s' = s
    else ∃ u t, gL g Central = u ++ t ∧ Z.of_nat (length u) = n ∧ r = hdp null u ∧ took u t s s') s.
Proof.
  intros Hinv Hn. destruct (inv_lists _ _ _ Central Hinv eq_refl) as [[Er Hd] Hnd].
  change (root s Central) with (chunks_ s) in Er. unfold GetChunks. wp_steps.
  destruct (Z.ltb_spec (chunk_num_ s) n) as [|Hle]; [by wp_steps|].
  rewrite (i_num _ _ _ Hinv) in Hle.
  destruct (gL g Central) as [|c l] eqn:EC; [cbn in Hle; lia|].
  assert (∃ u t, l = u ++ t ∧ Z.of_nat (length u) = n - 1) as (u & t & -> & Hu).
  { exists (take (Z.to_nat (n - 1)) l), (drop (Z.to_nat (n - 1)) l). rewrite take_drop, length_take.
    cbn [length] in Hle. split; [done|lia]. }
  apply dseg_sseg in Hd as Hs. cbn [hdp] in Er.
  assert (∀ d, d ∈ c :: u ++ t → d ≠ 0 ∧ is_Some (chunkh s !! d)) as Hin by (intros d; by apply (sseg_lookup _ _ null)).
  pose proof (nodes_bound (chunkh s) _ Hnd ltac:(naive_solver)) as Hb. cbn [length] in Hb. rewrite length_app in Hb.
  wp_steps. rewrite (wrap_small 64) by (unfold in_range; lia). rewrite Er, <- Hu.
  eapply wp_mono; [apply (get_walk_ok _ t u); [done|lia]|]. intros r s1 [-> ->].
  wp_steps. rewrite <- (lastp_cons null).
  assert (lastp null (c :: u) ∈ c :: u ++ t) as Hl.
  { rewrite app_comm_cons. apply elem_of_app. left. by apply lastp_in. }
  destruct (Hin _ Hl) as [Hl0 [m Em]]. apply (wp_get_chunk _ _ m); [done..|]. wp_steps.
  assert (c_next m = hdp null t) as Hm by exact (sseg_last_next (chunkh s) (c :: u) t null m ltac:(done) Hs Em).
  rewrite Hm. apply wp_set_prev_if.
  { intros Ht. apply Hin. right. apply elem_of_app. right. apply hdp_in. intros ->. by apply Ht. }
  wp_steps. apply wp_mod_chunk_some; [by apply some_set_prev_at; eexists|done|]. wp_steps.
  exists (c :: u), t. split_and!; [done|cbn [length]; lia|done|]. split; [done..| |].
  - cbn. lia.
  - by split.
Qed.

(** ** Cutting chunks into blocks *)

Lemma link_blocks_ok c e : 0 < e → ∀ n p s,
  wp (link_blocks n c p e) (λ _ s',
    (∀ j, (j <= n)%nat → blockh s' !! (p + Z.of_nat j * e) =
       Some (MkBlockHeader c (if decide (j = n) then 0 else p + Z.of_nat (S j) * e))) ∧
    (∀ b, (∀ j, (j <= n)%nat → b ≠ p + Z.of_nat j * e) → blockh s' !! b = blockh s !! b) ∧
    s' = s <| blockh := blockh s' |>) s.
Proof.
  intros He. induction n as [|n IH]; intros p s; cbn [link_blocks]; wp_steps.
  - split_and!; [| |by destruct s].
    + intros j Hj. assert (j = 0%nat) as -> by lia. cbn. by rewrite Z.add_0_r, lookup_insert_eq.
    + intros b Hb. cbn. apply lookup_insert_ne. intros ->. apply (Hb 0%nat); lia.
  - eapply wp_mono; [apply IH|]. intros _ s' (H1 & H2 & Hs). split_and!.
    + intros [|j] Hj.
      * rewrite Z.mul_0_l, Z.add_0_r, H2.
        -- rewrite decide_False by lia. cbn. rewrite lookup_insert_eq. do 2 f_equal. lia.
        -- intros x _. nia.
      * replace (p + Z.of_nat (S j) * e) with (p + e + Z.of_nat j * e) by lia. rewrite H1 by lia.
        do 2 f_equal. repeat case_decide; lia.
    + intros b Hb. rewrite H2.
      * cbn. apply lookup_insert_ne. intros ->. apply (Hb 0%nat); lia.
      * intros j Hj ->. apply (Hb (S j)); lia.
    + rewrite Hs. by destruct s.
Qed.

Lemma sseg_blocks bh c i m : ∀ j,
  (∀ x, (j <= x < j + m)%nat → block_at c i x ≠ 0 ∧ bh !! block_at c i x =
     Some (MkBlockHeader c (if decide (S x = j + m)%nat then 0 else block_at c i (S x)))) →
  sseg bh (block_at c i <$> seq j m) null.
Proof.
  induction m as [|m IH]; intros j Hx; [done|]. cbn [seq fmap list_fmap sseg].
  destruct (Hx j ltac:(lia)) as [Hn Hl]. split; [done|]. split.
  - eexists. split; [done|]. destruct m as [|m]; cbn; case_decide; done || lia.
  - apply IH. intros x Hxx. destruct (Hx x ltac:(lia)) as [? ->]. split; [done|].
    do 2 f_equal. repeat case_decide; lia || done.
Qed.

Lemma blocks_nodup c i : NoDup (blocks c i).
Proof.
  unfold blocks. apply NoDup_fmap_2; [|apply NoDup_seq]. intros x y. unfold block_at.
  assert (0 <= bsz i) by (unfold bsz; do 11 (destruct i as [|i]; [done|]); done).
  unfold sizeof_BlockHeader. nia.
Qed.

Lemma fresh_blocks_ok bh c i :
  (i < kBlockNum)%nat → 0 < c →
  (∀ j, (j < nblk i)%nat → bh !! block_at c i j =
     Some (MkBlockHeader c (if decide (S j = nblk i) then 0 else block_at c i (S j)))) →
  blocks_ok bh c i (blocks c i).
Proof.
  intros Hi Hc Hb. split; [|apply blocks_nodup|done|].
  - apply sseg_blocks. intros x Hx. split; [|by apply Hb; lia].
    destruct (layout_facts i Hi) as (_ & ? & _). unfold block_at, sizeof_ChunkHeader, sizeof_BlockHeader. nia.
  - intros b (j & Hj & ->)%elem_of_blocks. rewrite Hb by done. by eexists.
Qed.

Record built (k i : nat) (u : list Z) (s s' : pool) : Prop := {
  bt_in : ∀ c n, c ∈ u → chunkh s !! c = Some n → ∃ n', chunkh s' !! c = Some n' ∧
    c_prev n' = c_prev n ∧ c_next n' = c_next n ∧
    data n' = (hdp null (blocks c i), Some (k, i), Z.of_nat (nblk i), Z.of_nat (nblk i));
  bt_out : ∀ c, c ∉ u → chunkh s' !! c = chunkh s !! c;
  bt_blocks : ∀ c, c ∈ u → blocks_ok (blockh s') c i (blocks c i);
  bt_bout : ∀ b, (∀ c, c ∈ u → b ∉ blocks c i) → blockh s' !! b = blockh s !! b;
  bt_rest : s' = s <| chunkh := chunkh s' |> <| blockh := blockh s' |> }.

Lemma blocks_hd c i : (i < kBlockNum)%nat → hdp null (blocks c i) = c + sizeof_ChunkHeader.
Proof.
  intros Hi. destruct (layout_facts i Hi) as (Hn & _). unfold blocks.
  destruct (nblk i) as [|m]; [lia|]. cbn. unfold block_at. lia.
Qed.

(** One chunk. *)
Lemma build_one k i c s n :
  (i < kBlockNum)%nat → 0 < c → chunkh s !! c = Some n →
  let total := blocks_per_chunk (bsz i) in
  let s1 := upd_ch c (λ c0, c0 <| c_cache := Some (k, i) |> <| total_block_num := total |>
                  <| available_block_num := total |> <| c_head := c + sizeof_ChunkHeader |>) s in
  wp (link_blocks (Z.to_nat (total - 1)) c (c + sizeof_ChunkHeader) (bsz i + sizeof_BlockHeader))
    (λ _ s', built k i [c] s s') s1.
Proof.
  intros Hi Hc En total s1. destruct (layout_facts i Hi) as (Hn3 & Hb & _ & Hbpc & _).
  eapply wp_mono; [apply link_blocks_ok; unfold sizeof_BlockHeader; lia|].
  intros _ s' (H1 & H2 & Hs').
  assert (Z.to_nat (total - 1) = nblk i - 1)%nat as Hnn by (unfold total; rewrite Hbpc; lia). rewrite Hnn in *.
  assert (chunkh s' = chunkh s1) as Hch by (by rewrite Hs').
  split.
  - intros d m ->%list_elem_of_singleton Em. simplify_eq. eexists. rewrite Hch. unfold s1, upd_ch. cbn.
    rewrite lookup_alter_eq, En. split; [done|]. split_and!; [done..|].
    unfold data. cbn. rewrite blocks_hd by done. unfold total. by rewrite Hbpc.
  - intros d Hd. rewrite Hch. unfold s1, upd_ch. cbn. apply lookup_alter_ne. set_solver.
  - intros d ->%list_elem_of_singleton. apply fresh_blocks_ok; [done..|]. intros j Hj. unfold block_at.
    rewrite H1 by lia. do 2 f_equal. repeat case_decide; done || lia.
  - intros b Hbb. rewrite H2; [done|]. intros j Hj ->. apply (Hbb c); [set_solver|]. apply elem_of_blocks.
    exists j. split; [lia|done].
  - rewrite Hs' at 1. unfold s1, upd_ch. destruct s; cbn in *. by rewrite Hch.
Qed.

Lemma built_cons k i c u s s1 s2 :
  (i < kBlockNum)%nat → c ∉ u → (∀ d, d ∈ c :: u → d mod kChunkSize = 0) →
  built k i [c] s s1 → built k i u s1 s2 → built k i (c :: u) s s2.
Proof.
  intros Hi Hc Hal [I1 O1 B1 X1 R1] [I2 O2 B2 X2 R2]. split.
  - intros d n [->|Hd]%elem_of_cons En.
    + rewrite O2 by done. apply I1; set_solver.
    + apply I2; [done|]. rewrite O1; [done|]. set_solver.
  - intros d Hd. rewrite O2, O1; set_solver.
  - intros d [->|Hd]%elem_of_cons; [|by apply B2].
    assert (∀ b, b ∈ blocks c i → blockh s2 !! b = blockh s1 !! b) as Hag.
    { intros b Hb. apply X2. intros d Hd Hbd. apply Hc.
      rewrite (blocks_disjoint b c d i i); try done; apply Hal; set_solver. }
    destruct (B1 c) as []; [set_solver|]. split; try done.
    + eapply sseg_agree; [|done]. intros b Hb. by apply Hag.
    + intros b Hb. rewrite Hag by done. by apply bo_chunk.
  - intros b Hb. rewrite X2, X1; set_solver.
  - rewrite R2, R1. by destruct s.
Qed.

Lemma BuildBlocks_built k i : (i < kBlockNum)%nat → ∀ u fuel s,
  NoDup u → (∀ d, d ∈ u → 0 < d ∧ d mod kChunkSize = 0) → sseg (chunkh s) u null → (length u < fuel)%nat →
  wp (BuildBlocks fuel k i (hdp null u) (bsz i)) (λ _ s', built k i u s s') s.
Proof.
  intros Hi. induction u as [|c u IH]; intros [|fuel] s Hnd Hal Hs Hf; try (cbn in Hf; lia); cbn [BuildBlocks hdp].
  - wp_steps. split; try done; try set_solver. by destruct s.
  - destruct Hs as (Hc0 & (n & En & Hn) & Hs). change (c_next n = hdp null u) in Hn.
    rewrite (proj2 (Z.eqb_neq _ _) Hc0). apply NoDup_cons in Hnd as [Hc Hnd].
    wp_steps. apply wp_mod_chunk_some; [by eexists|done|]. wp_steps.
    eapply wp_mono; [apply (build_one k i c s n); [done| |done]; by apply Hal; left|].
    cbn beta. intros _ s1 Hb1. wp_steps. destruct (bt_in _ _ _ _ _ Hb1 c n) as (n' & En' & _ & Hx & _); [set_solver|done|].
    apply (wp_get_chunk _ _ n'); [done..|]. rewrite Hx, Hn.
    eapply wp_mono; [apply IH|].
    + done.
    + intros d Hd. apply Hal. by right.
    + eapply sseg_agree; [|done]. intros d Hd. apply (bt_out _ _ _ _ _ Hb1). set_solver.
    + cbn in Hf. lia.
    + cbn beta. intros _ s2 Hb2. eapply built_cons; try done. intros d Hd. by apply Hal.
Qed.

Lemma dll_links (h h' : gmap Z ChunkHeader) p l :
  (∀ c n, c ∈ l → h !! c = Some n → ∃ n', h' !! c = Some n' ∧ c_prev n' = c_prev n ∧ c_next n' = c_next n) →
  dll h p l → dll h' p l.
Proof.
  intros Hl [E Hd]. split; [done|]. clear E p. revert Hd. generalize null at 1 3. induction l as [|c l IH]; [done|].
  intros prv (Hc & (n & En & Hp & Hx) & Hs). split; [done|]. split.
  - destruct (Hl c n) as (n' & En' & Hp' & Hx'); [by left|done|]. exists n'. split; [done|].
    change (c_prev n' = prv ∧ c_next n' = hdp 0 l). rewrite Hp', Hx'. done.
  - apply IH; [|done]. intros d m Hd. apply Hl. by right.
Qed.

Definition fetch_ghost (k i : nat) (u t : list Z) (g : ghost) : ghost :=
  MkGhost (lset Central t (lset (Rec k i) u (gL g))) (λ c, if decide (c ∈ u) then blocks c i else gF g c).

Section fetch.
Context (k i : nat) (u t : list Z) (s s' : pool) (g : ghost).
Hypothesis Hinv : inv None s g.
Hypothesis Hk : is_Some (cview s k).
Hypothesis Hi : (i < kBlockNum)%nat.
Hypothesis HC : gL g Central = u ++ t.
Hypothesis HR : gL g (Rec k i) = [].
Let g' := fetch_ghost k i u t g.
Hypothesis Hview : ∀ k', cview s' k' = cview s k'.
Hypothesis Hroot : ∀ l, l ∉ exch k i → root s' l = root s l.
Hypothesis Hini : initialized_ s' = initialized_ s.
Hypothesis Hopt : opt_ s' = opt_ s.
Hypothesis Hnum : chunk_num_ s' = chunk_num_ s - Z.of_nat (length u).
Hypothesis Hout : ∀ d, d ∉ gL g Central → chunkh s' !! d = chunkh s !! d.
Hypothesis Hsome : ∀ d, is_Some (chunkh s !! d) → is_Some (chunkh s' !! d).
Hypothesis Hnew : ∀ c, c ∈ u → data <$> chunkh s' !! c =
  Some (hdp null (blocks c i), Some (k, i), Z.of_nat (nblk i), Z.of_nat (nblk i)).
Hypothesis Hblk : ∀ c, c ∈ u → blocks_ok (blockh s') c i (blocks c i).
Hypothesis Hbout : ∀ b, (∀ c, c ∈ u → b ∉ blocks c i) → blockh s' !! b = blockh s !! b.
Hypothesis HdC : dll (chunkh s') (root s' Central) t.
Hypothesis HdR : dll (chunkh s') (root s' (Rec k i)) u.

Lemma fetch_other l : l ∉ exch k i → gL g' l = gL g l.
Proof using Type. intros Hl. unfold exch in Hl. unfold g'. cbn. rewrite !lset_ne; [done|clear -Hl; set_solver..]. Qed.
Lemma fetch_same : same_chunks g g'.
Proof using HC HR.
  intros c. unfold g'. split; intros [l Hl].
  - destruct (decide (l = Central)) as [->|H1].
    { rewrite HC in Hl. apply elem_of_app in Hl as [Hl|Hl];
        [exists (Rec k i); cbn; by rewrite lset_ne, lset_eq by done|exists Central; cbn; by rewrite lset_eq]. }
    destruct (decide (l = Rec k i)) as [->|H2]; [rewrite HR in Hl; by apply not_elem_of_nil in Hl|].
    exists l. by rewrite fetch_other by (unfold exch; clear -H1 H2; set_solver).
  - cbn in Hl. unfold lset in Hl. repeat case_decide; [exists Central|exists Central|eauto]; rewrite HC; clear -Hl; set_solver.
Qed.
Lemma fetch_old c k' i' : member g c k' i' → c ∉ u ∧ c ∉ gL g Central.
Proof using Hinv HC.
  intros Hm. assert (c ∉ gL g Central) as Hc; [|split; [rewrite HC in Hc; clear -Hc; set_solver|done]].
  intros Hc. destruct Hm as [Hm|[Hm|Hm]]; by pose proof (inv_apart _ _ _ _ _ _ Hinv Hm Hc).
Qed.
Lemma fetch_member c k' i' :
  member g' c k' i' ↔ member g c k' i' ∨ (c ∈ u ∧ (k', i') = (k, i)).
Proof using HR.
  unfold member. rewrite !(fetch_other (Av k' i')), !(fetch_other (Full k' i')) by (unfold exch; clear; set_solver).
  unfold g'. cbn. rewrite lset_ne by done. unfold lset. case_decide as E.
  - simplify_eq. rewrite HR. clear. set_solver.
  - split; [naive_solver|]. intros [?|[_ [= -> ->]]]; done.
Qed.
Lemma fetch_F c k' i' : member g c k' i' → gF g' c = gF g c.
Proof using Hinv HC. intros [Hc _]%fetch_old. unfold g'. cbn. by rewrite decide_False. Qed.
Lemma fetch_F_new c : c ∈ u → gF g' c = blocks c i.
Proof using Type. intros Hc. unfold g'. cbn. by rewrite decide_True. Qed.
Lemma fetch_busy k' p : busy_block g' k' p ↔ busy_block g k' p.
Proof using Hinv HC HR.
  split; intros (c & i' & Hm & Hb & Hf); exists c, i'.
  - apply fetch_member in Hm as [Hm|[Hc [= -> ->]]]; [|by rewrite fetch_F_new in Hf].
    rewrite (fetch_F _ _ _ Hm) in Hf. done.
  - split_and!; [apply fetch_member; by left|done|]. by rewrite (fetch_F _ _ _ Hm).
Qed.

Lemma fetch_chunk c k' i' : member g' c k' i' → chunk_ok s' g' c k' i'.
Proof using Hinv HC HR Hout Hnew Hblk Hbout Hi.
  intros [Hm|[Hc [= -> ->]]]%fetch_member; unfold chunk_ok.
  - destruct (fetch_old _ _ _ Hm) as [Hcu HcC]. rewrite Hout, (fetch_F _ _ _ Hm) by done.
    destruct (i_chunk _ _ _ Hinv _ _ _ Hm) as [? []]. split; [done|].
    destruct (chunk_member _ _ _ _ _ _ Hinv Hm) as (Hi' & _ & Hal & _).
    assert (∀ b, b ∈ blocks c i' → blockh s' !! b = blockh s !! b) as Hag.
    { intros b Hb. apply Hbout. intros d Hd Hbd. apply Hcu.
      rewrite (blocks_disjoint b c d i' i); try done. apply (i_addr _ _ _ Hinv Central). rewrite HC. clear -Hd. set_solver. }
    split; try done.
    + eapply sseg_agree; [|done]. intros b Hb. by apply Hag, bo_sub.
    + intros b Hb. rewrite Hag by done. by apply bo_chunk.
  - rewrite Hnew, fetch_F_new by done. split; [|by apply Hblk].
    unfold blocks. by rewrite length_fmap, length_seq.
Qed.

Lemma fetch_inv : inv None s' g'.
Proof using Type*.
  pose proof Hinv as []. split.
  - eapply (lists_step linked _ _ _ _ _ _ (exch k i) i_lists); eauto using exch_nodup.
    + intros l Hl. split; [by apply fetch_other|by apply Hroot].
    + unfold g', exch. cbn. lset_simpl. rewrite HC, HR. solve_Permutation.
    + intros c Hc. apply Hout, Hc. unfold exch. set_solver.
    + intros l Hl _. unfold exch in Hl. rewrite !elem_of_cons, elem_of_nil in Hl.
      destruct Hl as [->|[->|[]]]; unfold g'; cbn [fetch_ghost gL]; lset_simpl; done.
  - intros l c Hc. assert (∃ l, c ∈ gL g l) as [l0 Hl0] by (apply fetch_same; eauto).
    destruct (i_addr _ _ Hl0) as (? & ? & ?). auto.
  - rewrite Hnum, i_num, HC. unfold g'. cbn [fetch_ghost gL]. rewrite lset_eq, length_app. lia.
  - intros k' n ts tid. rewrite Hview. apply i_shape.
  - intros c k' i' [Hm|[_ [= -> ->]]]%fetch_member; rewrite Hview; [by eapply i_where|done].
  - apply fetch_chunk.
  - intros c k' i' Hc. assert (member g' c k' i') as [Hm|[Hcu [= -> ->]]]%fetch_member by (by left).
    + rewrite (fetch_F _ _ _ Hm). apply (i_rec _ k'). unfold g' in Hc. cbn in Hc. rewrite lset_ne in Hc by done.
      unfold lset in Hc. case_decide; [|done]. by destruct (fetch_old _ _ _ Hm).
    + rewrite fetch_F_new by done. unfold blocks. by rewrite length_fmap, length_seq.
  - intros c k' i' Hc. rewrite fetch_other in Hc by (unfold exch; clear; set_solver).
    rewrite (fetch_F c k' i') by (by right; left). by apply (i_av _ k').
  - intros c k' i' Hc. rewrite fetch_other in Hc by (unfold exch; clear; set_solver).
    rewrite (fetch_F c k' i') by (by right; right). by apply (i_full _ k' i').
  - intros k' n ts tid. rewrite Hview. intros Hv. destruct (i_tasks _ _ _ _ Hv) as [? Ht]. split; [done|].
    intros p Hp. apply fetch_busy. auto.
  - intros k1 k2 n1 n2 ts1 ts2 tid. rewrite !Hview. apply i_tid.
  - by rewrite Hini.
  - by rewrite Hopt.
Qed.
Lemma fetch_quiet : quiet s g s' g'.
Proof using Hinv HC HR Hview Hopt. split; [done|apply fetch_busy|apply fetch_same|done]. Qed.
End fetch.

(** After [took], two counters of the block cache, [built], the new list. *)
Lemma fetch_facts k i u t s s1 s2 s3 g fb :
  inv None s g → gL g Central = u ++ t → u ≠ [] → took u t s s1 → (i < kBlockNum)%nat →
  chunkh s2 = chunkh s1 → blockh s2 = blockh s1 → built k i u s2 s3 →
  let s' := upd_bc k i fb s3 in
  (∀ d, d ∉ gL g Central → chunkh s' !! d = chunkh s !! d) ∧
  (∀ d, is_Some (chunkh s !! d) → is_Some (chunkh s' !! d)) ∧
  (∀ c, c ∈ u → data <$> chunkh s' !! c =
    Some (hdp null (blocks c i), Some (k, i), Z.of_nat (nblk i), Z.of_nat (nblk i))) ∧
  (∀ b, (∀ c, c ∈ u → b ∉ blocks c i) → blockh s' !! b = blockh s !! b) ∧
  dll (chunkh s') (hdp null t) t ∧ dll (chunkh s') (hdp null u) u.
Proof.
  intros Hinv HC Hu [Th Tc Tn []] Hi Hh2 Hb2 [I O B X R] s'.
  destruct (inv_lists _ _ _ Central Hinv eq_refl) as [HdC HnC]. rewrite HC in HdC, HnC.
  destruct (dll_cut _ _ _ _ HnC Hu HdC) as [Hd1 Hd2]. rewrite <- Th in Hd1, Hd2.
  assert (∀ d, is_Some (chunkh s !! d) ↔ is_Some (chunkh s1 !! d)) as Hs1.
  { intros d. by rewrite Th, some_alter, some_set_prev_at. }
  pose proof HnC as (_ & Hdj & _)%NoDup_app.
  assert (∀ d, d ∈ u → ∃ n, chunkh s2 !! d = Some n) as Hu2.
  { intros d Hd. rewrite Hh2. apply Hs1. apply (i_addr _ _ _ Hinv Central). rewrite HC. set_solver. }
  unfold s'. change (chunkh (upd_bc k i fb s3)) with (chunkh s3).
  change (blockh (upd_bc k i fb s3)) with (blockh s3). split_and!.
  - intros d Hd. rewrite HC in Hd. rewrite O, Hh2, Th by set_solver. rewrite lookup_alter_ne.
    + apply set_prev_at_other, hdp_other. set_solver.
    + intros <-. apply Hd, elem_of_app. left. by apply lastp_in.
  - intros d Hd. destruct (decide (d ∈ u)) as [Hdu|Hdu].
    + destruct (Hu2 d Hdu) as [n En]. destruct (I d n Hdu En) as (n' & -> & _). by eexists.
    + rewrite O, Hh2 by done. by apply Hs1.
  - intros c Hc. destruct (Hu2 c Hc) as [n En]. destruct (I c n Hc En) as (n' & -> & _ & _ & Hd). cbn. by rewrite Hd.
  - intros b Hb. by rewrite X, Hb2, sc_block0.
  - apply (dll_agree (chunkh s1)); [|done]. intros d Hd. rewrite O, Hh2; [done|]. intros Hdu. by eapply Hdj.
  - apply (dll_links (chunkh s1)).
    + intros c n Hc En. rewrite <- Hh2 in En. destruct (I c n Hc En) as (n' & ? & ? & ? & _). eauto.
    + destruct Hd1 as [_ ?]. by split.
Qed.

(** The counters after a fetch. *)
Lemma fetch_counters k i u t s s' g :
  counters_ok s g → is_Some (tview s k) → (i < kBlockNum)%nat → gL g (Rec k i) = [] →
  (∀ k', tview s' k' = (if decide (k = k') then λ '(a, b), (Z.of_nat (length u) + a, Z.of_nat (length u) + b) else id)
     <$> tview s k') →
  counters_ok s' (fetch_ghost k i u t g).
Proof.
  rewrite !counters_view. intros Hc [[a b] Hab] Hi HR Ht k' a' b'. rewrite Ht, !count_split.
  rewrite (count_rest_eq g) by (intros; cbn; by rewrite !lset_ne by done). case_decide as E.
  - subst k'. rewrite Hab. intros [= <- <-]. destruct (Hc _ _ _ Hab) as [-> ->]. rewrite count_split.
    pose proof (sum_change (λ i, length (gL g (Rec k i))) (λ i', length (gL (fetch_ghost k i u t g) (Rec k i'))) kBlockNum i Hi)
      as Hs. unfold count_rec. cbn beta in Hs. specialize (Hs ltac:(intros; cbn; by rewrite !lset_ne by congruence)).
    rewrite HR in Hs. cbn [fetch_ghost gL] in Hs. rewrite (lset_ne Central), lset_eq in Hs by done. cbn [length] in Hs.
    cbn [fetch_ghost gL]. lia.
  - rewrite option_fmap_id. intros Hv. destruct (Hc _ _ _ Hv) as [-> ->].
    rewrite count_split, (count_rec_eq g (fetch_ghost k i u t g)); [done|]. intros j. cbn. by rewrite !lset_ne by congruence.
Qed.

(** The state in which the new chunks are cut: only counters differ from the state after
    [GetChunks]. *)
Record counted (k i : nat) (n : Z) (bc : TLSBlockCache) (s1 s2 : pool) : Prop := {
  ct_local : local k i s1 s2;
  ct_heap : chunkh s2 = chunkh s1;
  ct_block : blockh s2 = blockh s1;
  ct_bc : ∃ bc2, bc_of s2 k i = Some bc2 ∧ available_chunks bc2 = available_chunks bc;
  ct_tview : ∀ k', tview s2 k' = (if decide (k = k') then λ '(a, b), (n + a, n + b) else id) <$> tview s1 k' }.

Lemma fetch_end k i u t n bc s g s1 s2 s3 :
  pool_ok s g → is_Some (cview s k) → (i < kBlockNum)%nat → gL g (Rec k i) = [] → bc_of s k i = Some bc →
  gL g Central = u ++ t → Z.of_nat (length u) = n → u ≠ [] → took u t s s1 → counted k i n bc s1 s2 → built k i u s2 s3 →
  let s' := upd_bc k i (λ bc0, bc0 <| recyclable_chunks := hdp null u |>) s3 in
  let g' := fetch_ghost k i u t g in
  pool_ok s' g' ∧ quiet s g s' g' ∧ gL g' (Rec k i) ≠ [] ∧ gL g' (Av k i) = gL g (Av k i).
Proof.
  intros [Hinv Hcnt] Hk Hi HR Ebc HC Hlen Hu Htk Hct Hbt s' g'. pose proof Hct as [[] Ch Cb (bc2 & Eb2 & Ha) Ct].
  destruct (fetch_facts k i u t s s1 s2 s3 g (λ bc0, bc0 <| recyclable_chunks := hdp null u |>)) as (H1 & H2 & H3 & H4 & H5 & H6); try done.
  pose proof Htk as [Th Tc Tn []]. pose proof (bt_rest _ _ _ _ _ Hbt) as Hs3.
  assert (∀ k', cview s' k' = cview s k') as Hv.
  { intros k'. unfold s'. rewrite cview_upd_bc, Hs3. transitivity (cview s2 k'); [done|]. by rewrite lc_view. }
  assert (∀ k' i', bc_of s3 k' i' = bc_of s2 k' i') as Hb3 by (intros; by rewrite Hs3).
  assert (bc_of s' k i = Some (bc2 <| recyclable_chunks := hdp null u |>)) as Eb'.
  { unfold s'. pool_simpl. by rewrite Hb3, Eb2. }
  assert (∀ l, l ∉ exch k i → root s' l = root s l) as Hr.
  { intros l Hl. unfold exch in Hl. destruct l as [|k' i'|k' i'|k' i'] eqn:El; try done; [set_solver|..].
    - cbn. unfold s'. pool_simpl. rewrite decide_pair by (intros [= <- <-]; set_solver).
      rewrite option_fmap_id, Hb3, lc_bc, sc_bc0; [done|]. intros [= <- <-]. set_solver.
    - destruct (decide ((k, i) = (k', i'))) as [[= <- <-]|Hne].
      + rewrite (root_av _ _ _ _ Eb'), (root_av _ _ _ _ Ebc). done.
      + cbn. unfold s'. pool_simpl. rewrite Hb3, lc_bc, sc_bc0; done. }
  assert (initialized_ s' = initialized_ s ∧ opt_ s' = opt_ s ∧ chunk_num_ s' = chunk_num_ s - Z.of_nat (length u) ∧
          chunks_ s' = hdp null t) as (Hi' & Ho' & Hn' & Hc').
  { unfold s'. rewrite Hs3. cbn. split_and!; congruence. }
  split_and!.
  - split.
    + apply (fetch_inv k i u t s); try done.
      * apply (bt_blocks _ _ _ _ _ Hbt).
      * change (root s' Central) with (chunks_ s'). by rewrite Hc'.
      * by rewrite (root_rec _ _ _ _ Eb').
    + apply (fetch_counters k i u t s); try done; [by apply tview_some|]. intros k'. unfold s'. rewrite tview_upd_bc, Hs3.
      transitivity (tview s2 k'); [done|]. rewrite Ct, sc_tview0, Hlen. done.
  - by apply fetch_quiet.
  - unfold g'. cbn. by rewrite lset_ne, lset_eq by done.
  - unfold g'. cbn. by rewrite !lset_ne by done.
Qed.

Lemma fetch_chunks_ok s g k i :
  pool_ok s g → is_Some (cview s k) → (i < kBlockNum)%nat → gL g (Rec k i) = [] →
  wp (fetch_chunks k i) (λ r s',
    if r : bool then ∃ g', pool_ok s' g' ∧ quiet s g s' g' ∧ gL g' (Rec k i) ≠ [] ∧ gL g' (Av k i) = gL g (Av k i)
    else s' = s ∧ chunk_num_ s < fetch_chunk_num (opt_ s)) s.
Proof.
  intros [Hinv Hcnt] Hk Hi HR. destruct (bc_lookup _ _ _ k i Hinv Hk Hi) as [bc Ebc].
  pose proof (i_fetch _ _ _ Hinv) as Hn. destruct (layout_facts i Hi) as (_ & _ & Hbs & _).
  unfold fetch_chunks. wp_steps. set (n := fetch_chunk_num (opt_ s)) in *.
  eapply wp_mono; [apply (GetChunks_took s g n Hinv Hn)|]. cbn beta. intros r s1.
  destruct (Z.ltb_spec (chunk_num_ s) n) as [Hlt|_]; [intros [-> ->]; by wp_steps|].
  intros (u & t & HC & Hlen & -> & Htk). pose proof Htk as [Th Tc Tn []].
  assert (u ≠ []) as Hu by (intros ->; cbn in Hlen; lia).
  assert (∀ d, d ∈ u → 0 < d ∧ d mod kChunkSize = 0) as Hal.
  { intros d Hd. destruct (i_addr _ _ _ Hinv Central d) as (? & ? & _); [rewrite HC; set_solver|done]. }
  destruct (inv_lists _ _ _ Central Hinv eq_refl) as [HdC HnC]. rewrite HC in HdC, HnC.
  destruct (dll_cut _ _ _ _ HnC Hu HdC) as [[_ Hd1] _]. rewrite <- Th in Hd1.
  assert (hdp null u ≠ 0) as Hh0.
  { destruct (Hal (hdp null u)); [by apply hdp_in|lia]. }
  rewrite (proj2 (Z.eqb_neq _ _) Hh0). wp_steps.
  assert (∀ st, (∀ k', cview st k' = cview s1 k') → is_Some (cview st k)) as Hkk by (intros st Hst; by rewrite Hst, sc_view0).
  apply wp_mod_cache_some; [by apply Hkk|]. wp_steps.
  apply wp_mod_cache_some; [apply Hkk; intros; by pool_simpl|]. wp_steps.
  apply wp_mod_bc_some; [pool_simpl; by rewrite sc_bc0, Ebc|]. wp_steps.
  apply wp_mod_bc_some; [pool_simpl; by rewrite sc_bc0, Ebc|]. wp_steps.
  apply (wp_need _ _ (bsz i)); [done|]. wp_steps.
  match goal with |- wp _ _ ?st => remember st as s2 eqn:E2 end.
  assert (counted k i n bc s1 s2) as Hct.
  { subst s2. split; try done.
    - solve_local.
    - eexists. split; [pool_simpl; by rewrite sc_bc0, Ebc|done].
    - intros k'. pool_simpl. erewrite tview_upd_tc_f with (F := λ '(a, b), (a, n + b)) by done.
      erewrite tview_upd_tc_f with (F := λ '(a, b), (n + a, b)) by done.
      case_decide; [|by rewrite !option_fmap_id]. by destruct (tview s1 k') as [[]|]. }
  clear E2. pose proof Hct as [[] Ch Cb (bc2 & Eb2 & _) _].
  eapply wp_mono; [apply (BuildBlocks_built k i Hi u); try done|].
  - by apply NoDup_app in HnC as (? & _ & _).
  - rewrite Ch. by eapply dseg_sseg.
  - rewrite Ch, Th. apply NoDup_app in HnC as (? & _ & _).
    pose proof (nodes_bound (chunkh s1) u ltac:(done)) as Hb. rewrite Th in Hb. rewrite <- Nat.le_succ_l. apply le_n_S, Hb.
    intros c Hc. apply some_alter, some_set_prev_at. apply (i_addr _ _ _ Hinv Central). rewrite HC. set_solver.
  - cbn beta. intros _ s3 Hbt. wp_steps. apply wp_mod_bc_some.
    { rewrite (bt_rest _ _ _ _ _ Hbt). by eexists. }
    wp_steps. exists (fetch_ghost k i u t g). by eapply fetch_end.
Qed.
