(* ===== verification/ChunkPoolProps.v ===== *)
(** * The chunk pool: what allocation and deallocation promise

    [Allocate] hands out memory nobody holds, [Deallocate] gives it back, in the owner's
    thread or through the owner's queue, and chunks are never lost. *)

From Stdlib Require Import ZArith Lia.
From stdpp Require Import prelude gmap.
From S2P Require Import Prelude LinkedList ChunkPool ChunkPoolInv ChunkPoolSteps ChunkPoolCentral.
Open Scope Z_scope.

(** ** Memory in use after a step *)

Lemma sf_members k i s g s' g' :
  step_frame k i s g s' g' → ∀ c k' i', member g' c k' i' ↔ member g c k' i'.
Proof.
  intros Hsf c k' i'. destruct (decide ((k', i') = (k, i))) as [[= -> ->]|Hne].
  - by eapply sf_member.
  - by eapply sf_member_other.
Qed.

(** The blocks in use when the free list of one chunk becomes [f]. *)
Lemma busy_fset exc s g g' c f k i k' q :
  inv exc s g → (∀ c k' i', member g' c k' i' ↔ member g c k' i') → member g c k i →
  gF g' = fset c f (gF g) →
  busy_block g' k' q ↔
    if decide (k' = k ∧ q - sizeof_BlockHeader ∈ blocks c i) then q - sizeof_BlockHeader ∉ f
    else busy_block g k' q.
Proof.
  intros Hinv Hm Hc HF. unfold busy_block. setoid_rewrite Hm. rewrite HF. case_decide as E.
  - destruct E as [-> Hq]. split.
    + intros (d & i' & Hd & Hb & Hf). pose proof (member_blocks _ _ _ _ _ _ _ _ _ _ Hinv Hc Hd Hq Hb) as ->.
      by rewrite fset_eq in Hf.
    + intros Hf. exists c, i. by rewrite fset_eq.
  - split; intros (d & i' & Hd & Hb & Hf); exists d, i'; split_and!; try done.
    + destruct (decide (d = c)) as [->|Hne]; [|by rewrite fset_ne in Hf].
      exfalso. apply E. pose proof (member_unique _ _ _ _ _ _ _ _ Hinv Hc Hd) as [= -> ->]. done.
    + rewrite fset_ne; [done|]. intros ->. apply E.
      pose proof (member_unique _ _ _ _ _ _ _ _ Hinv Hc Hd) as [= -> ->]. done.
Qed.

Lemma busy_take exc s g g' c b f k i k' q :
  inv exc s g → (∀ c k' i', member g' c k' i' ↔ member g c k' i') → member g c k i →
  gF g c = b :: f → gF g' = fset c f (gF g) →
  busy_block g' k' q ↔ busy_block g k' q ∨ (k' = k ∧ q = b + sizeof_BlockHeader).
Proof.
  intros Hinv Hm Hc Hb HF. rewrite (busy_fset _ _ _ _ _ _ _ _ _ _ Hinv Hm Hc HF).
  destruct (i_chunk _ _ _ Hinv _ _ _ Hc) as [_ [_ Hnd Hsub _]]. rewrite Hb in Hnd, Hsub.
  apply NoDup_cons in Hnd as [Hbf _].
  case_decide as E.
  - destruct E as [-> Hq]. split.
    + intros Hf. destruct (decide (q - sizeof_BlockHeader = b)); [right; split; [done|lia]|left].
      exists c, i. split_and!; [done..|]. rewrite Hb. set_solver.
    + intros [(d & i' & Hd & Hqd & Hf)|[_ ->]].
      * pose proof (member_blocks _ _ _ _ _ _ _ _ _ _ Hinv Hc Hd Hq Hqd) as ->. rewrite Hb in Hf. set_solver.
      * by replace (b + sizeof_BlockHeader - sizeof_BlockHeader) with b by lia.
  - split; [by left|]. intros [?|[-> ->]]; [done|]. exfalso. apply E. split; [done|].
    replace (b + sizeof_BlockHeader - sizeof_BlockHeader) with b by lia. apply Hsub. by left.
Qed.

Lemma busy_put exc s g g' c b k i k' q :
  inv exc s g → (∀ c k' i', member g' c k' i' ↔ member g c k' i') → member g c k i →
  b ∈ blocks c i → gF g' = fset c (b :: gF g c) (gF g) →
  busy_block g' k' q ↔ busy_block g k' q ∧ q ≠ b + sizeof_BlockHeader.
Proof.
  intros Hinv Hm Hc Hb HF. rewrite (busy_fset _ _ _ _ _ _ _ _ _ _ Hinv Hm Hc HF). case_decide as E.
  - destruct E as [-> Hq]. split.
    + intros Hf. split; [|intros ->; apply Hf, elem_of_cons; left; lia]. exists c, i. set_solver.
    + intros [(d & i' & Hd & Hqd & Hf) Hne].
      pose proof (member_blocks _ _ _ _ _ _ _ _ _ _ Hinv Hc Hd Hq Hqd) as ->.
      intros [?|?]%elem_of_cons; [lia|done].
  - split; [|by intros [? _]]. intros Hbusy. split; [done|]. intros ->. apply E.
    destruct Hbusy as (d & i' & Hd & Hqd & _).
    replace (b + sizeof_BlockHeader - sizeof_BlockHeader) with b in * by lia.
    pose proof (member_blocks _ _ _ _ _ _ _ _ _ _ Hinv Hc Hd Hb Hqd) as ->.
    pose proof (member_unique _ _ _ _ _ _ _ _ Hinv Hc Hd) as [= -> ->]. done.
Qed.

(** ** [PutBlock] *)

(** The queue of a cache. *)
Definition tasks (s : pool) (k : nat) : list Z := default [] ((λ v, v.1.2) <$> cview s k).
Definition tid_of (s : pool) (k : nat) : Z := default 0 (snd <$> cview s k).

Lemma PutBlock_own s g k p :
  pool_ok s g → busy_block g k p → p ∉ tasks s k →
  wp (PutBlock k p) (λ _ s', ∃ g', pool_ok s' g' ∧ (∀ k', cview s' k' = cview s k') ∧ same_chunks g g' ∧
    opt_ s' = opt_ s ∧ ∀ k' q, busy_block g' k' q ↔ busy_block g k' q ∧ q ≠ p) s.
Proof.
  intros Hok (c & i & Hm & Hb & Hf) Ht. pose proof Hok as [Hinv _].
  destruct (chunk_member _ _ _ _ _ _ Hinv Hm) as (Hi & Hc0 & _ & n & En & _ & Hca & _ & _ & Hbo).
  pose proof (block_pos _ _ _ _ _ _ _ Hinv Hm Hb) as Hb0.
  destruct (bo_chunk _ _ _ _ Hbo _ Hb) as (m & Em & Hmc).
  destruct (i_where _ _ _ Hinv _ _ _ Hm) as [Hk _]. pose proof Hk as [[[x ts] tid] Hv].
  pose proof Hv as (tc & Etc & Hx)%fmap_Some. 
  unfold PutBlock. wp_steps. apply (wp_get_block _ _ m); [done|lia|]. wp_steps. rewrite Hmc.
  apply (wp_get_chunk _ _ n); [done|lia|]. wp_steps. apply (wp_need _ _ (k, i)); [done|]. wp_steps.
  apply (wp_get_cache _ _ tc); [done|]. wp_steps. apply (wp_get_cache _ _ tc); [done|].
  rewrite Z.eqb_refl. cbn [negb]. wp_steps.
  eapply wp_mono; [apply (free_block_ok s g k i c); try done|].
  { intros n' ts' tid' Hv'. unfold tasks in Ht. rewrite Hv' in Ht. cbn in Ht.
    by replace (p - sizeof_BlockHeader + sizeof_BlockHeader) with p by lia. }
  intros _ s1 (g1 & Hok1 & Hsf & HF). eapply wp_mono; [apply (Recycle_ok s1 g1 k Hok1); by rewrite (sf_view _ _ _ _ _ _ Hsf)|].
  intros _ s2 (g2 & Hok2 & Hq). exists g2. split_and!; [done|..].
  - intros k'. by rewrite (q_view _ _ _ _ Hq), (sf_view _ _ _ _ _ _ Hsf).
  - intros d. by rewrite (sf_same _ _ _ _ _ _ Hsf d), (q_same _ _ _ _ Hq d).
  - by rewrite (q_opt _ _ _ _ Hq), (sf_opt _ _ _ _ _ _ Hsf).
  - intros k' q. rewrite (q_busy _ _ _ _ Hq), (busy_put _ _ _ _ _ _ _ _ k' q Hinv (sf_members _ _ _ _ _ _ Hsf) Hm Hb HF).
    by replace (p - sizeof_BlockHeader + sizeof_BlockHeader) with p by lia.
Qed.

(** A new queue. *)
Lemma cview_retask s o (F : list Z → list Z) k :
  cview (upd_tc o (λ tc, tc <| thread_deallocate_tasks ::= F |>) s) k =
  (if decide (o = k) then λ '(n, ts, tid), (n, F ts, tid) else id) <$> cview s k.
Proof.
  unfold cview, upd_tc. cbn. rewrite lookup_alter. case_decide; subst.
  - by destruct (tls_caches_ s !! k).
  - by rewrite option_fmap_id.
Qed.
Lemma retask_ok s g o (F : list Z → list Z) :
  pool_ok s g →
  (∀ n ts tid, cview s o = Some (n, ts, tid) → NoDup (F ts) ∧ ∀ p, p ∈ F ts → busy_block g o p) →
  pool_ok (upd_tc o (λ tc, tc <| thread_deallocate_tasks ::= F |>) s) g.
Proof.
  intros [Hinv Hcnt] HF. set (s' := upd_tc o _ s).
  assert (∀ k n ts tid, cview s' k = Some (n, ts, tid) → ∃ ts0, cview s k = Some (n, ts0, tid) ∧
           ts = if decide (o = k) then F ts0 else ts0) as Hv.
  { intros k n ts tid. unfold s'. rewrite cview_retask. destruct (cview s k) as [[[? ts0] ?]|]; [|by case_decide].
    case_decide; intros [= <- <- <-]; eauto. }
  assert (∀ l, root s' l = root s l) as Hr.
  { intros []; cbn; try done; unfold s'; by rewrite bc_of_upd_tc. }
  pose proof Hinv as []. split.
  - destruct i_lists. split; try done.
    + split; [done..|]. intros l Hl. rewrite Hr. by apply lo_dll.
    + intros k n ts tid (ts0 & Hv0 & _)%Hv. by eapply i_shape.
    + intros c k i Hm. destruct (i_where _ _ _ Hm) as [[[[n ts] tid] Hk] ?]. split; [|done].
      unfold s'. rewrite cview_retask, Hk. by eexists.
    + intros k n ts tid (ts0 & Hv0 & ->)%Hv. case_decide; [subst; by eapply HF|by eapply i_tasks].
    + intros k k' n n' ts ts' tid (? & ? & _)%Hv (? & ? & _)%Hv. by eapply i_tid.
  - rewrite counters_view in *. intros k a b. unfold s'. rewrite (tview_upd_tc_f _ _ _ id) by done.
    destruct (decide (o = k)); rewrite option_fmap_id; apply Hcnt.
Qed.

Lemma PutBlock_deferred s g k o p :
  pool_ok s g → busy_block g o p → p ∉ tasks s o → is_Some (cview s k) → tid_of s o ≠ tid_of s k →
  wp (PutBlock k p) (λ _ s',
    s' = upd_tc o (λ tc, tc <| thread_deallocate_tasks ::= λ l, l ++ [p] |>) s ∧ pool_ok s' g) s.
Proof.
  intros Hok Hbusy Ht Hk Htid. pose proof Hbusy as (c & i & Hm & Hb & Hf). pose proof Hok as [Hinv _].
  destruct (chunk_member _ _ _ _ _ _ Hinv Hm) as (Hi & Hc0 & _ & n & En & _ & Hca & _ & _ & Hbo).
  pose proof (block_pos _ _ _ _ _ _ _ Hinv Hm Hb) as Hb0.
  destruct (bo_chunk _ _ _ _ Hbo _ Hb) as (m & Em & Hmc).
  destruct (i_where _ _ _ Hinv _ _ _ Hm) as [Ho _]. pose proof Ho as [[[x ts] tid] Hv].
  pose proof Hv as (tc & Etc & Hx)%fmap_Some. pose proof Hk as [v (tk & Etk & _)%fmap_Some].
  unfold PutBlock. wp_steps. apply (wp_get_block _ _ m); [done|lia|]. wp_steps. rewrite Hmc.
  apply (wp_get_chunk _ _ n); [done|lia|]. wp_steps. apply (wp_need _ _ (o, i)); [done|]. wp_steps.
  apply (wp_get_cache _ _ tc); [done|]. wp_steps. apply (wp_get_cache _ _ tk); [done|].
  assert (thread_id tc =? thread_id tk = false) as ->.
  { apply Z.eqb_neq. unfold tid_of, cview in Htid. rewrite Etc, Etk in Htid. done. }
  cbn [negb]. apply wp_mod_cache_some; [done|]. split; [done|].
  apply retask_ok; [done|]. intros n' ts' tid' Hv'. unfold tasks in Ht. rewrite Hv' in Ht. cbn in Ht.
  destruct (i_tasks _ _ _ Hinv _ _ _ _ Hv') as [Hnd Hbz]. split.
  - apply NoDup_app. split_and!; [done|set_solver|apply NoDup_singleton].
  - intros q [? | ->%list_elem_of_singleton]%elem_of_app; auto.
Qed.

(** ** [DeferredDeallocate] *)

(** The memory users hold, the chunks and the options stay; the queue is empty. *)
Record drained (k : nat) (s : pool) (g : ghost) (s' : pool) (g' : ghost) : Prop := {
  dr_ok : pool_ok s' g';
  dr_view : ∀ k', cview s' k' = (if decide (k = k') then λ '(n, ts, tid), (n, [], tid) else id) <$> cview s k';
  dr_same : same_chunks g g';
  dr_opt : opt_ s' = opt_ s;
  dr_busy : ∀ k' q, busy_block g' k' q ↔ busy_block g k' q ∧ q ∉ tasks s k }.

Lemma deferred_loop_ok k ts : ∀ fuel s g,
  pool_ok s g → is_Some (cview s k) → tasks s k = ts → (length ts < fuel)%nat →
  wp (deferred_loop fuel k) (λ _ s', ∃ g', drained k s g s' g') s.
Proof.
  induction ts as [|p ts IH]; intros [|fuel] s g Hok Hk Hts Hf; try (cbn in Hf; lia);
    pose proof Hk as [[[x ts'] tid] Hv]; pose proof Hv as (tc & Etc & Hx)%fmap_Some; injection Hx as -> -> ->;
    unfold tasks in Hts; rewrite Hv in Hts; cbn in Hts;
    cbn [deferred_loop]; wp_steps; (apply (wp_get_cache _ _ tc); [done|]); rewrite Hts.
  - wp_steps. exists g. split; try done.
    + intros k'. case_decide; [subst k'|by rewrite option_fmap_id]. rewrite Hv. cbn. by rewrite Hts.
    + intros k' q. unfold tasks. rewrite Hv. cbn. rewrite Hts. set_solver.
  - destruct (i_tasks _ _ _ (proj1 Hok) _ _ _ _ Hv) as [Hnd Hbz]. rewrite Hts in Hnd, Hbz.
    apply NoDup_cons in Hnd as [Hp Hnd].
    wp_steps. apply wp_mod_cache_some; [done|]. wp_steps.
    set (s1 := upd_tc k _ s).
    assert (cview s1 k = Some (length (block_caches tc), ts, thread_id tc)) as Hv1.
    { unfold s1. rewrite cview_retask, decide_True, Hv by done. done. }
    assert (pool_ok s1 g) as Hok1.
    { apply retask_ok; [done|]. intros n ts' tid Hv'. split; [done|]. intros q Hq. apply Hbz. by right. }
    eapply wp_mono; [apply (PutBlock_own s1 g k p Hok1)|].
    + apply Hbz. by left.
    + unfold tasks. by rewrite Hv1.
    + intros _ s2 (g2 & Hok2 & Hv2 & Hs2 & Ho2 & Hb2).
      eapply wp_mono; [apply (IH fuel s2 g2 Hok2)|].
      * by rewrite Hv2, Hv1.
      * unfold tasks. by rewrite Hv2, Hv1.
      * cbn in Hf. lia.
      * intros _ s3 (g3 & []). exists g3. split; [done|..].
        -- intros k'. rewrite dr_view0, Hv2. unfold s1. rewrite cview_retask.
           case_decide; [|by rewrite !option_fmap_id]. by destruct (cview s k') as [[[]]|].
        -- intros c. by rewrite (Hs2 c), (dr_same0 c).
        -- by rewrite dr_opt0, Ho2.
        -- intros k' q. rewrite dr_busy0, Hb2. unfold tasks. rewrite Hv2, Hv1, Hv. cbn. rewrite Hts. set_solver.
Qed.

Lemma DeferredDeallocate_ok k s g :
  pool_ok s g → is_Some (cview s k) →
  wp (DeferredDeallocate k) (λ _ s', ∃ g', drained k s g s' g') s.
Proof.
  intros Hok Hk. pose proof Hk as [v Hv]. pose proof Hv as (tc & Etc & ->)%fmap_Some.
  unfold DeferredDeallocate. wp_steps. apply (wp_get_cache _ _ tc); [done|].
  apply (deferred_loop_ok k (thread_deallocate_tasks tc)); [done|done| |lia]. unfold tasks. by rewrite Hv.
Qed.

(** ** [GetBlockIndex] *)

Lemma index_table :
  forallb (λ n, let x := Z.of_nat n in let i := GetBlockIndex (x * 1024) in
    (0 <=? i) && (i <? 10) && (x * 1024 <=? bsz (Z.to_nat i)) &&
    ((i =? 0) || (bsz (Z.to_nat (i - 1)) <=? (x - 1) * 1024))) (seq 1 512) = true.
Proof. by vm_compute. Qed.

(** The smallest block size that fits. *)
Lemma index_best_fit size :
  0 < size <= kMemoryPoolMaxAllocate →
  let i := GetBlockIndex size in
  0 <= i < 10 ∧ size <= bsz (Z.to_nat i) ∧ (i = 0 ∨ bsz (Z.to_nat (i - 1)) < size).
Proof.
  intros Hs. unfold kMemoryPoolMaxAllocate in Hs. set (x := Z.shiftr (size + 1023) 10).
  assert (x * 1024 - 1024 < size <= x * 1024 ∧ 1 <= x <= 512) as [Hx Hx1].
  { unfold x. rewrite Z.shiftr_div_pow2 by lia. change (2 ^ 10) with 1024.
    pose proof (Z.div_mod (size + 1023) 1024 ltac:(lia)) as Hdm.
    pose proof (Z.mod_pos_bound (size + 1023) 1024 ltac:(lia)). lia. }
  assert (GetBlockIndex size = GetBlockIndex (x * 1024)) as Heq.
  { unfold GetBlockIndex. replace (Z.shiftr (x * 1024 + 1023) 10) with x; [done|].
    rewrite Z.shiftr_div_pow2 by lia. change (2 ^ 10) with 1024. rewrite Z.div_add_l by lia.
    change (1023 `div` 1024) with 0. lia. }
  pose proof index_table as Ht. rewrite forallb_forall in Ht. specialize (Ht (Z.to_nat x)).
  rewrite <- list_elem_of_In, Z2Nat.id in Ht by lia. specialize (Ht ltac:(apply elem_of_seq; lia)).
  cbn zeta in Ht. rewrite <- Heq in Ht. cbn zeta. apply andb_true_iff in Ht as [Ht H4].
  apply andb_true_iff in Ht as [Ht H3%Z.leb_le]. apply andb_true_iff in Ht as [H1%Z.leb_le H2%Z.ltb_lt].
  split_and!; [lia|lia|lia|]. apply orb_true_iff in H4 as [?%Z.eqb_eq|?%Z.leb_le]; [by left|right; lia].
Qed.

(** ** [GetBlock] *)

Definition thread_of (s : pool) (k : nat) : option Z := snd <$> cview s k.

(** Nothing a user can observe has changed. *)
Record kept (s : pool) (g : ghost) (s' : pool) (g' : ghost) : Prop := {
  kp_thread : ∀ k, thread_of s' k = thread_of s k;
  kp_out : ∀ p, outstanding s' g' p ↔ outstanding s g p;
  kp_same : same_chunks g g';
  kp_opt : opt_ s' = opt_ s }.

Lemma kept_refl s g : kept s g s g.
Proof. by split. Qed.
Lemma kept_trans s g s1 g1 s2 g2 : kept s g s1 g1 → kept s1 g1 s2 g2 → kept s g s2 g2.
Proof.
  intros [T1 O1 S1 P1] [T2 O2 S2 P2]. split.
  - intros k. by rewrite T2, T1.
  - intros p. by rewrite O2, O1.
  - intros c. by rewrite (S1 c), (S2 c).
  - by rewrite P2, P1.
Qed.
Lemma quiet_kept s g s' g' : quiet s g s' g' → kept s g s' g'.
Proof.
  intros Hq. pose proof Hq as [V _ S O]. split; try done.
  - intros k. unfold thread_of. by rewrite V.
  - intros p. by apply quiet_outstanding.
Qed.
Lemma outstanding_iff exc s g p : inv exc s g → outstanding s g p ↔ ∃ k, busy_block g k p ∧ p ∉ tasks s k.
Proof.
  intros Hinv. unfold outstanding, tasks. split.
  - intros (k & n & ts & tid & Hv & Hb & Hp). exists k. by rewrite Hv.
  - intros (k & Hb & Hp). pose proof Hb as (c & i & Hm & _). destruct (i_where _ _ _ Hinv _ _ _ Hm) as [[[[n ts] tid] Hv] _].
    rewrite Hv in Hp. by exists k, n, ts, tid.
Qed.
(** A block in use belongs to one cache. *)
Lemma busy_owner exc s g k k' p : inv exc s g → busy_block g k p → busy_block g k' p → k = k'.
Proof.
  intros Hinv (c & i & Hm & Hb & _) (d & j & Hd & Hbd & _).
  pose proof (member_blocks _ _ _ _ _ _ _ _ _ _ Hinv Hm Hd Hb Hbd) as ->.
  by pose proof (member_unique _ _ _ _ _ _ _ _ Hinv Hm Hd) as [= -> ->].
Qed.
Lemma drained_kept k s g s' g' : pool_ok s g → drained k s g s' g' → kept s g s' g'.
Proof.
  intros [Hinv _] [[Hinv' _] V S O B]. split; try done.
  - intros k'. unfold thread_of. rewrite V. case_decide; [|by rewrite option_fmap_id].
    by destruct (cview s k') as [[[]]|].
  - intros p. rewrite (outstanding_iff _ _ _ _ Hinv), (outstanding_iff _ _ _ _ Hinv').
    setoid_rewrite B. unfold tasks. setoid_rewrite V. split; intros (k' & Hb & Hp); exists k'.
    + destruct Hb as [Hb Hk]. split; [done|]. case_decide as E; [by subst|]. rewrite option_fmap_id in Hp. done.
    + split; [split; [done|]|].
      * intros Hin. destruct (cview s k) as [[[n ts] tid]|] eqn:Hv; [|by apply not_elem_of_nil in Hin].
        cbn in Hin. assert (k' = k) as ->; [|by rewrite Hv in Hp].
        eapply busy_owner; [exact Hinv|done|]. by eapply (i_tasks _ _ _ Hinv).
      * case_decide as E; [|by rewrite option_fmap_id]. subst. destruct (cview s k') as [[[]]|]; cbn; set_solver.
Qed.
Lemma kept_view s g s' g' k : kept s g s' g' → is_Some (cview s k) → is_Some (cview s' k).
Proof.
  intros [T _ _ _] Hk. specialize (T k). unfold thread_of in T.
  rewrite <- (fmap_is_Some snd). rewrite T. by rewrite fmap_is_Some.
Qed.

(** The first available chunk and its first free block. *)
Lemma take_ready exc s g k i c t :
  inv exc s g → counters_ok s g → is_Some (cview s k) → (i < kBlockNum)%nat →
  gL g (Av k i) = c :: t → (exc = None ∨ exc = Some c) →
  wp (take_block k i) (λ r s', ∃ b g', r = b + sizeof_BlockHeader ∧ b ∈ blocks c i ∧ member g c k i ∧
    pool_ok s' g' ∧ (∀ k', cview s' k' = cview s k') ∧ same_chunks g g' ∧ opt_ s' = opt_ s ∧
    (∀ k' q, busy_block g' k' q ↔ busy_block g k' q ∨ (k' = k ∧ q = r)) ∧
    (∀ k', ¬ busy_block g k' r) ∧ (∀ c k' i', member g' c k' i' ↔ member g c k' i')) s.
Proof.
  intros Hinv Hcnt Hk Hi HA He. assert (c ∈ gL g (Av k i)) as Hc by (rewrite HA; by left).
  assert (member g c k i) as Hm by (right; by left).
  destruct (i_av _ _ _ Hinv _ _ _ Hc) as [Hne _]. destruct (gF g c) as [|b f] eqn:EF; [done|].
  eapply wp_mono; [by eapply take_block_ok|]. cbn zeta. intros r s' (-> & Hinv' & Hcnt' & Hsf).
  destruct (i_chunk _ _ _ Hinv _ _ _ Hm) as [_ [_ _ Hsub _]]. rewrite EF in Hsub.
  assert (b ∈ blocks c i) as Hb by (apply Hsub; by left).
  eexists b, _. split_and!; [done|done|done|by split|apply Hsf|by eapply sf_same|apply Hsf|..].
  - intros k' q. by eapply busy_take; [exact Hinv|by eapply sf_members|done..|].
  - intros k' (d & j & Hd & Hbd & Hf). replace (b + sizeof_BlockHeader - sizeof_BlockHeader) with b in * by lia.
    pose proof (member_blocks _ _ _ _ _ _ _ _ _ _ Hinv Hm Hd Hb Hbd) as ->. rewrite EF in Hf. set_solver.
  - by eapply sf_members.
Qed.

(** What a successful allocation from size class [i] guarantees. *)
Record allocated (k i : nat) (r : Z) (s : pool) (g : ghost) (s' : pool) (g' : ghost) : Prop := {
  al_ok : pool_ok s' g';
  al_thread : ∀ k, thread_of s' k = thread_of s k;
  al_block : ∃ c, (∃ l, c ∈ gL g l) ∧ member g' c k i ∧ r - sizeof_BlockHeader ∈ blocks c i;
  al_new : ¬ outstanding s g r;
  al_out : ∀ q, outstanding s' g' q ↔ outstanding s g q ∨ q = r;
  al_same : same_chunks g g';
  al_opt : opt_ s' = opt_ s }.

Lemma take_allocated exc s0 g0 s g k i c t :
  kept s0 g0 s g → inv exc s g → counters_ok s g → is_Some (cview s k) → (i < kBlockNum)%nat →
  gL g (Av k i) = c :: t → (exc = None ∨ exc = Some c) →
  wp (take_block k i) (λ r s', r ≠ 0 ∧ ∃ g', allocated k i r s0 g0 s' g') s.
Proof.
  intros [KT KO KS KP] Hinv Hcnt Hk Hi HA He. eapply wp_mono; [by eapply take_ready|].
  intros r s' (b & g' & -> & Hb & Hm & Hok' & Hv & Hs & Ho & Hbz & Hnb & Hmem).
  pose proof (block_pos _ _ _ _ _ _ _ Hinv Hm Hb) as Hb0.
  assert (∀ k', tasks s' k' = tasks s k') as Ht by (intros k'; unfold tasks; by rewrite Hv).
  split; [unfold sizeof_BlockHeader; lia|]. exists g'. split.
  - done.
  - intros k'. rewrite <- KT. unfold thread_of. by rewrite Hv.
  - exists c. split_and!; [|by apply Hmem|by replace (b + sizeof_BlockHeader - sizeof_BlockHeader) with b by lia].
    apply KS. destruct Hm as [?|[?|?]]; eauto.
  - rewrite <- KO, (outstanding_iff _ _ _ _ Hinv). intros (k' & Hk' & _). by eapply Hnb.
  - intros q. rewrite <- KO, (outstanding_iff _ _ _ _ Hinv), (outstanding_iff _ _ _ _ (proj1 Hok')).
    setoid_rewrite Ht. setoid_rewrite Hbz. split.
    + intros (k' & [Hq|[-> ->]] & Hqt); [left; eauto|by right].
    + intros [(k' & ? & ?) | ->]; [eauto|]. exists k. split; [by right|]. unfold tasks.
      destruct (cview s k) as [[[n ts] tid]|] eqn:Hvk; [|by apply not_elem_of_nil]. cbn. intros Hin.
      apply (Hnb k). by eapply (i_tasks _ _ _ Hinv).
  - intros d. by rewrite (KS d), (Hs d).
  - by rewrite Ho, KP.
Qed.

(** [GetBlock] returns a block of the size class that fits, or null when the centre has not
    enough chunks, and then nothing has changed for the user. *)
Lemma GetBlock_ok s g k size :
  pool_ok s g → is_Some (cview s k) → 0 < size <= kMemoryPoolMaxAllocate →
  let i := Z.to_nat (GetBlockIndex size) in
  wp (GetBlock k size) (λ r s',
    (r = 0 ∧ ∃ g', pool_ok s' g' ∧ kept s g s' g' ∧ chunk_num_ s' < fetch_chunk_num (opt_ s)) ∨
    (r ≠ 0 ∧ ∃ g', allocated k i r s g s' g')) s.
Proof.
  intros Hok Hk Hsz i. destruct (index_best_fit size Hsz) as (Hidx & _ & _).
  assert (i < kBlockNum)%nat as Hi by (unfold i, kBlockNum; lia).
  destruct (bc_lookup _ _ _ k i (proj1 Hok) Hk Hi) as [bc Eb].
  unfold GetBlock. fold i. wp_steps. apply (wp_get_bc _ _ _ bc); [done|]. wp_steps.
  eapply wp_mono with (P := λ _ s1, ∃ g1, pool_ok s1 g1 ∧ kept s g s1 g1).
  { apply wp_when; intros _; [|exists g; split; [done|apply kept_refl]].
    eapply wp_mono; [by apply (DeferredDeallocate_ok k s g)|]. intros _ s1 (g1 & Hd). exists g1.
    split; [apply Hd|by eapply drained_kept]. }
  intros _ s1 (g1 & Hok1 & Hkp1). pose proof (kept_view _ _ _ _ _ Hkp1 Hk) as Hk1. clear bc Eb.
  destruct (bc_lookup _ _ _ k i (proj1 Hok1) Hk1 Hi) as [bc Eb].
  destruct (heads _ _ _ _ _ _ (proj1 Hok1) Eb) as (Hr & Ha & HdR & HdA).
  wp_steps. apply (wp_get_bc _ _ _ bc); [done|]. wp_steps.
  destruct (Z.eqb_spec (available_chunks bc) 0) as [Ea|Ea].
  - rewrite Ea in HdA. apply dll_null in HdA.
    apply wp_bind. eapply wp_mono with (P := λ (f : bool) s2, ∃ g2, pool_ok s2 g2 ∧ kept s g s2 g2 ∧
      if f then gL g2 (Rec k i) ≠ [] ∧ gL g2 (Av k i) = [] else chunk_num_ s2 < fetch_chunk_num (opt_ s)).
    { destruct (Z.eqb_spec (recyclable_chunks bc) 0) as [Er|Er].
      - rewrite Er in HdR. apply dll_null in HdR.
        eapply wp_mono; [by apply (fetch_chunks_ok s1 g1 k i)|]. intros [] s2.
        + intros (g2 & Hok2 & Hq & HR2 & HA2). exists g2. rewrite HA2.
          split_and!; try done. eapply kept_trans; [done|by apply quiet_kept].
        + intros [-> Hlt]. exists g1. rewrite (kp_opt _ _ _ _ Hkp1) in Hlt. done.
      - wp_steps. exists g1. split_and!; try done. intros E. rewrite E in Hr. done. }
    intros [] s2 (g2 & Hok2 & Hkp2 & Hx); cbn [when]; wp_steps; [|left; split; [done|eauto]].
    destruct Hx as [HR2 HA2]. destruct (gL g2 (Rec k i)) as [|c t] eqn:ER; [done|].
    pose proof (kept_view _ _ _ _ _ Hkp2 Hk) as Hk2.
    eapply wp_mono; [by apply (take_recyclable_ok s2 g2 k i c t)|]. cbn zeta. intros _ s3 (Hinv3 & Hcnt3 & Hsf).
    wp_steps. apply (wp_mono _ (λ r s', r ≠ 0 ∧ ∃ g', allocated k i r s g s' g')); [|by right].
    eapply (take_allocated (Some c) s g s3 _ k i c []); try done.
    + eapply kept_trans; [exact Hkp2|]. apply quiet_kept. split.
      * apply Hsf.
      * intros k' p. unfold busy_block. by setoid_rewrite (sf_members _ _ _ _ _ _ Hsf).
      * by eapply sf_same.
      * apply Hsf.
    + by rewrite (sf_view _ _ _ _ _ _ Hsf).
    + cbn. by rewrite lset_ne, lset_eq by done.
    + by right.
  - wp_steps. destruct (gL g1 (Av k i)) as [|c t] eqn:EA; [by rewrite Ha in Ea|].
    apply (wp_mono _ (λ r s', r ≠ 0 ∧ ∃ g', allocated k i r s g s' g')); [|by right].
    eapply (take_allocated None s g s1 g1 k i c t); try done; [apply Hok1|apply Hok1|by left].
Qed.

(** ** The memory behind a pointer *)

(** [p] is the start of a block of [n] bytes. *)
Definition extent (g : ghost) (p n : Z) : Prop :=
  ∃ c k i, member g c k i ∧ p - sizeof_BlockHeader ∈ blocks c i ∧ n = bsz i.

(** Two blocks never overlap, headers included. *)
Lemma extents_apart exc s g p n q m :
  inv exc s g → extent g p n → extent g q m → p ≠ q →
  p + n <= q - sizeof_BlockHeader ∨ q + m <= p - sizeof_BlockHeader.
Proof.
  intros Hinv (c & k & i & Hm & Hb & ->) (d & k' & j & Hd & Hq & ->) Hne.
  destruct (chunk_member _ _ _ _ _ _ Hinv Hm) as (Hi & _ & Hac & _).
  destruct (chunk_member _ _ _ _ _ _ Hinv Hd) as (Hj & _ & Had & _).
  destruct (block_range _ _ _ Hi Hb) as [R1 R2]. destruct (block_range _ _ _ Hj Hq) as [R3 R4].
  destruct (decide (c = d)) as [->|Hcd].
  - pose proof (member_unique _ _ _ _ _ _ _ _ Hinv Hm Hd) as [= -> ->].
    destruct (block_apart _ _ _ _ Hi Hb Hq) as [?|?]; [|left|right]; lia.
  - apply Z.mod_divide in Hac as [x ->], Had as [y ->]; try done.
    unfold sizeof_ChunkHeader, sizeof_BlockHeader, kChunkSize in *.
    destruct (Z.lt_total x y) as [?|[->|?]]; [left|done|right]; lia.
Qed.

Lemma Allocate_ok s g k size :
  pool_ok s g → is_Some (cview s k) → 0 <= size →
  wp (Allocate k size) (λ r s', ∃ g', pool_ok s' g' ∧ same_chunks g g' ∧ (∀ k', thread_of s' k' = thread_of s k') ∧
    ((r = 0 ∧ (∀ q, outstanding s' g' q ↔ outstanding s g q) ∧
      (s' = s ∧ (size = 0 ∨ kMemoryPoolMaxAllocate < size) ∨ chunk_num_ s' < fetch_chunk_num (opt_ s))) ∨
     (r ≠ 0 ∧ ¬ outstanding s g r ∧ (∀ q, outstanding s' g' q ↔ outstanding s g q ∨ q = r) ∧
      (∃ c l, c ∈ gL g l ∧ c + sizeof_ChunkHeader + sizeof_BlockHeader <= r ∧ r + size <= c + kChunkSize) ∧
      (∃ n, extent g' r n ∧ size <= n) ∧
      (∀ q n, outstanding s g q → extent g' q n →
         r + size <= q - sizeof_BlockHeader ∨ q + n <= r - sizeof_BlockHeader)))) s.
Proof.
  intros Hok Hk Hsz. unfold Allocate. destruct (Z.ltb_spec kMemoryPoolMaxAllocate size) as [Hbig|Hle].
  { wp_steps. exists g. split_and!; [done|by intros c|done|]. left. split_and!; [done|done|]. left. auto. }
  destruct (Z.eqb_spec size 0) as [->|Hne].
  { wp_steps. exists g. split_and!; [done|by intros c|done|]. left. split_and!; [done|done|]. left. auto. }
  wp_steps. destruct (index_best_fit size) as (Hidx & Hfit & _); [lia|].
  eapply wp_mono; [apply (GetBlock_ok s g k size Hok Hk); lia|].
  cbn zeta. intros r s' [[-> (g' & Hok' & Hkp & Hlt)]|[Hr (g' & Hal)]].
  - cbn [when Z.eqb]. wp_steps. exists g'. pose proof Hkp as [KT KO KS _].
    assert (∀ f, pool_ok (s' <| metrics_fail_allocate ::= f |>) g') as Hm by (intros f; destruct Hok' as [[] ?]; by split; [split|]).
    split_and!; [apply Hm|done|apply KT|]. left. split_and!; [done|apply KO|by right].
  - rewrite (proj2 (Z.eqb_neq _ _) Hr). cbn [when]. wp_steps. exists g'. pose proof Hal as [A1 AT (c & [l Hl] & Hm & Hb) A4 A5 A6 _].
    split_and!; [done..|]. right. split_and!; try done.
    + exists c, l. split; [done|]. destruct (i_where _ _ _ (proj1 A1) _ _ _ Hm) as [_ Hi].
      destruct (block_range _ _ _ Hi Hb). lia.
    + exists (bsz (Z.to_nat (GetBlockIndex size))). split; [by exists c, k, (Z.to_nat (GetBlockIndex size))|done].
    + intros q n Hq Hn.
      destruct (extents_apart _ _ _ r (bsz (Z.to_nat (GetBlockIndex size))) q n (proj1 A1)) as [?|?];
        [by exists c, k, (Z.to_nat (GetBlockIndex size))|done|by intros ->|left; lia|by right].
Qed.

(** C1: an allocation that is served returns memory nobody holds: at least as large as asked
    for, inside a chunk of the pool and clear of its header, not overlapping any block that
    is out, and from then on held. It fails only for a size of zero or above 512 KB, with no
    effect, or when the centre has fewer chunks than one fetch, and then what users hold is
    unchanged. No chunk of the pool is lost or made up. *)
Theorem allocate_sound s g k size :
  pool_ok s g → is_Some (cview s k) → 0 <= size →
  wp (Allocate k size) (λ r s', ∃ g', pool_ok s' g' ∧ same_chunks g g' ∧ (∀ k', thread_of s' k' = thread_of s k') ∧
    ((r = 0 ∧ (∀ q, outstanding s' g' q ↔ outstanding s g q) ∧
      (s' = s ∧ (size = 0 ∨ kMemoryPoolMaxAllocate < size) ∨ chunk_num_ s' < fetch_chunk_num (opt_ s))) ∨
     (r ≠ 0 ∧ ¬ outstanding s g r ∧ (∀ q, outstanding s' g' q ↔ outstanding s g q ∨ q = r) ∧
      (∃ c l, c ∈ gL g l ∧ c + sizeof_ChunkHeader + sizeof_BlockHeader <= r ∧ r + size <= c + kChunkSize) ∧
      (∃ n, extent g' r n ∧ size <= n) ∧
      (∀ q n, outstanding s g q → extent g' q n →
         r + size <= q - sizeof_BlockHeader ∨ q + n <= r - sizeof_BlockHeader)))) s.
Proof. apply Allocate_ok. Qed.

Lemma Deallocate_ok s g k p :
  pool_ok s g → is_Some (cview s k) → tid_of s k ≠ 0 → outstanding s g p →
  wp (Deallocate k p) (λ _ s', ∃ g', pool_ok s' g' ∧ same_chunks g g' ∧ (∀ k', thread_of s' k' = thread_of s k') ∧
    (∀ q, outstanding s' g' q ↔ outstanding s g q ∧ q ≠ p) ∧
    ∃ o, busy_block g o p ∧
      if decide (o = k) then ∀ k', ¬ busy_block g' k' p
      else g' = g ∧ tasks s' o = tasks s o ++ [p]) s.
Proof.
  intros Hok Hk Htid Hout. pose proof Hok as [Hinv _].
  apply (outstanding_iff _ _ _ _ Hinv) in Hout as (o & Hb & Ht).
  pose proof Hb as (c & i & Hm & Hbl & _). pose proof (block_pos _ _ _ _ _ _ _ Hinv Hm Hbl) as Hp0.
  assert (p ≠ 0) as Hp by (unfold sizeof_BlockHeader in *; lia).
  unfold Deallocate. rewrite (proj2 (Z.eqb_neq _ _) Hp). destruct (decide (o = k)) as [->|Hok'].
  - eapply wp_mono; [by apply (PutBlock_own s g k p)|]. intros _ s' (g' & Hp' & Hv & Hs & _ & Hbz). exists g'.
    split_and!; [done..|intros k'; unfold thread_of; by rewrite Hv| |].
    + intros q. rewrite (outstanding_iff _ _ _ _ Hinv), (outstanding_iff _ _ _ _ (proj1 Hp')).
      setoid_rewrite Hbz. assert (∀ k', tasks s' k' = tasks s k') as Htk by (intros; unfold tasks; by rewrite Hv).
      setoid_rewrite Htk. naive_solver.
    + exists k. split; [done|]. rewrite decide_True by done. intros k' [_ ?]%Hbz. done.
  - assert (tid_of s o ≠ tid_of s k) as Hne.
    { destruct (i_where _ _ _ Hinv _ _ _ Hm) as [[[[n1 t1] x1] V1] _]. destruct Hk as [[[n2 t2] x2] V2].
      unfold tid_of in *. rewrite V1, V2 in *. cbn in *. intros ->. apply Hok'. by eapply (i_tid _ _ _ Hinv). }
    eapply wp_mono; [by apply (PutBlock_deferred s g k o p)|]. intros _ s' [-> Hp']. exists g.
    assert (∀ k', tasks (upd_tc o (λ tc, tc <| thread_deallocate_tasks ::= λ l, l ++ [p] |>) s) k' =
              if decide (o = k') then tasks s o ++ [p] else tasks s k') as Htk.
    { intros k'. unfold tasks. rewrite cview_retask. destruct (i_where _ _ _ Hinv _ _ _ Hm) as [[[[n1 t1] x1] V1] _].
      case_decide; [subst k'; by rewrite V1|by rewrite option_fmap_id]. }
    split_and!; [done|by intros d|intros k'; unfold thread_of; rewrite cview_retask;
      case_decide; [by destruct (cview s k') as [[[]]|]|by rewrite option_fmap_id]| |].
    + intros q. rewrite (outstanding_iff _ _ _ _ Hinv), (outstanding_iff _ _ _ _ (proj1 Hp')).
      setoid_rewrite Htk. split.
      * intros (k' & Hbk & Hq). case_decide as E; [subst k'|].
        -- split; [exists o; set_solver|set_solver].
        -- split; [by exists k'|]. intros ->. apply E. by eapply busy_owner.
      * intros [(k' & Hbk & Hq) Hqp]. exists k'. split; [done|]. case_decide; [subst; set_solver|done].
    + exists o. split; [done|]. rewrite decide_False by done. split; [done|]. rewrite Htk. by rewrite decide_True.
Qed.

(** C2: freeing memory that is out always succeeds, from whichever thread: afterwards exactly
    that memory is no longer held; it is back in its chunk when the caller's thread owns
    the chunk, and otherwise last in the owner's queue. *)
Theorem deallocate_frees s g k p :
  pool_ok s g → is_Some (cview s k) → tid_of s k ≠ 0 → outstanding s g p →
  wp (Deallocate k p) (λ _ s', ∃ g', pool_ok s' g' ∧ same_chunks g g' ∧ (∀ k', thread_of s' k' = thread_of s k') ∧
    (∀ q, outstanding s' g' q ↔ outstanding s g q ∧ q ≠ p) ∧
    ∃ o, busy_block g o p ∧
      if decide (o = k) then ∀ k', ¬ busy_block g' k' p
      else g' = g ∧ tasks s' o = tasks s o ++ [p]) s.
Proof. apply Deallocate_ok. Qed.
