(* ===== verification/ChunkPoolThreads.v ===== *)
(** * The chunk pool: threads that come and go

    A thread gets a cache when it first uses the pool, an orphan one if there is any; when
    it ends, its cache is destroyed, or kept as an orphan while memory taken from it is
    still held. *)

From Stdlib Require Import ZArith Lia.
From stdpp Require Import prelude gmap.
From S2P Require Import Prelude LinkedList ChunkPool ChunkPoolInv ChunkPoolSteps ChunkPoolCentral.
From S2P Require Import ChunkPoolProps.
Open Scope Z_scope.

(** ** Fields a program does not write *)

Definition keeps {S A B} (f : S → B) (m : ST S A) : Prop := ∀ s a s', m s = Ok (a, s') → f s' = f s.

Section keeps.
Context {S A B C : Type} (f : S → C).
Lemma keeps_ret (a : A) : keeps f (mret a).
Proof. by intros s ? ? [= <- <-]. Qed.
Lemma keeps_raise e : keeps f (A := A) (raise e).
Proof. by intros s ? ?. Qed.
Lemma keeps_bind (m : ST S A) (h : A → ST S B) : keeps f m → (∀ a, keeps f (h a)) → keeps f (x ← m; h x).
Proof.
  intros Hm Hh s b s'. unfold mbind, ST_bind. destruct (m s) as [[a s1]|] eqn:E; [|done]. intros E2.
  rewrite (Hh _ _ _ _ E2). by eapply Hm.
Qed.
Lemma keeps_need e (o : option A) : keeps f (need e o).
Proof. destruct o; [apply keeps_ret|apply keeps_raise]. Qed.
Lemma keeps_when b (m : ST S unit) : keeps f m → keeps f (when b m).
Proof. intros Hm. destruct b; [done|]. by intros s ? ? [= <- <-]. Qed.
Lemma wp_keeps (m : ST S A) Q s : keeps f m → wp m Q s → wp m (λ a s', Q a s' ∧ f s' = f s) s.
Proof. intros Hm. unfold wp. destruct (m s) as [[a s']|] eqn:E; [|done]. intros HQ. split; [done|by eapply Hm]. Qed.
End keeps.
Lemma keeps_get {S C} (f : S → C) : keeps f get.
Proof. by intros s ? ? [= <- <-]. Qed.
Lemma keeps_modify {S C} (f : S → C) h : (∀ s, f (h s) = f s) → keeps f (modify h).
Proof. intros Hh s ? ? [= <- <-]. apply Hh. Qed.

Create HintDb keeps.
#[export] Hint Resolve keeps_ret keeps_raise keeps_need keeps_get : keeps.
Ltac keeps_step :=
  match goal with
  | |- keeps _ (mbind _ _) => apply keeps_bind; [|intros ?]
  | |- keeps _ (when _ _) => apply keeps_when
  | |- keeps _ (modify _) => by apply keeps_modify
  | |- keeps _ (check_null _) => unfold check_null
  | |- keeps _ (if ?b then _ else _) => destruct b
  | |- keeps _ (match ?x with _ => _ end) => destruct x
  | |- keeps _ _ => by eauto with keeps
  end.
Ltac keeps_tac := repeat keeps_step.

Abbreviation orphans := orphan_tls_caches_.
Lemma keeps_mod_chunk p h : keeps orphans (mod_chunk p h). Proof. unfold mod_chunk, get_chunk. keeps_tac. Qed.
Lemma keeps_get_chunk p : keeps orphans (get_chunk p). Proof. unfold get_chunk. keeps_tac. Qed.
Lemma keeps_mod_block p h : keeps orphans (mod_block p h). Proof. unfold mod_block, get_block. keeps_tac. Qed.
Lemma keeps_get_block p : keeps orphans (get_block p). Proof. unfold get_block. keeps_tac. Qed.
Lemma keeps_get_cache k : keeps orphans (get_cache k). Proof. unfold get_cache. keeps_tac. Qed.
Lemma keeps_mod_cache k h : keeps orphans (mod_cache k h). Proof. unfold mod_cache, get_cache. keeps_tac. Qed.
Lemma keeps_get_bc k i : keeps orphans (get_bc k i). Proof. unfold get_bc, get_cache. keeps_tac. Qed.
#[export] Hint Resolve keeps_mod_chunk keeps_get_chunk keeps_mod_block keeps_get_block keeps_get_cache
  keeps_mod_cache keeps_get_bc : keeps.
Lemma keeps_mod_bc k i h : keeps orphans (mod_bc k i h). Proof. unfold mod_bc. keeps_tac. Qed.
Lemma keeps_set_prev_if p v : keeps orphans (set_prev_if p v). Proof. unfold set_prev_if. keeps_tac. Qed.
#[export] Hint Resolve keeps_mod_bc keeps_set_prev_if : keeps.
Lemma keeps_get_walk fuel : ∀ n p, keeps orphans (get_walk fuel n p).
Proof. induction fuel; intros; cbn [get_walk]; keeps_tac. Qed.
Lemma keeps_put_walk fuel : ∀ n p, keeps orphans (put_walk fuel n p).
Proof. induction fuel; intros; cbn [put_walk]; keeps_tac. Qed.
#[export] Hint Resolve keeps_get_walk keeps_put_walk : keeps.
Lemma keeps_GetChunks n : keeps orphans (GetChunks n). Proof. unfold GetChunks. keeps_tac. Qed.
Lemma keeps_PutChunks p : keeps orphans (PutChunks p). Proof. unfold PutChunks. keeps_tac. Qed.
#[export] Hint Resolve keeps_GetChunks keeps_PutChunks : keeps.
Lemma keeps_link_blocks n : ∀ c p e, keeps orphans (link_blocks n c p e).
Proof. induction n; intros; cbn [link_blocks]; keeps_tac. Qed.
#[export] Hint Resolve keeps_link_blocks : keeps.
Lemma keeps_BuildBlocks fuel : ∀ k i c b, keeps orphans (BuildBlocks fuel k i c b).
Proof. induction fuel; intros; cbn [BuildBlocks]; keeps_tac. Qed.
Lemma keeps_recycle_loop k ixs : keeps orphans (recycle_loop k ixs).
Proof. induction ixs; cbn [recycle_loop]; keeps_tac. Qed.
#[export] Hint Resolve keeps_BuildBlocks keeps_recycle_loop : keeps.
Lemma keeps_PutBlock k p : keeps orphans (PutBlock k p).
Proof. unfold PutBlock, free_block, to_available, to_recyclable, push_chunk, Recycle. keeps_tac. Qed.
#[export] Hint Resolve keeps_PutBlock : keeps.
Lemma keeps_deferred_loop fuel k : keeps orphans (deferred_loop fuel k).
Proof. induction fuel; cbn [deferred_loop]; keeps_tac. Qed.
#[export] Hint Resolve keeps_deferred_loop : keeps.
Lemma keeps_Deferred k : keeps orphans (DeferredDeallocate k). Proof. unfold DeferredDeallocate. keeps_tac. Qed.
#[export] Hint Resolve keeps_Deferred : keeps.
Lemma keeps_Allocate k n : keeps orphans (Allocate k n).
Proof. unfold Allocate, GetBlock, fetch_chunks, take_recyclable, take_block. keeps_tac. Qed.
Lemma keeps_Deallocate k p : keeps orphans (Deallocate k p). Proof. unfold Deallocate. keeps_tac. Qed.
Lemma keeps_reset_loop k ixs : keeps orphans (reset_loop k ixs).
Proof. induction ixs; cbn [reset_loop]; keeps_tac. Qed.
#[export] Hint Resolve keeps_Allocate keeps_Deallocate keeps_reset_loop : keeps.

(** ** Changing the set of caches *)

(** The caches of another state, when the chunks in use, the heaps and the centre are the same. *)
Lemma recache_ok s s' g :
  pool_ok s g → chunkh s' = chunkh s → blockh s' = blockh s → chunks_ s' = chunks_ s →
  chunk_num_ s' = chunk_num_ s → initialized_ s' = initialized_ s → opt_ s' = opt_ s →
  (∀ l, root s' l = root s l) →
  (∀ k n ts tid, cview s' k = Some (n, ts, tid) →
     n = kBlockNum ∧ NoDup ts ∧ (∀ p, p ∈ ts → busy_block g k p)) →
  (∀ k c i, member g c k i → is_Some (cview s k) → is_Some (cview s' k)) →
  (∀ k k' n n' ts ts' tid, cview s' k = Some (n, ts, tid) → cview s' k' = Some (n', ts', tid) → tid ≠ 0 → k = k') →
  counters_ok s' g → pool_ok s' g.
Proof.
  intros [[[] ? ? ? Hw Hck ? ? ? ? ? ? ?] _] Hh Hb Hc Hn Hi Ho Hr Hv Hs Ht Hct. split; [|done]. split; try done.
  - split; [done..|]. intros l Hl. rewrite Hr, Hh. auto.
  - by rewrite Hh.
  - by rewrite Hn.
  - intros k n ts tid E. by destruct (Hv _ _ _ _ E).
  - intros c k i Hm. destruct (Hw _ _ _ Hm). eauto.
  - intros c k i Hm. unfold chunk_ok. rewrite Hh, Hb. by apply Hck.
  - intros k n ts tid E. by destruct (Hv _ _ _ _ E) as (_ & ? & ?).
  - by rewrite Hi.
  - by rewrite Ho.
Qed.

Definition orphans_ok (s : pool) : Prop := NoDup (orphans s) ∧ ∀ k, k ∈ orphans s → thread_of s k = Some 0.

(** [AttachThread] and [DetachThread]. *)
Lemma cview_rethread s o tid k :
  cview (upd_tc o (λ tc, tc <| thread_id := tid |>) s) k =
  (if decide (o = k) then λ '(n, ts, _), (n, ts, tid) else id) <$> cview s k.
Proof.
  unfold cview, upd_tc. cbn. rewrite lookup_alter. case_decide; subst.
  - by destruct (tls_caches_ s !! k).
  - by rewrite option_fmap_id.
Qed.
Lemma rethread_ok s g o tid :
  pool_ok s g → (tid ≠ 0 → ∀ k, thread_of s k ≠ Some tid) →
  pool_ok (upd_tc o (λ tc, tc <| thread_id := tid |>) s) g.
Proof.
  intros Hok Htid. pose proof Hok as [Hinv Hcnt]. apply (recache_ok s); try done.
  - intros []; cbn; try done; by rewrite bc_of_upd_tc.
  - intros k n ts t. rewrite cview_rethread. intros ([[n0 ts0] t0] & Hv & E)%fmap_Some.
    assert (n = n0 ∧ ts = ts0) as [-> ->] by (case_decide; cbn in E; by simplify_eq).
    destruct (i_tasks _ _ _ Hinv _ _ _ _ Hv). split; [by eapply (i_shape _ _ _ Hinv)|done].
  - intros k c i _ Hk. rewrite cview_rethread. by rewrite fmap_is_Some.
  - intros k k' n n' ts ts' t. rewrite !cview_rethread.
    intros ([[n0 ts0] t0] & Hv & E)%fmap_Some ([[n1 ts1] t1] & Hv' & E')%fmap_Some Ht.
    assert (∀ j, thread_of s j = Some t → t = tid → False) as Hno by (intros j Hj ->; by eapply Htid).
    unfold thread_of in Hno. repeat case_decide; cbn in E, E'; simplify_eq.
    + done.
    + exfalso. apply (Hno k); [by rewrite Hv|done].
    + exfalso. apply (Hno k'); [by rewrite Hv'|done].
    + by eapply (i_tid _ _ _ Hinv).
  - rewrite counters_view in *. intros k a b. rewrite (tview_upd_tc_f _ _ _ id) by done.
    destruct (decide (o = k)); rewrite option_fmap_id; apply Hcnt.
Qed.
Lemma rethread_outstanding s g o tid q :
  outstanding (upd_tc o (λ tc, tc <| thread_id := tid |>) s) g q ↔ outstanding s g q.
Proof.
  unfold outstanding. setoid_rewrite cview_rethread. split.
  - intros (k & n & ts & t & ([[n0 ts0] t0] & Hv & E)%fmap_Some & Hb & Hq). exists k, n0, ts0, t0.
    case_decide; cbn in E; by simplify_eq.
  - intros (k & n & ts & t & Hv & Hb & Hq). exists k, n, ts, (if decide (o = k) then tid else t).
    rewrite Hv. by case_decide.
Qed.

(** ** A thread's first use of the pool *)

Lemma cview_new s fresh k :
  cview (s <| tls_caches_ ::= <[fresh := new_TLSCache]> |>) k =
  if decide (fresh = k) then Some (kBlockNum, [], 0) else cview s k.
Proof. unfold cview. cbn. rewrite lookup_insert. by case_decide. Qed.

Lemma no_members exc s g k : inv exc s g → cview s k = None → ∀ i, gL g (Rec k i) = [] ∧ gL g (Av k i) = [] ∧ gL g (Full k i) = [].
Proof.
  intros Hinv Hv i.
  assert (∀ c, ¬ member g c k i) as Hn.
  { intros c Hm. destruct (i_where _ _ _ Hinv _ _ _ Hm) as [Hs _]. rewrite Hv in Hs. by destruct Hs. }
  unfold member in Hn. split_and!; apply elem_of_nil_inv; intros c Hc; apply (Hn c); auto.
Qed.
Lemma counts_nil g k :
  (∀ i, (i < kBlockNum)%nat → gL g (Rec k i) = [] ∧ gL g (Av k i) = [] ∧ gL g (Full k i) = []) →
  count_all g k = 0%nat ∧ count_rec g k = 0%nat.
Proof.
  intros H. unfold count_all, count_rec. split.
  - rewrite (sum_ext (λ _, 0%nat)); [by vm_compute|]. intros j Hj%elem_of_seq. by destruct (H j) as (-> & -> & ->); [lia|].
  - rewrite (sum_ext (λ _, 0%nat)); [by vm_compute|]. intros j Hj%elem_of_seq. by destruct (H j) as (-> & _); [lia|].
Qed.

Lemma new_cache_ok s g fresh :
  pool_ok s g → tls_caches_ s !! fresh = None → pool_ok (s <| tls_caches_ ::= <[fresh := new_TLSCache]> |>) g.
Proof.
  intros Hok Hf. pose proof Hok as [Hinv Hcnt]. assert (cview s fresh = None) as Hv by (unfold cview; by rewrite Hf).
  pose proof (no_members _ _ _ _ Hinv Hv) as Hn. apply (recache_ok s); try done.
  - assert (∀ k i, bc_of (s <| tls_caches_ ::= <[fresh := new_TLSCache]> |>) k i =
              if decide (fresh = k) then block_caches new_TLSCache !! i else bc_of s k i) as Hb.
    { intros k i. unfold bc_of. cbn. rewrite lookup_insert. by case_decide. }
    assert (∀ i bc, block_caches new_TLSCache !! i = Some bc → recyclable_chunks bc = 0 ∧ available_chunks bc = 0) as Hnew.
    { intros i bc. do 10 (destruct i as [|i]; [by intros [= <-]|]). done. }
    intros [|k i|k i|k i]; cbn [root]; try done; rewrite Hb; case_decide as E; try done; subst k;
      unfold bc_of; rewrite Hf; cbn [mbind option_bind fmap option_fmap option_map default];
      destruct (block_caches new_TLSCache !! i) as [bc|] eqn:Eb; try done; by destruct (Hnew _ _ Eb).
  - intros k n ts tid. rewrite cview_new. case_decide.
    + intros [= <- <- <-]. split_and!; [done|constructor|set_solver].
    + intros Hv'. destruct (i_tasks _ _ _ Hinv _ _ _ _ Hv'). split; [by eapply (i_shape _ _ _ Hinv)|done].
  - intros k c i _ Hk. rewrite cview_new. by case_decide.
  - intros k k' n n' ts ts' tid. rewrite !cview_new. repeat case_decide; try (intros; simplify_eq; done).
    by apply (i_tid _ _ _ Hinv).
  - intros k tc. cbn [tls_caches_ upd]. rewrite lookup_insert. case_decide; [|apply Hcnt]. intros [= <-]. subst k.
    by destruct (counts_nil g fresh) as [-> ->]; [intros; apply Hn|].
Qed.

(** Giving cache [k] to thread [tid], in a state that looks like [s] otherwise. *)
Lemma attach_ok s g tid st k :
  pool_ok st g → orphans_ok st → k ∉ orphans st → is_Some (cview st k) →
  (∀ k', thread_of st k' ≠ Some tid) → (∀ k', k' ≠ k → thread_of st k' = thread_of s k') →
  (∀ q, outstanding st g q ↔ outstanding s g q) →
  let s' := upd_tc k (λ tc, tc <| thread_id := tid |>) st in
  pool_ok s' g ∧ orphans_ok s' ∧ thread_of s' k = Some tid ∧ k ∉ orphans s' ∧
  (∀ k', k' ≠ k → thread_of s' k' = thread_of s k') ∧ (∀ q, outstanding s' g q ↔ outstanding s g q).
Proof.
  intros Hst [Hn1 Hn2] Hk Hs Ht Hth Hq. cbn zeta.
  assert (∀ k', k' ≠ k → thread_of (upd_tc k (λ tc, tc <| thread_id := tid |>) st) k' = thread_of st k') as Hoth.
  { intros k' Hne. unfold thread_of. rewrite cview_rethread, decide_False by done. by rewrite option_fmap_id. }
  split_and!; [by apply rethread_ok| | |done| |].
  - split; [done|]. intros o Ho. rewrite Hoth; [by apply Hn2|]. by intros ->.
  - unfold thread_of. rewrite cview_rethread, decide_True by done. by destruct Hs as [[[] ] ->].
  - intros k' Hne. rewrite Hoth by done. by apply Hth.
  - intros q. by rewrite rethread_outstanding.
Qed.

Lemma start_ok s g fresh tid :
  pool_ok s g → orphans_ok s → tls_caches_ s !! fresh = None → tid ≠ 0 →
  (∀ k, thread_of s k ≠ Some tid) →
  wp (GetOrNewTlsCache fresh tid) (λ k s',
    pool_ok s' g ∧ orphans_ok s' ∧ thread_of s' k = Some tid ∧ k ∉ orphans s' ∧
    (∀ k', k' ≠ k → thread_of s' k' = thread_of s k') ∧
    (∀ q, outstanding s' g q ↔ outstanding s g q) ∧
    k = match last (orphans s) with Some o => o | None => fresh end) s.
Proof.
  intros Hok [Hnd Horp] Hf Htid Hno. unfold GetOrNewTlsCache, AdoptOrNewTlsCache, AttachThread. wp_steps.
  pose proof (attach_ok s g tid) as Hatt.
  destruct (last (orphans s)) as [o|] eqn:El.
  - wp_steps. assert (o ∈ orphans s) as Ho by (by apply last_Some_elem_of).
    assert (is_Some (cview s o)) as Hs.
    { specialize (Horp o Ho). unfold thread_of in Horp. apply fmap_Some in Horp as (v & -> & _). by eexists. }
    apply wp_mod_cache_some; [done|]. wp_steps.
    apply last_Some in El as [l' El].
    destruct (Hatt (s <| orphan_tls_caches_ ::= λ l, take (length l - 1) l |>) o) as (? & ? & ? & ? & ? & ?); try done.
    + destruct Hok as [[] ?]. by split; [split|].
    + split.
      * cbn. rewrite El in *. rewrite length_app. cbn. rewrite take_app_length' by lia. by apply NoDup_app in Hnd as [? _].
      * intros k Hk. apply Horp. cbn in Hk. rewrite El in *.
        rewrite length_app in Hk. cbn in Hk. rewrite take_app_length' in Hk by lia. set_solver.
    + cbn. rewrite El in *. rewrite length_app. cbn. rewrite take_app_length' by lia. apply NoDup_app in Hnd as (_ & Hd & _).
      intros Hin. apply (Hd o Hin). by left.
  - wp_steps. apply wp_mod_cache_some; [rewrite cview_new, decide_True by done; by eexists|]. wp_steps.
    apply last_None in El.
    assert (∀ k, thread_of (s <| tls_caches_ ::= <[fresh := new_TLSCache]> |>) k = if decide (fresh = k) then Some 0 else thread_of s k) as Hth.
    { intros k. unfold thread_of. rewrite cview_new. by case_decide. }
    destruct (Hatt (s <| tls_caches_ ::= <[fresh := new_TLSCache]> |>) fresh) as (? & ? & ? & ? & ? & ?); try done.
    + by apply new_cache_ok.
    + split; cbn; rewrite El; [constructor|set_solver].
    + cbn. rewrite El. set_solver.
    + rewrite cview_new, decide_True by done. by eexists.
    + intros k'. rewrite Hth. case_decide; [congruence|apply Hno].
    + intros k' Hne. rewrite Hth. by rewrite decide_False.
    + intros q. unfold outstanding. setoid_rewrite cview_new. split; intros (k & n & ts & t & Hv & Hb & Hq); exists k, n, ts, t.
      * case_decide; [|done]. subst k. destruct Hb as (c & i & Hm & _).
        destruct (i_where _ _ _ (proj1 Hok) _ _ _ Hm) as [Hs _]. unfold cview in Hs. rewrite Hf in Hs. by destruct Hs.
      * case_decide; [|done]. subst k. unfold cview in Hv. by rewrite Hf in Hv.
Qed.

(** A thread that starts to use the pool gets a cache no other thread has, an orphan one
    whenever there is any; the pool stays consistent, and so does the memory that is held,
    also the memory held from the adopted cache. *)
Theorem thread_start_ok s g fresh tid :
  pool_ok s g → orphans_ok s → tls_caches_ s !! fresh = None → tid ≠ 0 →
  (∀ k, thread_of s k ≠ Some tid) →
  wp (GetOrNewTlsCache fresh tid) (λ k s',
    pool_ok s' g ∧ orphans_ok s' ∧ thread_of s' k = Some tid ∧ k ∉ orphans s' ∧
    (∀ k', k' ≠ k → thread_of s' k' = thread_of s k') ∧
    (∀ q, outstanding s' g q ↔ outstanding s g q) ∧
    k = match last (orphans s) with Some o => o | None => fresh end) s.
Proof. apply start_ok. Qed.

(** ** The end of a thread *)

Lemma reset_loop_ok k ixs : ∀ s g,
  inv None s g → is_Some (cview s k) → (∀ i, i ∈ ixs → (i < kBlockNum)%nat ∧ gL g (Av k i) = []) →
  wp (reset_loop k ixs) (λ _ s', ∃ g', inv None s' g' ∧ recycled_all k ixs s g s' g') s.
Proof.
  induction ixs as [|i ixs IH]; intros s g Hinv Hk Hi.
  - exists g. split; [done|]. split; try done; [set_solver].
  - destruct (Hi i) as [Hib HiA]; [by left|]. destruct (bc_lookup _ _ _ k i Hinv Hk Hib) as [bc Eb].
    destruct (heads _ _ _ _ _ _ Hinv Eb) as (_ & Ha & _). rewrite HiA in Ha. cbn in Ha.
    cbn [reset_loop]. wp_steps. apply (wp_get_bc _ _ _ bc); [done|]. wp_steps.
    apply (give_round _ k i _ _ _ _ Hinv Eb). intros s1 Hg Eb1. wp_steps.
    apply wp_mod_bc_some; [done|]. wp_steps. apply wp_mod_bc_some; [pool_simpl; by rewrite Eb1|]. wp_steps.
    apply wp_mod_bc_some; [pool_simpl; by rewrite Eb1|]. wp_steps.
    match goal with |- wp _ _ ?st => destruct (give_done None k i s s1 st g bc) as [Hi' Hq'] end; try done.
    { solve_local. }
    { cbn [root]. pool_simpl. by rewrite Eb1. }
    { cbn [root]. pool_simpl. by rewrite Eb1, Ha. }
    assert (∀ l, l ∉ exch k i → gL (give_ghost k i g) l = gL g l) as Hgl by apply give_other.
    eapply wp_mono; [apply (IH _ _ Hi')|].
    + by rewrite (q_view _ _ _ _ Hq').
    + intros j Hj. rewrite Hgl by (unfold exch; clear; set_solver). apply Hi. by right.
    + intros _ s' (g' & Hinv' & []). exists g'. split; [done|]. split.
      * by eapply quiet_trans.
      * done.
      * intros l Hl1 Hl2. rewrite ra_L by set_solver. apply Hgl. unfold exch. set_solver.
      * intros j [->|Hj]%elem_of_cons; [|by apply ra_none].
        destruct (decide (i ∈ ixs)); [by apply ra_none|]. rewrite ra_L; [|done|intros; congruence].
        cbn. rewrite lset_ne, lset_eq by done. done.
      * intros k'. rewrite ra_tview. pool_simpl. destruct Hg as [[_ [_ _ _ []]]|[-> _]]; [|done]. by rewrite sc_tview.
Qed.

(** A cache without chunks can be removed. *)
Lemma remove_cache_ok s g k f :
  inv None s g → (∀ k', k' ≠ k → ∀ a b, tview s k' = Some (a, b) →
    a = Z.of_nat (count_all g k') ∧ b = Z.of_nat (count_rec g k')) →
  (∀ i, gL g (Rec k i) = [] ∧ gL g (Av k i) = [] ∧ gL g (Full k i) = []) →
  pool_ok ((upd_tc k f s) <| tls_caches_ ::= delete k |>) g.
Proof.
  intros Hinv Hcnt Hn. set (s' := (upd_tc k f s) <| tls_caches_ ::= delete k |>).
  assert (∀ k', tls_caches_ s' !! k' = if decide (k = k') then None else tls_caches_ s !! k') as Hc.
  { intros k'. unfold s', upd_tc. cbn. rewrite lookup_delete. case_decide; [done|]. by rewrite lookup_alter_ne. }
  assert (∀ k', cview s' k' = if decide (k = k') then None else cview s k') as Hv.
  { intros k'. unfold cview. rewrite Hc. by case_decide. }
  pose proof Hinv as [[Hl1 Hl2 Hl3] ? ? ? Hw Hck ? ? ? Htk Htid ? ?]. split.
  - split; try done.
    + split; [done..|]. intros l Hl. specialize (Hl3 l Hl).
      destruct l as [|k' i|k' i|k' i]; cbn [root] in *; try done; unfold bc_of in *; rewrite Hc;
        case_decide; try done; subst k'; destruct (Hn i) as (E1 & E2 & _); rewrite ?E1, ?E2; by apply dll_nil.
    + intros k' n ts tid. rewrite Hv. case_decide; [done|eauto].
    + intros c k' i Hm. rewrite Hv. case_decide as E; [|eauto]. subst k'. exfalso.
      destruct (Hn i) as (E1 & E2 & E3). unfold member in Hm. rewrite E1, E2, E3 in Hm. set_solver.
    + intros k' n ts tid. rewrite Hv. case_decide; [done|eauto].
    + intros k1 k2 n1 n2 ts1 ts2 tid. rewrite !Hv. repeat case_decide; try done. eauto.
  - apply counters_view. intros k' a b. unfold tview. rewrite Hc. case_decide; [done|]. by apply Hcnt.
Qed.

Lemma rest_empty exc s g k :
  inv exc s g → count_rest g k = 0%nat → ∀ i, gL g (Av k i) = [] ∧ gL g (Full k i) = [].
Proof.
  intros Hinv Hz i. destruct (decide (i < kBlockNum)%nat) as [Hi|Hi].
  - assert (i ∈ seq 0 kBlockNum) as Hin by (apply elem_of_seq; lia).
    pose proof (sum_list_with_in i (λ i, length (gL g (Av k i)) + length (gL g (Full k i)))%nat _ Hin) as Hle.
    unfold count_rest in Hz. rewrite Hz in Hle. split; apply length_zero_iff_nil; lia.
  - assert (∀ c, ¬ member g c k i) as Hn by (intros c Hm; by destruct (i_where _ _ _ Hinv _ _ _ Hm)).
    unfold member in Hn. split; apply elem_of_nil_inv; intros c Hc; apply (Hn c); auto.
Qed.

Lemma destroy_ok s g k :
  pool_ok s g → is_Some (cview s k) → tasks s k = [] →
  (∀ a b, tview s k = Some (a, b) → a = b) →
  wp (destroy_TLSCache k) (λ _ s', ∃ g', pool_ok s' g' ∧ same_chunks g g' ∧ orphans s' = orphans s ∧
    (∀ k', thread_of s' k' = if decide (k = k') then None else thread_of s k') ∧
    ∀ q, outstanding s' g' q ↔ outstanding s g q) s.
Proof.
  intros Hok Hk Ht Hab. pose proof Hok as [Hinv Hcnt]. rewrite counters_view in Hcnt.
  destruct (tview_some s k Hk) as [[a b] Hv]. pose proof (Hab _ _ Hv) as <-. destruct (Hcnt _ _ _ Hv) as [E1 E2].
  assert (count_rest g k = 0%nat) as Hz by (rewrite count_split in E1; lia).
  pose proof (rest_empty _ _ _ _ Hinv Hz) as Hrest.
  unfold destroy_TLSCache, TLSCache_Reset, DeferredDeallocate. pose proof Hk as [v (tc & Etc & Hx)%fmap_Some].
  assert (thread_deallocate_tasks tc = []) as Htc.
  { unfold tasks, cview in Ht. by rewrite Etc in Ht. }
  wp_steps. apply (wp_get_cache _ _ tc); [done|]. rewrite Htc. cbn [length deferred_loop]. wp_steps.
  apply (wp_get_cache _ _ tc); [done|]. rewrite Htc. wp_steps.
  eapply wp_mono; [apply (wp_keeps orphans); [by eauto with keeps|apply (reset_loop_ok k (seq 0 kBlockNum) s g Hinv Hk)]|].
  { intros i Hi%elem_of_seq. split; [lia|apply Hrest]. }
  intros _ s1 [(g1 & Hinv1 & Hra) Horp]. pose proof Hra as []. wp_steps.
  apply wp_mod_cache_some; [by rewrite (q_view _ _ _ _ ra_quiet)|]. wp_steps.
  assert (∀ i, gL g1 (Rec k i) = [] ∧ gL g1 (Av k i) = [] ∧ gL g1 (Full k i) = []) as Hn.
  { intros i. rewrite (ra_L (Av k i)), (ra_L (Full k i)) by done. split; [|apply Hrest].
    destruct (decide (i < kBlockNum)%nat) as [Hi|Hi]; [apply ra_none, elem_of_seq; lia|].
    apply elem_of_nil_inv. intros c Hc. by destruct (i_where _ _ _ Hinv1 c k i); [by left|]. }
  assert (∀ p, ¬ busy_block g1 k p) as Hnb.
  { intros p (c & i & Hm & _). destruct (Hn i) as (F1 & F2 & F3). unfold member in Hm. rewrite F1, F2, F3 in Hm. set_solver. }
  match goal with |- context [upd_tc k ?f s1] => pose proof (remove_cache_ok s1 g1 k f Hinv1) as Hrm end.
  assert (∀ k' f, cview ((upd_tc k f s1) <| tls_caches_ ::= delete k |>) k' = if decide (k = k') then None else cview s k') as Hcv.
  { intros k' f. unfold cview, upd_tc. cbn. rewrite lookup_delete. case_decide; [done|]. rewrite lookup_alter_ne by done.
    apply (q_view _ _ _ _ ra_quiet). }
  exists g1. split_and!.
  - apply Hrm; [|done]. intros k' Hne x y. rewrite ra_tview. intros Hxy. destruct (Hcnt _ _ _ Hxy) as [-> ->].
    rewrite !count_split, (count_rest_eq g g1), (count_rec_eq g g1); try done; intros; apply ra_L; congruence.
  - apply (q_same _ _ _ _ ra_quiet).
  - done.
  - intros k'. unfold thread_of. rewrite Hcv. by case_decide.
  - intros q. rewrite <- (quiet_outstanding _ _ _ _ q ra_quiet). unfold outstanding. setoid_rewrite Hcv.
    split; intros (k' & n & ts & t & Hvk & Hb & Hq); exists k', n, ts, t; split_and!; try done.
    + case_decide; [done|]. by rewrite (q_view _ _ _ _ ra_quiet).
    + case_decide as E; [subst k'; by apply Hnb in Hb|]. by rewrite <- (q_view _ _ _ _ ra_quiet).
Qed.

(** A cache has a block in use exactly when not all its chunks are recyclable. *)
Lemma rest_busy s g k : inv None s g → count_rest g k ≠ 0%nat → ∃ q, busy_block g k q.
Proof.
  intros Hinv Hz.
  assert (∃ i c, c ∈ gL g (Av k i) ∨ c ∈ gL g (Full k i)) as (i & c & Hc).
  { unfold count_rest in Hz. induction (seq 0 kBlockNum) as [|i l IH]; [done|]. cbn in Hz.
    destruct (gL g (Av k i)) as [|c t] eqn:EA; [|exists i, c; left; rewrite EA; by left].
    destruct (gL g (Full k i)) as [|c t] eqn:EF; [by apply IH|exists i, c; right; rewrite EF; by left]. }
  assert (member g c k i) as Hm by (destruct Hc; [right; by left|right; by right]).
  destruct (i_where _ _ _ Hinv _ _ _ Hm) as [_ Hi]. destruct (layout_facts i Hi) as (H3 & _).
  assert (length (gF g c) < nblk i)%nat as Hlt.
  { destruct Hc as [Hc|Hc]; [by destruct (i_av _ _ _ Hinv _ _ _ Hc) as [_ [?|?]]|].
    rewrite (i_full _ _ _ Hinv _ _ _ Hc). cbn. lia. }
  destruct (decide (Forall (λ b, b ∈ gF g c) (blocks c i))) as [Hall|Hsome].
  - exfalso. assert (blocks c i ⊆+ gF g c) as Hsub%submseteq_length.
    { apply NoDup_submseteq; [apply blocks_nodup|]. by apply Forall_forall. }
    unfold blocks in Hsub. rewrite length_fmap, length_seq in Hsub. lia.
  - apply not_Forall_Exists in Hsome; [|apply _]. apply Exists_exists in Hsome as (b & Hb & Hf).
    exists (b + sizeof_BlockHeader), c, i. by replace (b + sizeof_BlockHeader - sizeof_BlockHeader) with b by lia.
Qed.
Lemma no_rest_free exc s g k q : inv exc s g → count_rest g k = 0%nat → ¬ busy_block g k q.
Proof.
  intros Hinv Hz (c & i & Hm & Hb & Hf). destruct (rest_empty _ _ _ _ Hinv Hz i) as [E1 E2].
  unfold member in Hm. rewrite E1, E2 in Hm. destruct Hm as [Hm|[?|?]]; [|set_solver..].
  apply Hf. by eapply rec_all_free.
Qed.

Lemma exit_ok s g k :
  pool_ok s g → orphans_ok s → is_Some (cview s k) → k ∉ orphans s →
  wp (thread_exit k) (λ _ s', ∃ g', pool_ok s' g' ∧ orphans_ok s' ∧ same_chunks g g' ∧
    (∀ q, outstanding s' g' q ↔ outstanding s g q) ∧
    (∀ k', k' ≠ k → thread_of s' k' = thread_of s k') ∧
    ((thread_of s' k = None ∧ orphans s' = orphans s ∧ ∀ q, ¬ (busy_block g k q ∧ q ∉ tasks s k)) ∨
     (thread_of s' k = Some 0 ∧ orphans s' = orphans s ++ [k] ∧ ∃ q, busy_block g k q ∧ q ∉ tasks s k))) s.
Proof.
  intros Hok Horp Hk Hko. unfold thread_exit, DetachThread, Recyclable. wp_steps.
  eapply wp_mono; [apply (wp_keeps orphans); [by eauto with keeps|by apply (DeferredDeallocate_ok k s g)]|].
  intros _ s1 [(g1 & Hdr) Ho1]. pose proof (drained_kept _ _ _ _ _ Hok Hdr) as Hkp. pose proof Hdr as [Hok1 V1 S1 _ B1].
  pose proof (kept_view _ _ _ _ _ Hkp Hk) as Hk1. wp_steps. apply wp_mod_cache_some; [done|]. wp_steps.
  set (s2 := upd_tc k _ s1). assert (pool_ok s2 g1) as Hok2 by (by apply rethread_ok).
  assert (∀ k', thread_of s2 k' = if decide (k = k') then Some 0 else thread_of s k') as Hth.
  { intros k'. rewrite <- (kp_thread _ _ _ _ Hkp). unfold thread_of, s2. rewrite cview_rethread.
    case_decide; [|by rewrite option_fmap_id]. subst k'. by destruct Hk1 as [[[]] ->]. }
  assert (∀ q, outstanding s2 g1 q ↔ outstanding s g q) as Hq.
  { intros q. unfold s2. rewrite rethread_outstanding. apply (kp_out _ _ _ _ Hkp). }
  assert (tasks s2 k = []) as Ht.
  { unfold tasks, s2. rewrite cview_rethread, V1, !decide_True by done. by destruct Hk as [[[]] ->]. }
  assert (is_Some (cview s2 k)) as Hk2 by (unfold s2; rewrite cview_rethread; by rewrite fmap_is_Some).
  assert (orphans s2 = orphans s) as Ho2 by done. clearbody s2.
  pose proof Hk2 as [v (tc & Etc & _)%fmap_Some]. apply (wp_get_cache _ _ tc); [done|]. wp_steps.
  destruct (proj2 Hok2 _ _ Etc) as [Ea Eb]. destruct (Z.eqb_spec (tls_total_chunk_num tc) (tls_recyclable_chunk_num tc)) as [E|E].
  - eapply wp_mono; [apply (destroy_ok s2 g1 k Hok2 Hk2 Ht)|].
    { unfold tview. rewrite Etc. by intros a b [= <- <-]. }
    intros _ s3 (g3 & Hok3 & S3 & Ho3 & T3 & Q3). rewrite Ho2 in Ho3. destruct Horp as [Hnd Hor]. exists g3. split_and!; [done|split|..].
    + by rewrite Ho3.
    + intros k' Hk'. rewrite Ho3 in Hk'. rewrite T3, Hth. repeat case_decide; [by subst..|]. by apply Hor.
    + intros c. by rewrite (S1 c), (S3 c).
    + intros q. by rewrite Q3, Hq.
    + intros k' Hne. rewrite T3, Hth. by rewrite !decide_False by done.
    + left. rewrite T3, decide_True by done. split_and!; [done..|]. intros q Hb%B1.
      by eapply (no_rest_free _ _ g1 k q (proj1 Hok2)); [rewrite count_split in Ea; lia|].
  - wp_steps. exists g1. destruct Horp as [Hnd Hor]. split_and!.
    + destruct Hok2 as [[] ?]. by split; [split|].
    + split; cbn; rewrite Ho2.
      * apply NoDup_app. split_and!; [done|set_solver|apply NoDup_singleton].
      * intros k' Hk'. change (thread_of s2 k' = Some 0). rewrite Hth. case_decide; [done|]. apply Hor. set_solver.
    + done.
    + intros q. apply Hq.
    + intros k' Hne. change (thread_of s2 k' = thread_of s k'). by rewrite Hth, decide_False by done.
    + right. split_and!; [change (thread_of s2 k = Some 0); by rewrite Hth, decide_True|cbn; by rewrite Ho2|].
      destruct (rest_busy s2 g1 k (proj1 Hok2)) as [q Hb]; [rewrite count_split in Ea; lia|]. exists q. by apply B1.
Qed.

(** C5: when a thread ends, its queue is emptied and the memory others still hold stays theirs.
    The cache is destroyed exactly when no block of it is in use, and all its chunks are
    back in the pool then; otherwise it becomes an orphan that a later thread adopts. *)
Theorem thread_exit_ok s g k :
  pool_ok s g → orphans_ok s → is_Some (cview s k) → k ∉ orphans s →
  wp (thread_exit k) (λ _ s', ∃ g', pool_ok s' g' ∧ orphans_ok s' ∧ same_chunks g g' ∧
    (∀ q, outstanding s' g' q ↔ outstanding s g q) ∧
    (∀ k', k' ≠ k → thread_of s' k' = thread_of s k') ∧
    ((thread_of s' k = None ∧ orphans s' = orphans s ∧ ∀ q, ¬ (busy_block g k q ∧ q ∉ tasks s k)) ∨
     (thread_of s' k = Some 0 ∧ orphans s' = orphans s ++ [k] ∧ ∃ q, busy_block g k q ∧ q ∉ tasks s k))) s.
Proof. apply exit_ok. Qed.

(** ** The pool as an allocator

    The abstract allocator is the set of the pointers that are out. A client starts
    threads, allocates, frees what is out, and ends threads. *)

Definition attached (s : pool) (k : nat) : Prop := ∃ tid, tid ≠ 0 ∧ thread_of s k = Some tid.

Inductive pool_step : pool * gset Z → pool * gset Z → Prop :=
| step_start s h fresh tid k s' :
    tls_caches_ s !! fresh = None → tid ≠ 0 → (∀ k, thread_of s k ≠ Some tid) →
    GetOrNewTlsCache fresh tid s = Ok (k, s') → pool_step (s, h) (s', h)
| step_allocate s h k size p s' :
    attached s k → 0 <= size → Allocate k size s = Ok (p, s') →
    pool_step (s, h) (s', if p =? 0 then h else {[p]} ∪ h)
| step_deallocate s h k p s' :
    attached s k → p ∈ h → Deallocate k p s = Ok ((), s') → pool_step (s, h) (s', h ∖ {[p]})
| step_exit s h k s' :
    attached s k → thread_exit k s = Ok ((), s') → pool_step (s, h) (s', h).

(** A reachable state and the picture behind it. *)
Definition pool_inv (g0 : ghost) (x : pool * gset Z) : Prop :=
  ∃ g, pool_ok x.1 g ∧ orphans_ok x.1 ∧ same_chunks g0 g ∧ ∀ p, outstanding x.1 g p ↔ p ∈ x.2.

Lemma attached_view s k : attached s k → is_Some (cview s k) ∧ tid_of s k ≠ 0.
Proof.
  intros (tid & Ht & Hk). unfold thread_of in Hk. apply fmap_Some in Hk as (v & Hv & ->).
  unfold tid_of. rewrite Hv. split; [by eexists|done].
Qed.
Lemma attached_not_orphan s k : orphans_ok s → attached s k → k ∉ orphans s.
Proof. intros [_ Ho] (tid & Ht & Hk) Hin. rewrite (Ho k Hin) in Hk. by simplify_eq. Qed.
Lemma same_trans g1 g2 g3 : same_chunks g1 g2 → same_chunks g2 g3 → same_chunks g1 g3.
Proof. intros H1 H2 c. by rewrite (H1 c), (H2 c). Qed.
(** The threads of a pool are the same after allocation and deallocation. *)
Definition threads (s : pool) : gmap nat Z := thread_id <$> tls_caches_ s.
Lemma thread_of_threads s k : thread_of s k = threads s !! k.
Proof. unfold thread_of, threads, cview. rewrite lookup_fmap. by destruct (tls_caches_ s !! k). Qed.

Lemma orphans_ok_same s s' : orphans s' = orphans s → (∀ k, thread_of s' k = thread_of s k) → orphans_ok s → orphans_ok s'.
Proof. intros Ho Ht [H1 H2]. split; [by rewrite Ho|]. intros k Hk. rewrite Ht. apply H2. by rewrite <- Ho. Qed.

Lemma pool_step_inv g0 x y : pool_step x y → pool_inv g0 x → pool_inv g0 y.
Proof.
  intros Hst (g & Hok & Ho & Hs & Hout). destruct Hst as [s h fresh tid k s' Hf Ht Hn E|s h k size p s' Ha Hsz E|s h k p s' Ha Hp E|s h k s' Ha E];
    cbn [fst snd] in *.
  - pose proof (wp_run _ _ _ _ _ E (start_ok s g fresh tid Hok Ho Hf Ht Hn)) as Hx. destruct Hx as (? & ? & _ & _ & _ & Hq & _).
    exists g. split_and!; try done. intros q. by rewrite Hq.
  - destruct (attached_view _ _ Ha) as [Hv _].
    pose proof (wp_keeps orphans _ _ _ (keeps_Allocate k size) (Allocate_ok s g k size Hok Hv Hsz)) as Hx.
    apply (wp_run _ _ _ _ _ E) in Hx as [(g' & Hok' & Hs' & Ht' & Hr) Ho'].
    exists g'. split_and!; [done|by eapply orphans_ok_same|by eapply same_trans|]. intros q. cbn.
    destruct Hr as [(-> & Hq & _)|(Hr & _ & Hq & _)].
    + cbn. by rewrite Hq.
    + rewrite Hq, Hout. rewrite (proj2 (Z.eqb_neq _ _) Hr). set_solver.
  - destruct (attached_view _ _ Ha) as [Hv Htid].
    pose proof (wp_keeps orphans _ _ _ (keeps_Deallocate k p) (Deallocate_ok s g k p Hok Hv Htid (proj2 (Hout p) Hp))) as Hx.
    apply (wp_run _ _ _ _ _ E) in Hx as [(g' & Hok' & Hs' & Ht' & Hr & _) Ho'].
    exists g'. split_and!; [done|by eapply orphans_ok_same|by eapply same_trans|]. intros q. cbn.
    rewrite Hr, Hout. set_solver.
  - destruct (attached_view _ _ Ha) as [Hv _].
    pose proof (exit_ok s g k Hok Ho Hv (attached_not_orphan _ _ Ho Ha)) as Hx.
    apply (wp_run _ _ _ _ _ E) in Hx as (g' & Hok' & Ho' & Hs' & Hq & _).
    exists g'. split_and!; [done|done|by eapply same_trans|]. intros q. by rewrite Hq, Hout.
Qed.

(** C3: the pool refines the abstract allocator. From a consistent pool with nothing out, in
    every state a client reaches by starting threads, allocating, freeing what is out and
    ending threads in any order, the invariant holds for the chunks the pool began with; the
    blocks that are out of the pool are exactly those of the abstract allocator, so that
    nothing leaks, and are pairwise disjoint; and no operation faults:
    allocation by a running thread returns null or a pointer that was not out, freeing a
    pointer that is out succeeds from every running thread, and every thread can end. *)
Theorem pool_refines_allocator s0 g0 s h :
  pool_ok s0 g0 → orphans_ok s0 → (∀ p, ¬ outstanding s0 g0 p) →
  rtc pool_step (s0, ∅) (s, h) →
  (∃ g, pool_ok s g ∧ same_chunks g0 g ∧
     (∀ p, outstanding s g p ↔ p ∈ h) ∧ (∀ p, p ∈ h → ∃ n, extent g p n) ∧
     (∀ p q n m, p ∈ h → q ∈ h → p ≠ q → extent g p n → extent g q m → p + n <= q ∨ q + m <= p)) ∧
  (∀ k size, attached s k → 0 <= size →
     ∃ p s', Allocate k size s = Ok (p, s') ∧ (p ≠ 0 → p ∉ h)) ∧
  (∀ k p, attached s k → p ∈ h → ∃ s', Deallocate k p s = Ok ((), s')) ∧
  (∀ k, attached s k → ∃ s', thread_exit k s = Ok ((), s')).
Proof.
  intros Hok0 Ho0 Hn0 Hrun.
  assert (pool_inv g0 (s, h)) as (g & Hok & Ho & Hs & Hout).
  { assert (pool_inv g0 (s0, ∅)) as Hi by (exists g0; split_and!; [done|done|by intros c|set_solver]).
    remember (s0, ∅ : gset Z) as x0. clear Heqx0 Hok0 Ho0 Hn0. remember (s, h) as x.
    clear Heqx. induction Hrun; [done|]. eauto using pool_step_inv. }
  cbn [fst snd] in *. split_and!.
  - exists g. split_and!; [done..|exact Hout| |].
    + intros p Hp%Hout. apply (outstanding_iff _ _ _ _ (proj1 Hok)) in Hp as (k & (c & i & Hm & Hb & _) & _).
      exists (bsz i), c, k, i. done.
    + intros p q n m _ _ Hne Hp Hq. destruct (extents_apart _ _ _ _ _ _ _ (proj1 Hok) Hp Hq Hne);
        [left|right]; unfold sizeof_BlockHeader in *; lia.
  - intros k size Ha Hsz. destruct (attached_view _ _ Ha) as [Hv _].
    pose proof (Allocate_ok s g k size Hok Hv Hsz) as Hx. apply wp_ok in Hx as (p & s' & E & g' & _ & _ & _ & Hr).
    exists p, s'. split; [done|]. intros Hp0. destruct Hr as [(-> & _)|(_ & Hno & _)]; [done|]. by rewrite <- Hout.
  - intros k p Ha Hp. destruct (attached_view _ _ Ha) as [Hv Ht].
    pose proof (Deallocate_ok s g k p Hok Hv Ht (proj2 (Hout p) Hp)) as Hx. apply wp_ok in Hx as ([] & s' & E & _). eauto.
  - intros k Ha. destruct (attached_view _ _ Ha) as [Hv _].
    pose proof (exit_ok s g k Hok Ho Hv (attached_not_orphan _ _ Ho Ha)) as Hx. apply wp_ok in Hx as ([] & s' & E & _). eauto.
Qed.
