(* ===== verification/ChunkPoolInit.v ===== *)
(** * Setting the chunk pool up (src/src/common/chunk_pool.{h,cc},
    src/src/common/memory_pool_helper.cc, src/include/vesal/memory_pool.h)

    [Init] checks the options and [Preallocate] maps hugepages, tells the address manager
    about every page and cuts the regions into chunks. The operating system's [mmap] and
    [set_mempolicy] are the parameter [OsMem], indexed by the number of the call: an
    anonymous mapping is zero-filled, and no two live mappings overlap. [mapped] are the live
    mappings; a write outside them faults. Metrics are left out. *)

From Stdlib Require Import ZArith Lia.
From stdpp Require Import prelude gmap.
From S2P Require Import Prelude LinkedList AddressManager ChunkPool ChunkPoolInv ChunkPoolSteps.
From S2P Require Import ChunkPoolCentral ChunkPoolProps ChunkPoolThreads.
Open Scope Z_scope.

(** ** Options *)

Inductive HugePageSize := k2MB | k1GB | k512MB | kHpUnknown.
#[export] Instance HugePageSize_eq_dec : EqDecision HugePageSize.
Proof. solve_decision. Defined.

Definition GetHugePageSize (size : HugePageSize) : Z :=
  match size with
  | k2MB => 2 * 1024 * 1024
  | k1GB => 1024 * 1024 * 1024
  | k512MB => 512 * 1024 * 1024
  | kHpUnknown => 0
  end.
Definition ToHugePageSize (sz : Z) : HugePageSize :=
  if sz =? 2 * 1024 * 1024 then k2MB
  else if sz =? 1024 * 1024 * 1024 then k1GB
  else if sz =? 512 * 1024 * 1024 then k512MB
  else kHpUnknown.
Definition HugePageSizeToAlignType (hp : HugePageSize) : AlignType :=
  match hp with
  | k2MB => kPage2Mb | k1GB => kPage1Gb | k512MB => kPage512Mb | kHpUnknown => kAlignUnknown
  end.

Definition kMaxNodeNum : nat := 32.
(** [prealloc_numa_mb] has [kMaxNodeNum] entries. *)
Record MemoryPoolInitOption := MkInitOption {
  init_mem_pool : bool; prealloc_page_size : HugePageSize; prealloc_size_mb : Z;
  opt_recycle_threshold_mb : Z; opt_recycle_chunk_num : Z; opt_fetch_chunk_num : Z;
  prealloc_numa_mb : list Z }.
Definition default_init_option : MemoryPoolInitOption :=
  MkInitOption true k2MB 4096 256 16 8 (replicate kMaxNodeNum 0).

(** [std::accumulate(..., 0)] adds in an [int]. *)
Definition ValidateInitOption (opt : MemoryPoolInitOption) : bool :=
  if negb (init_mem_pool opt) then true
  else if bool_decide (prealloc_page_size opt = kHpUnknown) then false
  else
    let sum := u64 (foldl (λ acc x, s32 (acc + x)) 0 (prealloc_numa_mb opt)) in
    negb (negb (sum =? 0) && negb (sum =? prealloc_size_mb opt)).

(** ** The operating system *)

Record OsMem := MkOsMem {
  os_pages : OsPages;
  mmap : nat → Z → option Z;
  set_mempolicy_ok : nat → bool }.

Record boot := MkBoot {
  b_pool : pool; regions_ : list MemoryInfo; addr_manager_ : am;
  b_opt : MemoryPoolInitOption; os_calls : nat; mapped : list (Z * Z) }.
#[export] Instance eta_boot : Eta boot := λ r,
  MkBoot (b_pool r) (regions_ r) (addr_manager_ r) (b_opt r) (os_calls r) (mapped r).

Definition GetPageFlagBySize (page_size : Z) : ST boot Z :=
  check ((page_size =? VESAL_PAGESIZE PAGE_BIT_NUM_2MB)
         || (page_size =? VESAL_PAGESIZE PAGE_BIT_NUM_1GB)
         || (page_size =? VESAL_PAGESIZE PAGE_BIT_NUM_512MB));;
  mret (if page_size =? VESAL_PAGESIZE PAGE_BIT_NUM_2MB then Z.shiftl 21 26
        else if page_size =? VESAL_PAGESIZE PAGE_BIT_NUM_1GB then Z.shiftl 30 26
        else Z.shiftl 29 26).

(** The start of the mapping, or null. *)
Definition AllocHugepageFn (os : OsMem) (page_size page_num node : Z) : ST boot Z :=
  GetPageFlagBySize page_size;;
  s ← get;
  let n := os_calls s in
  modify (λ s, s <| os_calls ::= S |>);;
  if (0 <=? node) && negb (set_mempolicy_ok os n) then mret 0
  else
    let size := u64 (page_size * page_num) in
    match mmap os n size with
    | None => mret 0
    | Some addr => modify (λ s, s <| mapped ::= cons (addr, size) |>);; mret addr
    end.

(** [munmap]: the mapping and the headers in it are gone. *)
Definition DeallocHugepageFn (vaddr size : Z) : ST boot unit :=
  check (size mod VESAL_PAGESIZE PAGE_BIT_NUM_2MB =? 0);;
  modify (λ s, s <| mapped ::= filter (λ m, m ≠ (vaddr, size)) |>
                 <| b_pool ::= λ p, p <| chunkh ::= filter (λ '(c, _), ¬ (vaddr <= c < vaddr + size)) |>
                                      <| blockh ::= filter (λ '(c, _), ¬ (vaddr <= c < vaddr + size)) |> |>).

Definition AllocHugepages (os : OsMem) (page_num : Z) (hp_sz : HugePageSize) (node : Z)
    : ST boot (list Z) :=
  start ← AllocHugepageFn os (GetHugePageSize hp_sz) page_num node;
  if start =? 0 then mret []
  else mret ((λ i, start + Z.of_nat i * GetHugePageSize hp_sz) <$> seq 0 (Z.to_nat page_num)).

(** Running an operation of the address manager. *)
Definition with_am {A} (m : ST am A) : ST boot A := λ s,
  match m (addr_manager_ s) with
  | Ok (a, am') => Ok (a, s <| addr_manager_ := am' |>)
  | Err e => Err e
  end.

(** ** [Preallocate] *)

Definition kChunkFetchOptions (hp : HugePageSize) : option Z :=
  match hp with k1GB => Some 1 | k2MB => Some 512 | k512MB => Some 1 | kHpUnknown => None end.

Definition mb_to_pages (mb page_size : Z) : Z := u64 (u64 (mb * 1024 * 1024) + page_size - 1) `div` page_size.

(** The pages wanted on each node that has a share, by node number: the map's elements in
    order. *)
Definition numa_pages (opt : MemoryPoolInitOption) (page_size : Z) : list (Z * Z) :=
  (λ '(i, mb), (Z.of_nat i, mb_to_pages mb page_size)) <$>
    filter (λ '(i, mb), 0 < mb) (imap (λ i mb, (i, mb)) (prealloc_numa_mb opt)).

Fixpoint dealloc_all (rs : list MemoryInfo) : ST boot unit :=
  match rs with
  | [] => mret ()
  | r :: rs => DeallocHugepageFn (virtual_addr r) (len r);; dealloc_all rs
  end.

Fixpoint add_entries (align : AlignType) (addrs phys : list Z) : ST boot unit :=
  match addrs, phys with
  | a :: addrs, p :: phys =>
      with_am (AddInternalEntry (MkPhysChunk a p align));; add_entries align addrs phys
  | _, _ => mret ()
  end.

(** The node served next and what it still wants after [page_num] pages. *)
Definition numa_take (numa : list (Z * Z)) (page_num : Z) : list (Z * Z) :=
  match numa with
  | [] => []
  | (id, want) :: numa => if want - page_num =? 0 then numa else (id, want - page_num) :: numa
  end.

(** One round: [None] when it failed and [Preallocate] returns false. *)
Definition prealloc_round (os : OsMem) (hp : HugePageSize) (left_page_num : Z) (numa : list (Z * Z))
    : ST boot (option (Z * list (Z * Z))) :=
  let page_size := GetHugePageSize hp in
  fetch ← need Uncaught (kChunkFetchOptions hp);
  let page_num := Z.min left_page_num fetch in
  let numa_id := match numa with [] => -1 | (id, _) :: _ => id end in
  let page_num := match numa with (id, want) :: _ => if 0 <=? id then Z.min page_num want else page_num | [] => page_num end in
  addrs ← AllocHugepages os page_num hp numa_id;
  match addrs with
  | [] => mret None
  | front :: _ =>
      pfns ← lift (GetPageFrameNumberOrZero (os_pages os) addrs);
      phys ← lift (CalcPhysAddrs (os_pages os) addrs pfns);
      if existsb (Z.eqb 0) phys then
        DeallocHugepageFn front (page_size * page_num);;
        s ← get;
        dealloc_all (regions_ s);;
        mret None
      else
        add_entries (HugePageSizeToAlignType hp) addrs phys;;
        modify (λ s, s <| regions_ ::= λ rs, rs ++ [MkMemoryInfo front 0 (page_size * page_num) page_size] |>);;
        mret (Some (left_page_num - page_num, numa_take numa page_num))
  end.

Fixpoint prealloc_loop (fuel : nat) (os : OsMem) (hp : HugePageSize) (left_page_num : Z) (numa : list (Z * Z))
    : ST boot (option (Z * list (Z * Z))) :=
  match fuel with
  | O => raise OutOfFuel
  | S fuel =>
      if left_page_num =? 0 then mret (Some (left_page_num, numa))
      else
        r ← prealloc_round os hp left_page_num numa;
        match r with
        | None => mret None
        | Some (left_page_num, numa) => prealloc_loop fuel os hp left_page_num numa
        end
  end.

(** A header in fresh memory. *)
Definition zero_header : ChunkHeader := MkChunkHeader 0 0 0 None 0 0.

Definition is_mapped (s : boot) (a : Z) : bool := existsb (λ '(m, n), (m <=? a) && (a <? m + n)) (mapped s).

(** Put the chunk at [c] in front of the central list. *)
Definition link_chunk (c : Z) (s : pool) : pool :=
  let h := partial_alter (λ n, Some ((default zero_header n) <| c_next := chunks_ s |>)) c (chunkh s) in
  let h := if chunks_ s =? 0 then h else alter (λ n, n <| c_prev := c |>) (chunks_ s) h in
  s <| chunkh := h |> <| chunks_ := c |>.

Fixpoint link_chunks (cs : list Z) : ST boot unit :=
  match cs with
  | [] => mret ()
  | c :: cs =>
      s ← get;
      if is_mapped s c then modify (λ s, s <| b_pool ::= link_chunk c |>);; link_chunks cs
      else raise NullDeref
  end.

Definition region_chunks (r : MemoryInfo) : list Z :=
  (λ i, virtual_addr r + Z.of_nat i * kChunkSize) <$> seq 0 (Z.to_nat (len r `div` kChunkSize)).

Fixpoint split_regions (rs : list MemoryInfo) : ST boot unit :=
  match rs with
  | [] => mret ()
  | r :: rs =>
      modify (λ s, s <| b_pool ::= λ p, p <| chunk_num_ ::= Z.add (len r `div` kChunkSize) |> |>);;
      link_chunks (region_chunks r);;
      split_regions rs
  end.

Definition Preallocate (os : OsMem) : ST boot bool :=
  s ← get;
  if initialized_ (b_pool s) then mret true
  else
    let opt := b_opt s in
    let hp := prealloc_page_size opt in
    let page_size := GetHugePageSize hp in
    modify (λ s, s <| addr_manager_ ::= λ a, a <| memory_info_by_vaddr_ := ∅ |> |>);;
    if page_size =? 0 then raise DivByZero
    else
      let numa := numa_pages opt page_size in
      let total_numa_page_num := foldr (λ x acc, x.2 + acc) 0 numa in
      let total_page_num := Z.max (mb_to_pages (prealloc_size_mb opt) page_size) total_numa_page_num in
      r ← prealloc_loop (S (Z.to_nat total_page_num)) os hp total_page_num numa;
      match r with
      | None => mret false
      | Some (left_page_num, numa) =>
          check (bool_decide (numa = []));;
          check (left_page_num =? 0);;
          s ← get;
          split_regions (regions_ s);;
          modify (λ s, s <| b_pool ::= λ p, p <| total_chunk_num_ := chunk_num_ p |> <| initialized_ := true |> |>);;
          mret true
      end.

Definition Init (os : OsMem) (opt : MemoryPoolInitOption) : ST boot bool :=
  s ← get;
  if initialized_ (b_pool s) then mret true
  else
    modify (λ s, s <| b_opt := opt |> <| b_pool ::= λ p, p <| opt_ :=
      MkPoolOption (opt_recycle_threshold_mb opt) (opt_recycle_chunk_num opt) (opt_fetch_chunk_num opt) |> |>);;
    if ValidateInitOption opt then Preallocate os else mret false.

Definition Register (os : OsMem) (infos : list MemoryInfo) : ST boot bool :=
  s ← get;
  if initialized_ (b_pool s) then with_am (AddExternalEntries (os_pages os) infos) else mret false.

(** ** [Reset] *)

Definition with_pool {A} (m : ST pool A) : ST boot A := λ s,
  match m (b_pool s) with
  | Ok (a, p) => Ok (a, s <| b_pool := p |>)
  | Err e => Err e
  end.

Fixpoint reset_caches (ks : list nat) : ST boot unit :=
  match ks with [] => mret () | k :: ks => with_pool (TLSCache_Reset k);; reset_caches ks end.

Definition Reset : ST boot unit :=
  s ← get;
  if negb (initialized_ (b_pool s)) then mret ()
  else
    reset_caches (fst <$> map_to_list (tls_caches_ (b_pool s)));;
    dealloc_all (regions_ s);;
    modify (λ s, s <| regions_ := [] |>);;
    modify (λ s, s <| b_pool ::= λ p, p <| chunks_ := 0 |> <| chunk_num_ := 0 |> <| total_chunk_num_ := 0 |> |>);;
    with_am am_Reset;;
    modify (λ s, s <| b_pool ::= λ p, p <| initialized_ := false |> |>).

(** ** Linking the chunks *)

Lemma dll_link s c t :
  dll (chunkh s) (chunks_ s) t → NoDup t → c ∉ t → 0 < c → chunkh s !! c = None →
  dll (chunkh (link_chunk c s)) c (c :: t) ∧ chunks_ (link_chunk c s) = c ∧
  (∀ d, is_Some (chunkh (link_chunk c s) !! d) ↔ d = c ∨ is_Some (chunkh s !! d)).
Proof.
  intros Hd Hnd Hc Hc0 Hn.
  set (h1 := <[c := zero_header]> (chunkh s)).
  assert (chunkh (link_chunk c s) = pushed h1 c (chunks_ s)) as Hh.
  { unfold link_chunk, pushed, h1, set_prev_at. cbn.
    assert (partial_alter (λ n, Some ((default zero_header n) <| c_next := chunks_ s |>)) c (chunkh s) =
            alter (λ m, m <| c_prev := null |> <| c_next := chunks_ s |>) c (<[c := zero_header]> (chunkh s))) as E.
    { apply map_eq. intros d. destruct (decide (d = c)) as [->|Hne].
      - by rewrite lookup_partial_alter_eq, lookup_alter_eq, lookup_insert_eq, Hn.
      - by rewrite lookup_partial_alter_ne, lookup_alter_ne, lookup_insert_ne. }
    cbn in E. rewrite E. by destruct (chunks_ s =? 0). }
  assert (dll h1 (chunks_ s) t) as Hd1.
  { eapply dll_agree; [|done]. intros d Hd'. unfold h1. apply lookup_insert_ne. by intros ->. }
  split_and!; [|done|].
  - rewrite Hh. apply dll_pushed; try done; [lia|]. unfold h1. rewrite lookup_insert_eq. by eexists.
  - intros d. rewrite Hh, <- (fmap_is_Some data), data_pushed, fmap_is_Some. unfold h1.
    destruct (decide (d = c)) as [->|Hne].
    + rewrite lookup_insert_eq. naive_solver.
    + rewrite lookup_insert_ne by done. naive_solver.
Qed.

(** The pool while its regions are cut: the central list is [t], there are no caches. *)
Record fresh_pool (t : list Z) (p : pool) : Prop := {
  fp_list : dll (chunkh p) (chunks_ p) t;
  fp_nodup : NoDup t;
  fp_dom : ∀ c, is_Some (chunkh p !! c) ↔ c ∈ t;
  fp_caches : tls_caches_ p = ∅;
  fp_orphans : orphan_tls_caches_ p = [] }.

Lemma fresh_link t p c : fresh_pool t p → c ∉ t → 0 < c → fresh_pool (c :: t) (link_chunk c p).
Proof.
  intros [] Hc Hc0. assert (chunkh p !! c = None) as Hn by (apply eq_None_not_Some; by rewrite fp_dom0).
  destruct (dll_link p c t) as (H1 & H2 & H3); try done. split; try done.
  - by constructor.
  - intros d. rewrite H3, fp_dom0. set_solver.
Qed.

Lemma link_chunks_ok cs : ∀ t s,
  fresh_pool t (b_pool s) → NoDup (cs ++ t) → (∀ c, c ∈ cs → 0 < c ∧ is_mapped s c = true) →
  wp (link_chunks cs) (λ _ s', fresh_pool (rev cs ++ t) (b_pool s') ∧
    (∃ p, s' = s <| b_pool := p |>) ∧ chunk_num_ (b_pool s') = chunk_num_ (b_pool s) ∧
    opt_ (b_pool s') = opt_ (b_pool s)) s.
Proof.
  induction cs as [|c cs IH]; intros t s Hf Hnd Hcs; cbn [link_chunks].
  - wp_steps. split_and!; try done. exists (b_pool s). by destruct s.
  - wp_steps. destruct (Hcs c) as [Hc0 ->]; [by left|]. wp_steps.
    cbn in Hnd. apply NoDup_cons in Hnd as [Hc Hnd].
    eapply wp_mono; [apply (IH (c :: t))|].
    + cbn. apply fresh_link; [done|set_solver|done].
    + apply NoDup_app in Hnd as (? & Hd & ?). apply NoDup_app. split_and!; [done| |constructor; [set_solver|done]].
      intros d Hd1 [->|Hd2]%elem_of_cons; [set_solver|by eapply Hd].
    + intros d Hd. apply Hcs. by right.
    + intros _ s' (H1 & [p H2] & H3 & H4). cbn [rev]. rewrite <- app_assoc. split_and!; try done.
      exists p. by rewrite H2.
Qed.

Lemma split_regions_ok rs : ∀ t s,
  fresh_pool t (b_pool s) → NoDup ((rs ≫= region_chunks) ++ t) →
  (∀ c, c ∈ rs ≫= region_chunks → 0 < c ∧ is_mapped s c = true) → Forall (λ r, 0 <= len r) rs →
  wp (split_regions rs) (λ _ s', fresh_pool (rev (rs ≫= region_chunks) ++ t) (b_pool s') ∧
    (∃ p, s' = s <| b_pool := p |>) ∧
    chunk_num_ (b_pool s') = chunk_num_ (b_pool s) + Z.of_nat (length (rs ≫= region_chunks)) ∧
    opt_ (b_pool s') = opt_ (b_pool s)) s.
Proof.
  induction rs as [|r rs IH]; intros t s Hf Hnd Hcs Hlen; cbn [split_regions].
  - wp_steps. split_and!; try done; [exists (b_pool s); by destruct s|cbn; lia].
  - change ((r :: rs) ≫= region_chunks) with (region_chunks r ++ (rs ≫= region_chunks)) in *.
    apply Forall_cons in Hlen as [Hr Hlen]. rewrite <- app_assoc in Hnd. wp_steps.
    eapply wp_mono; [apply (link_chunks_ok (region_chunks r) t)|].
    + destruct Hf. by split.
    + apply NoDup_app in Hnd as (? & Hd & (? & Hd2 & ?)%NoDup_app). apply NoDup_app. split_and!; try done. set_solver.
    + intros c Hc. apply Hcs. set_solver.
    + intros _ s1 (H1 & [p H2] & H3 & H4). eapply wp_mono; [apply (IH (rev (region_chunks r) ++ t) s1)|].
      * done.
      * assert ((rs ≫= region_chunks) ++ rev (region_chunks r) ++ t ≡ₚ region_chunks r ++ (rs ≫= region_chunks) ++ t) as ->; [|done].
        rewrite <- Permutation_rev. solve_Permutation.
      * intros c Hc. rewrite H2. apply Hcs. set_solver.
      * done.
      * intros _ s' (G1 & [p' G2] & G3 & G4). rewrite rev_app_distr, <- app_assoc. split_and!.
        -- done.
        -- exists p'. by rewrite G2, H2.
        -- rewrite G3, H3, length_app. cbn [b_pool upd chunk_num_]. unfold region_chunks at 2. rewrite length_fmap, length_seq.
           pose proof (Z.div_pos (len r) kChunkSize Hr ltac:(done)). lia.
        -- by rewrite G4, H4.
Qed.

(** ** The allocation loop *)

(** What [mmap] promises: chunk-aligned addresses, mappings that do not overlap. *)
Definition mem_ok (os : OsMem) : Prop :=
  ∀ n size a, mmap os n size = Some a → 0 < a ∧ a mod kChunkSize = 0 ∧
    ∀ m size' a', m ≠ n → mmap os m size' = Some a' → a + size <= a' ∨ a' + size' <= a.

Definition total_len (s : boot) : Z := foldr (λ r acc, len r + acc) 0 (regions_ s).

Record regions_good (os : OsMem) (hp : HugePageSize) (p : pool) (s : boot) : Prop := {
  rg_pool : b_pool s = p;
  rg_region : ∀ r, r ∈ regions_ s → 0 < len r ∧ len r mod GetHugePageSize hp = 0 ∧
    (∃ n, (n < os_calls s)%nat ∧ mmap os n (len r) = Some (virtual_addr r)) ∧ (virtual_addr r, len r) ∈ mapped s;
  rg_nodup : NoDup (regions_ s ≫= region_chunks);
  rg_pages : ∀ r i, r ∈ regions_ s → 0 <= i < len r `div` GetHugePageSize hp →
    ∃ phys, phys ≠ 0 ∧ memory_info_by_vaddr_ (addr_manager_ s) !! (virtual_addr r + i * GetHugePageSize hp) =
      Some (MkPhysChunk (virtual_addr r + i * GetHugePageSize hp) phys (HugePageSizeToAlignType hp)) }.

Lemma region_chunk_range r c :
  c ∈ region_chunks r → 0 < len r → virtual_addr r <= c ∧ c + kChunkSize <= virtual_addr r + len r.
Proof.
  intros (i & -> & Hi%elem_of_seq)%list_elem_of_fmap Hl.
  pose proof (Z.div_mod (len r) kChunkSize ltac:(done)) as Hd. pose proof (Z.mod_pos_bound (len r) kChunkSize ltac:(done)).
  unfold kChunkSize in *. lia.
Qed.
Lemma region_chunks_nodup r : NoDup (region_chunks r).
Proof. apply NoDup_fmap_2; [|apply NoDup_seq]. intros i j. unfold kChunkSize. lia. Qed.
Lemma hp_size hp : hp ≠ kHpUnknown → 0 < GetHugePageSize hp <= 2 ^ 30 ∧ GetHugePageSize hp mod kChunkSize = 0.
Proof. by destruct hp. Qed.

Definition page_list (hp : HugePageSize) (a n : Z) : list Z :=
  (λ i, a + Z.of_nat i * GetHugePageSize hp) <$> seq 0 (Z.to_nat n).

Lemma AllocHugepages_ok os n hp node s :
  mem_ok os → hp ≠ kHpUnknown → 1 <= n <= 512 →
  wp (AllocHugepages os n hp node) (λ addrs s',
    addrs = [] ∨ ∃ a, mmap os (os_calls s) (GetHugePageSize hp * n) = Some a ∧ addrs = page_list hp a n ∧
      s' = s <| os_calls ::= S |> <| mapped ::= cons (a, GetHugePageSize hp * n) |>) s.
Proof.
  intros Hm Hp Hn. destruct (hp_size hp Hp) as [Hps _].
  assert (u64 (GetHugePageSize hp * n) = GetHugePageSize hp * n) as Hu by (apply wrap_small; unfold in_range; nia).
  unfold AllocHugepages, AllocHugepageFn, GetPageFlagBySize. wp_steps. apply wp_check; [by destruct hp|]. wp_steps.
  destruct ((0 <=? node) && _); [wp_steps; by left|]. cbn zeta. rewrite Hu.
  destruct (mmap os (os_calls s) _) as [a|] eqn:E; [|wp_steps; by left]. wp_steps.
  destruct (Hm _ _ _ E) as (Ha & _). rewrite (proj2 (Z.eqb_neq a 0)) by lia. right. exists a. done.
Qed.

Lemma add_entries_ok align addrs : ∀ phys s,
  align ∈ [kPage1Gb; kPage2Mb; kPage512Mb] → length phys = length addrs → Forall (λ p, p ≠ 0) phys →
  wp (add_entries align addrs phys) (λ _ s',
    (∃ m, s' = s <| addr_manager_ := m |>) ∧
    let T := memory_info_by_vaddr_ (addr_manager_ s) in let T' := memory_info_by_vaddr_ (addr_manager_ s') in
    (∀ a, a ∈ addrs → ∃ p, p ≠ 0 ∧ T' !! a = Some (MkPhysChunk a p align)) ∧
    (∀ a, a ∉ addrs → T' !! a = T !! a)) s.
Proof.
  induction addrs as [|a addrs IH]; intros [|p phys] s Hal Hl Hp; try done; cbn [add_entries].
  - wp_steps. split_and!; [exists (addr_manager_ s); by destruct s|set_solver|done].
  - apply Forall_cons in Hp as [Hp0 Hp]. wp_steps. unfold with_am at 1, wp at 1, AddInternalEntry, check.
    assert (bool_decide (align = kPage1Gb) || bool_decide (align = kPage2Mb) || bool_decide (align = kPage512Mb) = true) as E.
    { rewrite !elem_of_cons, elem_of_nil in Hal. destruct Hal as [->|[->|[->|[]]]]; done. }
    cbn [align_type]. rewrite E. cbn. eapply wp_mono; [apply IH; [done|cbn in Hl; lia|done]|].
    cbn. intros _ s' ([m Hs'] & H1 & H2). split_and!.
    + exists m. by rewrite Hs'.
    + intros b [->|Hb]%elem_of_cons; [|by apply H1].
      destruct (decide (a ∈ addrs)) as [Ha|Ha]; [by apply H1|]. exists p. split; [done|]. rewrite H2 by done. apply lookup_insert_eq.
    + intros b Hb. rewrite H2 by set_solver. apply lookup_insert_ne. set_solver.
Qed.

Definition numa_sum (numa : list (Z * Z)) : Z := foldr (λ x acc, x.2 + acc) 0 numa.
Definition numa_ok (numa : list (Z * Z)) : Prop := Forall (λ x, 0 <= x.1 ∧ 0 < x.2) numa.
Definition numa_limit (numa : list (Z * Z)) (n : Z) : Prop :=
  match numa with [] => True | x :: _ => n <= x.2 end.

Lemma numa_take_ok numa n : numa_ok numa → numa_limit numa n → 0 <= n →
  numa_ok (numa_take numa n) ∧ numa_sum (numa_take numa n) = match numa with [] => 0 | _ => numa_sum numa - n end.
Proof.
  intros Hok Hl Hn. destruct numa as [|[id w] numa]; [done|]. apply Forall_cons in Hok as [[? ?] Hok]. cbn in *.
  destruct (Z.eqb_spec (w - n) 0); [split; [done|unfold numa_sum; cbn; lia]|].
  split; [|unfold numa_sum; cbn; lia]. constructor; [cbn; lia|done].
Qed.

Lemma existsb_zero phys : existsb (Z.eqb 0) phys = false → Forall (λ p, p ≠ 0) phys.
Proof.
  intros H. apply Forall_forall. intros p Hp ->. apply not_true_iff_false in H. apply H, existsb_exists.
  exists 0. split; [by apply list_elem_of_In|done].
Qed.

Lemma dealloc_all_ok rs : ∀ s, Forall (λ r, len r mod kChunkSize = 0) rs → wp (dealloc_all rs) (λ _ _, True) s.
Proof.
  induction rs as [|r rs IH]; intros s Hrs; [done|]. apply Forall_cons in Hrs as [Hr Hrs]. cbn [dealloc_all].
  unfold DeallocHugepageFn. wp_steps. apply wp_check; [by apply Z.eqb_eq|]. wp_steps. by apply IH.
Qed.

Lemma mod_chunk_mult hp n : hp ≠ kHpUnknown → (GetHugePageSize hp * n) mod kChunkSize = 0.
Proof.
  intros Hp. destruct (hp_size hp Hp) as [_ Hm]. apply Z.mod_divide in Hm; [|done]. apply Z.mod_divide; [done|].
  by apply Z.divide_mul_l.
Qed.
Lemma mod_hp_chunk hp n : hp ≠ kHpUnknown → n mod GetHugePageSize hp = 0 → n mod kChunkSize = 0.
Proof.
  intros Hp Hn. destruct (hp_size hp Hp) as [Hps _]. apply Z.mod_divide in Hn as [x ->]; [|lia].
  rewrite Z.mul_comm. by apply mod_chunk_mult.
Qed.

(** The new region is good and apart from the old ones. *)
Lemma regions_add os hp p s s' a n :
  mem_ok os → hp ≠ kHpUnknown → 1 <= n <= 512 → regions_good os hp p s →
  mmap os (os_calls s) (GetHugePageSize hp * n) = Some a →
  let r := MkMemoryInfo a 0 (GetHugePageSize hp * n) (GetHugePageSize hp) in
  b_pool s' = p → regions_ s' = regions_ s ++ [r] → os_calls s' = S (os_calls s) →
  mapped s' = (a, GetHugePageSize hp * n) :: mapped s →
  (let T := memory_info_by_vaddr_ (addr_manager_ s) in let T' := memory_info_by_vaddr_ (addr_manager_ s') in
   (∀ b, b ∈ page_list hp a n → ∃ q, q ≠ 0 ∧ T' !! b = Some (MkPhysChunk b q (HugePageSizeToAlignType hp))) ∧
   (∀ b, b ∉ page_list hp a n → T' !! b = T !! b)) →
  regions_good os hp p s'.
Proof.
  intros Hm Hp Hn [] Hmm r Hpool Hreg Hcalls Hmap [HT1 HT2]. destruct (hp_size hp Hp) as [Hps _].
  assert (0 < len r) as Hlr by (cbn; nia).
  split; [done|..].
  - intros r' Hr'. rewrite Hreg in Hr'. rewrite Hcalls, Hmap. apply elem_of_app in Hr' as [Hr' | ->%list_elem_of_singleton].
    + destruct (rg_region0 r' Hr') as (? & ? & (m & ? & ?) & ?). split_and!; [done..|exists m; split; [lia|done]|by right].
    + split_and!; [done| |exists (os_calls s); split; [lia|done]|by left]. cbn. rewrite Z.mul_comm. apply Z.mod_mul. lia.
  - rewrite Hreg, bind_app. cbn. rewrite app_nil_r. apply NoDup_app. split_and!; [done| |apply region_chunks_nodup].
    intros c Hc1 Hc2. apply list_elem_of_bind in Hc1 as (r' & Hc1 & Hr').
    destruct (rg_region0 r' Hr') as (Hl' & _ & (m & Hmn & Hmr) & _).
    destruct (region_chunk_range _ _ Hc1 Hl'). destruct (region_chunk_range _ _ Hc2 Hlr).
    destruct (Hm _ _ _ Hmm) as (_ & _ & Hap). destruct (Hap m _ _ ltac:(lia) Hmr); unfold kChunkSize in *; cbn in *; lia.
  - intros r' i Hr' Hi. rewrite Hreg in Hr'. destruct (decide (virtual_addr r' + i * GetHugePageSize hp ∈ page_list hp a n)) as [Hin|Hin].
    { by apply HT1. }
    rewrite HT2 by done. apply elem_of_app in Hr' as [Hr' | ->%list_elem_of_singleton]; [by apply rg_pages0|].
    exfalso. apply Hin. cbn in *. rewrite Z.mul_comm, Z.div_mul in Hi by lia. apply list_elem_of_fmap.
    exists (Z.to_nat i). split; [rewrite Z2Nat.id by lia; done|]. apply elem_of_seq. lia.
Qed.

Lemma prealloc_round_ok os hp left numa p s :
  mem_ok os → pagemap_opens (os_pages os) = true → hp ≠ kHpUnknown → 0 < left → numa_ok numa →
  regions_good os hp p s →
  wp (prealloc_round os hp left numa) (λ r s',
    match r with
    | None => True
    | Some (left', numa') => ∃ n, 1 <= n <= left ∧ numa_limit numa n ∧ left' = left - n ∧ numa' = numa_take numa n ∧
        regions_good os hp p s' ∧ total_len s' = total_len s + GetHugePageSize hp * n ∧ b_opt s' = b_opt s
    end) s.
Proof.
  intros Hm Hpm Hp Hl Hok Hrg. destruct (hp_size hp Hp) as [Hps _].
  assert (∃ fetch, kChunkFetchOptions hp = Some fetch ∧ 1 <= fetch <= 512) as (fetch & Ef & Hfe)
    by (destruct hp; try done; eexists; split; try done; lia).
  unfold prealloc_round. rewrite Ef. wp_steps. cbn zeta. apply (wp_need _ _ fetch); [done|]. wp_steps.
  set (n := match numa with [] => _ | _ => _ end).
  assert (1 <= n <= 512 ∧ n <= left ∧ numa_limit numa n) as (Hn & Hnl & Hlim).
  { unfold n. destruct numa as [|[id w] numa]; [cbn; lia|]. apply Forall_cons in Hok as [[Hid Hw] _]. cbn in *.
    rewrite (proj2 (Z.leb_le _ _) Hid). lia. }
  clearbody n. eapply wp_mono; [by apply (AllocHugepages_ok os n hp)|]. cbn beta. intros addrs s1 Hal.
  destruct addrs as [|front rest] eqn:Ea; [by wp_steps|]. destruct Hal as [|(a & Hmm & Eaddr & Hs1)]; [done|].
  assert (front = a) as ->.
  { unfold page_list in Eaddr. destruct (Z.to_nat n) eqn:En; [lia|]. cbn in Eaddr. simplify_eq. lia. }
  rewrite <- Ea in *. clear Ea rest.
  unfold GetPageFrameNumberOrZero, CalcPhysAddrs. rewrite Hpm. wp_steps. rewrite length_fmap, bool_decide_true by done. wp_steps.
  set (phys := zip_with _ addrs _).
  assert (length phys = length addrs) as Hlp by (unfold phys; rewrite length_zip_with, length_fmap; lia).
  destruct (existsb (Z.eqb 0) phys) eqn:Ez.
  - unfold DeallocHugepageFn. wp_steps. apply wp_check; [apply Z.eqb_eq; by apply mod_chunk_mult|]. wp_steps.
    eapply wp_mono; [apply dealloc_all_ok|by intros; wp_steps].
    rewrite Hs1. cbn. apply Forall_forall. intros r Hr. destruct (rg_region _ _ _ _ Hrg r Hr) as (_ & Hr2 & _).
    by eapply mod_hp_chunk.
  - apply existsb_zero in Ez. wp_steps. eapply wp_mono; [apply add_entries_ok; [|done|done]|].
    { destruct hp; try done; cbn; set_solver. }
    cbn zeta. intros _ s2 ([m Hs2] & H1 & H2). wp_steps. exists n. split_and!; try done; try lia.
    + rewrite Eaddr in H1, H2. eapply (regions_add os hp p s _ a n); try done.
      * cbn. rewrite Hs2, Hs1. cbn. apply Hrg.
      * cbn. by rewrite Hs2, Hs1.
      * cbn. by rewrite Hs2, Hs1.
      * cbn. by rewrite Hs2, Hs1.
      * cbn zeta. split; [exact H1|]. intros b Hb. cbn [addr_manager_ upd]. rewrite H2 by done. by rewrite Hs1.
    + unfold total_len. cbn. rewrite Hs2, Hs1. cbn. rewrite foldr_app. cbn.
      generalize (regions_ s). intros rs. induction rs as [|r rs IH]; cbn; lia.
    + cbn. by rewrite Hs2, Hs1.
Qed.

Lemma prealloc_loop_ok os hp p : mem_ok os → pagemap_opens (os_pages os) = true → hp ≠ kHpUnknown →
  ∀ fuel left numa s, 0 <= left < Z.of_nat fuel → numa_ok numa → numa_sum numa <= left → regions_good os hp p s →
  wp (prealloc_loop fuel os hp left numa) (λ r s',
    match r with
    | None => True
    | Some (left', numa') => left' = 0 ∧ numa' = [] ∧ regions_good os hp p s' ∧
        total_len s' = total_len s + GetHugePageSize hp * left ∧ b_opt s' = b_opt s
    end) s.
Proof.
  intros Hm Hpm Hp. induction fuel as [|fuel IH]; intros left numa s Hl Hok Hsum Hrg; [lia|]. cbn [prealloc_loop].
  destruct (Z.eqb_spec left 0) as [->|Hne].
  - wp_steps. split_and!; try done; [|lia]. destruct numa as [|x numa]; [done|].
    apply Forall_cons in Hok as [[_ Hx] Hok]. exfalso.
    assert (0 <= numa_sum numa) by (clear -Hok; induction Hok as [|y l [_ ?] _ IH]; unfold numa_sum in *; cbn in *; lia).
    unfold numa_sum in *. cbn in Hsum. lia.
  - wp_steps. eapply wp_mono; [apply (prealloc_round_ok os hp left numa p s); try done; lia|].
    intros [[left' numa']|] s1; [|by wp_steps]. intros (n & Hn & Hlim & -> & -> & Hrg1 & Ht1 & Ho1).
    destruct (numa_take_ok numa n Hok Hlim ltac:(lia)) as [Hok' Hs'].
    eapply wp_mono; [apply (IH (left - n) (numa_take numa n) s1); try done; [lia|]|].
    + rewrite Hs'. destruct numa; lia.
    + intros [[left' numa']|] s2; [|done]. intros (-> & -> & Hrg2 & Ht2 & Ho2).
      split_and!; try done; [|congruence]. rewrite Ht2, Ht1. lia.
Qed.

(** ** Initialisation *)

Lemma numa_pages_ok opt ps :
  0 < ps <= 2 ^ 30 → Forall (λ mb, 0 <= mb < 2 ^ 40) (prealloc_numa_mb opt) → numa_ok (numa_pages opt ps).
Proof.
  intros Hps Hmb. unfold numa_ok, numa_pages. apply Forall_forall. intros x (y & -> & Hy)%list_elem_of_fmap.
  destruct y as [i mb]. apply list_elem_of_filter in Hy as [Hpos Hy]. cbn. split; [lia|].
  apply elem_of_lookup_imap in Hy as (i' & mb' & Ei & Hl). simplify_eq.
  rewrite Forall_forall in Hmb. specialize (Hmb _ (list_elem_of_lookup_2 _ _ _ Hl)).
  unfold mb_to_pages. rewrite (wrap_small 64 (mb' * 1024 * 1024)) by (unfold in_range; lia).
  rewrite wrap_small by (unfold in_range; lia). apply Z.div_str_pos. lia.
Qed.

Lemma chunks_of_regions rs :
  Forall (λ r, 0 < len r ∧ len r mod kChunkSize = 0) rs →
  Z.of_nat (length (rs ≫= region_chunks)) * kChunkSize = foldr (λ r acc, len r + acc) 0 rs.
Proof.
  induction 1 as [|r rs [Hl Hd] _ IH]; [done|].
  change ((r :: rs) ≫= region_chunks) with (region_chunks r ++ (rs ≫= region_chunks)). rewrite length_app. cbn [foldr].
  rewrite <- IH. unfold region_chunks at 1. rewrite length_fmap, length_seq. apply Z.mod_divide in Hd as [x Hx]; [|done].
  rewrite Hx, Z.div_mul by done. unfold kChunkSize in *. lia.
Qed.

(** A pool of central chunks only. *)
Lemma fresh_pool_ok t p :
  fresh_pool t p → Forall (λ c, 0 < c ∧ c mod kChunkSize = 0) t → chunk_num_ p = Z.of_nat (length t) →
  initialized_ p = true → 1 <= fetch_chunk_num (opt_ p) < 2 ^ 64 →
  let g := MkGhost (λ l, if decide (l = Central) then t else []) (λ _, []) in
  pool_ok p g ∧ orphans_ok p ∧ ∀ q, ¬ outstanding p g q.
Proof.
  intros [Hd Hnd Hdom Hca Hor] Hal Hnum Hini Hf g. rewrite Forall_forall in Hal.
  assert (∀ c k i, ¬ member g c k i) as Hnm by (unfold member, g; cbn; set_solver).
  assert (∀ k, cview p k = None) as Hv by (intros k; unfold cview; by rewrite Hca).
  split_and!.
  - split.
    + split; try done; try (intros * Hx; by rewrite Hv in Hx); try (intros c k i Hm; by destruct (Hnm c k i)).
      * split; unfold g; cbn.
        -- intros l. case_decide; [done|constructor].
        -- intros l l' c. repeat case_decide; subst; try done; set_solver.
        -- intros l Hl. case_decide; [by subst|]. destruct l; try done; apply dll_nil; cbn; unfold bc_of; by rewrite Hca.
      * intros l c. unfold g; cbn. case_decide; [|set_solver]. intros Hc. destruct (Hal c Hc). split_and!; try done. by apply Hdom.
      * intros c k i Hc. by destruct (Hnm c k i); left.
      * intros c k i Hc. by destruct (Hnm c k i); right; left.
    + intros k tc. by rewrite Hca, lookup_empty.
  - split; rewrite Hor; [constructor|set_solver].
  - intros q (k & n & ts & tid & Hx & _). by rewrite Hv in Hx.
Qed.

Definition pages_wanted (opt : MemoryPoolInitOption) : Z :=
  let ps := GetHugePageSize (prealloc_page_size opt) in
  Z.max (mb_to_pages (prealloc_size_mb opt) ps) (numa_sum (numa_pages opt ps)).

(** A process that has not used the pool yet. *)
Record boot_fresh (s : boot) : Prop := {
  bf_pool : fresh_pool [] (b_pool s);
  bf_init : initialized_ (b_pool s) = false;
  bf_num : chunk_num_ (b_pool s) = 0;
  bf_regions : regions_ s = [] }.

Definition opt_ok (opt : MemoryPoolInitOption) : Prop :=
  prealloc_page_size opt ≠ kHpUnknown ∧ 1 <= opt_fetch_chunk_num opt < 2 ^ 64 ∧
  Forall (λ mb, 0 <= mb < 2 ^ 40) (prealloc_size_mb opt :: prealloc_numa_mb opt).

Lemma is_mapped_in s r c : c ∈ region_chunks r → 0 < len r → (virtual_addr r, len r) ∈ mapped s → is_mapped s c = true.
Proof.
  intros Hc Hl Hm. destruct (region_chunk_range _ _ Hc Hl). apply existsb_exists. exists (virtual_addr r, len r).
  split; [by apply list_elem_of_In|]. unfold kChunkSize in *. apply andb_true_iff. split; [apply Z.leb_le|apply Z.ltb_lt]; lia.
Qed.

Lemma good_chunks os hp p s :
  mem_ok os → hp ≠ kHpUnknown → regions_good os hp p s →
  Forall (λ r, 0 < len r ∧ len r mod kChunkSize = 0) (regions_ s) ∧
  ∀ c, c ∈ regions_ s ≫= region_chunks → 0 < c ∧ c mod kChunkSize = 0 ∧ is_mapped s c = true.
Proof.
  intros Hm Hp []. split.
  - apply Forall_forall. intros r Hr. destruct (rg_region0 r Hr) as (? & ? & _). split; [done|by eapply mod_hp_chunk].
  - intros c (r & Hc & Hr)%list_elem_of_bind. destruct (rg_region0 r Hr) as (Hl & _ & (n & _ & Hn) & Hmp).
    destruct (Hm _ _ _ Hn) as (Ha & Had & _). destruct (region_chunk_range _ _ Hc Hl). split_and!; [lia| |by eapply is_mapped_in].
    apply list_elem_of_fmap in Hc as (i & -> & _). by rewrite Z.mod_add.
Qed.

(** C4: the first [Init] of a pool, with usable options (a known page size, at least one chunk
    to fetch, sizes below 2^40 MB) and a system where the pagemap can be opened and mmap
    returns new aligned regions, does not fault, and when it reports success the
    pool is consistent with nothing out: every chunk is a 2 MB piece of a mapped region, the
    chunks make up exactly the pages asked for (the total or the sum of the nodes' shares,
    whichever is more), all of them are central, and the address manager knows a physical
    address for every page. *)
Theorem init_establishes os opt s :
  mem_ok os → pagemap_opens (os_pages os) = true → opt_ok opt → boot_fresh s →
  wp (Init os opt) (λ ok s', ok = true →
    let p := b_pool s' in let ps := GetHugePageSize (prealloc_page_size opt) in
    ∃ g, pool_ok p g ∧ orphans_ok p ∧ (∀ q, ¬ outstanding p g q) ∧
      chunk_num_ p = total_chunk_num_ p ∧ total_chunk_num_ p * kChunkSize = ps * pages_wanted opt ∧
      (∀ c l, c ∈ gL g l → l = Central ∧ ∃ r, r ∈ regions_ s' ∧ (virtual_addr r, len r) ∈ mapped s' ∧
         virtual_addr r <= c ∧ c + kChunkSize <= virtual_addr r + len r) ∧
      (∀ r i, r ∈ regions_ s' → 0 <= i < len r `div` ps → ∃ phys, phys ≠ 0 ∧
         memory_info_by_vaddr_ (addr_manager_ s') !! (virtual_addr r + i * ps) =
           Some (MkPhysChunk (virtual_addr r + i * ps) phys (HugePageSizeToAlignType (prealloc_page_size opt))))) s.
Proof.
  intros Hm Hpm (Hp & Hfe & [Hsz Hnu]%Forall_cons) [Bp Bi Bn Br]. destruct (hp_size _ Hp) as [Hps _].
  unfold Init. wp_steps. rewrite Bi. wp_steps. destruct (ValidateInitOption opt); [|by wp_steps].
  unfold Preallocate. wp_steps. cbn [b_pool upd initialized_]. rewrite Bi. wp_steps. cbn [b_opt upd].
  rewrite (proj2 (Z.eqb_neq (GetHugePageSize (prealloc_page_size opt)) 0)) by lia. wp_steps.
  match goal with |- wp _ _ ?st => remember st as s1 eqn:E1 end.
  assert (regions_good os (prealloc_page_size opt) (b_pool s1) s1) as Hrg.
  { assert (regions_ s1 = []) as E by (rewrite E1; exact Br). split; rewrite ?E; [done|set_solver|constructor|set_solver]. }
  assert (0 <= mb_to_pages (prealloc_size_mb opt) (GetHugePageSize (prealloc_page_size opt))) as Hmb0.
  { unfold mb_to_pages. apply Z.div_pos; [apply wrap_range; lia|lia]. }
  change (Z.max _ (foldr _ 0 _)) with (pages_wanted opt).
  eapply wp_mono; [apply (prealloc_loop_ok os _ (b_pool s1) Hm Hpm Hp); [|by apply numa_pages_ok| |done]|].
  { unfold pages_wanted. lia. }
  { unfold pages_wanted. cbn zeta. lia. }
  intros [[left numa]|] s2; [|by wp_steps]. intros (-> & -> & Hrg2 & Ht & _). wp_steps.
  apply wp_check; [done|]. wp_steps. apply wp_check; [done|]. wp_steps.
  destruct (good_chunks _ _ _ _ Hm Hp Hrg2) as [Hg1 Hg2]. pose proof Hrg2 as [Rp Rr Rn Rt].
  eapply wp_mono; [apply (split_regions_ok (regions_ s2) [])|].
  - rewrite Rp, E1. cbn. destruct Bp. by split.
  - by rewrite app_nil_r.
  - intros c Hc. by destruct (Hg2 c Hc) as (? & _ & ?).
  - eapply Forall_impl; [exact Hg1|]. cbn. intros r [? _]. lia.
  - intros _ s3 (F1 & [p3 F2] & F3 & F4). rewrite app_nil_r in F1. wp_steps. intros _. cbn zeta.
    rewrite Rp, E1 in F3, F4. cbn in F3, F4. rewrite Bn in F3. cbn [b_pool upd chunk_num_ total_chunk_num_].
    destruct (fresh_pool_ok (rev (regions_ s2 ≫= region_chunks))
      ((b_pool s3) <| total_chunk_num_ := chunk_num_ (b_pool s3) |> <| initialized_ := true |>)) as (G1 & G2 & G3).
    + destruct F1. by split.
    + apply Forall_forall. intros c Hc. apply list_elem_of_In, in_rev, list_elem_of_In in Hc. by destruct (Hg2 c Hc) as (? & ? & _).
    + cbn. rewrite F3, length_rev. lia.
    + done.
    + cbn. by rewrite F4.
    + eexists. split_and!; [exact G1|done|done|done|..].
      * rewrite F3, Z.add_0_l, chunks_of_regions by done. change (foldr _ _ (regions_ s2)) with (total_len s2). rewrite Ht.
        unfold total_len. rewrite E1. cbn. rewrite Br. cbn. lia.
      * intros c l. cbn. case_decide as El; [|set_solver]. intros Hc. split; [done|].
        apply list_elem_of_In, in_rev, list_elem_of_In in Hc. apply list_elem_of_bind in Hc as (r & Hc & Hr). exists r.
        destruct (Rr r Hr) as (? & _ & _ & ?). rewrite F2. cbn. split_and!; try done; by apply region_chunk_range.
      * rewrite F2. cbn. exact Rt.
Qed.
