(* ===== verification/ChunkPoolDemo.v ===== *)
(** * The chunk pool on concrete inputs

    A small pool, runs of its operations, and two runs that go wrong. *)

From Stdlib Require Import ZArith Lia.
From stdpp Require Import prelude gmap.
From S2P Require Import Prelude LinkedList AddressManager ChunkPool ChunkPoolInv ChunkPoolSteps.
From S2P Require Import ChunkPoolCentral ChunkPoolProps ChunkPoolThreads ChunkPoolInit.
Open Scope Z_scope.

(** ** A process that starts *)

Definition demo_mem (pfn : Z → option Z) : OsMem :=
  MkOsMem (MkOsPages 4096 true pfn true (λ _, Some 0))
    (λ n sz, if sz <=? 2 ^ 40 then Some (Z.of_nat (S n) * 2 ^ 40) else None) (λ _, true).
Definition demo_boot : boot :=
  MkBoot (MkPool ∅ ∅ 0 0 0 false (MkPoolOption 0 0 0) ∅ [] 0 0 0 0) [] (MkAm ∅ ∅ 0) default_init_option 0 [].
(** 3 MB on node 0 and 2 MB on node 1, two chunks per fetch. *)
Definition demo_opt (fetch : Z) : MemoryPoolInitOption :=
  MkInitOption true k2MB 5 256 16 fetch (3 :: 2 :: replicate 30 0).

Lemma demo_mem_ok pfn : mem_ok (demo_mem pfn).
Proof.
  intros n size a. cbn. destruct (Z.leb_spec size (2 ^ 40)); [|done]. intros [= <-]. split_and!; [lia| |].
  - unfold kChunkSize. replace (2 ^ 40) with (2 ^ 19 * (2 * 1024 * 1024)) by done. rewrite Z.mul_assoc. by apply Z.mod_mul.
  - intros m size' a' Hne. destruct (Z.leb_spec size' (2 ^ 40)); [|done]. intros [= <-].
    destruct (Nat.lt_total n m) as [?|[->|?]]; [left|done|right]; nia.
Qed.
Lemma demo_fresh : boot_fresh demo_boot.
Proof.
  split; try done. split; [by apply dll_nil|constructor| |done|done].
  intros c. cbn. rewrite lookup_empty. split; [by intros []|set_solver].
Qed.
Lemma demo_opt_ok fetch : 1 <= fetch < 2 ^ 64 → opt_ok (demo_opt fetch).
Proof. intros Hf. split; [done|]. split; [done|]. cbn. repeat (apply Forall_cons; split; [lia|]). by apply Forall_nil. Qed.

(** Whether initialisation succeeds, and with how many chunks. *)
Definition init_result (r : res (bool * boot)) : option (bool * Z) :=
  match r with Ok (ok, s) => Some (ok, chunk_num_ (b_pool s)) | Err _ => None end.

Lemma init_establishes_witness :
  init_result (Init (demo_mem (λ _, Some 7)) (demo_opt 2) demo_boot) = Some (true, 3) ∧
  wp (Init (demo_mem (λ _, Some 7)) (demo_opt 2)) (λ ok s, ok = true →
    ∃ g, pool_ok (b_pool s) g ∧ ∀ q, ¬ outstanding (b_pool s) g q) demo_boot.
Proof.
  split; [by vm_compute|].
  eapply wp_mono; [exact (init_establishes (demo_mem (λ _, Some 7)) (demo_opt 2) demo_boot (demo_mem_ok _) eq_refl
    (demo_opt_ok 2 ltac:(lia)) demo_fresh)|].
  cbv beta zeta. intros ok s H Hok. destruct (H Hok) as (g & Hp & _ & Hq & _). eauto.
Defined.

(** When a physical address cannot be read, [Preallocate] unmaps the regions it has and
    returns false without forgetting them. A second [Init], in the same process, then writes
    chunk headers into the unmapped regions. *)
Theorem init_retry_faults :
  let os := demo_mem (λ off, if off =? 2 ^ 41 / 4096 * 8 then Some 0 else Some 7) in
  match Init os (demo_opt 2) demo_boot with
  | Ok (ok, s) => ok = false ∧ mapped s = [] ∧ length (regions_ s) = 1%nat ∧ Init os (demo_opt 2) s = Err NullDeref
  | Err _ => False
  end.
Proof. vm_compute. done. Qed.

(** A [fetch_chunk_num] of zero passes the validation of the options, and the first
    allocation that needs a chunk dereferences null. *)
Theorem fetch_zero_faults :
  match Init (demo_mem (λ _, Some 7)) (demo_opt 0) demo_boot with
  | Ok (ok, s) => ok = true ∧ (GetOrNewTlsCache 0 1;; Allocate 0 100) (b_pool s) = Err NullDeref
  | Err _ => False
  end.
Proof. vm_compute. done. Qed.

(** ** Threads at work *)

Definition demo_pool : pool :=
  match Init (demo_mem (λ _, Some 7)) (demo_opt 2) demo_boot with
  | Ok (_, s) => b_pool s
  | Err _ => b_pool demo_boot
  end.
Definition run {A} (m : ST pool A) (s : pool) : pool := match m s with Ok (_, s') => s' | Err _ => s end.
Definition demo_thread : pool := run (GetOrNewTlsCache 0 1) demo_pool.
(** Cache 0 belongs to thread 1, cache 1 to thread 2, and the block at [demo_ptr] is out. *)
Definition demo_two : pool := run (GetOrNewTlsCache 1 2) demo_thread.
Definition demo_alloc : pool := run (Allocate 0 300000) demo_two.
Definition demo_ptr : Z := match Allocate 0 300000 demo_two with Ok (p, _) => p | Err _ => 0 end.

Lemma demo_pool_ok : ∃ g, pool_ok demo_pool g ∧ orphans_ok demo_pool ∧ ∀ q, ¬ outstanding demo_pool g q.
Proof.
  assert (∃ t, fresh_pool t demo_pool ∧ Forall (λ c, 0 < c ∧ c mod kChunkSize = 0) t ∧
    chunk_num_ demo_pool = Z.of_nat (length t)) as (t & Hf & Ht & Hn).
  { exists [2 ^ 41; 2 ^ 40 + kChunkSize; 2 ^ 40]. split_and!; [|by repeat constructor|by vm_compute].
    split; try by vm_compute.
    - split; [by vm_compute|]. vm_compute. repeat (split; [done|]; split; [eexists; split_and!; try done|]); done.
    - apply (bool_decide_unpack _). by vm_compute.
    - intros c. rewrite <- elem_of_dom. assert (dom (chunkh demo_pool) = {[2 ^ 41; 2 ^ 40 + kChunkSize; 2 ^ 40]}) as -> by (by vm_compute).
      set_solver. }
  eexists. refine (fresh_pool_ok t demo_pool Hf Ht Hn _ _); [vm_compute; reflexivity|].
  assert (fetch_chunk_num (opt_ demo_pool) = 2) as -> by (vm_compute; reflexivity). lia.
Qed.

(** The caches of the demo states, by computation. *)
Definition views (s : pool) : list (option (nat * list Z * Z)) := cview s <$> seq 0 3.
Lemma thread_of_views s k v : views s = v → (k < 3)%nat → thread_of s k = snd <$> (v !! k ≫= id).
Proof.
  intros <- Hk. unfold views, thread_of. rewrite list_lookup_fmap, lookup_seq_lt by done. cbn. by destruct (cview s k).
Qed.
Definition dom_caches (s : pool) : list nat := fst <$> map_to_list (tls_caches_ s).
Lemma thread_of_dom s k : k ∉ dom_caches s → thread_of s k = None.
Proof.
  intros Hk. unfold thread_of, cview. destruct (tls_caches_ s !! k) as [tc|] eqn:E; [|done].
  exfalso. apply Hk. unfold dom_caches. apply list_elem_of_fmap. exists (k, tc). split; [done|]. by apply elem_of_map_to_list.
Qed.

Lemma demo_thread_run : GetOrNewTlsCache 0 1 demo_pool = Ok (0%nat, demo_thread).
Proof. vm_compute. reflexivity. Qed.
Lemma demo_two_run : GetOrNewTlsCache 1 2 demo_thread = Ok (1%nat, demo_two).
Proof. vm_compute. reflexivity. Qed.
Lemma demo_alloc_run : Allocate 0 300000 demo_two = Ok (demo_ptr, demo_alloc).
Proof. vm_compute. reflexivity. Qed.
Lemma demo_ptr_val : demo_ptr = 2 ^ 41 + 48 + 16.
Proof. vm_compute. reflexivity. Qed.
Lemma demo_views :
  dom_caches demo_pool = [] ∧ dom_caches demo_thread = [0%nat] ∧
  views demo_thread = [Some (10%nat, [], 1); None; None] ∧ views demo_two = [Some (10%nat, [], 1); Some (10%nat, [], 2); None] ∧
  views demo_alloc = [Some (10%nat, [], 1); Some (10%nat, [], 2); None].
Proof. vm_compute. split_and!; reflexivity. Qed.
Lemma demo_fresh_caches : tls_caches_ demo_pool !! 0%nat = None ∧ tls_caches_ demo_thread !! 1%nat = None.
Proof. vm_compute. split; reflexivity. Qed.
Lemma demo_orphans : orphan_tls_caches_ demo_alloc = [].
Proof. vm_compute. reflexivity. Qed.
#[global] Opaque demo_pool demo_thread demo_two demo_alloc demo_ptr.

Lemma demo_thread_ok : ∃ g, pool_ok demo_thread g ∧ orphans_ok demo_thread ∧ ∀ q, ¬ outstanding demo_thread g q.
Proof.
  destruct demo_pool_ok as (g & Hok & Ho & Hq). destruct demo_views as (Hd & _). destruct demo_fresh_caches as [Hf _].
  pose proof (wp_run _ _ _ _ _ demo_thread_run (start_ok demo_pool g 0 1 Hok Ho Hf ltac:(done)
    ltac:(intros k; by rewrite thread_of_dom by (rewrite Hd; apply not_elem_of_nil)))) as (? & ? & _ & _ & _ & Hout & _).
  exists g. split_and!; [done..|]. intros q Hq'%Hout. by eapply Hq.
Qed.
Lemma demo_other_threads k : thread_of demo_thread k ≠ Some 2.
Proof.
  destruct demo_views as (_ & Hd & Hv & _). destruct (decide (k = 0%nat)) as [->|Hne].
  - rewrite (thread_of_views _ _ _ Hv) by lia. clear. cbn. discriminate.
  - rewrite thread_of_dom; [discriminate|]. rewrite Hd. intros Hin. apply Hne. by apply list_elem_of_singleton in Hin.
Qed.
Lemma demo_two_ok : ∃ g, pool_ok demo_two g ∧ orphans_ok demo_two ∧ ∀ q, ¬ outstanding demo_two g q.
Proof.
  destruct demo_thread_ok as (g & Hok & Ho & Hq). destruct demo_fresh_caches as [_ Hf].
  pose proof (wp_run _ _ _ _ _ demo_two_run (start_ok demo_thread g 1 2 Hok Ho Hf ltac:(done) demo_other_threads))
    as (? & ? & _ & _ & _ & Hout & _).
  exists g. split_and!; [done..|]. intros q Hq'%Hout. by eapply Hq.
Qed.
Lemma view_some s k v : views s = v → (k < 3)%nat → is_Some (v !! k ≫= id) → is_Some (cview s k).
Proof. intros Hv Hk Hs. rewrite <- (fmap_is_Some snd). change (is_Some (thread_of s k)). by rewrite (thread_of_views _ _ _ Hv Hk), fmap_is_Some. Qed.

Lemma demo_alloc_ok : ∃ g, pool_ok demo_alloc g ∧ orphans_ok demo_alloc ∧ outstanding demo_alloc g demo_ptr.
Proof.
  destruct demo_two_ok as (g & Hok & Ho & Hq). destruct demo_views as (_ & _ & _ & Hv & _).
  pose proof (wp_run _ _ _ _ _ demo_alloc_run (Allocate_ok demo_two g 0 300000 Hok
    (view_some _ 0 _ Hv ltac:(lia) ltac:(by eexists)) ltac:(lia))) as (g' & Hok' & _ & _ & Hr). exists g'. split; [done|]. split.
  - split; rewrite demo_orphans; [constructor|]. intros k Hk. exfalso. clear -Hk. by apply not_elem_of_nil in Hk.
  - destruct Hr as [(E & _)|(_ & _ & Hout & _)]; [by rewrite demo_ptr_val in E|]. apply Hout. by right.
Qed.

Lemma allocate_sound_witness :
  wp (Allocate 0 300000) (λ r s', r = 2 ^ 41 + 64 → ∃ g', pool_ok s' g' ∧ outstanding s' g' r) demo_two.
Proof.
  destruct demo_two_ok as (g & Hok & Ho & Hq). destruct demo_views as (_ & _ & _ & Hv & _).
  eapply wp_mono; [exact (allocate_sound demo_two g 0 300000 Hok (view_some _ 0 _ Hv ltac:(lia) ltac:(by eexists)) ltac:(lia))|].
  cbv beta. intros r s' (g' & Hok' & _ & _ & [(-> & _)|(_ & _ & Hout & _)]) E; [done|]. exists g'. split; [done|]. apply Hout. by right.
Defined.

(** Thread 2 frees what thread 1 allocated. *)
Lemma deallocate_frees_witness :
  wp (Deallocate 1 demo_ptr) (λ _ s', ∃ g', pool_ok s' g' ∧ ¬ outstanding s' g' demo_ptr) demo_alloc.
Proof.
  destruct demo_alloc_ok as (g & Hok & Ho & Hq). destruct demo_views as (_ & _ & _ & _ & Hv).
  assert (tid_of demo_alloc 1 ≠ 0) as Ht.
  { pose proof (thread_of_views _ 1 _ Hv ltac:(lia)) as E. unfold thread_of in E. unfold tid_of. by rewrite E. }
  eapply wp_mono; [exact (deallocate_frees demo_alloc g 1 demo_ptr Hok (view_some _ 1 _ Hv ltac:(lia) ltac:(by eexists)) Ht Hq)|].
  cbv beta. intros _ s' (g' & Hok' & _ & _ & Hout & _). exists g'. split; [done|]. rewrite Hout. tauto.
Defined.

Lemma thread_start_ok_witness :
  wp (GetOrNewTlsCache 1 2) (λ k s', k = 1%nat → thread_of s' k = Some 2) demo_thread.
Proof.
  destruct demo_thread_ok as (g & Hok & Ho & Hq). destruct demo_fresh_caches as [_ Hf].
  eapply wp_mono; [exact (thread_start_ok demo_thread g 1 2 Hok Ho Hf ltac:(done) demo_other_threads)|].
  cbv beta. intros k s' (_ & _ & H & _) _. done.
Defined.

(** Thread 1 ends while its block is out: the cache becomes an orphan. *)
Lemma thread_exit_ok_witness :
  wp (thread_exit 0) (λ _ s', ∃ g', pool_ok s' g' ∧ outstanding s' g' demo_ptr) demo_alloc.
Proof.
  destruct demo_alloc_ok as (g & Hok & Ho & Hq). destruct demo_views as (_ & _ & _ & _ & Hv).
  eapply wp_mono; [exact (thread_exit_ok demo_alloc g 0 Hok Ho (view_some _ 0 _ Hv ltac:(lia) ltac:(by eexists))
    ltac:(rewrite demo_orphans; apply not_elem_of_nil))|].
  cbv beta. intros _ s' (g' & Hok' & _ & _ & Hout & _). exists g'. split; [done|]. by apply Hout.
Defined.

Lemma demo_attached : attached demo_two 0.
Proof. destruct demo_views as (_ & _ & _ & Hv & _). exists 1. split; [done|]. by rewrite (thread_of_views _ _ _ Hv) by lia. Qed.

Lemma pool_refines_allocator_witness :
  (∀ k, attached demo_alloc k → ∃ s', Deallocate k demo_ptr demo_alloc = Ok ((), s')) ∧
  (∀ k, attached demo_alloc k → ∃ s', thread_exit k demo_alloc = Ok ((), s')).
Proof.
  destruct demo_pool_ok as (g & Hok & Ho & Hq). destruct demo_views as (Hd & _). destruct demo_fresh_caches as [Hf0 Hf1].
  destruct (pool_refines_allocator demo_pool g demo_alloc {[demo_ptr]} Hok Ho Hq) as (_ & _ & H3 & H4).
  - eapply rtc_l; [refine (step_start _ _ 0 1 _ _ Hf0 ltac:(done) _ demo_thread_run)|].
    { intros k. rewrite thread_of_dom by (rewrite Hd; apply not_elem_of_nil). discriminate. }
    eapply rtc_l; [exact (step_start _ _ 1 2 _ _ Hf1 ltac:(done) demo_other_threads demo_two_run)|].
    apply rtc_once. pose proof (step_allocate demo_two ∅ 0 300000 demo_ptr demo_alloc demo_attached ltac:(lia) demo_alloc_run) as Hst.
    rewrite demo_ptr_val in Hst at 1. cbn [Z.eqb] in Hst. rewrite union_empty_r_L in Hst. exact Hst.
  - split; [|done]. intros k Hk. apply H3; [done|]. by apply elem_of_singleton.
Defined.
