(* ===== verification/ReqRingQueue.v ===== *)
(** * The ring of requests in flight (src/src/common/req_ring_queue.h)

    Requests are numbered as they are issued, may complete in any order, and their results
    are delivered in the order of issue. A request with number [id] uses slot [id mod size];
    a slot holds a result of the current round exactly when its number has caught up with
    [head_id]. *)

From Stdlib Require Import ZArith Lia.
From stdpp Require Import prelude.
From S2P Require Import Prelude.
Open Scope Z_scope.

Section ring.
Context {Result : Type} (default_result : Result).

Record InflightReq := MkReq { result : Result; req_id : Z }.
Record InflightReqRingQueue := MkRing {
  reqs_ : list InflightReq; size_ : Z; head_id : Z; tail_id : Z }.
#[local] Instance eta_ring : Eta InflightReqRingQueue := λ r,
  MkRing (reqs_ r) (size_ r) (head_id r) (tail_id r).
Abbreviation ring := InflightReqRingQueue.

(** The member [size_] is an [int], the argument a [size_t]. *)
Definition new_ring (size : Z) : ring :=
  MkRing (replicate (Z.to_nat size) (MkReq default_result (-1))) (s32 size) 0 0.

Definition IsFull (q : ring) : bool := tail_id q - head_id q =? size_ q.
Definition GetSize (q : ring) : Z := s32 (tail_id q - head_id q).

Definition NewReq : ST ring Z :=
  q ← get;
  if IsFull q then mret (-1)
  else if tail_id q =? 2 ^ 63 - 1 then raise SignedOverflow
  else modify (λ q, q <| tail_id ::= Z.add 1 |>);; mret (tail_id q).

(** [id % size_] as an [int]: the remainder has the sign of [id]. *)
Definition ring_slot (q : ring) (id : Z) : res Z :=
  if size_ q =? 0 then Err DivByZero else Ok (s32 (Z.rem id (size_ q))).
(** [reqs_[i]]: an index below zero or past the end is out of bounds. *)
Definition at_slot (q : ring) (i : Z) : option InflightReq :=
  if i <? 0 then None else reqs_ q !! Z.to_nat i.

Definition PushResult (r : Result) (id : Z) : ST ring unit :=
  q ← get;
  i ← lift (ring_slot q id);
  need OutOfBounds (at_slot q i);;
  modify (λ q, q <| reqs_ ::= insert (Z.to_nat i) (MkReq r id) |>).

(** [room] is [size - cnt]: how many results still fit. *)
Fixpoint pop_loop (room : nat) (i : Z) : ST ring (list Result) :=
  match room with
  | O => mret []
  | S room =>
      q ← get;
      if negb (head_id q <? tail_id q) then mret []
      else
        e ← need OutOfBounds (at_slot q i);
        if req_id e <? head_id q then mret []
        else
          modify (λ q, q <| head_id ::= Z.add 1 |>);;
          rest ← pop_loop room (s32 (Z.rem (i + 1) (size_ q)));
          mret (result e :: rest)
  end.
Definition PopResults (size : Z) : ST ring (list Result) :=
  q ← get;
  i ← lift (ring_slot q (head_id q));
  pop_loop (Z.to_nat size) i.

(** ** The abstract queue

    The requests in flight from the oldest on, each with its result once there is one, and
    the number of the oldest. *)

Abbreviation pending := (list (option Result)).

(** The results at the front that are ready. *)
Fixpoint ready (p : pending) : list Result :=
  match p with Some r :: p => r :: ready p | _ => [] end.

(** The slot of number [x] in the current round. *)
Definition slot_ok (q : ring) (p : pending) (x : Z) : Prop :=
  ∃ e, reqs_ q !! Z.to_nat (x mod size_ q) = Some e ∧
    match p !! Z.to_nat (x - head_id q) with
    | Some (Some r) => e = MkReq r x
    | _ => req_id e < head_id q
    end.

(** The ring [q] holds the requests [p], the first of which has number [head_id q]. *)
Record holds (q : ring) (p : pending) : Prop := {
  h_size : 0 < size_ q < 2 ^ 31;
  h_len : Z.of_nat (length (reqs_ q)) = size_ q;
  h_head : 0 <= head_id q;
  h_tail : tail_id q = head_id q + Z.of_nat (length p);
  h_int : tail_id q < 2 ^ 63;
  h_room : Z.of_nat (length p) <= size_ q;
  h_slots : ∀ x, head_id q <= x < head_id q + size_ q → slot_ok q p x }.

Lemma s32_small z : - 2 ^ 31 <= z < 2 ^ 31 → s32 z = z.
Proof. intros. unfold swrap. change (32 - 1) with 31. rewrite Z.mod_small by lia. lia. Qed.

Lemma ring_slot_mod q x : 0 < size_ q < 2 ^ 31 → 0 <= x → ring_slot q x = Ok (x mod size_ q).
Proof.
  intros Hs Hx. unfold ring_slot. rewrite (proj2 (Z.eqb_neq _ _)) by lia.
  rewrite Z.rem_mod_nonneg by lia. rewrite s32_small; [done|].
  pose proof (Z.mod_pos_bound x (size_ q)). lia.
Qed.
Lemma at_slot_mod q x : 0 < size_ q → at_slot q (x mod size_ q) = reqs_ q !! Z.to_nat (x mod size_ q).
Proof.
  intros. unfold at_slot. pose proof (Z.mod_pos_bound x (size_ q)).
  by rewrite (proj2 (Z.ltb_ge _ _)) by lia.
Qed.
(** Two numbers of one round use two slots. *)
Lemma ring_slot_inj n h x y :
  0 < n → h <= x < h + n → h <= y < h + n → Z.to_nat (x mod n) = Z.to_nat (y mod n) → x = y.
Proof.
  intros Hn Hx Hy E. pose proof (Z.mod_pos_bound x n). pose proof (Z.mod_pos_bound y n).
  assert (x mod n = y mod n) as Em by lia.
  pose proof (Z.div_mod x n ltac:(lia)). pose proof (Z.div_mod y n ltac:(lia)).
  assert (x `div` n = y `div` n) by nia. nia.
Qed.
(** The slot after that of [x] is the slot of [x + 1]. *)
Lemma ring_slot_succ n x : 0 < n < 2 ^ 31 → 0 <= x → s32 (Z.rem (x mod n + 1) n) = (x + 1) mod n.
Proof.
  intros Hn Hx. pose proof (Z.mod_pos_bound x n). rewrite Z.rem_mod_nonneg by lia.
  rewrite Z.add_mod_idemp_l by lia. apply s32_small. pose proof (Z.mod_pos_bound (x + 1) n). lia.
Qed.

Lemma holds_new n : 0 < n < 2 ^ 31 → holds (new_ring n) [].
Proof.
  intros Hn. unfold new_ring. rewrite s32_small by lia.
  split; cbn [size_ reqs_ head_id tail_id length]; rewrite ?length_replicate; try lia.
  intros x Hx. exists (MkReq default_result (-1)).
  cbn [size_ reqs_ head_id]. split; [|by rewrite lookup_nil].
  apply lookup_replicate_2. pose proof (Z.mod_pos_bound x n). lia.
Qed.

Lemma NewReq_ok q p :
  holds q p → tail_id q < 2 ^ 63 - 1 →
  wp NewReq (λ id q',
    if IsFull q then id = -1 ∧ q' = q ∧ Z.of_nat (length p) = size_ q
    else id = tail_id q ∧ holds q' (p ++ [None]) ∧ Z.of_nat (length p) < size_ q ∧
      head_id q' = head_id q ∧ size_ q' = size_ q) q.
Proof.
  intros [] Ht. unfold NewReq. do 2 wp_step. unfold IsFull. destruct (Z.eqb_spec (tail_id q - head_id q) (size_ q)).
  - wp_step. split_and!; [done|done|lia].
  - rewrite (proj2 (Z.eqb_neq _ _)) by lia. wp_steps. split; [done|]. split; [|cbn; split_and!; lia].
    split; cbn [size_ reqs_ head_id tail_id upd]; rewrite ?length_app; cbn [length]; try done; try lia.
    intros x Hx. destruct (h_slots0 x Hx) as (e & He & Hm). exists e. split; [done|]. cbn [head_id].
    destruct (decide (Z.to_nat (x - head_id q) < length p)%nat).
    + by rewrite lookup_app_l.
    + rewrite lookup_ge_None_2 in Hm by lia.
      destruct (decide (Z.to_nat (x - head_id q) = length p)) as [->|].
      * by rewrite lookup_app_r, Nat.sub_diag by lia.
      * by rewrite lookup_ge_None_2 by (rewrite length_app; cbn [length]; lia).
Qed.

Lemma PushResult_ok q p r id :
  holds q p → head_id q <= id < tail_id q →
  wp (PushResult r id) (λ _ q', holds q' (<[Z.to_nat (id - head_id q) := Some r]> p) ∧
    head_id q' = head_id q ∧ size_ q' = size_ q) q.
Proof.
  intros [] Hid. unfold PushResult. do 2 wp_step. rewrite ring_slot_mod by lia. do 3 wp_step.
  destruct (h_slots0 id) as (e & He & _); [lia|].
  eapply wp_need; [rewrite at_slot_mod by lia; exact He|]. wp_step. split; [|done].
  split; cbn [size_ reqs_ head_id tail_id upd]; rewrite ?length_insert; try done; try lia.
  intros x Hx. unfold slot_ok. cbn [size_ reqs_ head_id]. destruct (decide (x = id)) as [->|Hne].
  - exists (MkReq r id). split.
    + apply list_lookup_insert_eq. by apply lookup_lt_Some in He.
    + rewrite list_lookup_insert_eq by lia. done.
  - destruct (h_slots0 x Hx) as (e' & He' & Hm). exists e'.
    rewrite !list_lookup_insert_ne; [done| |].
    + intros E. apply Hne. lia.
    + intros E. apply Hne. symmetry. eapply (ring_slot_inj (size_ q) (head_id q)); lia.
Qed.

Lemma pop_ok q r p :
  holds q (Some r :: p) → holds (q <| head_id ::= Z.add 1 |>) p.
Proof.
  intros []. cbn [length] in *. split; cbn [size_ reqs_ head_id tail_id upd]; try done; try lia.
  intros x Hx. unfold slot_ok. cbn [size_ reqs_ head_id]. destruct (decide (x = head_id q + size_ q)) as [->|].
  - destruct (h_slots0 (head_id q)) as (e & He & Hm); [lia|]. exists e. split.
    + rewrite <- He. do 2 f_equal. rewrite <- (Z.mul_1_l (size_ q)) at 1. apply Z.mod_add. lia.
    + rewrite Z.sub_diag in Hm. change (e = MkReq r (head_id q)) in Hm. subst e. rewrite lookup_ge_None_2 by lia. cbn. lia.
  - destruct (h_slots0 x) as (e & He & Hm); [lia|]. exists e. split; [done|].
    replace (Z.to_nat (x - head_id q)) with (S (Z.to_nat (x - (1 + head_id q)))) in Hm by lia. cbn in Hm.
    destruct (p !! _) as [[?|]|]; [done|lia|lia].
Qed.

Lemma pop_stop q p :
  holds q p → wp (mret []) (λ (rs : list Result) q', rs = [] ∧ holds q' (drop (length rs) p) ∧
    head_id q' = head_id q + Z.of_nat (length rs) ∧ size_ q' = size_ q) q.
Proof. intros. wp_step. split_and!; try done. cbn. lia. Qed.

Lemma pop_loop_ok room q p :
  holds q p →
  wp (pop_loop room (head_id q mod size_ q)) (λ rs q', rs = take room (ready p) ∧
    holds q' (drop (length rs) p) ∧ head_id q' = head_id q + Z.of_nat (length rs) ∧ size_ q' = size_ q) q.
Proof.
  revert q p. induction room as [|room IH]; intros q p Hq; [by apply pop_stop|].
  cbn [pop_loop]. do 2 wp_step. pose proof Hq as [].
  destruct p as [|o p]; cbn [length] in *.
  { rewrite (proj2 (Z.ltb_ge _ _)) by lia. by apply pop_stop. }
  rewrite (proj2 (Z.ltb_lt _ _)) by lia. cbn [negb]. wp_step.
  destruct (h_slots0 (head_id q)) as (e & He & Hm); [lia|]. rewrite Z.sub_diag in Hm.
  change ((o :: p) !! Z.to_nat 0) with (Some o) in Hm. cbn iota in Hm.
  eapply wp_need; [rewrite at_slot_mod by lia; exact He|]. destruct o as [r|].
  - subst e. cbn [req_id]. rewrite Z.ltb_irrefl. do 3 wp_step. rewrite ring_slot_succ, (Z.add_comm (head_id q)) by lia.
    eapply wp_mono; [exact (IH _ p (pop_ok _ _ _ Hq))|]; cbn [size_ head_id upd].
    intros rs q' (-> & Hq' & Hh & Hs). wp_step. cbn [ready firstn length drop].
    split_and!; [done|done|lia|done].
  - rewrite (proj2 (Z.ltb_lt _ _)) by done. by apply pop_stop.
Qed.

Lemma ring_pop q p n : holds q p → ∃ q', PopResults n q = Ok (take (Z.to_nat n) (ready p), q') ∧
  holds q' (drop (length (take (Z.to_nat n) (ready p))) p) ∧ head_id q' = head_id q + Z.of_nat (length (take (Z.to_nat n) (ready p))) ∧ size_ q' = size_ q.
Proof.
  intros Hq. pose proof Hq as []. assert (wp (PopResults n) (λ rs q', rs = take (Z.to_nat n) (ready p) ∧ holds q' (drop (length rs) p) ∧
    head_id q' = head_id q + Z.of_nat (length rs) ∧ size_ q' = size_ q) q) as Hw.
  { unfold PopResults. do 2 wp_step. rewrite ring_slot_mod by lia. do 2 wp_step. by apply pop_loop_ok. }
  unfold wp in Hw. destruct (PopResults n q) as [[rs q']|]; [|done]. destruct Hw as (-> & H1 & H2 & H3). by exists q'.
Qed.

(** C32: the ring behaves as a queue that delivers in the order of issue. A new ring of [n]
    slots is empty; issuing a request appends it, unless [n] are in flight, when it returns -1
    and changes nothing; a result, for any request in flight and in any order, is recorded
    with that request and no other; and [PopResults] delivers exactly the results that are
    ready at the front, oldest first and at most as many as asked for, and no other request
    is dropped. *)
Theorem ring_refines_fifo :
  (∀ n, 0 < n < 2 ^ 31 → holds (new_ring n) []) ∧
  (∀ q p, holds q p → tail_id q < 2 ^ 63 - 1 →
     wp NewReq (λ id q', if decide (Z.of_nat (length p) = size_ q) then id = -1 ∧ q' = q
       else id = head_id q + Z.of_nat (length p) ∧ holds q' (p ++ [None]) ∧
         head_id q' = head_id q ∧ size_ q' = size_ q) q) ∧
  (∀ q p r j, holds q p → (j < length p)%nat →
     wp (PushResult r (head_id q + Z.of_nat j)) (λ _ q', holds q' (<[j := Some r]> p) ∧
       head_id q' = head_id q ∧ size_ q' = size_ q) q) ∧
  (∀ q p n, holds q p →
     wp (PopResults n) (λ rs q', rs = take (Z.to_nat n) (ready p) ∧ holds q' (drop (length rs) p) ∧
       head_id q' = head_id q + Z.of_nat (length rs) ∧ size_ q' = size_ q) q) ∧
  (∀ q p, holds q p → GetSize q = Z.of_nat (length p)).
Proof.
  split_and!.
  - apply holds_new.
  - intros q p Hq Ht. eapply wp_mono; [exact (NewReq_ok q p Hq Ht)|]. intros id q' H. pose proof Hq as [].
    unfold IsFull in H. destruct (Z.eqb_spec (tail_id q - head_id q) (size_ q)).
    + rewrite decide_True by lia. naive_solver.
    + rewrite decide_False by lia. destruct H as (-> & ? & _ & ? & ?). split_and!; [lia|done..].
  - intros q p r j Hq Hj. pose proof Hq as []. eapply wp_mono; [apply (PushResult_ok q p r _ Hq); lia|].
    replace (Z.to_nat (head_id q + Z.of_nat j - head_id q)) with j by lia. done.
  - intros q p n Hq. pose proof Hq as []. unfold PopResults. do 2 wp_step.
    rewrite ring_slot_mod by lia. do 2 wp_step. by apply pop_loop_ok.
  - intros q p []. unfold GetSize. rewrite s32_small; lia.
Qed.
End ring.
Arguments ready {Result} p.

(** Results arrive out of order and leave in order; the ring refuses a fourth request. *)
Example ring_run :
  (a ← NewReq; b ← NewReq; c ← NewReq; d ← NewReq;
   PushResult 11 b;; r0 ← PopResults 8; PushResult 10 a;; r1 ← PopResults 8; e ← NewReq;
   mret (a, b, c, d, r0, r1, e)) (new_ring 0 3) =
  Ok (0, 1, 2, -1, [], [10; 11], 3, MkRing [MkReq 10 0; MkReq 11 1; MkReq 0 (-1)] 3 2 4).
Proof. vm_compute. reflexivity. Qed.
