(* ===== verification/ObjectPool.v ===== *)
(** * The thread-local object pool (src/src/common/object_pool.h, object_pool.cc)

    Objects of one type are carved out of aligned chunks. A chunk is found again from an
    object by masking its address, counts the objects it has handed out and those that came
    back while the free-object cache was full, and is reused or released when all are back.
    [posix_memalign] is a parameter: the address its n-th call returns. The memory of the
    objects is a map from addresses to values; a new object is default constructed, an object
    from the cache keeps the value it was returned with. *)

From Stdlib Require Import ZArith Lia.
From stdpp Require Import prelude gmap.
From S2P Require Import Prelude.
Open Scope Z_scope.

Definition FREE_CHUNK_SIZE : nat := 128.
Definition MAX_CHUNK_SIZE : Z := 32 * 1024.
Definition k_bit_shift : Z := 11.
Definition KB (x : Z) : Z := Z.shiftl x 10.
Definition k_size_class : list Z := [KB 2; KB 4; KB 8; KB 16; KB 32].
Definition ObjectMaxNumInChunk : Z := 256.
Definition sizeof_LocalChunk : Z := 16.

Definition CalObjectNumInChunk (sizeof_T : Z) : Z :=
  let N := MAX_CHUNK_SIZE `div` sizeof_T in
  if ObjectMaxNumInChunk <? N then ObjectMaxNumInChunk else N.

(** [n == 0 ? 0 : (sizeof(n) * 8 - 1) - __builtin_clz(n << 1)] *)
Definition class_index (sizeof_T : Z) : Z :=
  let n := Z.shiftr (CalObjectNumInChunk sizeof_T * sizeof_T - 1) k_bit_shift in
  if n =? 0 then 0 else 31 - (31 - Z.log2 (Z.shiftl n 1)).

Record LocalChunk := MkLocalChunk {
  start_addr : Z; used_num : Z; free_num : Z; chunk_tid : Z }.
#[export] Instance eta_LocalChunk : Eta LocalChunk := λ c,
  MkLocalChunk (start_addr c) (used_num c) (free_num c) (chunk_tid c).

(** ** Size classes *)

Record geometry (sizeof_T cs n : Z) : Prop := {
  geo_pow : ∃ k, 0 <= k <= 15 ∧ cs = 2 ^ k;
  geo_num : 1 <= n < 2 ^ 16;
  geo_fit : sizeof_LocalChunk + n * sizeof_T <= cs;
  geo_obj : 8 <= sizeof_T }.

(** Every object size the constructor accepts has a size class with room for an object. *)
Definition geometry_check (s : Z) : bool :=
  let i := class_index s in
  (0 <=? i) && match k_size_class !! Z.to_nat i with
  | Some cs =>
      let n := (cs - sizeof_LocalChunk) `div` s in
      (cs =? 2 ^ (11 + i)) && (11 + i <=? 15) && (1 <=? n) && (n <? 2 ^ 16)
  | None => false
  end.
Lemma geometry_small : forallb geometry_check (seqZ 8 121) = true.
Proof. vm_compute. reflexivity. Qed.

Lemma geometry_check_ok s :
  8 <= s → geometry_check s = true →
  ∃ cs, k_size_class !! Z.to_nat (class_index s) = Some cs ∧ geometry s cs ((cs - sizeof_LocalChunk) `div` s).
Proof.
  intros Hs H. unfold geometry_check in H. apply andb_true_iff in H as [Hi H].
  destruct (k_size_class !! _) as [cs|]; [|done]. exists cs. split; [done|].
  repeat (apply andb_true_iff in H as [H ?]).
  assert (0 <= 11 + class_index s <= 15) by lia. assert (cs = 2 ^ (11 + class_index s)) by lia.
  split; [eauto|lia| |lia]. pose proof (Z.mul_div_le (cs - sizeof_LocalChunk) s). lia.
Qed.

(** Objects of more than 128 bytes all get the largest class. *)
Lemma class_index_big s : 128 < s <= MAX_CHUNK_SIZE → class_index s = 4.
Proof.
  unfold class_index, CalObjectNumInChunk, MAX_CHUNK_SIZE, ObjectMaxNumInChunk, k_bit_shift. intros Hs.
  pose proof (Z.div_mod (32 * 1024) s ltac:(lia)). pose proof (Z.mod_pos_bound (32 * 1024) s ltac:(lia)).
  set (N := (32 * 1024) `div` s) in *. assert (1 <= N) by nia.
  rewrite (proj2 (Z.ltb_ge 256 N)) by nia. rewrite Z.shiftr_div_pow2 by lia.
  assert (8 <= (N * s - 1) `div` 2 ^ 11) by (apply Z.div_le_lower_bound; nia).
  assert ((N * s - 1) `div` 2 ^ 11 < 16) by (apply Z.div_lt_upper_bound; nia).
  set (n := (N * s - 1) `div` 2 ^ 11) in *. rewrite (proj2 (Z.eqb_neq n 0)) by lia. rewrite Z.shiftl_mul_pow2 by lia.
  assert (Z.log2 (n * 2 ^ 1) = 4) as -> by (apply Z.log2_unique; lia). lia.
Qed.

Lemma geometry_ok s :
  8 <= s <= MAX_CHUNK_SIZE - sizeof_LocalChunk →
  ∃ cs, k_size_class !! Z.to_nat (class_index s) = Some cs ∧ geometry s cs ((cs - sizeof_LocalChunk) `div` s).
Proof.
  intros Hs. apply geometry_check_ok; [lia|]. destruct (Z.le_gt_cases s 128).
  - pose proof geometry_small as H'. rewrite forallb_forall in H'. apply H'. rewrite <- list_elem_of_In, elem_of_seqZ. lia.
  - unfold MAX_CHUNK_SIZE, sizeof_LocalChunk in Hs. unfold geometry_check.
    rewrite class_index_big by (unfold MAX_CHUNK_SIZE; lia). cbn -[Z.div Z.ltb Z.leb].
    unfold sizeof_LocalChunk, KB. change (Z.shiftl 32 10 - 16) with 32752.
    assert (1 <= 32752 `div` s) by (apply Z.div_le_lower_bound; lia).
    assert (32752 `div` s < 65536) by (apply Z.div_lt_upper_bound; lia).
    repeat (apply andb_true_iff; split); apply Z.leb_le || apply Z.ltb_lt || done; done.
Qed.

Section pool.
Context {T : Type} (construct : T) (sizeof_T : Z).
(** What the n-th call of [posix_memalign] returns for a size, which is also the alignment,
    while the chunks in the set exist. *)
Context (posix_memalign : nat → Z → gset Z → option Z).

(** The pool of one thread, with the statics of the template. [cache_room] is the size of the
    array behind [FreeObjectCache], fixed when the pool is constructed. *)
Record TlsObjectPool := MkTlsPool {
  heap : gmap Z LocalChunk;
  objs : gmap Z T;
  current_chunk : Z;
  free_obj : list Z;
  cache_room : nat;
  full_free_chunks : list Z;
  pool_tid : Z;
  chunk_size : Z;
  object_num : Z;
  OBJ_SIZE_IN_OBJECT_CACHE : nat;
  constructed : bool;
  shutdown : bool;
  memalign_calls : nat }.
#[local] Instance eta_TlsObjectPool : Eta TlsObjectPool := λ s,
  MkTlsPool (heap s) (objs s) (current_chunk s) (free_obj s) (cache_room s) (full_free_chunks s)
    (pool_tid s) (chunk_size s) (object_num s) (OBJ_SIZE_IN_OBJECT_CACHE s) (constructed s)
    (shutdown s) (memalign_calls s).
Abbreviation tls := TlsObjectPool.

(** The chunk an object lives in. *)
Definition address (cs obj : Z) : Z := Z.land obj (unot 64 (cs - 1)).

Definition get_chunk (b : Z) : ST tls LocalChunk := s ← get; need NullDeref (heap s !! b).
Definition put_chunk (b : Z) (c : LocalChunk) : ST tls unit := modify (λ s, s <| heap ::= insert b c |>).

(** [posix_memalign] and [free] of a chunk. *)
Definition DefaultAllocate : ST tls Z :=
  s ← get;
  modify (λ s, s <| memalign_calls ::= S |>);;
  mret (default 0 (posix_memalign (memalign_calls s) (chunk_size s) (dom (heap s)))).
Definition DefaultDeallocate (b : Z) : ST tls unit :=
  get_chunk b;;
  modify (λ s, s <| heap ::= delete b |> <| objs ::= filter (λ '(p, _), address (chunk_size s) p ≠ b) |>).

Definition alloc_object (b : Z) : ST tls Z :=
  c ← get_chunk b;
  let p := start_addr c + used_num c * sizeof_T in
  put_chunk b (c <| used_num ::= λ u, u16 (u + 1) |>);;
  modify (λ s, s <| objs ::= insert p construct |>);;
  mret p.

Definition construct_pool (tid : Z) : ST tls unit :=
  check (sizeof_T <=? MAX_CHUNK_SIZE - sizeof_LocalChunk);;
  cs ← need OutOfBounds (k_size_class !! Z.to_nat (class_index sizeof_T));
  modify (λ s, MkTlsPool (heap s) (objs s) 0 [] (OBJ_SIZE_IN_OBJECT_CACHE s) [] tid cs
                 ((cs - sizeof_LocalChunk) `div` sizeof_T) (OBJ_SIZE_IN_OBJECT_CACHE s) true (shutdown s)
                 (memalign_calls s)).

(** Whether there is a pool: a thread that is exiting has none. *)
Definition singleton (tid : Z) : ST tls bool :=
  s ← get;
  if shutdown s then mret false
  else when (negb (constructed s)) (construct_pool tid);; mret true.

Definition get_or_new_object : ST tls Z :=
  s ← get;
  match last (free_obj s) with
  | Some p => modify (λ s, s <| free_obj := take (length (free_obj s) - 1) (free_obj s) |>);; mret p
  | None =>
      cur_has_room ← (if current_chunk s =? 0 then mret false
                      else c ← get_chunk (current_chunk s); mret (used_num c <? object_num s));
      if cur_has_room : bool then alloc_object (current_chunk s)
      else
        match last (full_free_chunks s) with
        | Some b =>
            modify (λ s, s <| current_chunk := b |>
                           <| full_free_chunks := take (length (full_free_chunks s) - 1) (full_free_chunks s) |>);;
            alloc_object b
        | None =>
            mem ← DefaultAllocate;
            if mem =? 0 then mret 0
            else
              put_chunk mem (MkLocalChunk (mem + sizeof_LocalChunk) 0 0 (pool_tid s));;
              modify (λ s, s <| current_chunk := mem |>);;
              alloc_object mem
        end
  end.

Definition return_or_free_object (obj : Z) : ST tls unit :=
  s ← get;
  let chunk := address (chunk_size s) obj in
  c ← get_chunk chunk;
  check (chunk_tid c =? pool_tid s);;
  if Nat.ltb (length (free_obj s)) (OBJ_SIZE_IN_OBJECT_CACHE s) then
    if Nat.ltb (length (free_obj s)) (cache_room s) then
      modify (λ s, s <| free_obj ::= λ l, l ++ [obj] |>)
    else raise OutOfBounds
  else
    let c := c <| free_num ::= λ f, u16 (f + 1) |> in
    put_chunk chunk c;;
    if free_num c =? object_num s then
      put_chunk chunk (c <| free_num := 0 |> <| used_num := 0 |>);;
      if current_chunk s =? chunk then mret ()
      else if Nat.ltb (length (full_free_chunks s)) FREE_CHUNK_SIZE then
        modify (λ s, s <| full_free_chunks ::= λ l, l ++ [chunk] |>)
      else DefaultDeallocate chunk
    else mret ().

(** One object of a pool that is gone: [if (++chunk->free_num == chunk->used_num)]. *)
Definition drop_object (obj : Z) : ST tls unit :=
  s ← get;
  let chunk := address (chunk_size s) obj in
  c ← get_chunk chunk;
  let c := c <| free_num ::= λ f, u16 (f + 1) |> in
  put_chunk chunk c;;
  when (free_num c =? used_num c) (DefaultDeallocate chunk).
Definition recycle_object (tid obj : Z) : ST tls unit :=
  s ← get;
  c ← get_chunk (address (chunk_size s) obj);
  check (chunk_tid c =? tid);;
  drop_object obj.

Fixpoint for_all {A} (f : A → ST tls unit) (l : list A) : ST tls unit :=
  match l with [] => mret () | a :: l => f a;; for_all f l end.

(** The destructor. *)
Definition destroy_pool : ST tls unit :=
  modify (λ s, s <| shutdown := true |>);;
  s ← get;
  (if current_chunk s =? 0 then mret ()
   else c ← get_chunk (current_chunk s);
        when (free_num c =? used_num c) (DefaultDeallocate (current_chunk s)));;
  for_all drop_object (free_obj s);;
  for_all DefaultDeallocate (full_free_chunks s).

Definition get_tls_object (tid : Z) : ST tls Z :=
  lp ← singleton tid; if lp : bool then get_or_new_object else mret 0.
Definition return_tls_object (tid obj : Z) : ST tls unit :=
  if obj =? 0 then mret ()
  else
    lp ← singleton tid;
    if lp : bool then return_or_free_object obj else recycle_object tid obj.
Definition set_tls_pool_object_max_size (n : nat) : ST tls unit :=
  modify (λ s, s <| OBJ_SIZE_IN_OBJECT_CACHE := n |>).

(** ** The invariant *)

(** Slot [i] of the chunk at [b]. *)
Definition slot (b i : Z) : Z := b + sizeof_LocalChunk + i * sizeof_T.

Lemma address_aligned cs n b i :
  geometry sizeof_T cs n → 0 <= b < 2 ^ 64 → b mod cs = 0 → 0 <= i < n → address cs (slot b i) = b.
Proof.
  intros [(k & Hk & ->) Hn Hf Ho] Hb Hm Hi. unfold address, unot, slot, sizeof_LocalChunk in *.
  assert (0 < 2 ^ k) by lia. assert (2 ^ k <= 2 ^ 15) by (apply Z.pow_le_mono_r; lia).
  apply Z.bits_inj'. intros j Hj. rewrite Z.land_spec.
  replace (2 ^ 64 - 1 - (2 ^ k - 1)) with (Z.shiftl (Z.ones (64 - k)) k).
  2: { rewrite Z.shiftl_mul_pow2, Z.ones_equiv by lia. replace (2 ^ 64) with (2 ^ (64 - k) * 2 ^ k); [lia|].
       rewrite <- Z.pow_add_r by lia. f_equal. lia. }
  rewrite Z.shiftl_spec by lia. destruct (Z.lt_ge_cases j k).
  - rewrite (Z.testbit_neg_r (Z.ones _)), andb_false_r by lia.
    rewrite <- (Z.mod_pow2_bits_low b k) by lia. by rewrite Hm, Z.bits_0.
  - assert (b + 16 + i * sizeof_T = b + (16 + i * sizeof_T)) as -> by lia.
    assert (Z.testbit (b + (16 + i * sizeof_T)) j = Z.testbit b j) as ->.
    { replace j with ((j - k) + k) by lia. rewrite <- !Z.shiftr_spec, !Z.shiftr_div_pow2 by lia.
      pose proof (Z.div_mod b (2 ^ k) ltac:(lia)).
      assert (b `div` 2 ^ k = (b + (16 + i * sizeof_T)) `div` 2 ^ k) as ->; [|done].
      apply Z.div_unique with (r := 16 + i * sizeof_T); nia. }
    destruct (Z.lt_ge_cases j 64).
    + rewrite Z.ones_spec_low by lia. apply andb_true_r.
    + rewrite Z.ones_spec_high, andb_false_r by lia. symmetry.
      apply (in_range_testbit 64); [lia|unfold in_range; lia|lia].
Qed.

(** How many of the objects live in the chunk at [b]. *)
Definition count (s : tls) (b : Z) (l : list Z) : Z :=
  Z.of_nat (length (filter (λ p, address (chunk_size s) p = b) l)).

Record chunk_ok (s : tls) (held : list Z) (b : Z) (c : LocalChunk) : Prop := {
  ck_base : 0 < b < 2 ^ 64 ∧ b mod chunk_size s = 0;
  ck_start : start_addr c = b + sizeof_LocalChunk;
  ck_nums : 0 <= free_num c <= used_num c ∧ used_num c <= object_num s ∧ free_num c < object_num s;
  ck_tid : chunk_tid c = pool_tid s;
  ck_count : count s b held = used_num c - free_num c }.

(** [held] lists the objects that are neither fresh nor given up: those that are out and
    those in the cache. *)
Record chunks_ok (s : tls) (held : list Z) : Prop := {
  co_geo : geometry sizeof_T (chunk_size s) (object_num s);
  co_chunk : ∀ b c, heap s !! b = Some c → chunk_ok s held b c;
  co_nodup : NoDup held;
  co_slot : ∀ p, p ∈ held → ∃ b c i, heap s !! b = Some c ∧ 0 <= i < used_num c ∧ p = slot b i ∧
    is_Some (objs s !! p) }.

#[local] Instance chunks_ok_perm s : Proper ((≡ₚ) ==> impl) (chunks_ok s).
Proof.
  intros l l' Hl [Hg Hc Hn Hs]. split; [done| |by rewrite <- Hl|].
  - intros b c Hb. destruct (Hc b c Hb) as [? ? ? ? Hcnt]. split; try done.
    unfold count in *. by rewrite <- Hl.
  - intros p Hp. apply Hs. by rewrite Hl.
Qed.

Record lists_ok (s : tls) : Prop := {
  lo_cur : current_chunk s = 0 ∨ is_Some (heap s !! current_chunk s);
  lo_part : ∀ b c, heap s !! b = Some c → used_num c < object_num s → b = current_chunk s ∨ b ∈ full_free_chunks s;
  lo_free : ∀ b, b ∈ full_free_chunks s →
    b ≠ current_chunk s ∧ ∃ c, heap s !! b = Some c ∧ used_num c = 0;
  lo_nodup : NoDup (full_free_chunks s);
  lo_room : (OBJ_SIZE_IN_OBJECT_CACHE s <= cache_room s)%nat }.

(** A pool in use whose objects in [live] are out; those in the cache satisfy [clean]. *)
Record pool_ok (clean : T → Prop) (s : tls) (live : gset Z) : Prop := {
  po_up : constructed s = true ∧ shutdown s = false;
  po_chunks : chunks_ok s (free_obj s ++ elements live);
  po_lists : lists_ok s;
  po_clean : ∀ p x, p ∈ free_obj s → objs s !! p = Some x → clean x }.

(** What the allocator promises: chunks are aligned and not in use. *)
Definition memalign_ok : Prop := ∀ n size used a,
  posix_memalign n size used = Some a → 0 < a < 2 ^ 64 ∧ a mod size = 0 ∧ a ∉ used.

Lemma held_address s held p :
  chunks_ok s held → p ∈ held → ∃ b c, heap s !! b = Some c ∧ address (chunk_size s) p = b ∧
    1 <= used_num c - free_num c ∧ is_Some (objs s !! p).
Proof.
  intros [Hg Hc Hn Hs] Hp. destruct (Hs p Hp) as (b & c & i & Hb & Hi & -> & Ho). exists b, c.
  destruct (Hc b c Hb) as [Hbase Hst Hnum Ht Hcnt].
  assert (address (chunk_size s) (slot b i) = b) as Ha by (eapply address_aligned; [done|lia..]).
  split_and!; [done|done| |done]. rewrite <- Hcnt. unfold count.
  assert (slot b i ∈ filter (λ p, address (chunk_size s) p = b) held) as Hin by (apply list_elem_of_filter; done).
  destruct (filter _ held); [set_solver|cbn; lia].
Qed.

Lemma count_cons s b p l :
  count s b (p :: l) = count s b l + (if decide (address (chunk_size s) p = b) then 1 else 0).
Proof. unfold count. rewrite filter_cons. case_decide; cbn [length]; lia. Qed.

Lemma slot_addr s held b c i :
  chunks_ok s held → heap s !! b = Some c → 0 <= i < object_num s →
  address (chunk_size s) (slot b i) = b.
Proof. intros [Hg Hc _ _] Hb Hi. destruct (Hc b c Hb). eapply address_aligned; [done|lia..]. Qed.
Lemma slot_inj b i j : 8 <= sizeof_T → slot b i = slot b j → i = j.
Proof. unfold slot. nia. Qed.

(** A chunk with room gives an object nobody holds. *)
Lemma alloc_object_ok s held b c :
  chunks_ok s held → heap s !! b = Some c → used_num c < object_num s →
  let p := slot b (used_num c) in
  let s' := s <| heap ::= insert b (c <| used_num ::= λ u, u + 1 |>) |> <| objs ::= insert p construct |> in
  alloc_object b s = Ok (p, s') ∧ p ∉ held ∧ p ≠ 0 ∧ chunks_ok s' (p :: held).
Proof.
  intros Hok Hb Hu p s'. pose proof Hok as [Hg Hc Hn Hs]. pose proof (Hc b c Hb) as [Hbase Hst Hnum Ht Hcnt].
  pose proof (geo_num _ _ _ Hg). pose proof (geo_obj _ _ _ Hg).
  assert (p ∉ held) as Hp.
  { intros Hin. destruct (Hs p Hin) as (b' & c' & j & Hb' & Hj & E & _).
    pose proof (slot_addr _ _ _ _ (used_num c) Hok Hb ltac:(lia)) as E1.
    pose proof (slot_addr _ _ _ _ j Hok Hb' ltac:(destruct (Hc b' c' Hb'); lia)) as E2.
    fold p in E1. rewrite <- E in E2. assert (b' = b) as -> by congruence. simplify_eq.
    apply slot_inj in E; lia. }
  assert (address (chunk_size s) p = b) as Ha by (eapply slot_addr; [done..|lia]).
  split_and!; [|done|unfold p, slot, sizeof_LocalChunk; nia|].
  - unfold alloc_object, get_chunk, put_chunk, get, mbind, ST_bind. cbn. rewrite Hb. cbn.
    rewrite wrap_small by (unfold in_range; lia). unfold s', p, slot. by rewrite <- Hst.
  - split; [done| |by constructor|].
    + intros b' c' Hb'. cbn in Hb'. apply lookup_insert_Some in Hb' as [[<- <-] | [Hne Hb']].
      * split; cbn; try done; [lia|]. rewrite count_cons. change (chunk_size s') with (chunk_size s). rewrite decide_True by done.
        change (count s' b held) with (count s b held). lia.
      * destruct (Hc b' c' Hb') as [? ? ? ? Hcnt']. split; try done. rewrite count_cons. change (chunk_size s') with (chunk_size s).
        rewrite decide_False by (rewrite Ha; done). change (count s' b' held) with (count s b' held). lia.
    + intros q [-> | Hq]%elem_of_cons.
      * exists b, (c <| used_num ::= λ u, u + 1 |>), (used_num c). cbn. rewrite !lookup_insert_eq.
        split_and!; try done; lia.
      * destruct (Hs q Hq) as (b' & c' & j & Hb' & Hj & -> & Ho). destruct (decide (b' = b)) as [-> |].
        -- exists b, (c <| used_num ::= λ u, u + 1 |>), j. cbn. simplify_eq. rewrite lookup_insert_eq.
           split_and!; try done; try lia. rewrite lookup_insert_is_Some'. by right.
        -- exists b', c', j. cbn. rewrite lookup_insert_ne by done. split_and!; try done; try lia.
           rewrite lookup_insert_is_Some'. by right.
Qed.

Lemma chunks_ok_ext s s' held :
  heap s' = heap s → objs s' = objs s → chunk_size s' = chunk_size s → object_num s' = object_num s →
  pool_tid s' = pool_tid s → chunks_ok s held → chunks_ok s' held.
Proof.
  intros E1 E2 E3 E4 E5 [Hg Hc Hn Hs]. split; rewrite ?E1, ?E2, ?E3, ?E4; try done.
  intros b c Hb. destruct (Hc b c Hb). unfold count in *. split; unfold count; by rewrite ?E3, ?E4, ?E5.
Qed.

Lemma last_split {A} (l : list A) x : last l = Some x → l = take (length l - 1) l ++ [x].
Proof.
  intros H. destruct l as [|y l _] using rev_ind; [done|]. rewrite last_snoc in H. simplify_eq.
  rewrite length_app. cbn. by rewrite Nat.add_sub, take_app_length.
Qed.
Lemma held_cons l p (live : gset Z) : p ∉ live → p :: (l ++ elements live) ≡ₚ l ++ elements ({[p]} ∪ live).
Proof. intros. rewrite elements_union_singleton by done. by rewrite Permutation_middle. Qed.

(** What a caller learns of the configuration: it does not change. *)
Definition same_config (s s' : tls) : Prop :=
  chunk_size s' = chunk_size s ∧ object_num s' = object_num s ∧ pool_tid s' = pool_tid s ∧
  OBJ_SIZE_IN_OBJECT_CACHE s' = OBJ_SIZE_IN_OBJECT_CACHE s.

#[local] Instance same_config_trans : Transitive same_config.
Proof. intros s1 s2 s3 (?&?&?&?) (?&?&?&?). unfold same_config. split_and!; congruence. Qed.

Definition got (clean : T → Prop) (s : tls) (live : gset Z) (p : Z) (s' : tls) : Prop :=
  p ≠ 0 ∧ p ∉ live ∧ pool_ok clean s' ({[p]} ∪ live) ∧ (∃ x, objs s' !! p = Some x ∧ clean x) ∧
  (∀ q, q ∈ live → objs s' !! q = objs s !! q) ∧ same_config s s'.

(** The current chunk has room and the cache is empty. *)
Lemma alloc_current clean s s1 live b c :
  clean construct → constructed s1 = true → shutdown s1 = false → chunks_ok s1 (elements live) → lists_ok s1 →
  free_obj s1 = [] → current_chunk s1 = b → heap s1 !! b = Some c → used_num c < object_num s1 →
  objs s1 = objs s → same_config s s1 → wp (alloc_object b) (got clean s live) s1.
Proof.
  intros Hcl Hc Hsh Hok Hl Hf Hcur Hb Hu Ho Hcfg.
  destruct (alloc_object_ok s1 _ b c Hok Hb Hu) as (E & Hp & Hp0 & Hok'). set (p := slot b (used_num c)) in *.
  rewrite elem_of_elements in Hp. unfold wp. rewrite E. split_and!; [done|done| | | |done].
  - split; cbn [constructed shutdown free_obj upd]; [done| | |by rewrite Hf; intros ? ? ?%elem_of_nil].
    + refine (chunks_ok_perm _ _ _ _ Hok'). cbn [free_obj upd]. by rewrite Hf, elements_union_singleton.
    + destruct Hl as [L1 L2 L3 L4 L5].
      split; cbn [heap current_chunk full_free_chunks object_num OBJ_SIZE_IN_OBJECT_CACHE cache_room upd]; try done.
      * right. rewrite Hcur, lookup_insert_eq. by eexists.
      * intros b' c' [[<- <-] | [Hne Hb']]%lookup_insert_Some Hu'; [by left|by eapply L2].
      * intros b' Hb'. destruct (L3 b' Hb') as (Hne & c' & Hb'' & Hu'). split; [done|]. exists c'.
        rewrite lookup_insert_ne by congruence. done.
  - exists construct. cbn. rewrite lookup_insert_eq. done.
  - intros q Hq. cbn. rewrite Ho, lookup_insert_ne; [done|]. congruence.
Qed.

Lemma no_objects s held b : chunks_ok s held → heap s !! b = None → count s b held = 0.
Proof.
  intros Hok Hb. unfold count. destruct (filter _ held) as [|q l] eqn:E; [done|].
  assert (q ∈ filter (λ p, address (chunk_size s) p = b) held) as Hq by (rewrite E; set_solver).
  apply list_elem_of_filter in Hq as [Ha Hq]. destruct (held_address _ _ _ Hok Hq) as (b' & c & Hb' & Ha' & _).
  congruence.
Qed.

(** A new chunk. *)
Lemma new_chunk_ok s held b :
  chunks_ok s held → heap s !! b = None → 0 < b < 2 ^ 64 → b mod chunk_size s = 0 →
  chunks_ok (s <| heap ::= insert b (MkLocalChunk (b + sizeof_LocalChunk) 0 0 (pool_tid s)) |>) held.
Proof.
  intros Hok Hb Hr Hm. pose proof (no_objects _ _ _ Hok Hb) as H0. destruct Hok as [Hg Hc Hn Hs].
  pose proof (geo_num _ _ _ Hg). split; [done| |done|].
  - intros b' c' Hb'. cbn in Hb'. apply lookup_insert_Some in Hb' as [[<- <-] | [Hne Hb']].
    + split; cbn; try done. lia.
    + destruct (Hc b' c' Hb'). by split.
  - intros p Hp. destruct (Hs p Hp) as (b' & c' & i & Hb' & Hi & -> & Ho). exists b', c', i.
    cbn. rewrite lookup_insert_ne by congruence. done.
Qed.

(** Either an object nobody holds, or none because there is no memory for another chunk. *)
Definition get_post (clean : T → Prop) (s : tls) (live : gset Z) (p : Z) (s' : tls) : Prop :=
  got clean s live p s' ∨
  p = 0 ∧ pool_ok clean s' live ∧ objs s' = objs s ∧ same_config s s' ∧
    posix_memalign (memalign_calls s) (chunk_size s) (dom (heap s)) = None.

Lemma get_cached clean s live p :
  pool_ok clean s live → last (free_obj s) = Some p →
  got clean s live p (s <| free_obj := take (length (free_obj s) - 1) (free_obj s) |>).
Proof.
  intros [[Hc Hsh] Hok Hl Hcl] Hp. pose proof (last_split _ _ Hp) as E. set (l := take _ _) in *.
  assert (p ∈ free_obj s) as Hin by (rewrite E; set_solver).
  destruct (held_address _ _ p Hok) as (b & c & Hb & Ha & _ & x & Hx); [set_solver|].
  destruct (co_slot _ _ Hok p) as (b' & c' & i & Hb' & Hi & Hs & _); [set_solver|].
  destruct (co_chunk _ _ Hok b' c' Hb') as [? ? ? ? ?]. pose proof (geo_obj _ _ _ (co_geo _ _ Hok)).
  assert (p ∉ live) as Hlive.
  { pose proof (co_nodup _ _ Hok) as [_ [Hd _]]%NoDup_app. intros Hpl. apply (Hd p Hin). by apply elem_of_elements. }
  split_and!; [unfold slot, sizeof_LocalChunk in Hs; nia|done| | | |by split_and!].
  - split; [done| | |].
    + apply (chunks_ok_ext s); [done..|]. refine (chunks_ok_perm _ _ _ _ Hok).
      cbn [free_obj upd]. rewrite <- held_cons by done. rewrite E at 1. rewrite <- app_assoc. cbn.
      by rewrite Permutation_middle.
    + destruct Hl. by split.
    + intros q y Hq. apply Hcl. rewrite E. set_solver.
  - exists x. split; [done|]. by eapply Hcl.
  - done.
Qed.

Lemma get_ok clean s live :
  pool_ok clean s live → clean construct → memalign_ok →
  wp get_or_new_object (get_post clean s live) s.
Proof.
  intros Hpo Hcl Hm. pose proof Hpo as [[Hc Hsh] Hok Hl _]. unfold get_or_new_object. do 2 wp_step.
  destruct (last (free_obj s)) as [p|] eqn:Ep.
  { do 3 wp_step. left. by apply get_cached. }
  apply last_None in Ep. rewrite Ep in Hok. cbn [app] in Hok. wp_step.
  apply wp_mono with (P := λ (b : bool) s', s' = s ∧
    if b then ∃ c, heap s !! current_chunk s = Some c ∧ used_num c < object_num s
    else ∀ c, heap s !! current_chunk s = Some c → object_num s <= used_num c).
  { destruct (Z.eqb_spec (current_chunk s) 0) as [E|E].
    - wp_step. split; [done|]. rewrite E. intros c Hb. destruct (co_chunk _ _ Hok _ _ Hb). lia.
    - destruct (lo_cur _ Hl) as [?|[c Hb]]; [done|]. unfold get_chunk. do 3 wp_step.
      eapply wp_need; [done|]. wp_step. split; [done|]. destruct (Z.ltb_spec (used_num c) (object_num s)).
      + eauto.
      + intros c' Hb'. by simplify_eq. }
  intros [] s' [-> Hcur].
  { destruct Hcur as (c & Hb & Hu). eapply wp_mono; [by eapply (alloc_current clean s s)|]. intros. by left. }
  destruct (last (full_free_chunks s)) as [b|] eqn:Eb.
  - pose proof (last_split _ _ Eb) as Efl. set (l := take _ _) in *. do 2 wp_step.
    pose proof Hl as [L1 L2 L3 L4 L5]. rewrite Efl in L4. apply NoDup_app in L4 as (N1 & N2 & _).
    destruct (L3 b) as (Hne & c & Hb & Hu); [rewrite Efl; set_solver|].
    pose proof (geo_num _ _ _ (co_geo _ _ Hok)).
    eapply wp_mono; [eapply (alloc_current clean s _ live b c)|intros; by left]; try done.
    + by apply (chunks_ok_ext s).
    + split; cbn [heap current_chunk full_free_chunks object_num upd]; [right; by eexists| | |done|done].
      * intros b' c' Hb' Hu'. destruct (L2 b' c' Hb' Hu') as [-> | Hin]; [specialize (Hcur _ Hb'); lia|].
        rewrite Efl in Hin. set_solver.
      * intros b' Hb'. destruct (L3 b') as (_ & Hx); [rewrite Efl; set_solver|]. split; [|done].
        intros ->. apply (N2 b Hb'). set_solver.
    + cbn. lia.
  - apply last_None in Eb. unfold DefaultAllocate. do 6 wp_step.
    set (m := posix_memalign _ _ _) in *. destruct m as [a|] eqn:Em; cbn [from_option id].
    2: { cbn [Z.eqb]. wp_step. right. split_and!; try done. split; [done| | |cbn [free_obj upd]; by rewrite Ep; intros ? ? ?%elem_of_nil].
         - cbn [free_obj upd]. rewrite Ep. by apply (chunks_ok_ext s).
         - destruct Hl. by split. }
    destruct (Hm _ _ _ _ Em) as (Ha & Hmod & Hfresh). rewrite (proj2 (Z.eqb_neq _ _)) by lia.
    apply not_elem_of_dom in Hfresh. unfold put_chunk. do 4 wp_step.
    pose proof (geo_num _ _ _ (co_geo _ _ Hok)).
    eapply wp_mono; [eapply (alloc_current clean s _ live a)|intros; by left]; try done.
    + apply (chunks_ok_ext (s <| heap ::= insert a (MkLocalChunk (a + sizeof_LocalChunk) 0 0 (pool_tid s)) |>));
        [done..|]. by apply new_chunk_ok.
    + destruct Hl as [L1 L2 L3 L4 L5].
      split; cbn [heap current_chunk full_free_chunks object_num upd]; try done; rewrite ?Eb.
      * right. rewrite lookup_insert_eq. by eexists.
      * intros b' c' [[<- <-] | [Hne Hb']]%lookup_insert_Some Hu'; [by left|].
        destruct (L2 b' c' Hb' Hu') as [-> | Hin]; [specialize (Hcur _ Hb'); lia|]. rewrite Eb in Hin. set_solver.
      * set_solver.
    + cbn. by rewrite lookup_insert_eq.
    + cbn. lia.
Qed.

(** ** Returning an object *)

Lemma count_zero s b held p : count s b held = 0 → p ∈ held → address (chunk_size s) p ≠ b.
Proof.
  unfold count. intros H Hp Ha.
  assert (p ∈ filter (λ p, address (chunk_size s) p = b) held) as Hin by (apply list_elem_of_filter; done).
  destruct (filter _ held); [set_solver|cbn in H; lia].
Qed.

(** The chunk of an object that is given up, with new counters: either one more free object,
    or, when it was the last one out, an unused chunk. *)
Lemma relinquish s held p b c u f :
  chunks_ok s (p :: held) → heap s !! b = Some c → address (chunk_size s) p = b →
  0 <= f <= u → u <= object_num s → f < object_num s → u - f = used_num c - free_num c - 1 →
  u = used_num c ∨ u = 0 →
  chunks_ok (s <| heap ::= insert b (c <| free_num := f |> <| used_num := u |>) |>) held.
Proof.
  intros Hok Hb Ha Hf Hu Hfn Hd Hu'. pose proof Hok as [Hg Hc [Hp Hn]%NoDup_cons Hs].
  destruct (Hc b c Hb) as [Hbase Hst Hnum Ht Hcnt]. rewrite count_cons, decide_True in Hcnt by done.
  split; [done| |done|].
  - intros b' c' Hb'. cbn in Hb'. apply lookup_insert_Some in Hb' as [[<- <-] | [Hne Hb']].
    + split; cbn; try done. change (count s b held = u - f). lia.
    + destruct (Hc b' c' Hb') as [? ? ? ? Hcnt']. rewrite count_cons, decide_False in Hcnt' by congruence.
      split; try done. change (count s b' held = used_num c' - free_num c'). lia.
  - intros q Hq. destruct (Hs q) as (b' & c' & i & Hb' & Hi & E & Ho); [set_solver|].
    destruct (decide (b' = b)) as [-> |].
    + assert (c' = c) as -> by congruence. exists b, (c <| free_num := f |> <| used_num := u |>), i. cbn. rewrite lookup_insert_eq.
      split_and!; try done; [lia|]. destruct Hu' as [-> | ->]; [lia|]. exfalso.
      apply (count_zero s b held q); [lia|done|]. subst q. eapply slot_addr; [done..|lia].
    + exists b', c', i. cbn. rewrite lookup_insert_ne by done. done.
Qed.

(** Releasing a chunk without objects. *)
Lemma release_chunk s held b c :
  chunks_ok s held → heap s !! b = Some c → count s b held = 0 →
  DefaultDeallocate b s = Ok ((), s <| heap ::= delete b |>
    <| objs ::= filter (λ '(p, _), address (chunk_size s) p ≠ b) |>) ∧
  chunks_ok (s <| heap ::= delete b |> <| objs ::= filter (λ '(p, _), address (chunk_size s) p ≠ b) |>) held ∧
  ∀ q, q ∈ held → filter (λ '(p, _), address (chunk_size s) p ≠ b) (objs s) !! q = objs s !! q.
Proof.
  intros Hok Hb H0. pose proof Hok as [Hg Hc Hn Hs].
  assert (∀ q, q ∈ held → filter (λ '(p, _), address (chunk_size s) p ≠ b) (objs s) !! q = objs s !! q) as Hobj.
  { intros q Hq. destruct (objs s !! q) as [x|] eqn:E.
    - apply map_lookup_filter_Some. split; [done|]. by eapply count_zero.
    - apply map_lookup_filter_None. by left. }
  split_and!; [| |done].
  - unfold DefaultDeallocate, get_chunk, mbind, ST_bind, get. cbn. by rewrite Hb.
  - split; [done| |done|].
    + intros b' c' Hb'. cbn in Hb'. apply lookup_delete_Some in Hb' as [_ Hb']. destruct (Hc b' c' Hb'). by split.
    + intros q Hq. destruct (Hs q Hq) as (b' & c' & i & Hb' & Hi & E & Ho). exists b', c', i. cbn.
      rewrite lookup_delete_ne. 2: { intros <-. apply (count_zero s b held q H0 Hq). subst q.
        destruct (Hc b c' Hb'). eapply address_aligned; [done|lia..]. }
      split_and!; try done; try lia. by rewrite Hobj.
Qed.

(** The lists after the counters of the chunk [b], which holds objects, have changed. *)
Lemma lists_relinquish s b c c1 :
  lists_ok s → heap s !! b = Some c → 1 <= used_num c →
  (used_num c1 = used_num c ∨ b = current_chunk s) →
  lists_ok (s <| heap ::= insert b c1 |>) ∧ b ∉ full_free_chunks s.
Proof.
  intros [L1 L2 L3 L4 L5] Hb Hu Hc1. assert (b ∉ full_free_chunks s) as Hnf.
  { intros Hin. destruct (L3 b Hin) as (_ & c' & Hb' & ?). simplify_eq. lia. }
  split; [|done]. split; cbn [heap current_chunk full_free_chunks object_num upd]; try done.
  - destruct L1 as [?|?]; [by left|right]. rewrite lookup_insert_is_Some'. by right.
  - intros b' c' [[<- <-] | [Hne Hb']]%lookup_insert_Some Hu'; [|by eapply L2].
    destruct Hc1 as [E| ->]; [|by left]. apply (L2 b c); [done|lia].
  - intros b' Hb'. destruct (L3 b' Hb') as (? & c' & ? & ?). split; [done|]. exists c'.
    rewrite lookup_insert_ne; [done|]. by intros <-.
Qed.

Definition returned (clean : T → Prop) (s : tls) (live : gset Z) (p : Z) (s' : tls) : Prop :=
  pool_ok clean s' (live ∖ {[p]}) ∧ (∀ q, q ∈ live ∖ {[p]} → objs s' !! q = objs s !! q) ∧ same_config s s'.

(** A chunk all of whose objects are back, other than the current one, is kept or released. *)
Lemma lists_retire s b c c2 :
  lists_ok s → heap s !! b = Some c → 1 <= used_num c → used_num c2 = 0 → current_chunk s ≠ b →
  let s2 := s <| heap ::= insert b c2 |> in
  lists_ok (s2 <| full_free_chunks ::= λ l, l ++ [b] |>) ∧
  lists_ok (s2 <| heap ::= delete b |> <| objs ::= filter (λ '(p, _), address (chunk_size s2) p ≠ b) |>).
Proof.
  intros [L1 L2 L3 L4 L5] Hb Hu Hc2 Hcur s2. assert (b ∉ full_free_chunks s) as Hnf.
  { intros Hin. destruct (L3 b Hin) as (_ & c' & Hb' & ?). simplify_eq. lia. }
  assert (∀ b', b' ∈ full_free_chunks s → b' ≠ b) as Hne by (by intros b' ? ->).
  split; split; unfold s2; cbn [heap current_chunk full_free_chunks object_num upd]; rewrite ?delete_insert_eq; try done.
  - destruct L1 as [?|?]; [by left|right]. by rewrite lookup_insert_ne.
  - intros b' c' [[<- <-] | [Hne' Hb']]%lookup_insert_Some Hu'; [set_solver|]. destruct (L2 b' c' Hb' Hu'); set_solver.
  - intros b' [Hb' | ->%list_elem_of_singleton]%elem_of_app.
    + destruct (L3 b' Hb') as (? & c' & ? & ?). split; [done|]. exists c'. rewrite lookup_insert_ne; [done|]. intros ->. by apply Hnf.
    + split; [done|]. exists c2. by rewrite lookup_insert_eq.
  - apply NoDup_app. split_and!; [done|set_solver|apply NoDup_singleton].
  - destruct L1 as [?|?]; [by left|right]. by rewrite lookup_delete_ne.
  - intros b' c' [_ Hb']%lookup_delete_Some Hu'. by eapply L2.
  - intros b' Hb'. destruct (L3 b' Hb') as (? & c' & ? & ?). split; [done|]. exists c'. rewrite lookup_delete_ne; [done|].
    intros ->. by apply Hnf.
Qed.

(** The cache and the objects that stay out are untouched. *)
Lemma returned_intro clean s s' live p :
  constructed s' = true → shutdown s' = false → free_obj s' = free_obj s →
  chunks_ok s' (free_obj s ++ elements (live ∖ {[p]})) → lists_ok s' → same_config s s' →
  (∀ q y, q ∈ free_obj s → objs s !! q = Some y → clean y) →
  (∀ q, q ∈ free_obj s ++ elements (live ∖ {[p]}) → objs s' !! q = objs s !! q) →
  returned clean s live p s'.
Proof.
  intros Hc Hsh Hf Hok Hl Hcfg Hcl Ho. split_and!; [|intros q Hq; apply Ho; set_solver|done].
  split; [done|by rewrite Hf|done|]. rewrite Hf. intros q y Hq. rewrite Ho by set_solver. by apply Hcl.
Qed.

Lemma return_ok clean s live p x :
  pool_ok clean s live → p ∈ live → objs s !! p = Some x → clean x →
  wp (return_or_free_object p) (λ _, returned clean s live p) s.
Proof.
  intros [[Hc Hsh] Hok Hl Hcl] Hp Hx Hclx. unfold return_or_free_object. do 2 wp_step.
  assert (live = {[p]} ∪ live ∖ {[p]}) as Elive by (apply union_difference_L; set_solver).
  set (live' := live ∖ {[p]}) in *. assert (p ∉ live') as Hp' by set_solver.
  assert (chunks_ok s (p :: (free_obj s ++ elements live'))) as Hok1.
  { refine (chunks_ok_perm _ _ _ _ Hok). by rewrite held_cons, <- Elive. }
  destruct (held_address _ _ p Hok1) as (b & c & Hb & Ha & Hn & _); [set_solver|]. rewrite Ha.
  destruct (co_chunk _ _ Hok1 b c Hb) as [Hbase Hst Hnum Ht _]. pose proof (geo_num _ _ _ (co_geo _ _ Hok1)).
  wp_step. unfold get_chunk at 1. do 2 wp_step. eapply wp_need; [done|]. wp_step.
  apply wp_check; [by apply Z.eqb_eq|].
  destruct (Nat.ltb_spec (length (free_obj s)) (OBJ_SIZE_IN_OBJECT_CACHE s)) as [Hlt|Hge].
  { pose proof (lo_room _ Hl). rewrite (proj2 (Nat.ltb_lt _ _)) by lia. wp_step. split_and!; [|done|by split_and!].
    split; [done| | |].
    - apply (chunks_ok_ext s); [done..|]. refine (chunks_ok_perm _ _ _ _ Hok1). cbn [free_obj upd].
      rewrite <- app_assoc. by rewrite Permutation_middle.
    - destruct Hl. by split.
    - intros q y [Hq | ->%list_elem_of_singleton]%elem_of_app Hy; [by eapply Hcl|]. cbn in Hy. by simplify_eq. }
  set (c1 := c <| free_num ::= _ |>). assert (c1 = c <| free_num := free_num c + 1 |>) as ->.
  { unfold c1. cbn. by rewrite wrap_small by (unfold in_range; lia). }
  cbn zeta. unfold put_chunk. do 2 wp_step. cbn [free_num upd].
  destruct (Z.eqb_spec (free_num c + 1) (object_num s)) as [Hfull|Hpart].
  - pose proof (relinquish s _ p b c 0 0 Hok1 Hb Ha ltac:(lia) ltac:(lia) ltac:(lia) ltac:(lia) ltac:(lia)) as Hok2.
    do 2 wp_step. set (c2 := c <| free_num := 0 |> <| used_num := 0 |>) in *.
    set (s2 := s <| heap ::= insert b c2 |>) in *.
    match goal with |- wp _ _ ?st => assert (st = s2) as -> end.
    { unfold s2. cbn. by rewrite insert_insert_eq. }
    change (current_chunk s) with (current_chunk s2).
    destruct (Z.eqb_spec (current_chunk s2) b) as [Hcur|Hcur].
    + wp_step. apply returned_intro; try done. refine (proj1 (lists_relinquish s b c c2 Hl Hb _ _)); [lia|by right].
    + destruct (lists_retire s b c c2 Hl Hb ltac:(lia) eq_refl Hcur) as [Hpush Hdel].
      destruct (Nat.ltb_spec (length (full_free_chunks s)) FREE_CHUNK_SIZE).
      * wp_step. apply returned_intro; try done. by apply (chunks_ok_ext s2).
      * destruct (release_chunk s2 _ b c2 Hok2 (lookup_insert_eq _ _ _)) as (E & Hok3 & Ho).
        { destruct (co_chunk _ _ Hok2 b c2 (lookup_insert_eq _ _ _)) as [_ _ _ _ Hz]. exact Hz. }
        unfold wp. rewrite E. apply returned_intro; try done.
  - pose proof (relinquish s _ p b c (used_num c) (free_num c + 1) Hok1 Hb Ha ltac:(lia) ltac:(lia) ltac:(lia) ltac:(lia)
      ltac:(lia)) as Hok2. wp_step. apply returned_intro; try done.
    refine (proj1 (lists_relinquish s b c _ Hl Hb _ _)); [lia|by left].
Qed.

(** ** The end of a thread *)

(** What dropping an object of a pool that is gone leaves alone: the objects still held, and
    the chunks that had no objects. Every other chunk that remains has objects. *)
Record dropped (s s' : tls) (held : list Z) : Prop := {
  dr_ok : chunks_ok s' held;
  dr_cfg : same_config s s' ∧ shutdown s' = shutdown s;
  dr_busy : ∀ b c, heap s' !! b = Some c → free_num c < used_num c ∨ heap s !! b = Some c;
  dr_idle : ∀ b c, heap s !! b = Some c → free_num c = used_num c → heap s' !! b = Some c;
  dr_objs : ∀ q, q ∈ held → objs s' !! q = objs s !! q }.

Lemma drop_ok s p held :
  chunks_ok s (p :: held) → wp (drop_object p) (λ _ s', dropped s s' held) s.
Proof.
  intros Hok. destruct (held_address _ _ p Hok) as (b & c & Hb & Ha & Hn & _); [set_solver|].
  destruct (co_chunk _ _ Hok b c Hb) as [Hbase Hst Hnum Ht _]. pose proof (geo_num _ _ _ (co_geo _ _ Hok)).
  unfold drop_object. do 2 wp_step. rewrite Ha. wp_step. unfold get_chunk at 1. do 2 wp_step.
  eapply wp_need; [done|]. set (c1 := c <| free_num ::= _ |>). assert (c1 = c <| free_num := free_num c + 1 |>) as ->.
  { unfold c1. cbn. by rewrite wrap_small by (unfold in_range; lia). }
  unfold put_chunk. cbn zeta. do 2 wp_step. cbn [free_num used_num upd]. apply wp_when; intros Hz.
  - apply Z.eqb_eq in Hz.
    pose proof (relinquish s _ p b c 0 0 Hok Hb Ha ltac:(lia) ltac:(lia) ltac:(lia) ltac:(lia) ltac:(lia)) as Hok2.
    set (c2 := c <| free_num := 0 |> <| used_num := 0 |>) in *. set (s2 := s <| heap ::= insert b c2 |>) in *.
    destruct (release_chunk s2 _ b c2 Hok2 (lookup_insert_eq _ _ _)) as (_ & Hok3 & Ho).
    { destruct (co_chunk _ _ Hok2 b c2 (lookup_insert_eq _ _ _)) as [_ _ _ _ Hc]. exact Hc. }
    unfold DefaultDeallocate, get_chunk. do 3 wp_step. eapply wp_need; [apply lookup_insert_eq|]. wp_step.
    split; [|done| | |].
    + revert Hok3. apply chunks_ok_ext; try done. cbn. by rewrite !delete_insert_eq.
    + intros b' c' Hb'. cbn in Hb'. rewrite delete_insert_eq in Hb'. apply lookup_delete_Some in Hb' as [_ ?]. by right.
    + intros b' c' Hb' He. cbn. rewrite delete_insert_eq, lookup_delete_ne; [done|]. intros <-. simplify_eq. lia.
    + exact Ho.
  - apply Z.eqb_neq in Hz. split; [|done| | |done].
    + refine (relinquish s _ p b c (used_num c) (free_num c + 1) Hok Hb Ha _ _ _ _ _); lia.
    + intros b' c' Hb'. cbn in Hb'. apply lookup_insert_Some in Hb' as [[<- <-] | [_ ?]]; [left; cbn; lia|by right].
    + intros b' c' Hb' He. cbn. rewrite lookup_insert_ne; [done|]. intros <-. simplify_eq. lia.
Qed.

Lemma drops_ok s ps held :
  chunks_ok s (ps ++ held) → wp (for_all drop_object ps) (λ _ s', dropped s s' held) s.
Proof.
  revert s. induction ps as [|p ps IH]; intros s Hok.
  { cbn [for_all]. wp_step. split; [done|by split_and!|auto|done|done]. }
  cbn [for_all]. wp_step. eapply wp_mono; [by apply drop_ok|]. intros _ s1 [O1 [C1 S1] B1 I1 Q1].
  eapply wp_mono; [by apply IH|]. intros _ s2 [O2 [C2 S2] B2 I2 Q2]. split; [done| | | |].
  - split; [by trans s1|congruence].
  - intros b c Hb. destruct (B2 b c Hb) as [?|Hb1]; [by left|by apply B1].
  - intros b c Hb He. apply I2; [by apply I1|done].
  - intros q Hq. rewrite Q2, Q1 by set_solver. done.
Qed.

Lemma releases_ok s bs held :
  chunks_ok s held → NoDup bs →
  (∀ b, b ∈ bs → ∃ c, heap s !! b = Some c ∧ free_num c = used_num c) →
  wp (for_all DefaultDeallocate bs) (λ _ s', chunks_ok s' held ∧ same_config s s' ∧ shutdown s' = shutdown s ∧
    (∀ b c, heap s' !! b = Some c → heap s !! b = Some c ∧ b ∉ bs) ∧ ∀ q, q ∈ held → objs s' !! q = objs s !! q) s.
Proof.
  revert s. induction bs as [|b bs IH]; intros s Hok Hnd Hbs.
  { cbn [for_all]. wp_step. split_and!; try done. set_solver. }
  apply NoDup_cons in Hnd as [Hb Hnd]. destruct (Hbs b) as (c & Hc & He); [apply elem_of_cons; by left|].
  destruct (release_chunk s held b c Hok Hc) as (E & Hok' & Ho).
  { destruct (co_chunk _ _ Hok b c Hc). lia. }
  cbn [for_all]. wp_step. unfold wp at 1. rewrite E. eapply wp_mono; [apply (IH _ Hok' Hnd)|].
  { intros b' Hb'. destruct (Hbs b') as (c' & ? & ?); [apply elem_of_cons; by right|]. exists c'. cbn. rewrite lookup_delete_ne; [done|].
    by intros ->. }
  intros _ s' (O & (?&?&?&?) & S & B & Q). split_and!; try done.
  - intros b' c' Hb'. destruct (B b' c' Hb') as [Hl Hn]. cbn in Hl. apply lookup_delete_Some in Hl as [? ?].
    split; [done|]. by intros [-> |?]%elem_of_cons.
  - intros q Hq. rewrite Q by done. by apply Ho.
Qed.

(** A pool that is gone: only chunks with objects that are out remain. *)
Record pool_down (s : tls) (live : gset Z) : Prop := {
  pd_shut : shutdown s = true;
  pd_chunks : chunks_ok s (elements live);
  pd_busy : ∀ b c, heap s !! b = Some c → free_num c < used_num c }.

Lemma down_empty s : pool_down s ∅ → heap s = ∅.
Proof.
  intros [_ Hok Hb]. apply map_empty. intros b. destruct (heap s !! b) as [c|] eqn:E; [|done].
  pose proof (Hb b c E). destruct (co_chunk _ _ Hok b c E) as [_ _ _ _ Hc]. rewrite elements_empty in Hc.
  change (0 = used_num c - free_num c) in Hc. lia.
Qed.

(** The current chunk goes first, when it has no objects. *)
Lemma drop_current s held :
  chunks_ok s held → lists_ok s →
  wp (if current_chunk s =? 0 then mret ()
      else c ← get_chunk (current_chunk s);
           when (free_num c =? used_num c) (DefaultDeallocate (current_chunk s)))
    (λ _ s', chunks_ok s' held ∧ same_config s s' ∧ shutdown s' = shutdown s ∧
       (∀ b c, heap s' !! b = Some c → free_num c < used_num c ∨ b ∈ full_free_chunks s) ∧
       (∀ b, b ∈ full_free_chunks s → heap s' !! b = heap s !! b) ∧
       ∀ q, q ∈ held → objs s' !! q = objs s !! q) s.
Proof.
  intros Hok [L1 L2 L3 L4 L5].
  assert (∀ b c, heap s !! b = Some c → b ≠ current_chunk s → free_num c < used_num c ∨ b ∈ full_free_chunks s) as Hrest.
  { intros b c Hb Hne. destruct (co_chunk _ _ Hok b c Hb). destruct (decide (used_num c < object_num s)).
    - destruct (L2 b c Hb); [done|done|by right].
    - left. lia. }
  destruct (Z.eqb_spec (current_chunk s) 0) as [E|E].
  { wp_step. split_and!; try done. intros b c Hb. apply (Hrest b c Hb). rewrite E.
    destruct (co_chunk _ _ Hok b c Hb). lia. }
  destruct L1 as [?|[c Hb]]; [done|]. unfold get_chunk at 1. do 3 wp_step. eapply wp_need; [done|].
  apply wp_when; intros Hz.
  - apply Z.eqb_eq in Hz. destruct (release_chunk s held _ c Hok Hb) as (Er & Hok' & Ho).
    { destruct (co_chunk _ _ Hok _ c Hb). lia. }
    unfold wp. rewrite Er. split_and!; try done.
    + intros b' c' Hb'. cbn in Hb'. apply lookup_delete_Some in Hb' as [Hne Hb']. by apply Hrest.
    + intros b' Hb'. destruct (L3 b' Hb') as [? _]. by apply lookup_delete_ne.
  - apply Z.eqb_neq in Hz. split_and!; try done. intros b' c' Hb'.
    destruct (decide (b' = current_chunk s)) as [-> |Hne]; [|by apply Hrest].
    simplify_eq. destruct (co_chunk _ _ Hok _ c Hb). left. lia.
Qed.

Lemma destroy_pool_ok clean s live :
  pool_ok clean s live →
  wp destroy_pool (λ _ s', pool_down s' live ∧ same_config s s' ∧ ∀ q, q ∈ live → objs s' !! q = objs s !! q) s.
Proof.
  clear construct. intros [[Hc Hsh] Hok Hl _]. unfold destroy_pool. do 4 wp_step. wp_step. set (s1 := s <| shutdown := true |>).
  assert (chunks_ok s1 (free_obj s ++ elements live)) as Hok1 by (by apply (chunks_ok_ext s)).
  assert (lists_ok s1) as Hl1 by (destruct Hl; by split).
  eapply wp_mono; [by apply (drop_current s1)|]. intros _ s2 (Hok2 & C2 & S2 & B2 & F2 & Q2). wp_step.
  eapply wp_mono; [by apply drops_ok|]. intros _ s3 [Hok3 [C3 S3] B3 I3 Q3].
  eapply wp_mono; [apply (releases_ok s3 _ _ Hok3 (lo_nodup _ Hl))|].
  { intros b Hb. destruct (lo_free _ Hl b Hb) as (_ & c & Hb' & Hu). destruct (co_chunk _ _ Hok b c Hb') as [_ _ Hn _ _].
    exists c. split; [|lia]. apply I3; [|lia]. by rewrite F2. }
  intros _ s4 (Hok4 & C4 & S4 & B4 & Q4). split_and!.
  - split; [by rewrite S4, S3, S2|done|]. intros b c Hb. destruct (B4 b c Hb) as [Hb3 Hnf].
    destruct (B3 b c Hb3) as [?|Hb2]; [done|]. by destruct (B2 b c Hb2).
  - trans s2; [exact C2|]. by trans s3.
  - intros q Hq. rewrite Q4, Q3, Q2 by set_solver. done.
Qed.

Lemma recycle_ok s live p :
  pool_down s live → p ∈ live →
  wp (recycle_object (pool_tid s) p) (λ _ s', pool_down s' (live ∖ {[p]}) ∧ same_config s s' ∧
    ∀ q, q ∈ live ∖ {[p]} → objs s' !! q = objs s !! q) s.
Proof.
  intros [Hs Hok Hb] Hp. assert (live = {[p]} ∪ live ∖ {[p]}) as Elive by (apply union_difference_L; set_solver).
  set (live' := live ∖ {[p]}) in *. assert (p ∉ live') as Hp' by set_solver.
  rewrite Elive, elements_union_singleton in Hok by done.
  destruct (held_address _ _ p Hok) as (b & c & Hbc & Ha & _); [set_solver|]. unfold recycle_object, get_chunk at 1.
  do 5 wp_step. rewrite Ha. eapply wp_need; [done|]. wp_step.
  apply wp_check; [apply Z.eqb_eq; by destruct (co_chunk _ _ Hok b c Hbc)|].
  eapply wp_mono; [by apply drop_ok|]. intros _ s' [Hok' [C S] B _ Q]. split_and!; [|done|intros q Hq; apply Q; set_solver].
  split; [by rewrite S|done|]. intros b' c' Hb'. destruct (B b' c' Hb') as [?|?]; [done|by eapply Hb].
Qed.

(** ** The pool of a thread, from its first use to its end *)

Record pool_unborn (s : tls) : Prop := {
  pu_state : constructed s = false ∧ shutdown s = false;
  pu_heap : heap s = ∅ }.

Definition tls_ok (clean : T → Prop) (tid : Z) (s : tls) (live : gset Z) : Prop :=
  pool_unborn s ∧ live = ∅ ∨ pool_ok clean s live ∧ pool_tid s = tid ∨ pool_down s live ∧ pool_tid s = tid.

Lemma construct_ok clean tid s :
  8 <= sizeof_T <= MAX_CHUNK_SIZE - sizeof_LocalChunk → pool_unborn s →
  wp (construct_pool tid) (λ _ s', pool_ok clean s' ∅ ∧ pool_tid s' = tid) s.
Proof.
  intros Hsz [[Hc Hsh] Hh]. destruct (geometry_ok _ Hsz) as (cs & Hcs & Hg). unfold construct_pool. wp_step.
  apply wp_check; [apply Z.leb_le; lia|]. wp_step. eapply wp_need; [done|]. wp_step. split; [|done].
  split; [done| | |].
  - split; cbn; rewrite ?Hh; [done|done|constructor|by intros ? ?%not_elem_of_nil].
  - split; cbn; rewrite ?Hh; [by left|done|by intros ? ?%not_elem_of_nil|constructor|done].
  - by intros ? ? ?%not_elem_of_nil.
Qed.

(** Two objects in use do not overlap. *)
Lemma held_apart s held p q :
  chunks_ok s held → p ∈ held → q ∈ held → p ≠ q → p + sizeof_T <= q ∨ q + sizeof_T <= p.
Proof.
  intros [Hg Hc Hn Hs] Hp Hq Hne. destruct (Hs p Hp) as (b & c & i & Hb & Hi & -> & _).
  destruct (Hs q Hq) as (b' & c' & j & Hb' & Hj & -> & _).
  destruct (Hc b c Hb) as [[Hr Hm] _ Hnum _ _]. destruct (Hc b' c' Hb') as [[Hr' Hm'] _ Hnum' _ _].
  destruct Hg as [(k & Hk & Ek) Hnn Hfit Hsz]. unfold slot, sizeof_LocalChunk in *.
  destruct (decide (b = b')) as [<- |Hbb].
  - assert (i ≠ j) by congruence. destruct (Z.lt_ge_cases i j); [left|right]; nia.
  - apply Z.mod_divide in Hm as [x ->]; [|lia]. apply Z.mod_divide in Hm' as [y ->]; [|lia].
    assert (0 < chunk_size s) by lia. destruct (Z.lt_ge_cases x y); [left|right].
    + assert (x * chunk_size s + chunk_size s <= y * chunk_size s) by nia. nia.
    + assert (x ≠ y) by congruence. assert (y * chunk_size s + chunk_size s <= x * chunk_size s) by nia. nia.
Qed.

Lemma singleton_ok clean tid s live :
  8 <= sizeof_T <= MAX_CHUNK_SIZE - sizeof_LocalChunk → tls_ok clean tid s live →
  wp (singleton tid) (λ b s1, if b : bool
    then pool_ok clean s1 live ∧ pool_tid s1 = tid ∧ ∀ q, q ∈ live → objs s1 !! q = objs s !! q
    else s1 = s ∧ pool_down s live ∧ pool_tid s = tid) s.
Proof.
  intros Hsz Hs. unfold singleton. do 2 wp_step. destruct Hs as [[Hu ->] | [[Hok Ht]|[Hd Ht]]].
  - destruct (pu_state _ Hu) as [-> ->]. cbn [negb when]. wp_step.
    eapply wp_mono; [by apply (construct_ok clean)|]. intros _ s1 [Hok Ht]. wp_step. split_and!; [done|done|set_solver].
  - destruct (po_up _ _ _ Hok) as [-> ->]. cbn [negb when]. by do 3 wp_step.
  - rewrite (pd_shut _ _ Hd). by wp_step.
Qed.

Lemma tls_nonnull clean tid s live p : tls_ok clean tid s live → p ∈ live → p ≠ 0.
Proof.
  clear construct. intros Hs Hp. assert (∃ l, chunks_ok s l ∧ p ∈ l) as (l & Hok & Hin).
  { destruct Hs as [[? ->] | [[[_ Hok _ _] _]|[[_ Hok _] _]]]; [set_solver|eexists; split; [done|set_solver]..]. }
  destruct (co_slot _ _ Hok p Hin) as (b & c & i & Hb & Hi & -> & _). destruct (co_chunk _ _ Hok b c Hb).
  pose proof (geo_obj _ _ _ (co_geo _ _ Hok)). unfold slot, sizeof_LocalChunk. nia.
Qed.

(** C24: an object the pool hands out is not in use and overlaps none that is; it holds a
    default constructed value or one that satisfies what its last user left; the objects in
    use keep their values. None is handed out only when memory is exhausted or the thread is
    exiting. Returning an object that is out always succeeds, at any time in the life of the
    thread, and takes exactly that object back. *)
Theorem object_pool_safe clean tid s live :
  8 <= sizeof_T <= MAX_CHUNK_SIZE - sizeof_LocalChunk → memalign_ok → clean construct → tls_ok clean tid s live →
  wp (get_tls_object tid) (λ p s',
    (∀ q, q ∈ live → objs s' !! q = objs s !! q) ∧
    (p = 0 ∧ tls_ok clean tid s' live ∧
       (shutdown s = true ∨ ∃ n size used, posix_memalign n size used = None) ∨
     p ≠ 0 ∧ p ∉ live ∧ tls_ok clean tid s' ({[p]} ∪ live) ∧ (∃ x, objs s' !! p = Some x ∧ clean x) ∧
       ∀ q, q ∈ live → p + sizeof_T <= q ∨ q + sizeof_T <= p)) s ∧
  ∀ p x, p ∈ live → objs s !! p = Some x → clean x →
    wp (return_tls_object tid p) (λ _ s', tls_ok clean tid s' (live ∖ {[p]}) ∧
      ∀ q, q ∈ live ∖ {[p]} → objs s' !! q = objs s !! q) s.
Proof.
  intros Hsz Hm Hcl Hs. split.
  - unfold get_tls_object. wp_step. eapply wp_mono; [by apply singleton_ok|].
    intros [] s1; [intros (Hok1 & Ht & Ho)|intros (-> & Hd & Ht)].
    + eapply wp_mono; [by apply get_ok|].
      intros p s' [(Hp & Hnl & Hok & Hx & Hq & (?&?&Htid&?))|(-> & Hok & Eo & (?&?&Htid&?) & Hnone)].
      * split; [intros q Hq'; by rewrite Hq, Ho|]. right. split_and!; [done|done|right; left; split; [done|congruence]|done|].
        intros q Hq'. apply (held_apart s' _ _ _ (po_chunks _ _ _ Hok)); set_solver.
      * split; [intros q Hq; by rewrite Eo, Ho|]. left. split_and!; [done|right; left; split; [done|congruence]|eauto].
    + wp_step. split; [done|]. left. split_and!; [done|by right; right|left; apply Hd].
  - intros p x Hp Hx Hclx. unfold return_tls_object. rewrite (proj2 (Z.eqb_neq _ _) (tls_nonnull _ _ _ _ _ Hs Hp)).
    wp_step. eapply wp_mono; [by apply singleton_ok|]. intros [] s1; [intros (Hok1 & Ht & Ho)|intros (-> & Hd & Ht)].
    + eapply wp_mono; [eapply return_ok; [done..|by rewrite Ho|done]|]. intros _ s' (Hok' & Hq & (?&?&Htid&?)). split.
      * right. left. split; [done|congruence].
      * intros q Hq'. rewrite Hq, Ho by set_solver. done.
    + subst tid. eapply wp_mono; [by apply recycle_ok|].
      intros _ s' (Hd' & (?&?&Htid&?) & Hq). split; [|done]. right. right. by split.
Qed.

(** C25: a thread that ends leaks nothing. The destructor keeps the chunks that still have
    objects out and releases every other one once; when the objects that were out come back,
    in any order, every chunk has been released. *)
Theorem object_pool_no_leak clean tid s ps :
  8 <= sizeof_T <= MAX_CHUNK_SIZE - sizeof_LocalChunk → NoDup ps →
  pool_ok clean s (list_to_set ps) → pool_tid s = tid →
  wp (destroy_pool;; for_all (return_tls_object tid) ps) (λ _ s', heap s' = ∅) s.
Proof.
  clear construct. intros Hsz Hnd Hok Ht. wp_step. eapply wp_mono; [by eapply destroy_pool_ok|].
  intros _ s1 (Hd & (_&_&Ht1&_) & _). rewrite Ht in Ht1. clear s Hok Ht. revert s1 Hd Ht1.
  induction ps as [|p ps IH]; intros s Hd Ht; cbn [for_all].
  - wp_step. by apply down_empty.
  - apply NoDup_cons in Hnd as [Hp Hnd]. wp_step. unfold return_tls_object.
    assert (p ≠ 0) as Hp0 by (apply (tls_nonnull (λ _, True) tid s (list_to_set (p :: ps))); [by right; right|set_solver]).
    rewrite (proj2 (Z.eqb_neq _ _) Hp0). unfold singleton. do 3 wp_step. rewrite (pd_shut _ _ Hd). wp_step.
    subst tid. eapply wp_mono; [apply recycle_ok; [done|set_solver]|]. intros _ s' (Hd' & (_&_&Ht'&_) & _).
    apply IH; [done| |done].
    replace (list_to_set ps) with (list_to_set (p :: ps) ∖ {[p]} : gset Z); [done|]. apply set_eq. set_solver.
Qed.

(** The values of the objects that are out belong to their users. *)
Definition set_objs (m : gmap Z T) (s : tls) : tls := s <| objs := m |>.

Lemma set_objs_ok clean s live m :
  pool_ok clean s live → (∀ p, p ∉ live → m !! p = objs s !! p) → (∀ p, p ∈ live → is_Some (m !! p)) →
  pool_ok clean (set_objs m s) live.
Proof.
  intros [Hup [Hg Hc Hn Hs] Hl Hcl] Hout Hin. pose proof (proj1 (NoDup_app _ _) Hn) as (_ & Hd & _).
  assert (∀ p, p ∈ free_obj s → p ∉ live) as Hcache.
  { intros p Hp Hpl. apply (Hd p Hp). by apply elem_of_elements. }
  split; [done| |by destruct Hl|].
  - split; [done| |done|].
    + intros b c Hb. destruct (Hc b c Hb). by split.
    + intros p Hp. destruct (Hs p Hp) as (b & c & i & Hb & Hi & E & Ho). exists b, c, i. split_and!; try done; try lia.
      cbn. apply elem_of_app in Hp as [Hp|Hp]; [rewrite Hout by (by apply Hcache); done|].
      apply Hin. by apply elem_of_elements.
  - intros p x Hp Hx. cbn in Hp, Hx. apply (Hcl p x Hp). rewrite <- Hout by (by apply Hcache). done.
Qed.

End pool.

(** For every object size the constructor accepts, the computed class is an index of the
    table of chunk sizes, the chunk has room for at least one object and no more than its
    16-bit counters can count, every object lies inside the chunk behind the header, two
    objects do not overlap, and masking the address of any of them gives the chunk. *)
Theorem object_pool_bounds sizeof_T b :
  8 <= sizeof_T <= MAX_CHUNK_SIZE - sizeof_LocalChunk →
  ∃ cs, k_size_class !! Z.to_nat (class_index sizeof_T) = Some cs ∧ cs <= MAX_CHUNK_SIZE ∧
    let n := (cs - sizeof_LocalChunk) `div` sizeof_T in
    1 <= n < 2 ^ 16 ∧
    (0 <= b < 2 ^ 64 → b mod cs = 0 → ∀ i, 0 <= i < n →
      b + sizeof_LocalChunk <= slot sizeof_T b i ∧ slot sizeof_T b i + sizeof_T <= b + cs ∧
      address cs (slot sizeof_T b i) = b ∧
      ∀ j, i < j → slot sizeof_T b i + sizeof_T <= slot sizeof_T b j).
Proof.
  intros Hs. destruct (geometry_ok sizeof_T Hs) as (cs & Hcs & Hg). exists cs. cbn zeta.
  pose proof Hg as [(k & Hk & Hp) Hn Hf _]. split_and!; [done| |lia|lia|].
  - rewrite Hp. change MAX_CHUNK_SIZE with (2 ^ 15). apply Z.pow_le_mono_r; lia.
  - intros Hb Hm i Hi. split_and!; [| |by eapply address_aligned|]; unfold slot, sizeof_LocalChunk in *; nia.
Qed.
Lemma object_pool_bounds_witness :
  ∃ cs, k_size_class !! Z.to_nat (class_index 100) = Some cs ∧ address cs (slot 100 (2 ^ 20) 3) = 2 ^ 20.
Proof.
  destruct (object_pool_bounds 100 (2 ^ 20)) as (cs & Hcs & _ & [_ H]); [by vm_compute|].
  exists cs. split; [exact Hcs|]. injection Hcs as <-. apply H; by vm_compute.
Defined.

(** ** What the pool promises its users

    A client that allocates and returns objects relies on these laws only. An object is
    promised while memory lasts ([oa_mem]); the clients do not test what they get. *)

Class ObjectAllocator (St T : Type) := {
  oa_get : ST St Z;
  oa_return : Z → ST St unit;
  oa_objs : St → gmap Z T;
  oa_store : gmap Z T → St → St;
  oa_clean : T → Prop;
  oa_ok : St → gset Z → Prop;
  oa_mem : St → Prop;
  oa_get_law s live : oa_ok s live → oa_mem s →
    wp oa_get (λ p s', p ≠ 0 ∧ p ∉ live ∧ oa_ok s' ({[p]} ∪ live) ∧
      (∃ x, oa_objs s' !! p = Some x ∧ oa_clean x) ∧ ∀ q, q ∈ live → oa_objs s' !! q = oa_objs s !! q) s;
  oa_return_law s live p x : oa_ok s live → p ∈ live → oa_objs s !! p = Some x → oa_clean x →
    wp (oa_return p) (λ _ s', oa_ok s' (live ∖ {[p]}) ∧
      ∀ q, q ∈ live ∖ {[p]} → oa_objs s' !! q = oa_objs s !! q) s;
  oa_live_law s live p : oa_ok s live → p ∈ live → p ≠ 0 ∧ is_Some (oa_objs s !! p);
  oa_store_law s live m : oa_ok s live → (∀ p, p ∉ live → m !! p = oa_objs s !! p) →
    (∀ p, p ∈ live → is_Some (m !! p)) → oa_ok (oa_store m s) live ∧ oa_objs (oa_store m s) = m }.

Section instance.
Context {T : Type} (construct : T) (sizeof_T : Z) (posix_memalign : nat → Z → gset Z → option Z).
Context (clean : T → Prop) (tid : Z).
Hypothesis size_ok : 8 <= sizeof_T <= MAX_CHUNK_SIZE - sizeof_LocalChunk.
Hypothesis memalign : memalign_ok posix_memalign.
Hypothesis construct_clean : clean construct.

(** A pool in use. *)
Definition in_use (s : TlsObjectPool) (live : gset Z) : Prop :=
  pool_ok (T := T) sizeof_T clean s live ∧ pool_tid s = tid.

(** The next chunk, should one be needed, can be had. *)
Definition chunk_available (s : TlsObjectPool (T := T)) : Prop :=
  posix_memalign (memalign_calls s) (chunk_size s) (dom (heap s)) ≠ None.

Lemma in_use_get s live :
  in_use s live → chunk_available s →
  wp (get_tls_object construct sizeof_T posix_memalign tid) (λ p s', p ≠ 0 ∧ p ∉ live ∧ in_use s' ({[p]} ∪ live) ∧
    (∃ x, objs s' !! p = Some x ∧ clean x) ∧ ∀ q, q ∈ live → objs s' !! q = objs s !! q) s.
Proof.
  intros [Hok Ht] Hmem. unfold get_tls_object, singleton. do 3 wp_step. destruct (po_up _ _ _ _ Hok) as [-> ->].
  cbn [negb when]. do 3 wp_step. eapply wp_mono; [by apply get_ok|].
  intros p s' [(Hp & Hnl & Hok' & Hx & Hq & (?&?&Htid&?))|(_ & _ & _ & _ & Hnone)]; [|by destruct Hmem].
  split_and!; try done. split; [done|congruence].
Qed.

Lemma in_use_live s live p : in_use s live → p ∈ live → p ≠ 0 ∧ is_Some (objs s !! p).
Proof.
  intros [Hok Ht] Hp. split.
  - eapply (tls_nonnull sizeof_T clean tid); [|done]. right. left. by split.
  - destruct (co_slot _ _ _ (po_chunks _ _ _ _ Hok) p) as (? & ? & ? & _ & _ & _ & ?); [set_solver|done].
Qed.

Lemma in_use_return s live p x :
  in_use s live → p ∈ live → objs s !! p = Some x → clean x →
  wp (return_tls_object sizeof_T tid p) (λ _ s', in_use s' (live ∖ {[p]}) ∧
    ∀ q, q ∈ live ∖ {[p]} → objs s' !! q = objs s !! q) s.
Proof.
  intros Hin Hp Hx Hcl. destruct (in_use_live s live p Hin Hp) as [Hp0 _]. destruct Hin as [Hok Ht].
  unfold return_tls_object. rewrite (proj2 (Z.eqb_neq _ _) Hp0). unfold singleton. do 3 wp_step.
  destruct (po_up _ _ _ _ Hok) as [-> ->]. cbn [negb when]. do 3 wp_step.
  eapply wp_mono; [by eapply return_ok|]. intros _ s' (Hok' & Hq & (?&?&Htid&?)). split; [|done].
  split; [done|congruence].
Qed.

#[export] Instance tls_allocator : ObjectAllocator TlsObjectPool T := {|
  oa_get := get_tls_object construct sizeof_T posix_memalign tid;
  oa_return := return_tls_object sizeof_T tid;
  oa_objs := objs; oa_store := set_objs; oa_clean := clean; oa_ok := in_use; oa_mem := chunk_available;
  oa_get_law := in_use_get; oa_return_law := in_use_return; oa_live_law := in_use_live;
  oa_store_law s live m '(conj Hok Ht) Hout Hin :=
    conj (conj (set_objs_ok sizeof_T clean s live m Hok Hout Hin) Ht) eq_refl |}.
End instance.

(** ** Runs *)

(** Chunks at 1 MB, 2 MB, ... as long as they are free. *)
Definition demo_memalign (n : nat) (size : Z) (used : gset Z) : option Z :=
  let a := Z.of_nat (S n) * 2 ^ 20 in
  if bool_decide (a ∉ used ∧ a < 2 ^ 64 ∧ a mod size = 0) then Some a else None.
Lemma demo_memalign_ok : memalign_ok demo_memalign.
Proof. intros n size used a. unfold demo_memalign. case_bool_decide as H; [|done]. intros [= <-]. split_and!; [lia|naive_solver..]. Qed.

Definition demo_tls (cache : nat) : TlsObjectPool (T := Z) :=
  MkTlsPool ∅ ∅ 0 [] 0 [] 0 0 0 cache false false 0.
Abbreviation demo_get := (get_tls_object 0 40 demo_memalign 7).
Abbreviation demo_return := (return_tls_object 40 7).

Lemma object_pool_safe_witness :
  wp demo_get (λ p s', p = 2 ^ 20 + 16 → ∃ live, tls_ok 40 (λ _, True) 7 s' live ∧ p ∈ live) (demo_tls 4).
Proof.
  eapply wp_mono.
  - refine (proj1 (object_pool_safe 0 40 demo_memalign (λ _, True) 7 (demo_tls 4) ∅ _ demo_memalign_ok I _)).
    + by vm_compute.
    + left. by split.
  - cbv beta. intros p s' (_ & [(-> & _)|(_ & _ & Hok & _)]) E; [done|]. exists ({[p]} ∪ ∅). split; [done|set_solver].
Defined.

(** A thread that ends while one object is out. *)
Definition demo_one : TlsObjectPool (T := Z) := match demo_get (demo_tls 4) with Ok (_, s) => s | Err _ => demo_tls 4 end.
Lemma demo_one_run : demo_get (demo_tls 4) = Ok (2 ^ 20 + 16, demo_one).
Proof. vm_compute. reflexivity. Qed.
#[local] Opaque demo_one.

Lemma demo_one_ok : pool_ok 40 (λ _, True) demo_one (list_to_set [2 ^ 20 + 16]) ∧ pool_tid demo_one = 7.
Proof.
  refine (wp_run _ (λ p s', p = 2 ^ 20 + 16 → pool_ok 40 (λ _, True) s' (list_to_set [p]) ∧ pool_tid s' = 7)
    _ _ _ demo_one_run _ eq_refl).
  unfold get_tls_object. wp_step. eapply wp_mono; [apply singleton_ok with (clean := λ _, True) (live := ∅)|].
  - by vm_compute.
  - left. by split.
  - intros [] s1; [intros (Hok & Ht & _)|intros (-> & [Hs _ _] & _); done].
    eapply wp_mono; [exact (get_ok 0 40 demo_memalign _ _ _ Hok I demo_memalign_ok)|].
    intros p s' [(_ & _ & Hok' & _ & _ & (_&_&Ht'&_))|(-> & _)] E; [|done]. split; [done|congruence].
Qed.

Lemma object_pool_no_leak_witness :
  wp (destroy_pool;; for_all demo_return [2 ^ 20 + 16]) (λ _ s', heap s' = ∅) demo_one.
Proof.
  destruct demo_one_ok as [Hok Ht].
  apply object_pool_no_leak with (clean := λ _, True); [by vm_compute|apply NoDup_singleton|exact Hok|exact Ht].
Defined.

(** The limit of the object cache is read on every return, the array behind it is
    allocated once. Raising the limit after the pool was used makes a return write past the
    end of the array, where the comment promises that the call has no effect. *)
Theorem late_cache_limit_overflows :
  (p ← demo_get; q ← demo_get; demo_return p;; demo_return q) (demo_tls 1) ≠ Err OutOfBounds ∧
  (p ← demo_get; q ← demo_get; set_tls_pool_object_max_size 2;; demo_return p;; demo_return q) (demo_tls 1) =
    Err OutOfBounds.
Proof. vm_compute. split; [discriminate|reflexivity]. Qed.
