(* ===== verification/TimerManager.v ===== *)
(** * Request timers (src/src/common/timer_manager.h, timer_manager.cc)

    A timer manager keeps its timers in a doubly linked list, oldest first; the nodes are
    objects of the thread-local pool, used through the interface [ObjectAllocator] only. The
    clock is read by the caller of the model's operations ([now]); the callback is a
    parameter that may use the pool, as the callbacks of the code do when they start a timer
    of another manager, but not this manager. The arguments passed to it are recorded. *)

From Stdlib Require Import ZArith Lia Sorted.
From stdpp Require Import prelude gmap.
From S2P Require Import Prelude LinkedList ObjectPool.
Open Scope Z_scope.

Record TimeoutContext := MkTimeout { onfired_ts : Z; timer_arg : Z; t_next : Z; t_prev : Z }.
#[export] Instance eta_TimeoutContext : Eta TimeoutContext := λ t,
  MkTimeout (onfired_ts t) (timer_arg t) (t_next t) (t_prev t).
#[export, refine] Instance TimeoutContext_snode : SNode TimeoutContext :=
  {| nd_next := t_next; set_next v t := t <| t_next := v |> |}.
Proof. done. Defined.
#[export, refine] Instance TimeoutContext_dnode : DNode TimeoutContext :=
  {| nd_prev := t_prev; set_prev v t := t <| t_prev := v |> |}.
Proof. all: done. Defined.

(** [TimeoutContext::Reset] *)
Definition ctx_Reset (t : TimeoutContext) : TimeoutContext := t <| t_next := 0 |> <| t_prev := 0 |>.
(** What a context from the pool looks like: its links are null. *)
Definition unlinked (t : TimeoutContext) : Prop := t_next t = 0 ∧ t_prev t = 0.

Section timer.
Context {St : Type} `{OA : ObjectAllocator St TimeoutContext}.
Context (timeout_cb_ : Z → ST St unit).

(** The pool keeps contexts that were reset. *)
Hypothesis clean_unlinked : ∀ t, oa_clean t ↔ unlinked t.
(** The callback keeps the pool sound and leaves the objects it does not own alone. *)
Hypothesis callback_frame : ∀ arg st live, oa_ok st live →
  wp (timeout_cb_ arg) (λ _ st', ∃ live', live ⊆ live' ∧ oa_ok st' live' ∧
    ∀ q, q ∈ live → oa_objs st' !! q = oa_objs st !! q) st.

Record TimerManager := MkTimer {
  alloc : St; timeout_ts_ : Z; head_ : Z; tail_ : Z; fired : list Z }.
#[local] Instance eta_TimerManager : Eta TimerManager := λ s,
  MkTimer (alloc s) (timeout_ts_ s) (head_ s) (tail_ s) (fired s).
Abbreviation tm := TimerManager.

Definition ctxs (s : tm) : gmap Z TimeoutContext := oa_objs (alloc s).
Definition with_alloc {A} (m : ST St A) : ST tm A := λ s,
  match m (alloc s) with Ok (a, st) => Ok (a, s <| alloc := st |>) | Err e => Err e end.
Definition get_ctx (p : Z) : ST tm TimeoutContext := s ← get; need NullDeref (ctxs s !! p).
Definition mod_ctx (p : Z) (f : TimeoutContext → TimeoutContext) : ST tm unit :=
  get_ctx p;; modify (λ s, s <| alloc ::= oa_store (alter f p (ctxs s)) |>).

Definition AddTimer (now arg : Z) : ST tm Z :=
  ctx ← with_alloc oa_get;
  s ← get;
  mod_ctx ctx (λ t, t <| onfired_ts := u64 (now + timeout_ts_ s) |>);;
  mod_ctx ctx (λ t, t <| timer_arg := arg |>);;
  (if head_ s =? 0 then modify (λ s, s <| head_ := ctx |> <| tail_ := ctx |>)
   else
     mod_ctx (tail_ s) (λ t, t <| t_next := ctx |>);;
     mod_ctx ctx (λ t, t <| t_prev := tail_ s |>);;
     modify (λ s, s <| tail_ := ctx |>));;
  mret ctx.

(** Take a node out of the list: the only one, the first, the last or one in the middle. *)
Definition detach (ctx : Z) : ST tm unit :=
  s ← get;
  if (ctx =? head_ s) && (ctx =? tail_ s) then modify (λ s, s <| head_ := 0 |> <| tail_ := 0 |>)
  else if ctx =? head_ s then
    t ← get_ctx (head_ s);
    modify (λ s, s <| head_ := t_next t |>);;
    mod_ctx (t_next t) (λ t, t <| t_prev := 0 |>)
  else if ctx =? tail_ s then
    t ← get_ctx (tail_ s);
    modify (λ s, s <| tail_ := t_prev t |>);;
    mod_ctx (t_prev t) (λ t, t <| t_next := 0 |>)
  else
    t ← get_ctx ctx;
    mod_ctx (t_prev t) (λ p, p <| t_next := t_next t |>);;
    t ← get_ctx ctx;
    mod_ctx (t_next t) (λ n, n <| t_prev := t_prev t |>).

Definition RemoveTimer (ctx : Z) : ST tm unit :=
  check (negb (ctx =? 0));;
  detach ctx;;
  mod_ctx ctx ctx_Reset;;
  with_alloc (oa_return ctx).

(** The body of the loop in [HandleTimeout] for a timer that is due. *)
Definition fire_head (old_head : Z) (h : TimeoutContext) : ST tm unit :=
  modify (λ s, s <| head_ := t_next h |>);;
  with_alloc (timeout_cb_ (timer_arg h));;
  modify (λ s, s <| fired ::= λ l, l ++ [timer_arg h] |>);;
  mod_ctx old_head ctx_Reset;;
  with_alloc (oa_return old_head).
(** [while (head_)] of [HandleTimeout]. *)
Fixpoint timeout_loop (fuel : nat) (now : Z) : ST tm unit :=
  match fuel with
  | O => raise OutOfFuel
  | S fuel =>
      s ← get;
      if head_ s =? 0 then mret ()
      else
        h ← get_ctx (head_ s);
        if now <? onfired_ts h then mret ()
        else fire_head (head_ s) h;; timeout_loop fuel now
  end.
Definition HandleTimeout (now : Z) : ST tm unit :=
  s ← get;
  timeout_loop (S (size (ctxs s))) now;;
  s ← get;
  if negb (head_ s =? 0) then mod_ctx (head_ s) (λ t, t <| t_prev := 0 |>)
  else modify (λ s, s <| tail_ := head_ s |>).

Fixpoint clear_loop (fuel : nat) : ST tm (list Z) :=
  match fuel with
  | O => raise OutOfFuel
  | S fuel =>
      s ← get;
      if head_ s =? 0 then mret []
      else
        h ← get_ctx (head_ s);
        RemoveTimer (head_ s);;
        rest ← clear_loop fuel;
        mret (timer_arg h :: rest)
  end.
Definition ClearAndGetUserArg : ST tm (list Z) := s ← get; clear_loop (S (size (ctxs s))).

(** ** The state as its parts *)

(** The pool is sound with the objects [live] out, their memory is [m], and the members of
    the manager are the rest. *)
Definition st_is (s : tm) (live : gset Z) (m : gmap Z TimeoutContext) (hd tl dur : Z) (fi : list Z) : Prop :=
  oa_ok (alloc s) live ∧ ctxs s = m ∧ head_ s = hd ∧ tail_ s = tl ∧ timeout_ts_ s = dur ∧ fired s = fi.

Lemma wp_get_ctx s live m hd tl dur fi p t Q :
  st_is s live m hd tl dur fi → m !! p = Some t → Q t s → wp (get_ctx p) Q s.
Proof. intros (_ & <- & _) Hp HQ. unfold get_ctx. do 2 wp_step. by eapply wp_need. Qed.

Lemma wp_mod_ctx s live m hd tl dur fi p f (Q : unit → tm → Prop) :
  st_is s live m hd tl dur fi → p ∈ live →
  (∀ s', st_is s' live (alter f p m) hd tl dur fi → Q () s') → wp (mod_ctx p f) Q s.
Proof.
  intros Hs Hp HQ. pose proof Hs as (Hok & <- & ? & ? & ? & ?). destruct (oa_live_law _ _ p Hok Hp) as [_ [t Ht]].
  unfold mod_ctx. wp_step. eapply wp_get_ctx; [done..|]. wp_step. apply HQ.
  destruct (oa_store_law (alloc s) live (alter f p (ctxs s)) Hok) as [Hok' E].
  - intros q Hq. by rewrite lookup_alter_ne by congruence.
  - intros q Hq. destruct (oa_live_law _ _ q Hok Hq) as [_ Hx]. rewrite lookup_alter. case_decide; [by rewrite fmap_is_Some|done].
  - split_and!; [exact Hok'|exact E|done..].
Qed.

Lemma wp_with_get s live m hd tl dur fi (Q : Z → tm → Prop) :
  st_is s live m hd tl dur fi → oa_mem (alloc s) →
  (∀ p t m' s', p ≠ 0 → p ∉ live → m' !! p = Some t → oa_clean t → (∀ q, q ∈ live → m' !! q = m !! q) →
     st_is s' ({[p]} ∪ live) m' hd tl dur fi → Q p s') → wp (with_alloc oa_get) Q s.
Proof.
  intros (Hok & <- & ? & ? & ? & ?) Hmem HQ. pose proof (oa_get_law _ _ Hok Hmem) as Hlaw. unfold wp, with_alloc in *.
  destruct (oa_get (alloc s)) as [[p st]|]; [|done]. destruct Hlaw as (Hp & Hnl & Hok' & (t & Ht & Hcl) & Hq).
  eapply HQ; [done|done|exact Ht|done|exact Hq|]. by split_and!.
Qed.

Lemma wp_with_return s live m hd tl dur fi p t (Q : unit → tm → Prop) :
  st_is s live m hd tl dur fi → p ∈ live → m !! p = Some t → oa_clean t →
  (∀ m' s', (∀ q, q ∈ live ∖ {[p]} → m' !! q = m !! q) → st_is s' (live ∖ {[p]}) m' hd tl dur fi → Q () s') →
  wp (with_alloc (oa_return p)) Q s.
Proof.
  intros (Hok & <- & ? & ? & ? & ?) Hp Ht Hcl HQ. pose proof (oa_return_law _ _ _ _ Hok Hp Ht Hcl) as Hlaw. unfold wp, with_alloc in *.
  destruct (oa_return p (alloc s)) as [[[] st]|]; [|done]. destruct Hlaw as (Hok' & Hq). eapply HQ; [exact Hq|]. by split_and!.
Qed.

(** ** The abstract timers *)

(** A timer: its context, the argument of the callback and when it is due. *)
Record timer := MkT { t_ctx : Z; t_arg : Z; t_due : Z }.
Definition ids (l : list timer) : list Z := t_ctx <$> l.

Definition content (m : gmap Z TimeoutContext) (l : list timer) : Prop :=
  ∀ x, x ∈ l → ∃ c, m !! t_ctx x = Some c ∧ timer_arg c = t_arg x ∧ onfired_ts c = t_due x.

(** The manager holds the timers [l], oldest first; [others] are objects of the pool that
    belong to other users. *)
Record tm_ok (s : tm) (l : list timer) (others : gset Z) : Prop := {
  tk_pool : oa_ok (alloc s) (others ∪ list_to_set (ids l));
  tk_apart : ∀ p, p ∈ ids l → p ∉ others;
  tk_nodup : NoDup (ids l);
  tk_list : dll (ctxs s) (head_ s) (ids l);
  tk_tail : tail_ s = lastp 0 (ids l);
  tk_data : content (ctxs s) l }.

Lemma content_agree m m' l :
  (∀ p, p ∈ ids l → ∀ c, m !! p = Some c → ∃ c', m' !! p = Some c' ∧ timer_arg c' = timer_arg c ∧ onfired_ts c' = onfired_ts c) →
  content m l → content m' l.
Proof.
  intros Hm Hc x Hx. destruct (Hc x Hx) as (c & Hl & Ha & Ht).
  destruct (Hm (t_ctx x) (list_elem_of_fmap_2 _ _ _ Hx) c Hl) as (c' & ? & ? & ?). exists c'. split_and!; congruence.
Qed.
Lemma content_same m m' l : (∀ p, p ∈ ids l → m' !! p = m !! p) → content m l → content m' l.
Proof. intros Hm. apply content_agree. intros p Hp c Hc. exists c. by rewrite Hm. Qed.

(** Writing links leaves the data alone. *)
Lemma content_alter m l p f :
  (∀ t, timer_arg (f t) = timer_arg t ∧ onfired_ts (f t) = onfired_ts t) → content m l → content (alter f p m) l.
Proof.
  intros Hf. apply content_agree. intros q Hq c Hc. rewrite lookup_alter. case_decide; subst.
  - exists (f c). rewrite Hc. split; [done|]. apply Hf.
  - by exists c.
Qed.

Lemma ids_app l1 l2 : ids (l1 ++ l2) = ids l1 ++ ids l2.
Proof. apply fmap_app. Qed.
Lemma tm_is s l others :
  tm_ok s l others →
  st_is s (others ∪ list_to_set (ids l)) (ctxs s) (head_ s) (lastp 0 (ids l)) (timeout_ts_ s) (fired s).
Proof. intros [Hp Ha Hn Hl Ht Hd]. by split_and!. Qed.

(** What other users of the pool see of an operation. *)
Definition frame (others : gset Z) (s s' : tm) : Prop :=
  timeout_ts_ s' = timeout_ts_ s ∧ ∀ q, q ∈ others → ctxs s' !! q = ctxs s !! q.

(** The state after a context has been put at the end of the list. *)
Lemma appended s s' l others p arg ts m :
  NoDup (ids l) → (∀ q, q ∈ ids l → q ∉ others) → p ∉ others ∪ list_to_set (ids l) →
  st_is s' ({[p]} ∪ (others ∪ list_to_set (ids l))) m (hdp 0 (ids l ++ [p])) p (timeout_ts_ s) (fired s) →
  dseg m 0 (ids l ++ [p]) 0 → content m (l ++ [MkT p arg ts]) → (∀ q, q ∈ others → m !! q = ctxs s !! q) →
  tm_ok s' (l ++ [MkT p arg ts]) others ∧ fired s' = fired s ∧ frame others s s'.
Proof.
  intros Hn Ha Hnl (Hok & <- & Eh & Et & Ed & Ef) Hds Hc Hq. split_and!; [|done|by split].
  split; rewrite ?ids_app; cbn [ids fmap list_fmap t_ctx].
  - eapply eq_rect; [exact Hok|]. apply set_eq. set_solver.
  - set_solver.
  - apply NoDup_app. split_and!; [done|set_solver|apply NoDup_singleton].
  - by split.
  - by rewrite lastp_snoc.
  - done.
Qed.

Lemma AddTimer_ok s l others now arg :
  tm_ok s l others → oa_mem (alloc s) →
  wp (AddTimer now arg) (λ p s', tm_ok s' (l ++ [MkT p arg (u64 (now + timeout_ts_ s))]) others ∧
    fired s' = fired s ∧ frame others s s') s.
Proof.
  intros Hok Hmem. pose proof (tm_is _ _ _ Hok) as Hs. destruct Hok as [Hp Ha Hn Hl Ht Hd].
  unfold AddTimer. wp_step. eapply wp_with_get; [done..|]. clear Hs. intros p t m' s1 Hp0 Hnl Hpt Hcl Hm Hs.
  apply clean_unlinked in Hcl as [Hx Hy]. assert (p ∉ ids l) as Hpl by set_solver. do 2 wp_step.
  assert (head_ s1 = head_ s ∧ tail_ s1 = lastp 0 (ids l) ∧ timeout_ts_ s1 = timeout_ts_ s) as (-> & -> & ->) by (by destruct Hs as (?&?&?&?&?&?)).
  wp_step. eapply wp_mod_ctx; [done|set_solver|]. clear s1 Hs. intros s1 Hs.
  wp_step. eapply wp_mod_ctx; [done|set_solver|]. clear s1 Hs. intros s1 Hs.
  set (ts := u64 (now + timeout_ts_ s)) in *. revert Hs. set (m1 := alter _ p _). intros Hs.
  assert (m1 !! p = Some (MkTimeout ts arg 0 0)) as Hp1.
  { unfold m1. rewrite !lookup_alter_eq, Hpt. cbn. by rewrite Hx, Hy. }
  assert (∀ q, q ∈ others ∪ list_to_set (ids l) → m1 !! q = ctxs s !! q) as Hm1.
  { intros q Hq. unfold m1. rewrite !lookup_alter_ne by set_solver. by apply Hm. }
  clearbody m1. assert (dll m1 (head_ s) (ids l)) as Hl1 by (eapply dll_agree; [|done]; intros; apply Hm1; set_solver).
  assert (content m1 l) as Hd1 by (eapply content_same; [|done]; intros; apply Hm1; set_solver).
  assert (content m1 [MkT p arg ts]) as Hdp by (intros x ->%list_elem_of_singleton; eexists; by split_and!).
  destruct (Z.eqb_spec (head_ s) 0) as [E|E].
  - rewrite E in Hl1. apply dll_null in Hl1 as El. rewrite El in *. apply fmap_nil_inv in El as ->.
    do 3 wp_step. apply (appended s _ [] others p arg ts m1); [done..| | | |].
    + by destruct Hs as (?&?&?&?&?&?); split_and!.
    + split; [done|]. split; [by eexists|done].
    + done.
    + intros q Hq. apply Hm1. set_solver.
  - assert (ids l ≠ []) as Hne. { intros El. destruct Hl as [Eh _]. by rewrite El in Eh. }
    pose proof (lastp_in 0 _ Hne) as Hin. do 2 wp_step. eapply wp_mod_ctx; [done|set_solver|]. clear s1 Hs. intros s1 Hs.
    wp_step. eapply wp_mod_ctx; [done|set_solver|]. clear s1 Hs. intros s1 Hs. do 2 wp_step.
    apply (appended s _ l others p arg ts (alter (λ t, t <| t_prev := lastp 0 (ids l) |>) p (alter (λ t, t <| t_next := p |>) (lastp 0 (ids l)) m1))); [done..| | | |].
    + destruct Hs as (?&?&Eh&?&?&?). split_and!; try done. cbn. rewrite Eh. destruct Hl as [-> _]. by destruct (ids l).
    + assert (dll m1 p [p]) as Hlp by (split; [done|]; split; [done|]; split; [by eexists|done]).
      pose proof (dll_concat m1 p (head_ s) [p] (ids l)) as Hcat. unfold set_prev_at in Hcat.
      rewrite (proj2 (Z.eqb_neq _ _) Hp0) in Hcat. apply Hcat; [|done..].
      apply NoDup_app. split_and!; [done|set_solver|apply NoDup_singleton].
    + do 2 (apply content_alter; [done|]). intros x [Hx'|Hx']%elem_of_app; [by apply Hd1|by apply Hdp].
    + intros q Hq. rewrite !lookup_alter_ne by set_solver. apply Hm1. set_solver.
Qed.

(** ** Removing a timer *)

Lemma hdp_cons_in i1 (p : Z) i2 : p ∉ i1 → (p = hdp 0 (i1 ++ p :: i2) ↔ i1 = []).
Proof. intros Hp. destruct i1 as [|q i1]; cbn; [done|]. split; [|done]. set_solver. Qed.
Lemma lastp_cons_in i1 (p : Z) i2 : p ∉ i2 → (p = lastp 0 (i1 ++ p :: i2) ↔ i2 = []).
Proof.
  intros Hp. split; [|intros ->; by rewrite lastp_snoc]. intros E. destruct i2 as [|q i2 _] using rev_ind; [done|].
  rewrite app_comm_cons, app_assoc, lastp_snoc in E. set_solver.
Qed.
Lemma lastp_app prv (l1 l2 : list Z) : lastp prv (l1 ++ l2) = lastp (lastp prv l1) l2.
Proof. unfold lastp. rewrite last_app. by destruct (last l2), (last l1). Qed.

Lemma detach_ok s live m i1 p i2 c dur fi :
  st_is s live m (hdp 0 (i1 ++ p :: i2)) (lastp 0 (i1 ++ p :: i2)) dur fi →
  dll m (hdp 0 (i1 ++ p :: i2)) (i1 ++ p :: i2) → NoDup (i1 ++ p :: i2) → (∀ q, q ∈ i1 ++ p :: i2 → q ∈ live) →
  m !! p = Some c →
  wp (detach p) (λ _ s', st_is s' live (unlink m (t_prev c) (t_next c)) (hdp 0 (i1 ++ i2)) (lastp 0 (i1 ++ i2)) dur fi) s.
Proof.
  intros Hs Hl Hnd Hin Hc. destruct (dll_node _ _ _ _ _ _ Hl Hc) as (Ep & Ex & _). cbn in Ep, Ex.
  pose proof Hnd as (N1 & N2 & [N3 N4]%NoDup_cons)%NoDup_app. assert (p ∉ i1) as Hp1 by (intros ?; by apply (N2 p); [|left]).
  assert (∀ q, q ∈ i1 ++ p :: i2 → q ≠ 0) as Hnz by (intros q Hq; by eapply dseg_lookup; [apply Hl|]).
  unfold detach. do 2 wp_step. pose proof Hs as (_ & _ & -> & -> & _).
  assert ((p =? hdp 0 (i1 ++ p :: i2)) = bool_decide (i1 = [])) as ->.
  { apply eq_bool_prop_intro. rewrite bool_decide_spec, Is_true_true, Z.eqb_eq. by apply hdp_cons_in. }
  assert ((p =? lastp 0 (i1 ++ p :: i2)) = bool_decide (i2 = [])) as ->.
  { apply eq_bool_prop_intro. rewrite bool_decide_spec, Is_true_true, Z.eqb_eq. by apply lastp_cons_in. }
  unfold unlink, set_prev_at. rewrite Ep, Ex. destruct i1 as [|a i1 _] using rev_ind; destruct i2 as [|b i2].
  - rewrite !bool_decide_true by done. cbn [andb]. wp_step. by destruct Hs as (?&?&?&?&?&?); split_and!.
  - assert (b ≠ 0) as Hb by (apply Hnz; set_solver). rewrite bool_decide_true, bool_decide_false by done. cbn [andb]. wp_step.
    eapply wp_get_ctx; [done..|]. do 2 wp_step.
    eapply (wp_mod_ctx _ live m b (lastp 0 (b :: i2))); [|apply Hin; set_solver|].
    + by destruct Hs as (?&?&?&?&?&?); split_and!.
    + intros s' Hs'. change (lastp 0 []) with 0. cbn [hdp app Z.eqb] in *. rewrite (proj2 (Z.eqb_neq _ _) Hb). by rewrite Ex in Hs'.
  - assert (a ≠ 0) as Ha by (apply Hnz; set_solver). rewrite bool_decide_false, bool_decide_true by (done || by destruct i1).
    cbn [andb]. wp_step. rewrite !lastp_snoc in *.
    eapply wp_get_ctx; [done..|]. do 2 wp_step. rewrite Ep.
    eapply (wp_mod_ctx _ live m (hdp 0 (i1 ++ [a])) a); [|apply Hin; set_solver|].
    + destruct Hs as (?&?&Eh&?&?&?). split_and!; try done. cbn. rewrite Eh. by destruct i1.
    + intros s' Hs'. by rewrite app_nil_r, lastp_snoc, (proj2 (Z.eqb_neq _ _) Ha).
  - assert (a ≠ 0) as Ha by (apply Hnz; set_solver). assert (b ≠ 0) as Hb by (apply Hnz; set_solver).
    rewrite !bool_decide_false by (done || by destruct i1). cbn [andb]. rewrite !lastp_snoc in *. cbn [hdp] in *. wp_step.
    eapply wp_get_ctx; [done..|]. rewrite Ep, Ex. wp_step. eapply wp_mod_ctx; [done|apply Hin; set_solver|].
    clear s Hs. intros s Hs. wp_step. eapply wp_get_ctx; [done|rewrite lookup_alter_ne; [done|set_solver]|].
    rewrite Ep, Ex. eapply wp_mod_ctx; [done|apply Hin; set_solver|]. clear s Hs. intros s Hs.
    rewrite (proj2 (Z.eqb_neq _ _) Ha), (proj2 (Z.eqb_neq _ _) Hb).
    destruct Hs as (?&?&Eh&Et&?&?). split_and!; try done.
    + rewrite Eh. by rewrite <- !app_assoc, !hdp_app.
    + rewrite Et. by rewrite !lastp_app, !lastp_cons.
Qed.

Lemma splice_other (m : gmap Z TimeoutContext) (i1 i2 : list Z) q :
  q ∉ i1 → q ∉ i2 → q ≠ 0 → unlink m (lastp 0 i1) (hdp 0 i2) !! q = m !! q.
Proof.
  intros H1 H2 H0. unfold unlink. rewrite set_prev_at_ne by (destruct i2; set_solver).
  destruct (Z.eqb_spec (lastp 0 i1) 0) as [|Hne]; [done|]. rewrite lookup_alter_ne; [done|]. intros <-. apply H1, lastp_in.
  by intros ->.
Qed.
Lemma content_unlink m l a b : content m l → content (unlink m a b) l.
Proof.
  intros Hc. unfold unlink, set_prev_at. destruct (b =? 0), (a =? 0); try apply content_alter; try done.
  by apply content_alter.
Qed.

Lemma live_minus (l1 l2 : list timer) x (others : gset Z) :
  t_ctx x ∉ others → NoDup (ids (l1 ++ x :: l2)) →
  (others ∪ list_to_set (ids (l1 ++ x :: l2))) ∖ {[t_ctx x]} = others ∪ list_to_set (ids (l1 ++ l2)).
Proof.
  intros Hx. rewrite !ids_app. cbn [ids fmap list_fmap]. intros (_ & N2 & [N3 _]%NoDup_cons)%NoDup_app.
  assert (t_ctx x ∉ ids l1) by (intros ?; by apply (N2 (t_ctx x)); [|left]). apply set_eq. set_solver.
Qed.

Lemma RemoveTimer_ok s l1 x l2 others :
  tm_ok s (l1 ++ x :: l2) others →
  wp (RemoveTimer (t_ctx x)) (λ _ s', tm_ok s' (l1 ++ l2) others ∧ fired s' = fired s ∧ frame others s s') s.
Proof.
  intros Hok. pose proof (tm_is _ _ _ Hok) as Hs. destruct Hok as [Hpool Ha Hn Hl Ht Hd].
  set (live := others ∪ _) in *. set (p := t_ctx x).
  assert (ids (l1 ++ x :: l2) = ids l1 ++ p :: ids l2) as Ei by (by rewrite ids_app).
  destruct (Hd x) as (c & Hc & Hca & Hcd); [set_solver|]. fold p in Hc.
  assert (p ∉ others) as Hpo by (apply Ha; rewrite Ei; set_solver).
  pose proof (live_minus l1 l2 x others Hpo Hn) as Elive. fold live p in Elive.
  rewrite Ei in Hs, Hn, Hl. assert (p ∈ live) as Hpl by (unfold live; rewrite Ei; set_solver).
  destruct (dll_node _ _ _ _ _ _ Hl Hc) as (Ep & Ex & _). cbn in Ep, Ex.
  pose proof Hn as (N1 & N2 & [N3 N4]%NoDup_cons)%NoDup_app. assert (p ∉ ids l1) as Hp1 by (intros ?; by apply (N2 p); [|left]).
  assert (∀ q, q ∈ live → q ≠ 0) as Hnz by (intros q Hq; by eapply oa_live_law).
  unfold RemoveTimer. wp_step. apply wp_check; [apply negb_true_iff, Z.eqb_neq, Hnz, Hpl|]. wp_step.
  pose proof Hl as [Eh _]. rewrite Eh in Hs, Hl.
  eapply wp_mono; [eapply (detach_ok s live _ (ids l1) p (ids l2) c); [done..| |done]|].
  { unfold live. rewrite Ei. set_solver. }
  clear Hs. cbv beta. intros _ s1 Hs. wp_step. eapply wp_mod_ctx; [done..|]. clear s1 Hs. intros s1 Hs.
  pose proof (dll_unlink _ _ _ _ _ _ Hn Hl Hc) as Hul. cbn in Hul. rewrite Ep, Ex in Hs, Hul.
  eapply (wp_with_return _ _ _ _ _ _ _ p (ctx_Reset c)); [done..| |by apply clean_unlinked|].
  { rewrite lookup_alter_eq, splice_other by (try done; by apply Hnz). by rewrite Hc. }
  intros m' s2 Hm' (Hok' & <- & Eh' & Et & Ed & Ef). rewrite Elive in *.
  assert (∀ q, q ∈ others ∪ list_to_set (ids (l1 ++ l2)) → ctxs s2 !! q = unlink (ctxs s) (lastp 0 (ids l1)) (hdp 0 (ids l2)) !! q) as Hq.
  { intros q Hq. rewrite Hm', lookup_alter_ne; [done| |done]. rewrite <- Elive in Hq. set_solver. }
  split_and!; [split|done|split; [done|]].
  - done.
  - intros q Hqi. apply Ha. rewrite Ei. rewrite ids_app in Hqi. set_solver.
  - rewrite ids_app. apply NoDup_app. split_and!; [done| |done]. intros q Hq1 Hq2. apply (N2 q Hq1). by right.
  - eapply dll_agree; [intros q Hq'; apply Hq; set_solver|]. rewrite ids_app, Eh'.
    destruct Hul as [_ Hul]. by split.
  - by rewrite Et, ids_app.
  - eapply content_same; [intros q Hq'; apply Hq; set_solver|]. apply content_unlink. intros y Hy. apply Hd. set_solver.
  - intros q Hq'. rewrite Hq by set_solver. apply splice_other; [| |apply Hnz; set_solver]; intros Hi; apply (Ha q); try done;
      rewrite Ei; set_solver.
Qed.

(** ** Timeouts *)

(** The timers at the front that are due. *)
Fixpoint expired (now : Z) (l : list timer) : list timer :=
  match l with
  | [] => []
  | x :: l => if now <? t_due x then [] else x :: expired now l
  end.
Definition remaining (now : Z) (l : list timer) : list timer := drop (length (expired now l)) l.

(** Inside the loop the first node still points back to a node that is gone. *)
Record half_ok (s : tm) (l : list timer) (others : gset Z) : Prop := {
  hk_pool : oa_ok (alloc s) (others ∪ list_to_set (ids l));
  hk_apart : ∀ p, p ∈ ids l → p ∉ others;
  hk_nodup : NoDup (ids l);
  hk_head : head_ s = hdp 0 (ids l);
  hk_list : ∃ prv, dseg (ctxs s) prv (ids l) 0;
  hk_tail : l ≠ [] → tail_ s = lastp 0 (ids l);
  hk_data : content (ctxs s) l }.

(** What a timeout does to the objects of others: they stay, there may be more. *)
Definition grown (others others' : gset Z) (s s' : tm) : Prop :=
  others ⊆ others' ∧ timeout_ts_ s' = timeout_ts_ s ∧ ∀ q, q ∈ others → ctxs s' !! q = ctxs s !! q.

Lemma wp_callback s arg live m hd tl dur fi (Q : unit → tm → Prop) :
  st_is s live m hd tl dur fi →
  (∀ s' live' m', live ⊆ live' → (∀ q, q ∈ live → m' !! q = m !! q) → st_is s' live' m' hd tl dur fi → Q () s') →
  wp (with_alloc (timeout_cb_ arg)) Q s.
Proof.
  intros (Hok & <- & ? & ? & ? & ?) HQ. pose proof (callback_frame arg _ _ Hok) as Hcb. unfold wp, with_alloc in *.
  destruct (timeout_cb_ arg (alloc s)) as [[[] st]|]; [|done]. destruct Hcb as (live' & Hsub & Hok' & Hq).
  eapply HQ; [done|exact Hq|]. by split_and!.
Qed.

(** One expired timer: fired, taken off and returned. *)
Lemma fire_one s x l others c :
  half_ok s (x :: l) others → ctxs s !! t_ctx x = Some c →
  wp (fire_head (t_ctx x) c) (λ _ s', ∃ others', half_ok s' l others' ∧
    fired s' = fired s ++ [t_arg x] ∧ grown others others' s s') s.
Proof.
  intros [Hpool Ha Hn Hh [prv (Hp0 & (c' & Hc' & _ & Hx) & Hs)] Ht Hd] Hc.
  assert (c' = c) as -> by congruence. destruct (Hd x) as (c1 & Hc1 & Harg & _); [by left|]. assert (c1 = c) as -> by congruence. cbn in Hx. unfold fire_head. rewrite Hx, Harg.
  clear Hc' Hc1. set (p := t_ctx x) in *.
  apply NoDup_cons in Hn as [Hpl Hn]. set (live := others ∪ _) in *.
  assert (p ∈ live) as Hin by (unfold live; cbn; set_solver).
  do 3 wp_step. eapply (wp_callback _ _ live (ctxs s) (hdp 0 (ids l)) (tail_ s) (timeout_ts_ s) (fired s)); [by split_and!|]. intros s1 live1 m1 Hsub Hm1 Hs1. do 3 wp_step.
  match goal with |- wp _ _ ?st => set (s2 := st) end.
  assert (st_is s2 live1 m1 (hdp 0 (ids l)) (tail_ s) (timeout_ts_ s) (fired s ++ [t_arg x])) as Hs2.
  { destruct Hs1 as (?&?&Eh&?&?&Ef). split_and!; try done; unfold s2; cbn; by rewrite Ef. }
  clearbody s2. eapply wp_mod_ctx; [done|set_solver|]. clear s2 Hs2. intros s2 Hs2.
  eapply (wp_with_return _ _ _ _ _ _ _ p (ctx_Reset c)); [done|set_solver| |by apply clean_unlinked|].
  { rewrite lookup_alter_eq, Hm1 by done. by rewrite Hc. }
  intros m3 s3 Hm3 (Hok & <- & Eh & Et & Ed & Ef).
  assert (∀ q, q ∈ live → q ≠ p → ctxs s3 !! q = ctxs s !! q) as Hsame.
  { intros q Hq Hne. rewrite Hm3, lookup_alter_ne, Hm1 by set_solver. done. }
  assert (∀ q, q ∈ ids l → q ∈ live ∧ q ≠ p) as Hil by (intros q Hq; split; [unfold live; cbn; set_solver|by intros ->]).
  exists (live1 ∖ list_to_set (p :: ids l)). split_and!; [|done|].
  - split; try done.
    + eapply eq_rect; [exact Hok|]. apply set_eq. intros q. destruct (decide (q ∈ ids l)) as [Hq|Hq]; [|set_solver].
      destruct (Hil q Hq). set_solver.
    + set_solver.
    + exists p. eapply dseg_agree; [|done]. intros q Hq. by apply Hsame; apply Hil.
    + intros Hne. rewrite Et, Ht by done. destruct l as [|y l]; [done|]. 
      change (lastp 0 (p :: t_ctx y :: ids l) = lastp 0 (t_ctx y :: ids l)). by rewrite !lastp_cons.
    + eapply content_same; [intros q Hq; by apply Hsame; apply Hil|]. intros y Hy. apply Hd. by right.
  - assert (∀ q, q ∈ others → q ≠ p ∧ q ∉ ids l) as Ho by (intros q Hq; split; [intros ->|intros Hi]; eapply Ha; try done; set_solver).
    split_and!; [|done|].
    + intros q Hq. destruct (Ho q Hq). set_solver.
    + intros q Hq. apply Hsame; [set_solver|]. by apply Ho.
Qed.

Lemma timeout_loop_ok now fuel : ∀ s l others,
  half_ok s l others → (length l < fuel)%nat →
  wp (timeout_loop fuel now) (λ _ s', ∃ others', half_ok s' (remaining now l) others' ∧
    fired s' = fired s ++ (t_arg <$> expired now l) ∧ grown others others' s s') s.
Proof.
  induction fuel as [|fuel IH]; intros s l others Hok Hf; [lia|]. cbn [timeout_loop]. do 2 wp_step.
  pose proof Hok as [Hpool Ha Hn Hh [prv Hs] Ht Hd]. rewrite Hh. unfold remaining.
  assert (∃ others', half_ok s l others' ∧ fired s = fired s ++ (t_arg <$> []) ∧ grown others others' s s) as Hstop.
  { exists others. rewrite app_nil_r. by split_and!. }
  destruct l as [|x l]; [change (hdp 0 (ids [])) with 0; rewrite Z.eqb_refl; by wp_step|]. pose proof Hs as (Hp0 & _). cbn [ids fmap list_fmap hdp].
  rewrite (proj2 (Z.eqb_neq _ _) Hp0). destruct (Hd x) as (c & Hc & Harg & Hdue); [by left|].
  wp_step. eapply (wp_get_ctx s _ (ctxs s)); [by split_and!|done|]. rewrite Hdue. cbn [expired].
  destruct (now <? t_due x); [by wp_step|]. wp_step. eapply wp_mono; [by apply fire_one|].
  intros _ s1 (o1 & Hok1 & Hf1 & Hsub1 & Htm1 & Hq1). cbn [length] in Hf.
  eapply wp_mono; [apply (IH s1 l o1 Hok1); lia|]. intros _ s2 (o2 & Hok2 & Hf2 & Hsub2 & Htm2 & Hq2).
  exists o2. split_and!; [done| | ].
  - rewrite Hf2, Hf1, <- app_assoc. done.
  - split_and!; [set_solver|congruence|]. intros q Hq. rewrite Hq2, Hq1; [done|done|set_solver].
Qed.

Lemma HandleTimeout_ok s l others now :
  tm_ok s l others →
  wp (HandleTimeout now) (λ _ s', ∃ others', tm_ok s' (remaining now l) others' ∧
    fired s' = fired s ++ (t_arg <$> expired now l) ∧ grown others others' s s') s.
Proof.
  intros [Hp Ha Hn Hl Ht Hd]. unfold HandleTimeout. do 3 wp_step.
  eapply wp_mono; [apply (timeout_loop_ok now _ s l others)|].
  { destruct Hl. split; try done. by exists 0. }
  { rewrite <- (length_fmap t_ctx l). apply Nat.lt_succ_r, nodes_bound; [done|]. intros c Hc. by eapply dseg_lookup; [apply Hl|]. }
  intros _ s1 (o1 & [Hp1 Ha1 Hn1 Hh1 [prv Hs1] Ht1 Hd1] & Hf & Hsub & Htm & Hq). do 2 wp_step. rewrite Hh1.
  destruct (remaining now l) as [|x r] eqn:Er.
  - change (hdp 0 (ids [])) with 0. cbn [Z.eqb negb]. wp_step. exists o1. split_and!; [|done|done]. by split.
  - pose proof Hs1 as (Hx0 & _). cbn [ids fmap list_fmap hdp]. rewrite (proj2 (Z.eqb_neq _ _) Hx0). cbn [negb].
    eapply (wp_mod_ctx s1 _ (ctxs s1)); [by split_and!|set_solver|]. intros s2 (Hok2 & E2 & Eh & Et & Ed & Ef).
    exists o1. split_and!; [split|by rewrite Ef|split_and!; [done|congruence|]]; try done.
    + split; [by rewrite Eh|]. rewrite E2. pose proof (dseg_head_write _ _ _ _ 0 Hn1 Hs1 eq_refl) as Hw.
      unfold set_prev_at in Hw. cbn [ids fmap list_fmap hdp] in Hw. by rewrite (proj2 (Z.eqb_neq _ _) Hx0) in Hw.
    + rewrite Et. by apply Ht1.
    + rewrite E2. by apply content_alter.
    + intros q Hq'. rewrite E2, lookup_alter_ne; [by apply Hq|]. intros <-. apply (Ha1 (t_ctx x)); set_solver.
Qed.

Lemma clear_loop_ok fuel : ∀ s l others,
  tm_ok s l others → (length l < fuel)%nat →
  wp (clear_loop fuel) (λ r s', r = t_arg <$> l ∧ tm_ok s' [] others ∧ fired s' = fired s ∧ frame others s s') s.
Proof.
  induction fuel as [|fuel IH]; intros s l others Hok Hf; [lia|]. cbn [clear_loop]. do 2 wp_step.
  pose proof Hok as [_ _ _ [Hh Hs] _ Hd]. rewrite Hh. destruct l as [|x l].
  { change (hdp 0 (ids [])) with 0. rewrite Z.eqb_refl. wp_step. by split_and!. }
  pose proof Hs as (Hp0 & _). cbn [ids fmap list_fmap hdp]. rewrite (proj2 (Z.eqb_neq _ _) Hp0).
  destruct (Hd x) as (c & Hc & Harg & _); [by left|]. wp_step. eapply wp_get_ctx; [by apply tm_is|done|]. wp_step.
  eapply wp_mono; [by apply (RemoveTimer_ok s [] x l others)|]. cbn [app]. intros _ s1 (Hok1 & Hf1 & Ht1 & Hq1). wp_step.
  cbn [length] in Hf. eapply wp_mono; [apply (IH s1 l others Hok1); lia|]. intros r s2 (-> & Hok2 & Hf2 & Ht2 & Hq2). wp_step.
  rewrite Harg. split_and!; [done|done|congruence|]. split; [congruence|]. intros q Hq. by rewrite Hq2, Hq1.
Qed.

Lemma Clear_ok s l others :
  tm_ok s l others →
  wp ClearAndGetUserArg (λ r s', r = t_arg <$> l ∧ tm_ok s' [] others ∧ fired s' = fired s ∧ frame others s s') s.
Proof.
  intros Hok. unfold ClearAndGetUserArg. do 2 wp_step. apply clear_loop_ok; [done|]. destruct Hok as [_ _ Hn Hl _ _].
  rewrite <- (length_fmap t_ctx l). apply Nat.lt_succ_r, nodes_bound; [done|]. intros c Hc. by eapply dseg_lookup; [apply Hl|].
Qed.

(** C31: a timer manager is the queue of its timers, whatever else uses the pool. Adding
    appends a timer with a context nobody uses, due the timeout after now; removing takes out
    exactly that timer, wherever it stands in the list; a timeout check calls back, in order,
    for the timers at the front that are due, and drops those; clearing returns the arguments
    of all timers in order and leaves none. Every operation terminates without a fault and
    leaves the objects of other users alone. *)
Theorem timer_manager_refines s l others :
  tm_ok s l others →
  (∀ now arg, oa_mem (alloc s) →
     wp (AddTimer now arg) (λ p s', p ∉ others ∪ list_to_set (ids l) ∧
       tm_ok s' (l ++ [MkT p arg (u64 (now + timeout_ts_ s))]) others ∧ fired s' = fired s ∧ frame others s s') s) ∧
  (∀ l1 x l2, l = l1 ++ x :: l2 →
     wp (RemoveTimer (t_ctx x)) (λ _ s', tm_ok s' (l1 ++ l2) others ∧ fired s' = fired s ∧ frame others s s') s) ∧
  (∀ now, wp (HandleTimeout now) (λ _ s', ∃ others', tm_ok s' (remaining now l) others' ∧
     fired s' = fired s ++ (t_arg <$> expired now l) ∧ grown others others' s s') s) ∧
  wp ClearAndGetUserArg (λ r s', r = t_arg <$> l ∧ tm_ok s' [] others ∧ fired s' = fired s ∧ frame others s s') s.
Proof.
  intros Hok. split_and!.
  - intros now arg Hm. eapply wp_mono; [by apply AddTimer_ok|]. intros p s' (Hok' & Hf & Hfr). split_and!; try done.
    pose proof (tk_nodup _ _ _ Hok') as Hn. pose proof (tk_apart _ _ _ Hok' p) as Ha. rewrite ids_app in Hn, Ha.
    cbn [ids fmap list_fmap t_ctx] in Hn, Ha. apply NoDup_app in Hn as (_ & Hd & _).
    assert (p ∉ others) by (apply Ha; set_solver). assert (p ∉ ids l) by (intros Hp; apply (Hd p Hp); set_solver). set_solver.
  - intros l1 x l2 ->. by apply RemoveTimer_ok.
  - intros now. by apply HandleTimeout_ok.
  - by apply Clear_ok.
Qed.

(** ** A clock that does not go back *)

(** The timers were added in order, none later than [last]. *)
Definition clocked (dur last : Z) (l : list timer) : Prop :=
  StronglySorted (λ x y, t_due x <= t_due y) l ∧ ∀ x, x ∈ l → t_due x <= last + dur.

Lemma expired_sorted now l :
  StronglySorted (λ x y, t_due x <= t_due y) l →
  expired now l = filter (λ x, t_due x <= now) l ∧ remaining now l = filter (λ x, now < t_due x) l.
Proof.
  unfold remaining. induction 1 as [|x l Hs IH Hx]; [done|]. cbn [expired]. rewrite !filter_cons.
  destruct (Z.ltb_spec now (t_due x)) as [Hlt|Hge].
  - rewrite decide_False, decide_True by lia. cbn [length drop]. rewrite Forall_forall in Hx. split; f_equal; symmetry.
    + apply filter_none. intros y Hy%Hx. lia.
    + apply filter_every. intros y Hy%Hx. lia.
  - rewrite decide_True, decide_False by lia. destruct IH as [-> <-]. split; [done|]. done.
Qed.

Lemma sorted_snoc l x :
  StronglySorted (λ x y, t_due x <= t_due y) l → (∀ y, y ∈ l → t_due y <= t_due x) →
  StronglySorted (λ x y, t_due x <= t_due y) (l ++ [x]).
Proof.
  induction 1 as [|y l Hs IH Hy]; intros Hx; cbn [app]; [repeat constructor|].
  constructor; [apply IH; intros; apply Hx; by right|]. apply Forall_app. split; [done|].
  apply Forall_singleton. apply Hx. by left.
Qed.

(** While the clock does not go back and does not overflow, a check fires exactly the
    timers that are due, each once and in the order they were added, and keeps the others;
    the order of the deadlines, on which the check relies, is kept by every operation. *)
Theorem timers_fire_exactly s l others last now :
  tm_ok s l others → clocked (timeout_ts_ s) last l → 0 <= timeout_ts_ s → 0 <= last <= now →
  now + timeout_ts_ s < 2 ^ 64 →
  wp (HandleTimeout now) (λ _ s', ∃ others', tm_ok s' (filter (λ x, now < t_due x) l) others' ∧
    fired s' = fired s ++ (t_arg <$> filter (λ x, t_due x <= now) l) ∧
    clocked (timeout_ts_ s') now (filter (λ x, now < t_due x) l)) s ∧
  ∀ arg, oa_mem (alloc s) → wp (AddTimer now arg) (λ p s', ∃ l', tm_ok s' l' others ∧
    l' = l ++ [MkT p arg (now + timeout_ts_ s)] ∧ clocked (timeout_ts_ s') now l') s.
Proof.
  intros Hok [Hsort Hlate] H0 Hlast Hnow. destruct (expired_sorted now l Hsort) as [He Hr]. split.
  - eapply wp_mono; [by apply HandleTimeout_ok|]. rewrite He, Hr. intros _ s' (o' & Hok' & Hf & _ & Ht & _).
    exists o'. split_and!; [done|done|]. rewrite Ht. split.
    + clear -Hsort. induction Hsort as [|x l Hs IH Hx]; [constructor|]. rewrite filter_cons. case_decide; [|done].
      constructor; [done|]. rewrite Forall_forall in Hx |- *. intros y Hy%list_elem_of_filter. apply Hx, Hy.
    + intros x Hx%list_elem_of_filter. specialize (Hlate x (proj2 Hx)). lia.
  - intros arg Hm. eapply wp_mono; [by apply AddTimer_ok|]. intros p s' (Hok' & _ & Ht & _).
    rewrite wrap_small in Hok' by (unfold in_range; lia). eexists. split_and!; [done..|]. rewrite Ht. split.
    + apply sorted_snoc; [done|]. intros y Hy. specialize (Hlate y Hy). cbn. lia.
    + intros x [Hx| ->%list_elem_of_singleton]%elem_of_app; [specialize (Hlate x Hx)|cbn]; lia.
Qed.

End timer.

(** ** A manager on the thread-local pool *)

(** [sizeof(TimeoutContext)] is 32; the pool lives in the memory of [demo_memalign]. *)
Definition demo_ctx : TimeoutContext := MkTimeout 0 0 0 0.
Lemma demo_size : 8 <= 32 <= MAX_CHUNK_SIZE - sizeof_LocalChunk.
Proof. by vm_compute. Qed.
#[local] Instance demo_allocator : ObjectAllocator (TlsObjectPool (T := TimeoutContext)) TimeoutContext :=
  tls_allocator demo_ctx 32 demo_memalign unlinked 7 demo_size demo_memalign_ok (conj eq_refl eq_refl).

Definition demo_unborn : TlsObjectPool (T := TimeoutContext) := MkTlsPool ∅ ∅ 0 [] 0 [] 0 0 0 16 false false 0.
Definition demo_start : TlsObjectPool (T := TimeoutContext) :=
  match construct_pool 32 7 demo_unborn with Ok (_, s) => s | Err _ => demo_unborn end.
Definition demo_tm : TimerManager := MkTimer demo_start 10 0 0 [].
(** Two timers, one of them removed, and the other one fires. *)
Definition demo_timers : ST TimerManager Z :=
  a ← AddTimer 100 1; AddTimer 103 2;; RemoveTimer a;; HandleTimeout (λ _, mret ()) 112;; HandleTimeout (λ _, mret ()) 113;; mret a.
Example demo_timers_run : match demo_timers demo_tm with Ok (_, s) => fired s = [2] ∧ head_ s = 0 | Err _ => False end.
Proof. vm_compute. done. Qed.

Lemma demo_tm_ok : tm_ok demo_tm [] ∅.
Proof.
  split; try done; [|constructor|by intros ? ?%not_elem_of_nil].
  change (in_use 32 unlinked 7 demo_start (∅ ∪ ∅)). rewrite union_empty_l_L.
  refine (wp_run (construct_pool 32 7) (λ _ s', in_use 32 unlinked 7 s' ∅) demo_unborn () demo_start _ _); [vm_compute; reflexivity|].
  eapply wp_mono; [apply (construct_ok 32 unlinked 7 _ demo_size); by split|]. intros _ s' [H Ht]. by split.
Qed.
Lemma demo_callback (arg : Z) (st : TlsObjectPool) live :
  oa_ok st live →
  wp (mret ()) (λ (_ : unit) st', ∃ live', live ⊆ live' ∧ oa_ok st' live' ∧ ∀ q, q ∈ live → oa_objs st' !! q = oa_objs st !! q) st.
Proof. intros Hok. wp_step. by exists live. Qed.

Lemma timer_manager_refines_witness :
  wp (AddTimer 100 1) (λ p s', tm_ok s' [MkT p 1 110] ∅) demo_tm.
Proof.
  pose proof (timer_manager_refines (λ _, mret ()) (λ _, iff_refl _) demo_callback demo_tm [] ∅ demo_tm_ok) as (Hadd & _).
  eapply wp_mono; [refine (Hadd 100 1 _)|].
  - vm_compute. discriminate.
  - cbv beta. intros p s' (_ & H & _). exact H.
Defined.

Lemma timers_fire_exactly_witness :
  wp (HandleTimeout (λ _, mret ()) 50) (λ _ s', fired s' = []) demo_tm.
Proof.
  refine (wp_mono _ _ _ _ (proj1 (timers_fire_exactly (λ _, mret ()) (λ _, iff_refl _) demo_callback demo_tm [] ∅ 0 50 demo_tm_ok _ _ _ _)) _).
  - split; [constructor|by intros ? ?%not_elem_of_nil].
  - by vm_compute.
  - by vm_compute.
  - by vm_compute.
  - cbv beta. intros _ s' (? & _ & H & _). exact H.
Defined.
