(* ===== verification/MpscQueue.v ===== *)
(** * The multi-producer, single-consumer queue (src/src/common/mpsc_queue.h)

    A linked queue with a stub node: [tail_] is the stub, the elements are in the nodes behind
    it, [head_] is the last one. A producer swings [head_] to its node with one atomic
    exchange and links the old last node to it afterwards, so that for a while the chain is
    broken; a consumer that finds a broken chain waits for the link.

    Each atomic access is an action on the shared state; [Push] and [Pop] are their
    compositions in one thread. [mstep] interleaves the actions of any number of producers
    with those of the consumer. Memory is sequentially consistent; a freed node is absent from
    the heap, and its address may be used again. *)

From Stdlib Require Import ZArith Lia.
From stdpp Require Import prelude gmap.
From S2P Require Import Prelude LinkedList.
Open Scope Z_scope.

Record Node := MkNode { element : Z; n_next : Z }.
#[export] Instance eta_Node : Eta Node := λ n, MkNode (element n) (n_next n).

Record MPSCQueue := MkQueue { nodes : gmap Z Node; q_head : Z; q_tail : Z; q_size : Z }.
#[export] Instance eta_MPSCQueue : Eta MPSCQueue := λ q,
  MkQueue (nodes q) (q_head q) (q_tail q) (q_size q).

(** The constructor, with the address of the stub. *)
Definition new_MPSCQueue (stub : Z) : MPSCQueue := MkQueue {[stub := MkNode 0 0]} stub stub 0.

Definition get_node (p : Z) : ST MPSCQueue Node := q ← get; need NullDeref (nodes q !! p).

(** ** The actions of a producer *)

(** [new Node] at a fresh address, and the exchange: returns the old head. *)
Definition push_exchange (newNode elem : Z) : ST MPSCQueue Z :=
  q ← get;
  modify (λ q, q <| nodes ::= insert newNode (MkNode elem 0) |> <| q_head := newNode |>);;
  mret (q_head q).
(** [oldhead->next.store(newNode)] *)
Definition push_link (oldhead newNode : Z) : ST MPSCQueue unit :=
  n ← get_node oldhead;
  modify (λ q, q <| nodes ::= insert oldhead (n <| n_next := newNode |>) |>).
(** [size_.fetch_add(1)] *)
Definition push_count : ST MPSCQueue Z :=
  q ← get; modify (λ q, q <| q_size ::= λ s, u64 (s + 1) |>);; mret (q_size q).

Definition Push (newNode elem : Z) : ST MPSCQueue Z :=
  oldhead ← push_exchange newNode elem;
  push_link oldhead newNode;;
  push_count.

(** ** The actions of the consumer *)

(** [tail_->next.load()] *)
Definition load_next : ST MPSCQueue Z := q ← get; n ← get_node (q_tail q); mret (n_next n).
(** [head_.load() == tail_] *)
Definition at_end : ST MPSCQueue bool := gets (λ q, q_head q =? q_tail q).
(** [currentTail->next.store(nullptr)] *)
Definition disconnect : ST MPSCQueue unit :=
  q ← get;
  n ← get_node (q_tail q);
  modify (λ q, q <| nodes ::= insert (q_tail q) (n <| n_next := 0 |>) |>).
(** Move the element out of [nextTail], make it the stub and delete the old one. *)
Definition advance (nextTail : Z) : ST MPSCQueue Z :=
  n ← get_node nextTail;
  q ← get;
  modify (λ q, q <| q_tail := nextTail |>);;
  get_node (q_tail q);;
  modify (λ q', q' <| nodes ::= delete (q_tail q) |>);;
  mret (element n).
(** [size_.fetch_sub(1)] *)
Definition pop_count : ST MPSCQueue unit := modify (λ q, q <| q_size ::= λ s, u64 (s - 1) |>).

(** [Pop] of a thread that runs alone: a broken chain is never mended, the spin does not end. *)
Definition Pop : ST MPSCQueue (option Z) :=
  next ← load_next;
  if next =? 0 then
    e ← at_end;
    if e : bool then mret None else raise OutOfFuel
  else
    disconnect;; e ← advance next; pop_count;; mret (Some e).

Definition Size (q : MPSCQueue) : Z := q_size q.
Definition Empty : ST MPSCQueue bool :=
  next ← load_next; if next =? 0 then at_end else mret false.

(** The destructor: pop everything, delete the stub. *)
Fixpoint drain (fuel : nat) : ST MPSCQueue unit :=
  match fuel with
  | O => raise OutOfFuel
  | S fuel => r ← Pop; match r with Some _ => drain fuel | None => mret () end
  end.
Definition destroy : ST MPSCQueue unit :=
  q ← get;
  drain (S (size (nodes q)));;
  q ← get;
  get_node (q_tail q);;
  modify (λ q, q <| nodes ::= delete (q_tail q) |>).

(** ** Interleavings *)

Inductive producer := Linking (oldhead newNode : Z) | Counting.
Inductive consumer := Idle | Checking | Spinning | Got (nextTail : Z) | Detached (nextTail : Z) | Uncounting (elem : Z).
Record sys := MkSys { queue : MPSCQueue; producers : gmap nat producer; cons_at : consumer }.

(** What an observer sees: an element enters, an element leaves, the queue is found empty;
    the other steps are a producer's or ([None]) the consumer's. *)
Inductive event := Enq (t : nat) (e : Z) | Deq (e : Z) | FoundEmpty | Tau (who : option nat).

(** A producer that is not in [producers] is between two calls. *)
Inductive mstep : sys → event → sys → Prop :=
| step_exchange q ps c t newNode e oldhead q' :
    ps !! t = None → newNode ≠ 0 → nodes q !! newNode = None →
    push_exchange newNode e q = Ok (oldhead, q') →
    mstep (MkSys q ps c) (Enq t e) (MkSys q' (<[t := Linking oldhead newNode]> ps) c)
| step_link q ps c t oldhead newNode q' :
    ps !! t = Some (Linking oldhead newNode) → push_link oldhead newNode q = Ok ((), q') →
    mstep (MkSys q ps c) (Tau (Some t)) (MkSys q' (<[t := Counting]> ps) c)
| step_count q ps c t n q' :
    ps !! t = Some Counting → push_count q = Ok (n, q') →
    mstep (MkSys q ps c) (Tau (Some t)) (MkSys q' (delete t ps) c)
| step_load q ps n q' :
    load_next q = Ok (n, q') →
    mstep (MkSys q ps Idle) (Tau None) (MkSys q' ps (if n =? 0 then Checking else Got n))
| step_empty q ps q' :
    at_end q = Ok (true, q') → mstep (MkSys q ps Checking) FoundEmpty (MkSys q' ps Idle)
| step_wait q ps q' :
    at_end q = Ok (false, q') → mstep (MkSys q ps Checking) (Tau None) (MkSys q' ps Spinning)
| step_spin q ps n q' :
    load_next q = Ok (n, q') →
    mstep (MkSys q ps Spinning) (Tau None) (MkSys q' ps (if n =? 0 then Spinning else Got n))
| step_disconnect q ps n q' :
    disconnect q = Ok ((), q') → mstep (MkSys q ps (Got n)) (Tau None) (MkSys q' ps (Detached n))
| step_advance q ps n e q' :
    advance n q = Ok (e, q') → mstep (MkSys q ps (Detached n)) (Deq e) (MkSys q' ps (Uncounting e))
| step_uncount q ps e q' :
    pop_count q = Ok ((), q') → mstep (MkSys q ps (Uncounting e)) (Tau None) (MkSys q' ps Idle).

(** The abstract queue. *)
Inductive fifo_step : list Z → event → list Z → Prop :=
| fifo_enq l t e : fifo_step l (Enq t e) (l ++ [e])
| fifo_deq l e : fifo_step (e :: l) (Deq e) l
| fifo_empty : fifo_step [] FoundEmpty []
| fifo_tau l w : fifo_step l (Tau w) l.

(** Runs, from the empty queue and from the abstract one. *)
Inductive mrun : sys → list event → sys → Prop :=
| mrun_nil s : mrun s [] s
| mrun_snoc s tr s1 ev s2 : mrun s tr s1 → mstep s1 ev s2 → mrun s (tr ++ [ev]) s2.
Inductive fifo_run : list Z → list event → list Z → Prop :=
| fifo_nil l : fifo_run l [] l
| fifo_snoc l tr l1 ev l2 : fifo_run l tr l1 → fifo_step l1 ev l2 → fifo_run l (tr ++ [ev]) l2.
Definition initial (stub : Z) : sys := MkSys (new_MPSCQueue stub) ∅ Idle.

Definition enqueued (tr : list event) : list Z := omap (λ ev, if ev is Enq _ e then Some e else None) tr.
Definition dequeued (tr : list event) : list Z := omap (λ ev, if ev is Deq e then Some e else None) tr.

(** The next access of a thread that is inside a call. *)
Definition producer_action (p : producer) : ST MPSCQueue Z :=
  match p with Linking oldhead newNode => push_link oldhead newNode;; mret 0 | Counting => push_count end.
Definition consumer_action (c : consumer) : ST MPSCQueue Z :=
  match c with
  | Idle | Spinning => load_next
  | Checking => at_end;; mret 0
  | Got _ => disconnect;; mret 0
  | Detached n => advance n
  | Uncounting _ => pop_count;; mret 0
  end.
(** No thread is about to touch a node that is not there. *)
Definition all_enabled (s : sys) : Prop :=
  (∀ t p, producers s !! t = Some p → ∃ r, producer_action p (queue s) = Ok r) ∧
  ∃ r, consumer_action (cons_at s) (queue s) = Ok r.

(** ** The invariant

    [ns] are the nodes behind the stub, in the order of the exchanges, and [aq] their
    elements. *)

Definition chain (q : MPSCQueue) (ns : list Z) : list Z := q_tail q :: ns.
Definition next_of (q : MPSCQueue) (a : Z) : option Z := n_next <$> nodes q !! a.
(** [b] comes right after [a]. *)
Definition follows (l : list Z) (a b : Z) : Prop := ∃ i, l !! i = Some a ∧ l !! S i = Some b.

Record qinv (q : MPSCQueue) (ns aq : list Z) : Prop := {
  qi_nodup : NoDup (chain q ns);
  qi_null : 0 ∉ chain q ns;
  qi_dom : ∀ a, is_Some (nodes q !! a) ↔ a ∈ chain q ns;
  qi_head : q_head q = lastp (q_tail q) ns;
  qi_end : next_of q (q_head q) = Some 0;
  qi_elems : Forall2 (λ n e, element <$> nodes q !! n = Some e) ns aq }.

(** A missing link is owed by exactly one producer, or was just cut by the consumer. *)
Record linv (q : MPSCQueue) (ps : gmap nat producer) (c : consumer) (ns : list Z) : Prop := {
  li_owed : ∀ t a b, ps !! t = Some (Linking a b) → follows (chain q ns) a b ∧ next_of q a = Some 0;
  li_one : ∀ t t' a b b', ps !! t = Some (Linking a b) → ps !! t' = Some (Linking a b') → t = t';
  li_link : ∀ a b, follows (chain q ns) a b → next_of q a = Some b ∨ next_of q a = Some 0 ∧
    ((∃ t, ps !! t = Some (Linking a b)) ∨ a = q_tail q ∧ c = Detached b);
  li_cons : match c with
    | Spinning => ns ≠ []
    | Got n => next_of q (q_tail q) = Some n ∧ head ns = Some n
    | Detached n => head ns = Some n ∧ next_of q (q_tail q) = Some 0 ∧ ∀ t b, ps !! t ≠ Some (Linking (q_tail q) b)
    | _ => True
    end }.

Definition uncounted (c : consumer) : Z := match c with Uncounting _ => 1 | _ => 0 end.
Record minv (s : sys) (aq : list Z) : Prop := {
  mi_ok : ∃ ns, qinv (queue s) ns aq ∧ linv (queue s) (producers s) (cons_at s) ns;
  mi_size : q_size (queue s) = u64 (Z.of_nat (length aq) - Z.of_nat (size (producers s)) + uncounted (cons_at s)) }.

Lemma follows_in l a b : follows l a b → a ∈ l ∧ b ∈ l.
Proof. intros (i & Ha & Hb). split; by eapply list_elem_of_lookup_2. Qed.
Lemma follows_fun l a b b' : NoDup l → follows l a b → follows l a b' → b = b'.
Proof. intros Hn (i & Ha & Hb) (j & Ha' & Hb'). assert (i = j) as -> by (by eapply NoDup_lookup). by simplify_eq. Qed.
Lemma follows_head a b l : NoDup (a :: l) → follows (a :: l) a b → head l = Some b.
Proof.
  intros Hn (i & Ha & Hb). assert (i = 0%nat) as -> by (by eapply (NoDup_lookup (a :: l))). by destruct l.
Qed.
Lemma head_follows a b l : head l = Some b → follows (a :: l) a b.
Proof. destruct l; [done|]. intros [= ->]. by exists 0%nat. Qed.
Lemma last_lookup (a : Z) l : (a :: l) !! length l = Some (lastp a l).
Proof. revert a. induction l as [|x l IH]; intros a; [done|]. rewrite lastp_cons. apply IH. Qed.
(** The last node has no successor. *)
Lemma follows_last a l b : NoDup (a :: l) → follows (a :: l) (lastp a l) b → False.
Proof.
  intros Hn (i & Ha & Hb). pose proof (last_lookup a l) as Hl. assert (i = length l) as -> by (by eapply NoDup_lookup). apply lookup_lt_Some in Hb. cbn in Hb. lia.
Qed.
Lemma lastp_chain (a : Z) l : lastp a l ∈ a :: l.
Proof. eapply list_elem_of_lookup_2, last_lookup. Qed.
Lemma follows_snoc a l x b c :
  NoDup (a :: l) → x ∉ a :: l → follows (a :: l ++ [x]) b c ↔ follows (a :: l) b c ∨ b = lastp a l ∧ c = x.
Proof.
  intros Hn Hx. split.
  - intros (i & Hb & Hc). rewrite app_comm_cons in Hb, Hc. destruct (decide (S i < length (a :: l))%nat).
    + left. exists i. rewrite !lookup_app_l in * by lia. done.
    + right. apply lookup_lt_Some in Hc as Hlt. rewrite length_app in Hlt. cbn [length] in *.
      assert (i = length l) as -> by lia. rewrite lookup_app_l in Hb by (cbn; lia).
      rewrite lookup_app_r in Hc by (cbn; lia). cbn [length] in Hc. rewrite Nat.sub_diag in Hc. cbn in Hc.
      rewrite last_lookup in Hb. by simplify_eq.
  - intros [(i & Hb & Hc)|[-> ->]].
    + exists i. rewrite app_comm_cons, !lookup_app_l by (by eapply lookup_lt_Some). done.
    + exists (length l). rewrite app_comm_cons. split.
      * rewrite lookup_app_l by (cbn; lia). apply last_lookup.
      * rewrite lookup_app_r by (cbn; lia). cbn [length]. by rewrite Nat.sub_diag.
Qed.
Lemma follows_tail a b l x y : NoDup (a :: b :: l) → follows (b :: l) x y ↔ follows (a :: b :: l) x y ∧ x ≠ a.
Proof.
  intros [Ha _]%NoDup_cons. split.
  - intros Hf. split; [|intros ->; by destruct (follows_in _ _ _ Hf)]. destruct Hf as (i & ?). by exists (S i).
  - intros [([|i] & Hx & Hy) Hne]; [cbn in Hx; congruence|]. by exists i.
Qed.

Lemma qinv_next q ns aq a : qinv q ns aq → a ∈ chain q ns → ∃ nd, nodes q !! a = Some nd ∧ next_of q a = Some (n_next nd).
Proof. intros Hq Ha. apply (qi_dom _ _ _ Hq) in Ha as [nd Hnd]. exists nd. split; [done|]. unfold next_of. by rewrite Hnd. Qed.

Lemma exchange_ok q ps c ns aq t newNode e :
  qinv q ns aq → linv q ps c ns → ps !! t = None → newNode ≠ 0 → nodes q !! newNode = None →
  let q' := q <| nodes ::= insert newNode (MkNode e 0) |> <| q_head := newNode |> in
  push_exchange newNode e q = Ok (q_head q, q') ∧ qinv q' (ns ++ [newNode]) (aq ++ [e]) ∧
  linv q' (<[t := Linking (q_head q) newNode]> ps) c (ns ++ [newNode]).
Proof.
  intros Hq Hl Ht Hnn Hnew q'. pose proof Hq as [Hnd Hnull Hdom Hhead Hend Hel].
  assert (newNode ∉ chain q ns) as Hfresh. { rewrite <- Hdom, Hnew. by intros []. }
  assert (∀ a, a ≠ newNode → next_of q' a = next_of q a) as Hnext.
  { intros a Ha. unfold next_of. cbn. by rewrite lookup_insert_ne. }
  assert (∀ a b, follows (chain q' (ns ++ [newNode])) a b ↔ follows (chain q ns) a b ∨ a = q_head q ∧ b = newNode) as Hfol.
  { intros a b. rewrite Hhead. by apply follows_snoc. }
  split; [done|]. split.
  - split; cbn [q' chain q_tail q_head nodes upd].
    + change (NoDup (chain q ns ++ [newNode])). apply NoDup_app. split_and!; [done|set_solver|apply NoDup_singleton].
    + unfold chain in *. cbn [q_tail upd q']. set_solver.
    + intros a. rewrite lookup_insert_is_Some', Hdom. unfold chain. cbn [q_tail upd q']. set_solver.
    + by rewrite lastp_snoc.
    + unfold next_of. cbn. by rewrite lookup_insert_eq.
    + apply Forall2_app; [|repeat constructor; by rewrite lookup_insert_eq]. eapply Forall2_impl; [done|]. cbn. intros a b Hab.
      rewrite lookup_insert_ne; [done|]. intros <-. by rewrite Hnew in Hab.
  - destruct Hl as [Howed Hone Hlink Hcons]. assert (q_head q ≠ newNode) as Hhn.
    { intros <-. apply Hfresh. rewrite Hhead. apply lastp_chain. }
    split.
    + intros t' a b [[<- [= <- <-]] | [Hne Hp]]%lookup_insert_Some.
      * split; [apply Hfol; by right|]. by rewrite Hnext.
      * destruct (Howed t' a b Hp) as [Hf Hn]. split; [apply Hfol; by left|]. rewrite Hnext; [done|].
        intros ->. by apply Hfresh, (follows_in _ _ _ Hf).
    + assert (∀ t' b, ps !! t' = Some (Linking (q_head q) b) → False) as Hno.
      { intros t' b Hp. destruct (Howed t' _ b Hp) as [Hf _]. rewrite Hhead in Hf. by eapply follows_last. }
      intros t1 t2 a b b' [[<- [= <- <-]] | [? H1]]%lookup_insert_Some [[<- E2] | [? H2]]%lookup_insert_Some; try done;
        [by apply Hno in H2|simplify_eq; by apply Hno in H1|by eapply Hone].
    + intros a b [Hf|[-> ->]]%Hfol.
      * rewrite Hnext by (intros ->; by apply Hfresh, (follows_in _ _ _ Hf)).
        destruct (Hlink a b Hf) as [?|[? [[t' Hp]|?]]]; [by left|right; split; [done|left]|by right; split; [|right]].
        exists t'. rewrite lookup_insert_ne; [done|]. intros <-. by rewrite Ht in Hp.
      * right. rewrite Hnext by done. split; [done|]. left. exists t. by rewrite lookup_insert_eq.
    + assert (q_tail q ≠ newNode) by (intros <-; apply Hfresh; by left).
      destruct c as [| | |n|n|]; try done.
      * by destruct ns.
      * cbn. rewrite Hnext by done. destruct Hcons as [? ?]. by destruct ns.
      * cbn. rewrite Hnext by done. destruct Hcons as (Hh & ? & Hno). split_and!; [by destruct ns|done|].
        intros t' b [[<- E] | [? Hp]]%lookup_insert_Some; [|by eapply Hno]. injection E as Eh _.
        apply (follows_last (q_tail q) ns n Hnd). rewrite <- Hhead, Eh. by apply head_follows.
Qed.

(** Writing a link keeps the nodes, their order and their elements. *)
Lemma relink_qinv q ns aq a nd v :
  qinv q ns aq → nodes q !! a = Some nd → a ≠ q_head q →
  qinv (q <| nodes ::= insert a (nd <| n_next := v |>) |>) ns aq.
Proof.
  intros [Hnd Hnull Hdom Hhead Hend Hel] Ha Hne. split; cbn; try done.
  - intros b. rewrite lookup_insert_is_Some'. rewrite <- Hdom. split; [|by right]. intros [<- |?]; [by eexists|done].
  - unfold next_of in *. cbn. by rewrite lookup_insert_ne.
  - eapply Forall2_impl; [done|]. cbn. intros b e Hb. rewrite lookup_insert. case_decide; [|done]. subst.
    by rewrite Ha in Hb.
Qed.
Lemma relink_next q a nd v b :
  next_of (q <| nodes ::= insert a (nd <| n_next := v |>) |>) b = if decide (a = b) then Some v else next_of q b.
Proof. unfold next_of. cbn. rewrite lookup_insert. by case_decide. Qed.

Lemma link_ok q ps c ns aq t a b :
  qinv q ns aq → linv q ps c ns → ps !! t = Some (Linking a b) →
  ∃ nd, let q' := q <| nodes ::= insert a (nd <| n_next := b |>) |> in
    push_link a b q = Ok ((), q') ∧ qinv q' ns aq ∧ linv q' (<[t := Counting]> ps) c ns.
Proof.
  intros Hq [Howed Hone Hlink Hcons] Ht. pose proof Hq as [Hnd Hnull Hdom Hhead Hend Hel].
  destruct (Howed t a b Ht) as [Hf Hn]. destruct (follows_in _ _ _ Hf) as [Ha Hb].
  destruct (qinv_next _ _ _ _ Hq Ha) as (nd & Hnode & _). exists nd. cbn zeta.
  assert (a ≠ q_head q) as Hnh. { intros ->. rewrite Hhead in Hf. by eapply follows_last. }
  split; [|split; [by apply relink_qinv|]].
  { unfold push_link, get_node, mbind, ST_bind, get. cbn. by rewrite Hnode. }
  assert (∀ t' x y, <[t:=Counting]> ps !! t' = Some (Linking x y) → ps !! t' = Some (Linking x y) ∧ x ≠ a) as Hps.
  { intros t' x y [[_ ?] | [Hne Hp]]%lookup_insert_Some; [done|]. split; [done|]. intros ->. apply Hne. by eapply Hone. }
  split.
  - intros t' x y [Hp Hx]%Hps. rewrite relink_next, decide_False by done. by apply Howed in Hp.
  - intros t1 t2 x y y' [H1 _]%Hps [H2 _]%Hps. by eapply Hone.
  - intros x y Hxy. rewrite relink_next. case_decide as E.
    + subst x. left. f_equal. by eapply follows_fun.
    + destruct (Hlink x y Hxy) as [?|[? [[t' Hp]|?]]]; [by left|right; split; [done|left]|right; split; [done|by right]].
      exists t'. rewrite lookup_insert_ne; [done|]. intros <-. congruence.
  - destruct c as [| | |n|n|]; try done.
    + destruct Hcons as [Hc ?]. rewrite relink_next. cbn. rewrite decide_False; [done|].
      intros ->. rewrite Hn in Hc. injection Hc as <-. apply Hnull. destruct ns as [|n ns]; [done|]. cbn in *. simplify_eq. by right; left.
    + destruct Hcons as (? & ? & Hno). rewrite relink_next. cbn. rewrite decide_False by (intros ->; by eapply Hno).
      split_and!; [done..|]. intros t' y [Hp _]%Hps. by eapply Hno.
Qed.

Lemma disconnect_ok q ps n ns aq :
  qinv q ns aq → linv q ps (Got n) ns →
  ∃ nd, let q' := q <| nodes ::= insert (q_tail q) (nd <| n_next := 0 |>) |> in
    disconnect q = Ok ((), q') ∧ qinv q' ns aq ∧ linv q' ps (Detached n) ns.
Proof.
  intros Hq [Howed Hone Hlink [Hn Hh]]. pose proof Hq as [Hnd Hnull Hdom Hhead Hend Hel].
  destruct (qinv_next _ _ _ (q_tail q) Hq) as (nd & Hnode & _); [by left|]. exists nd. cbn zeta.
  assert (n ≠ 0) as Hn0. { intros ->. apply Hnull. destruct ns; [done|]. injection Hh as ->. by right; left. }
  assert (∀ t b, ps !! t ≠ Some (Linking (q_tail q) b)) as Hno.
  { intros t b Hp. destruct (Howed _ _ _ Hp) as [_ E]. congruence. }
  assert (q_tail q ≠ q_head q) as Hth.
  { intros E. rewrite <- E in Hend. congruence. }
  split; [|split; [by apply relink_qinv|]].
  { unfold disconnect, get_node, mbind, ST_bind, get. cbn. by rewrite Hnode. }
  split.
  - intros t a b Hp. rewrite relink_next, decide_False by (intros <-; by eapply Hno). by eapply Howed.
  - done.
  - intros a b Hf. rewrite relink_next. case_decide as E.
    + subst a. right. split; [done|]. right. split; [done|]. f_equal. apply (follows_head _ _ _ Hnd) in Hf. congruence.
    + destruct (Hlink a b Hf) as [?|[? [?|[_ ?]]]]; [by left|right; split; [done|by left]|done].
  - rewrite relink_next. cbn. rewrite decide_True by done. by split_and!.
Qed.

Lemma Forall2_weaken {A B} (P Q : A → B → Prop) l k :
  (∀ x y, x ∈ l → P x y → Q x y) → Forall2 P l k → Forall2 Q l k.
Proof. intros HPQ. induction 1; constructor; [apply HPQ; [by left|done]|]. apply IHForall2. intros. apply HPQ; [by right|done]. Qed.

Lemma advance_ok q ps n ns aq :
  qinv q ns aq → linv q ps (Detached n) ns →
  ∃ e ns' aq', let q' := q <| q_tail := n |> <| nodes ::= delete (q_tail q) |> in
    advance n q = Ok (e, q') ∧ aq = e :: aq' ∧ qinv q' ns' aq' ∧ linv q' ps (Uncounting e) ns'.
Proof.
  intros Hq [Howed Hone Hlink (Hh & Hz & Hno)]. pose proof Hq as [Hnd Hnull Hdom Hhead Hend Hel].
  destruct ns as [|n' ns]; [done|]. injection Hh as ->. apply Forall2_cons_inv_l in Hel as (e & aq' & He & Hel & ->).
  unfold chain in *. set (t0 := q_tail q) in *. destruct (nodes q !! n) as [nd|] eqn:Hn; [|done]. injection He as He.
  destruct (proj2 (Hdom t0)) as [td Ht]; [by left|].
  pose proof Hnd as [Ht0 Hnd']%NoDup_cons. assert (n ≠ t0) as Hnt by set_solver.
  assert (∀ a, a ∈ n :: ns → a ≠ t0) as Hne by (by intros a Ha ->).
  set (q' := q <| q_tail := n |> <| nodes ::= delete t0 |>).
  assert (∀ a, a ∈ n :: ns → next_of q' a = next_of q a) as Hnext.
  { intros a Ha. unfold next_of. cbn. rewrite lookup_delete_ne; [done|]. symmetry. by apply Hne. }
  assert (q_head q ∈ n :: ns) as Hhin by (rewrite Hhead, lastp_cons; apply lastp_chain).
  exists e, ns, aq'. cbn zeta. split_and!; [|done| |].
  - unfold advance, get_node, mbind, ST_bind, get. cbn. rewrite Hn. cbn. fold t0. rewrite Ht. cbn. by rewrite He.
  - split; unfold chain; cbn [q_tail q' upd]; fold t0.
    + done.
    + set_solver.
    + intros a. cbn. rewrite lookup_delete_is_Some, Hdom. split; [|intros Ha; split; [symmetry; by apply Hne|by right]].
      intros [? Ha]. by apply elem_of_cons in Ha as [?|?].
    + change (q_head q = lastp n ns). by rewrite Hhead, lastp_cons.
    + change (next_of q' (q_head q) = Some 0). by rewrite Hnext.
    + eapply Forall2_weaken; [|done]. cbn. intros a b Ha Hab. rewrite lookup_delete_ne; [done|]. symmetry. apply Hne. by right.
  - assert (∀ a b, follows (chain q' ns) a b ↔ follows (t0 :: n :: ns) a b ∧ a ≠ t0) as Hfol by (intros; by apply follows_tail).
    split; [| done | | done].
    + intros t a b Hp. destruct (Howed t a b Hp) as [Hf Hn0]. assert (a ≠ t0) as Hat by (intros ->; by eapply Hno).
      assert (follows (chain q' ns) a b) as Hf' by (apply Hfol; done). split; [done|]. rewrite Hnext; [done|].
      by apply (follows_in _ _ _ Hf').
    + intros a b Hf'. apply Hfol in Hf' as [Hf Hat]. rewrite Hnext.
      2: { destruct (follows_in _ _ _ Hf) as [Ha _]. by apply elem_of_cons in Ha as [?|?]. }
      destruct (Hlink a b Hf) as [?|[? [?|[? _]]]]; [by left|right; split; [done|by left]|done].
Qed.

Lemma qinv_size q ns aq f : qinv q ns aq → qinv (q <| q_size ::= f |>) ns aq.
Proof. intros [H1 H2 H3 H4 H5 H6]. split; [exact H1|exact H2|exact H3|exact H4|exact H5|exact H6]. Qed.
Lemma linv_size q ps c ns f : linv q ps c ns → linv (q <| q_size ::= f |>) ps c ns.
Proof. intros [H1 H2 H3 H4]. split; [exact H1|exact H2|exact H3|exact H4]. Qed.
(** A producer that has counted its element is done. *)
Lemma linv_done q ps c ns t : ps !! t = Some Counting → linv q ps c ns → linv q (delete t ps) c ns.
Proof.
  intros Ht [L1 L2 L3 L4]. split.
  - intros t' a b [_ Hp]%lookup_delete_Some. by eapply L1.
  - intros t1 t2 a b b' [_ H1]%lookup_delete_Some [_ H2]%lookup_delete_Some. by eapply L2.
  - intros a b Hf. destruct (L3 a b Hf) as [?|[? [[t' Hp]|?]]]; [by left|right; split; [done|left]|right; split; [done|by right]].
    exists t'. rewrite lookup_delete_ne; [done|]. intros <-. congruence.
  - destruct c; try done. destruct L4 as (?&?&Hno). split_and!; [done..|]. intros t' b [_ ?]%lookup_delete_Some. by eapply Hno.
Qed.
(** The consumer loads the link of the stub. *)
Lemma load_ok q ps c ns aq :
  qinv q ns aq → linv q ps c ns → c = Idle ∨ c = Spinning →
  ∃ n, load_next q = Ok (n, q) ∧ next_of q (q_tail q) = Some n ∧
    linv q ps (if n =? 0 then if c is Idle then Checking else Spinning else Got n) ns ∧ (n ≠ 0 → head ns = Some n).
Proof.
  intros Hq Hl Hc. pose proof Hq as [Hnd Hnull Hdom Hhead Hend Hel]. pose proof Hl as [L1 L2 L3 L4].
  destruct (qinv_next _ _ _ (q_tail q) Hq) as (nd & Hnode & Hn); [by left|]. exists (n_next nd).
  split; [unfold load_next, get_node, mbind, ST_bind, get; cbn; by rewrite Hnode|]. split; [done|].
  assert (n_next nd ≠ 0 → head ns = Some (n_next nd)) as Hh.
  { intros Hne. destruct ns as [|b ns]; [rewrite Hhead in Hend; unfold lastp in Hend; cbn in Hend; congruence|].
    destruct (L3 (q_tail q) b) as [E|[E _]]; [by exists 0%nat|cbn; congruence|congruence]. }
  split; [|done]. destruct (Z.eqb_spec (n_next nd) 0) as [E|E].
  - split; [done|done| |].
    + intros a b Hf. destruct (L3 a b Hf) as [?|[? [?|[? Ed]]]]; [by left|right; split; [done|by left]|].
      by destruct Hc as [-> | ->].
    + by destruct Hc as [-> | ->].
  - split; [done|done| |by split; [|apply Hh]].
    intros a b Hf. destruct (L3 a b Hf) as [?|[? [?|[? Ed]]]]; [by left|right; split; [done|by left]|].
    by destruct Hc as [-> | ->].
Qed.

(** The states of the consumer that say nothing about the links. *)
Lemma linv_quiet q ps c c' ns :
  (∀ n, c ≠ Detached n) → match c' with Idle | Checking | Uncounting _ => True | Spinning => ns ≠ [] | _ => False end →
  linv q ps c ns → linv q ps c' ns.
Proof.
  intros Hc Hc' [L1 L2 L3 L4]. split; [done|done| |by destruct c'].
  intros a b Hf. destruct (L3 a b Hf) as [?|[? [?|[_ ->]]]]; [by left|right; split; [done|by left]|by destruct (Hc b)].
Qed.

(** Every action is enabled in the state it is meant for, and the abstract queue makes the
    step the observer sees. *)
Lemma mstep_sim s ev s' aq : minv s aq → mstep s ev s' → ∃ aq', fifo_step aq ev aq' ∧ minv s' aq'.
Proof.
  intros [(ns & Hq & Hl) Hsz] Hst. destruct Hst; cbn [queue producers cons_at] in *.
  - destruct (exchange_ok _ _ _ _ _ t newNode e Hq Hl) as (E & Hq' & Hl'); [done..|]. rewrite E in H2. simplify_eq.
    exists (aq ++ [e]). split; [constructor|]. split; [by exists (ns ++ [newNode])|]. cbn. rewrite Hsz, length_app, map_size_insert_None by done.
    f_equal. cbn. lia.
  - destruct (link_ok _ _ _ _ _ _ _ _ Hq Hl H) as (nd & E & Hq' & Hl'). rewrite E in H0. simplify_eq.
    exists aq. split; [constructor|]. split; [by exists ns|]. cbn. by rewrite Hsz, map_size_insert_Some by (by eexists).
  - change (Ok (q_size q, q <| q_size ::= λ s, u64 (s + 1) |>) = Ok (n, q')) in H0. injection H0 as _ <-.
    exists aq. split; [constructor|]. split.
    + exists ns. split; [exact (qinv_size q ns aq (λ s, u64 (s + 1)) Hq)|].
      refine (linv_size q _ _ _ (λ s, u64 (s + 1)) _). by apply linv_done.
    + cbn. rewrite Hsz, map_size_delete_Some by (by eexists).
      assert (size ps ≠ 0%nat) by (rewrite map_size_ne_0_lookup; naive_solver).
      unfold wrap. rewrite Zplus_mod_idemp_l. f_equal. lia.
  - destruct (load_ok _ _ _ _ _ Hq Hl (or_introl eq_refl)) as (n' & E & _ & Hl' & _). rewrite E in H. simplify_eq.
    exists aq. split; [constructor|]. split; [by exists ns|]. cbn. rewrite Hsz. by destruct (n =? 0).
  - unfold at_end, gets in H. injection H as E <-. apply Z.eqb_eq in E. exists aq.
    assert (ns = []) as ->. { rewrite (qi_head _ _ _ Hq) in E. destruct ns as [|b ns]; [done|]. exfalso.
      pose proof (qi_nodup _ _ _ Hq) as [Hnd _]%NoDup_cons. apply Hnd. rewrite <- E, lastp_cons. apply lastp_chain. }
    pose proof (qi_elems _ _ _ Hq) as ->%Forall2_nil_inv_l. split; [constructor|]. split; [|done].
    exists []. split; [done|]. by apply (linv_quiet q ps Checking Idle).
  - unfold at_end, gets in H. injection H as E <-. apply Z.eqb_neq in E. exists aq. split; [constructor|]. split; [|done].
    exists ns. split; [done|]. apply (linv_quiet q ps Checking Spinning); [done| |done].
    intros ->. by rewrite (qi_head _ _ _ Hq) in E.
  - destruct (load_ok _ _ _ _ _ Hq Hl (or_intror eq_refl)) as (n' & E & _ & Hl' & _). rewrite E in H. simplify_eq.
    exists aq. split; [constructor|]. split; [by exists ns|]. cbn. rewrite Hsz. by destruct (n =? 0).
  - destruct (disconnect_ok _ _ _ _ _ Hq Hl) as (nd & E & Hq' & Hl'). rewrite E in H. simplify_eq.
    exists aq. split; [constructor|]. split; [by exists ns|done].
  - destruct (advance_ok _ _ _ _ _ Hq Hl) as (e' & ns' & aq' & E & -> & Hq' & Hl'). rewrite E in H. simplify_eq.
    exists aq'. split; [constructor|]. split; [by exists ns'|]. cbn [queue producers cons_at q_size upd uncounted].
    rewrite Hsz. cbn [length uncounted]. f_equal. lia.
  - change (Ok ((), q <| q_size ::= λ s, u64 (s - 1) |>) = Ok ((), q')) in H. injection H as <-. exists aq. split; [constructor|]. split.
    + exists ns. split; [exact (qinv_size q ns aq (λ s, u64 (s - 1)) Hq)|].
      refine (linv_size q _ _ _ (λ s, u64 (s - 1)) _). by apply (linv_quiet q ps (Uncounting e) Idle).
    + cbn. rewrite Hsz. unfold wrap. rewrite Zminus_mod_idemp_l. f_equal. cbn. lia.
Qed.

Lemma minv_initial stub : stub ≠ 0 → minv (initial stub) [].
Proof.
  intros Hs. split; [|done]. exists []. split; split; cbn; try done.
  - apply NoDup_singleton.
  - unfold chain. cbn. set_solver.
  - intros a. unfold chain. cbn. rewrite lookup_singleton, list_elem_of_singleton. case_decide; naive_solver.
  - unfold next_of. cbn. by rewrite lookup_singleton_eq.
  - intros a b (i & _ & Hb). by destruct i.
Qed.
Lemma mrun_sim s tr s' aq : minv s aq → mrun s tr s' → ∃ aq', fifo_run aq tr aq' ∧ minv s' aq'.
Proof.
  intros Hm. induction 1 as [|s tr s1 ev s2 Hr IH Hst]; [exists aq; split; [constructor|done]|].
  destruct (IH Hm) as (aq1 & Hf & Hm1). destruct (mstep_sim _ _ _ _ Hm1 Hst) as (aq2 & Hs & Hm2).
  exists aq2. split; [by econstructor|done].
Qed.
Lemma minv_enabled s aq : minv s aq → all_enabled s.
Proof.
  destruct s as [q ps c]. intros [(ns & Hq & Hl) _]. cbn in *. split; cbn.
  - intros t [a b|] Hp; [|by eexists]. destruct (link_ok _ _ _ _ _ _ _ _ Hq Hl Hp) as (nd & E & _).
    cbn. unfold mbind, ST_bind. rewrite E. by eexists.
  - destruct c as [| | |n|n|e]; cbn; try by eexists.
    + destruct (load_ok _ _ _ _ _ Hq Hl) as (n & E & _); [by left|by eexists].
    + destruct (load_ok _ _ _ _ _ Hq Hl) as (n & E & _); [by right|by eexists].
    + destruct (disconnect_ok _ _ _ _ _ Hq Hl) as (nd & E & _). unfold mbind, ST_bind. rewrite E. by eexists.
    + destruct (advance_ok _ _ _ _ _ Hq Hl) as (e & ns' & aq' & E & _). by eexists.
Qed.
Lemma fifo_run_spec l tr l' : fifo_run l tr l' → l ++ enqueued tr = dequeued tr ++ l'.
Proof.
  unfold enqueued, dequeued. induction 1 as [|l tr l1 ev l2 Hr IH Hs]; [by rewrite app_nil_r|].
  rewrite !omap_app. destruct Hs; cbn; rewrite ?app_nil_r in *.
  - by rewrite app_assoc, IH, app_assoc.
  - by rewrite IH, <- app_assoc.
  - done.
  - done.
Qed.

(** ** The queue is a queue *)

(** C19: whatever the interleaving of the producers and the consumer, what the observer sees
    is a run of a first-in first-out queue (the elements that left, followed by the ones still
    in, are the elements that entered, in the order of the exchanges; an empty answer is only
    given when nothing is in), no thread is about to use a node that was deleted, and when no
    call is in progress [Size] is the number of elements. *)
Theorem mpsc_refines_fifo stub tr s : stub ≠ 0 → mrun (initial stub) tr s →
  ∃ aq, fifo_run [] tr aq ∧ enqueued tr = dequeued tr ++ aq ∧ all_enabled s ∧
    (producers s = ∅ → cons_at s = Idle → Size (queue s) = u64 (Z.of_nat (length aq))).
Proof.
  intros Hs Hr. destruct (mrun_sim _ _ _ _ (minv_initial stub Hs) Hr) as (aq & Hf & Hm). exists aq.
  split_and!; [done|by apply (fifo_run_spec [])|by eapply minv_enabled|].
  intros Hp Hc. unfold Size. rewrite (mi_size _ _ Hm), Hp, Hc, map_size_empty. cbn. f_equal. lia.
Qed.

(** ** Calls that run alone *)

Lemma Push_quiet q ns aq newNode e :
  qinv q ns aq → linv q ∅ Idle ns → newNode ≠ 0 → nodes q !! newNode = None →
  ∃ q', Push newNode e q = Ok (q_size q, q') ∧ qinv q' (ns ++ [newNode]) (aq ++ [e]) ∧
    linv q' ∅ Idle (ns ++ [newNode]) ∧ q_size q' = u64 (q_size q + 1).
Proof.
  intros Hq Hl Hn Hf. destruct (exchange_ok _ _ _ _ _ 0%nat newNode e Hq Hl) as (E1 & Hq1 & Hl1); [done..|].
  destruct (link_ok _ _ _ _ _ 0%nat (q_head q) newNode Hq1 Hl1) as (nd & E2 & Hq2 & Hl2); [by rewrite lookup_insert_eq|].
  eexists. split; [|split; [exact (qinv_size _ _ _ (λ s, u64 (s + 1)) Hq2)|split; [|done]]].
  - unfold Push, mbind, ST_bind. rewrite E1. cbn beta iota. by rewrite E2.
  - apply linv_size. rewrite insert_insert_eq in Hl2. apply (linv_done _ _ _ _ 0%nat) in Hl2; [|by rewrite lookup_insert_eq].
    by rewrite delete_insert_id in Hl2.
Qed.
Lemma Pop_quiet q ns aq : qinv q ns aq → linv q ∅ Idle ns →
  match aq with
  | [] => Pop q = Ok (None, q)
  | e :: aq' => ∃ q' ns', Pop q = Ok (Some e, q') ∧ qinv q' ns' aq' ∧ linv q' ∅ Idle ns' ∧ q_size q' = u64 (q_size q - 1)
  end.
Proof.
  intros Hq Hl. destruct (load_ok _ _ _ _ _ Hq Hl) as (n & E & Hn & Hl1 & Hh); [by left|].
  destruct aq as [|e aq].
  - pose proof (qi_elems _ _ _ Hq) as ->%Forall2_nil_inv_r. pose proof (qi_head _ _ _ Hq) as Hhd. unfold lastp in Hhd. cbn in Hhd.
    pose proof (qi_end _ _ _ Hq) as He. rewrite Hhd, Hn in He. injection He as ->.
    unfold Pop, mbind, ST_bind. rewrite E. cbn. unfold at_end, gets. by rewrite Hhd, Z.eqb_refl.
  - pose proof (qi_elems _ _ _ Hq) as (b & ns' & Hb & _ & ->)%Forall2_cons_inv_r.
    assert (n = b) as ->.
    { destruct (li_link _ _ _ _ Hl (q_tail q) b) as [Hx|[_ [[t Hx]|[_ ?]]]]; [by exists 0%nat|congruence| |done].
      by rewrite lookup_empty in Hx. }
    assert (b ≠ 0) as Hb0. { intros ->. apply (qi_null _ _ _ Hq). by right; left. }
    rewrite (proj2 (Z.eqb_neq _ _) Hb0) in Hl1.
    destruct (disconnect_ok _ _ _ _ _ Hq Hl1) as (nd & E2 & Hq2 & Hl2).
    destruct (advance_ok _ _ _ _ _ Hq2 Hl2) as (e' & ns2 & aq2 & E3 & [= <- <-] & Hq3 & Hl3).
    eexists _, ns2. split; [|split; [exact (qinv_size _ _ _ (λ s, u64 (s - 1)) Hq3)|split; [|done]]].
    + unfold Pop, mbind, ST_bind. rewrite E. cbn beta iota. rewrite (proj2 (Z.eqb_neq _ _) Hb0), E2. cbn beta iota. by rewrite E3.
    + apply linv_size. by apply (linv_quiet _ _ (Uncounting e)).
Qed.

Lemma qinv_size_nodes q ns aq : qinv q ns aq → size (nodes q) = S (length aq).
Proof.
  intros Hq. rewrite <- (Forall2_length _ _ _ (qi_elems _ _ _ Hq)). rewrite <- size_dom.
  assert (dom (nodes q) = list_to_set (chain q ns)) as ->.
  { apply set_eq. intros a. rewrite elem_of_dom, elem_of_list_to_set. apply (qi_dom _ _ _ Hq). }
  rewrite size_list_to_set by (apply (qi_nodup _ _ _ Hq)). done.
Qed.
Lemma drain_quiet q ns aq fuel : qinv q ns aq → linv q ∅ Idle ns → (length aq < fuel)%nat →
  ∃ q', drain fuel q = Ok ((), q') ∧ qinv q' [] [].
Proof.
  revert q ns aq. induction fuel as [|fuel IH]; intros q ns aq Hq Hl Hf; [lia|].
  pose proof (Pop_quiet _ _ _ Hq Hl) as HP. destruct aq as [|e aq].
  - exists q. split; [cbn; unfold mbind, ST_bind; by rewrite HP|]. pose proof (qi_elems _ _ _ Hq) as Hn.
    by apply Forall2_nil_inv_r in Hn as ->.
  - destruct HP as (q' & ns' & E & Hq' & Hl' & _). destruct (IH q' ns' aq Hq' Hl') as (q2 & E2 & Hq2); [cbn in Hf; lia|].
    exists q2. split; [cbn; unfold mbind, ST_bind; by rewrite E|done].
Qed.

(** With no call in progress, [Pop] and [Empty] answer by the abstract queue, without
    waiting, and the destructor terminates and leaves no node behind. *)
Theorem mpsc_quiet_calls stub tr s : stub ≠ 0 → mrun (initial stub) tr s → producers s = ∅ → cons_at s = Idle →
  ∃ aq, enqueued tr = dequeued tr ++ aq ∧
    (∃ q', Pop (queue s) = Ok (head aq, q')) ∧
    Empty (queue s) = Ok (bool_decide (aq = []), queue s) ∧
    ∃ q', destroy (queue s) = Ok ((), q') ∧ nodes q' = ∅.
Proof.
  intros Hs Hr Hp Hc. destruct (mrun_sim _ _ _ _ (minv_initial stub Hs) Hr) as (aq & Hf & [(ns & Hq & Hl) _]).
  rewrite Hp, Hc in Hl. pose proof (Pop_quiet _ _ _ Hq Hl) as HP.
  exists aq. split; [by apply (fifo_run_spec [])|]. split_and!.
  - destruct aq as [|e aq]; [by eexists|]. destruct HP as (q' & _ & E & _). by exists q'.
  - revert HP. unfold Pop, Empty, mbind, ST_bind. destruct (load_ok _ _ _ _ _ Hq Hl) as (n & E & Hn & _ & Hh); [by left|].
    rewrite E. cbn beta iota. destruct (Z.eqb_spec n 0) as [->|Hne].
    + unfold at_end, gets. destruct (q_head (queue s) =? q_tail (queue s)); destruct aq; naive_solver.
    + intros _. destruct aq; [|done]. pose proof (qi_elems _ _ _ Hq) as ->%Forall2_nil_inv_r. by specialize (Hh Hne).
  - destruct (drain_quiet _ _ _ (S (size (nodes (queue s)))) Hq Hl) as (q1 & E & Hq1); [rewrite (qinv_size_nodes _ _ _ Hq); lia|].
    destruct (qinv_next _ _ _ (q_tail q1) Hq1) as (nd & Hnd & _); [by left|].
    eexists. split; [unfold destroy, mbind, ST_bind, get; rewrite E; cbn; unfold get_node, mbind, ST_bind, get; cbn; by rewrite Hnd|].
    apply map_eq. intros a. cbn. rewrite lookup_empty, lookup_delete. case_decide; [done|].
    destruct (nodes q1 !! a) eqn:Ha; [|done]. assert (a ∈ chain q1 []) as Hin by (apply (qi_dom _ _ _ Hq1); by eexists).
    unfold chain in Hin. by apply list_elem_of_singleton in Hin.
Qed.

(** ** A call of [Pop] returns

    An execution is an infinite sequence of steps. It is fair when the consumer keeps running
    and no producer stops inside a call for ever. *)
Section liveness.
Context (stub : Z) (σ : nat → sys) (ev : nat → event).

Definition of_consumer (e : event) : bool :=
  match e with Deq _ | FoundEmpty | Tau None => true | _ => false end.
Record execution : Prop := {
  ex_start : σ 0%nat = initial stub;
  ex_step : ∀ i, mstep (σ i) (ev i) (σ (S i)) }.
Record fair : Prop := {
  fair_consumer : ∀ i, ∃ j, (i ≤ j)%nat ∧ of_consumer (ev j) = true;
  fair_producer : ∀ i t p, producers (σ i) !! t = Some p → ∃ j, (i ≤ j)%nat ∧ producers (σ j) !! t ≠ Some p }.

Lemma other_steps_keep s e s' : mstep s e s' → of_consumer e = false → cons_at s' = cons_at s ∧ q_tail (queue s') = q_tail (queue s).
Proof.
  destruct 1 as [? ? ? ? ? ? ? ? ? ? ? H|? ? ? ? oh nn ? ? H|? ? ? ? ? ? ? H| | | | | | |]; try done; intros _.
  - by injection H as _ <-.
  - unfold push_link, get_node, mbind, ST_bind, get in H. cbn in H. destruct (nodes q !! oh); [|done]. by injection H as <-.
  - change (Ok (q_size q, q <| q_size ::= λ s, u64 (s + 1) |>) = Ok (n, q')) in H. by injection H as _ <-.
Qed.
(** How far the consumer is from returning. *)
Definition rank (c : consumer) : nat :=
  match c with Checking => 5 | Spinning => 4 | Got _ => 3 | Detached _ => 2 | Uncounting _ => 1 | Idle => 0 end.
Lemma consumer_steps_progress s e s' : mstep s e s' → of_consumer e = true → cons_at s ≠ Idle →
  (rank (cons_at s') < rank (cons_at s))%nat ∨ cons_at s = Spinning ∧ s' = s ∧ next_of (queue s) (q_tail (queue s)) = Some 0.
Proof.
  destruct 1 as [| | | | | |q ps n q' H| | |]; cbn; try done; intros _ _; try (left; lia).
  unfold load_next, get_node, mbind, ST_bind, get in H. cbn in H. destruct (nodes q !! q_tail q) as [nd|] eqn:E; [|done].
  injection H as <- <-. unfold next_of. rewrite E. destruct (Z.eqb_spec (n_next nd) 0) as [Ez|?]; [|left; cbn; lia].
  right. cbn. by rewrite Ez.
Qed.

(** While the consumer spins, the link of the stub stays owed by the same producer until it
    is there, and then it stays. *)
Definition owes (t : nat) (b : Z) (s : sys) : Prop := producers s !! t = Some (Linking (q_tail (queue s)) b).
Definition linked (b : Z) (s : sys) : Prop := next_of (queue s) (q_tail (queue s)) = Some b.
Lemma linked_step s e s' aq b : minv s aq → mstep s e s' → cons_at s = Spinning → b ≠ 0 → linked b s →
  cons_at s' = Spinning ∧ linked b s' ∨ (rank (cons_at s') < 4)%nat.
Proof.
  intros [(ns & Hq & Hl) _] Hst Hc Hb Hlk. unfold linked in *.
  destruct Hst as [? ? ? ? nn ? ? ? ? ? Hf H|? ? ? ? oh nn ? Hp H|? ? ? ? ? ? ? H| | | |q ps n q' H| | |]; cbn in *; try done.
  - left. injection H as _ <-. unfold next_of in *. cbn. rewrite lookup_insert_ne; [done|]. intros ->. by rewrite Hf in Hlk.
  - destruct (li_owed _ _ _ _ Hl _ _ _ Hp) as [_ Hz]. assert (oh ≠ q_tail q) as Hne by congruence.
    unfold push_link, get_node, mbind, ST_bind, get in H. cbn in H. destruct (nodes q !! oh); [|done]. injection H as <-.
    left. unfold next_of in *. cbn. by rewrite lookup_insert_ne.
  - left. change (Ok (q_size q, q <| q_size ::= λ s, u64 (s + 1) |>) = Ok (n, q')) in H. by injection H as _ <-.
  - right. destruct (load_ok _ _ _ _ _ Hq Hl) as (n' & E & Hn & _); [by right|]. rewrite E in H. simplify_eq.
    rewrite (proj2 (Z.eqb_neq _ _) Hb). cbn. lia.
Qed.
Lemma owes_step s e s' aq t b : minv s aq → mstep s e s' → cons_at s = Spinning → owes t b s →
  cons_at s' = Spinning ∧ (owes t b s' ∨ linked b s') ∨ (rank (cons_at s') < 4)%nat.
Proof.
  intros [(ns & Hq & Hl) _] Hst Hc Ho. unfold owes, linked in *.
  destruct Hst as [? ? ? t' nn ? ? ? Ht ? Hf H|? ? ? t' oh nn ? Hp H|? ? ? t' ? ? Hp H| | | |q ps n q' H| | |]; cbn in *; try done.
  - left. split; [done|left]. injection H as _ <-. cbn. rewrite lookup_insert_ne by (intros ->; congruence). done.
  - left. split; [done|]. unfold push_link, get_node, mbind, ST_bind, get in H. cbn in H. destruct (nodes q !! oh); [|done].
    injection H as <-. destruct (decide (t' = t)) as [->|Hne]; [|left; cbn; by rewrite lookup_insert_ne].
    rewrite Hp in Ho. injection Ho as -> ->. right. unfold next_of. cbn. by rewrite lookup_insert_eq.
  - left. split; [done|left]. change (Ok (q_size q, q <| q_size ::= λ s, u64 (s + 1) |>) = Ok (n, q')) in H. injection H as _ <-.
    cbn. rewrite lookup_delete_ne by (intros ->; congruence). done.
  - destruct (load_ok _ _ _ _ _ Hq Hl) as (n' & E & Hn & _); [by right|]. rewrite E in H. simplify_eq.
    destruct (n =? 0); [left; split; [done|by left]|right; cbn; lia].
Qed.

Context (Hstub : stub ≠ 0) (Hex : execution) (Hfair : fair).

Lemma minv_at i : ∃ aq, minv (σ i) aq.
Proof.
  induction i as [|i [aq IH]]; [exists []; rewrite (ex_start Hex); by apply minv_initial|].
  destruct (mstep_sim _ _ _ _ IH (ex_step Hex i)) as (aq' & _ & ?). by exists aq'.
Qed.
Lemma next_consumer_step i : ∃ j, (i ≤ j)%nat ∧ of_consumer (ev j) = true ∧ cons_at (σ j) = cons_at (σ i).
Proof.
  destruct (fair_consumer Hfair i) as (k & Hik & Hk). remember (k - i)%nat as d eqn:Hd.
  revert i Hik Hd. induction d as [|d IH]; intros i Hik Hd.
  - assert (k = i) as -> by lia. by exists i.
  - destruct (of_consumer (ev i)) eqn:E; [by exists i|]. destruct (other_steps_keep _ _ _ (ex_step Hex i) E) as [Ec _].
    destruct (IH (S i)) as (j & ? & ? & ?); [lia..|]. exists j. split_and!; [lia|done|congruence].
Qed.
Lemma linked_leaves i b k : cons_at (σ i) = Spinning → b ≠ 0 → linked b (σ i) → (i < k)%nat →
  cons_at (σ k) = Spinning ∧ linked b (σ k) ∨ ∃ j, (i ≤ j)%nat ∧ (rank (cons_at (σ j)) < 4)%nat.
Proof.
  intros Hc Hb Hlk. induction 1 as [|k Hik IH].
  - destruct (minv_at i) as [aq Hm]. destruct (linked_step _ _ _ _ b Hm (ex_step Hex i) Hc Hb Hlk); [by left|right; exists (S i); lia].
  - destruct IH as [[Hck Hlkk]|?]; [|by right]. destruct (minv_at k) as [aq Hm].
    destruct (linked_step _ _ _ _ b Hm (ex_step Hex k) Hck Hb Hlkk); [by left|right; exists (S k); lia].
Qed.
Lemma linked_returns i b : cons_at (σ i) = Spinning → b ≠ 0 → linked b (σ i) → ∃ j, (i ≤ j)%nat ∧ (rank (cons_at (σ j)) < 4)%nat.
Proof.
  intros Hc Hb Hlk. destruct (fair_consumer Hfair (S i)) as (k & Hik & Hk).
  destruct (linked_leaves i b k) as [[Hck Hlkk]|?]; [done..|lia| |done].
  destruct (consumer_steps_progress _ _ _ (ex_step Hex k) Hk) as [Hr|(_ & _ & Hz)]; [by rewrite Hck| |].
  - exists (S k). rewrite Hck in Hr. cbn in Hr. lia.
  - unfold linked in Hlkk. congruence.
Qed.
Lemma owes_returns i t b : cons_at (σ i) = Spinning → b ≠ 0 → owes t b (σ i) → ∃ j, (i ≤ j)%nat ∧ (rank (cons_at (σ j)) < 4)%nat.
Proof.
  intros Hc Hb Ho. destruct (fair_producer Hfair _ _ _ Ho) as (k & Hik & Hk).
  remember (k - i)%nat as d eqn:Hd. remember (q_tail (queue (σ i))) as tl eqn:Htl. revert i Hc Ho Hik Hd Htl.
  induction d as [|d IH]; intros i Hc Ho Hik Hd Htl.
  - assert (k = i) as -> by lia. unfold owes in Ho. by rewrite <- Htl in Ho.
  - destruct (minv_at i) as [aq Hm].
    destruct (owes_step _ _ _ _ _ _ Hm (ex_step Hex i) Hc Ho) as [[Hc' [Ho'|Hl']]|?]; [| |exists (S i); lia].
    + destruct (IH (S i)) as (j & ? & ?); [done|done|lia..| |exists j; lia].
      destruct (of_consumer (ev i)) eqn:E; [|by destruct (other_steps_keep _ _ _ (ex_step Hex i) E) as [_ ->]].
      destruct (consumer_steps_progress _ _ _ (ex_step Hex i) E) as [Hr|(_ & -> & _)]; [by rewrite Hc| |done].
      rewrite Hc, Hc' in Hr. lia.
    + destruct (linked_returns (S i) b Hc' Hb Hl') as (j & ? & ?). exists j. lia.
Qed.
Lemma spinning_returns i : cons_at (σ i) = Spinning → ∃ j, (i ≤ j)%nat ∧ (rank (cons_at (σ j)) < 4)%nat.
Proof.
  intros Hc. destruct (minv_at i) as [aq [(ns & Hq & Hl) _]]. pose proof (li_cons _ _ _ _ Hl) as Hne. rewrite Hc in Hne.
  destruct ns as [|b ns]; [done|]. assert (b ≠ 0) as Hb. { intros ->. apply (qi_null _ _ _ Hq). by right; left. }
  destruct (li_link _ _ _ _ Hl (q_tail (queue (σ i))) b) as [Hx|[_ [[t Hx]|[_ Hx]]]]; [by exists 0%nat| | |by rewrite Hc in Hx].
  - by apply (linked_returns i b).
  - by apply (owes_returns i t b).
Qed.
Lemma pop_progress n i : (rank (cons_at (σ i)) ≤ n)%nat → ∃ j, (i ≤ j)%nat ∧ cons_at (σ j) = Idle.
Proof.
  revert i. induction n as [|n IH]; intros i Hr.
  - exists i. destruct (cons_at (σ i)); cbn in Hr; try lia. done.
  - assert (∀ j, (i ≤ j)%nat → (rank (cons_at (σ j)) < rank (cons_at (σ i)))%nat → ∃ j, (i ≤ j)%nat ∧ cons_at (σ j) = Idle) as Hdec.
    { intros j Hij Hj. destruct (IH j) as (k & ? & ?); [lia|]. exists k. split; [lia|done]. }
    destruct (next_consumer_step i) as (j & Hij & Hj & Ec).
    destruct (decide (rank (cons_at (σ i)) = 0)%nat) as [H0|Hn0].
    { exists i. destruct (cons_at (σ i)); try done. }
    assert (cons_at (σ j) ≠ Idle) as Hni by (intros E; rewrite <- Ec, E in Hn0; done).
    destruct (consumer_steps_progress _ _ _ (ex_step Hex j) Hj Hni) as [Hlt|(Hs & _)].
    + apply (Hdec (S j)); [lia|]. by rewrite <- Ec.
    + rewrite Ec in Hs. destruct (spinning_returns i Hs) as (k & Hk & Hkr). apply (Hdec k); [done|]. by rewrite Hs.
Qed.
End liveness.

(** C20: in every fair execution (the consumer keeps running and no producer stops for ever
    inside a call) each call of [Pop] returns, also one that found the chain broken. *)
Theorem mpsc_pop_returns stub σ ev i : stub ≠ 0 → execution stub σ ev → fair σ ev →
  ∃ j, (i ≤ j)%nat ∧ cons_at (σ j) = Idle.
Proof. intros Hs Hex Hf. by eapply pop_progress. Qed.

(** ** An executable schedule *)

Inductive choice := Start (t : nat) (newNode elem : Z) | Continue (t : nat) | Consume.
Definition ok_of {A} (m : res A) : option A := match m with Ok a => Some a | Err _ => None end.
Definition exec (s : sys) (ch : choice) : option (event * sys) :=
  let q := queue s in
  match ch with
  | Start t newNode e =>
      match producers s !! t, nodes q !! newNode with
      | None, None =>
          if newNode =? 0 then None else
          '(oldhead, q') ← ok_of (push_exchange newNode e q);
          Some (Enq t e, MkSys q' (<[t := Linking oldhead newNode]> (producers s)) (cons_at s))
      | _, _ => None
      end
  | Continue t =>
      p ← producers s !! t;
      match p with
      | Linking a b =>
          '(_, q') ← ok_of (push_link a b q); Some (Tau (Some t), MkSys q' (<[t := Counting]> (producers s)) (cons_at s))
      | Counting => '(_, q') ← ok_of (push_count q); Some (Tau (Some t), MkSys q' (delete t (producers s)) (cons_at s))
      end
  | Consume =>
      match cons_at s with
      | Idle => '(n, q') ← ok_of (load_next q); Some (Tau None, MkSys q' (producers s) (if n =? 0 then Checking else Got n))
      | Checking =>
          '(b, q') ← ok_of (at_end q);
          Some (if b : bool then (FoundEmpty, MkSys q' (producers s) Idle) else (Tau None, MkSys q' (producers s) Spinning))
      | Spinning => '(n, q') ← ok_of (load_next q); Some (Tau None, MkSys q' (producers s) (if n =? 0 then Spinning else Got n))
      | Got n => '(_, q') ← ok_of (disconnect q); Some (Tau None, MkSys q' (producers s) (Detached n))
      | Detached n => '(e, q') ← ok_of (advance n q); Some (Deq e, MkSys q' (producers s) (Uncounting e))
      | Uncounting _ => '(_, q') ← ok_of (pop_count q); Some (Tau None, MkSys q' (producers s) Idle)
      end
  end.
Lemma exec_sound s ch e s' : exec s ch = Some (e, s') → mstep s e s'.
Proof.
  assert (∀ A (m : res A) a, ok_of m = Some a → m = Ok a) as Hok by (by intros A [x|x] a; cbn; [intros [= ->]|]).
  destruct s as [q ps c]. unfold exec. destruct ch as [t nn el|t|]; cbn [queue producers cons_at].
  - destruct (ps !! t) eqn:Ht; [done|]. destruct (nodes q !! nn) eqn:Hn; [done|]. destruct (Z.eqb_spec nn 0); [done|].
    intros ([oh q'] & E%Hok & [= <- <-])%bind_Some. by apply step_exchange.
  - intros ([a b|] & Hp & ([r q'] & E%Hok & [= <- <-])%bind_Some)%bind_Some; [destruct r; by eapply step_link|by eapply step_count].
  - destruct c; intros ([r q'] & E%Hok & H)%bind_Some; try (injection H as <- <-); try destruct r; try (injection H as <- <-);
      (by constructor) || by eapply step_advance.
Qed.

Fixpoint run_with (ch : nat → choice) (s : sys) (i : nat) : sys :=
  match i with
  | O => s
  | S i => let s := run_with ch s i in match exec s (ch i) with Some (_, s') => s' | None => s end
  end.
Definition event_at (ch : nat → choice) (s : sys) (i : nat) : event :=
  match exec (run_with ch s i) (ch i) with Some (e, _) => e | None => Tau None end.

(** The consumer finds the stub without a link while a producer is between its two writes,
    spins, gets the element, and then calls [Pop] for ever on the empty queue. *)
Definition demo_choices (i : nat) : choice :=
  nth i [Consume; Start 0 2 7; Consume; Consume; Continue 0; Consume; Consume; Consume; Consume; Continue 0] Consume.
Definition demo_run : nat → sys := run_with demo_choices (initial 1).
Definition demo_event : nat → event := event_at demo_choices (initial 1).

Example demo_spins : cons_at (demo_run 4) = Spinning ∧ cons_at (demo_run 5) = Spinning ∧
  map demo_event (seq 0 12) = [Tau None; Enq 0 7; Tau None; Tau None; Tau (Some 0%nat); Tau None; Tau None; Deq 7; Tau None;
    Tau (Some 0%nat); Tau None; FoundEmpty].
Proof. vm_compute. auto. Qed.

Lemma demo_choices_tail i : (10 ≤ i)%nat → demo_choices i = Consume.
Proof. intros Hi. unfold demo_choices. by rewrite nth_overflow. Qed.
(** Between two calls that find the queue empty, and inside one. *)
Definition rest (c : consumer) : sys := MkSys (MkQueue {[2 := MkNode 7 0]} 2 2 0) ∅ c.
Lemma rest_calls : exec (rest Idle) Consume = Some (Tau None, rest Checking) ∧
  exec (rest Checking) Consume = Some (FoundEmpty, rest Idle).
Proof. split; vm_compute; reflexivity. Qed.
Lemma demo_run_10 : demo_run 10 = rest Idle.
Proof. vm_compute. reflexivity. Qed.
Lemma run_with_S ch s i : run_with ch s (S i) = match exec (run_with ch s i) (ch i) with Some (_, s') => s' | None => run_with ch s i end.
Proof. reflexivity. Qed.
Lemma demo_run_tail k : demo_run (10 + k) = rest (if Nat.even k then Idle else Checking).
Proof.
  induction k as [|k IH]; [rewrite Nat.add_0_r; apply demo_run_10|]. rewrite Nat.even_succ, <- Nat.negb_even, Nat.add_succ_r.
  unfold demo_run in *. rewrite run_with_S, IH, demo_choices_tail by lia. destruct rest_calls as [H1 H2].
  destruct (Nat.even k); cbn [negb]; [by rewrite H1|by rewrite H2].
Qed.
Lemma demo_prefix : forallb (λ i, match exec (demo_run i) (demo_choices i) with Some _ => true | None => false end) (seq 0 10) = true.
Proof. vm_compute. reflexivity. Qed.
Lemma demo_exec i : exec (demo_run i) (demo_choices i) = Some (demo_event i, demo_run (S i)).
Proof.
  assert (is_Some (exec (demo_run i) (demo_choices i))) as [[e s] E].
  { destruct (decide (10 ≤ i)%nat) as [Hi|Hi].
    - rewrite demo_choices_tail by done. replace i with (10 + (i - 10))%nat by lia. rewrite demo_run_tail.
      destruct rest_calls as [H1 H2]. destruct (Nat.even _); [rewrite H1|rewrite H2]; by eexists.
    - pose proof (proj1 (forallb_forall _ _) demo_prefix i) as H. cbv beta in H.
      destruct (exec (demo_run i) (demo_choices i)); [by eexists|]. discriminate H. apply in_seq. lia. }
  unfold demo_event, event_at, demo_run in *. rewrite run_with_S. by rewrite E.
Qed.
Lemma demo_execution : execution 1 demo_run demo_event.
Proof. split; [reflexivity|]. intros i. eapply exec_sound, demo_exec. Qed.
Lemma demo_fair : fair demo_run demo_event.
Proof.
  split.
  - intros i. exists (10 + i)%nat. split; [lia|]. unfold demo_event, event_at. fold demo_run. rewrite demo_run_tail, demo_choices_tail by lia.
    destruct rest_calls as [H1 H2]. destruct (Nat.even i); [by rewrite H1|by rewrite H2].
  - intros i t p _. exists (10 + i)%nat. split; [lia|]. rewrite demo_run_tail. cbn [rest producers]. by rewrite lookup_empty.
Qed.
Lemma mrun_of_execution stub σ ev : execution stub σ ev → ∀ i, mrun (initial stub) (map ev (seq 0 i)) (σ i).
Proof.
  intros [H0 Hst] i. induction i as [|i IH]; [rewrite H0; constructor|].
  rewrite seq_S, map_app. by eapply mrun_snoc.
Qed.

Lemma mpsc_refines_fifo_witness : ∃ aq, enqueued (map demo_event (seq 0 3)) = dequeued (map demo_event (seq 0 3)) ++ aq ∧ all_enabled (demo_run 3).
Proof.
  destruct (mpsc_refines_fifo 1 (map demo_event (seq 0 3)) (demo_run 3)) as (aq & _ & E & H & _);
    [done|apply (mrun_of_execution 1), demo_execution|by exists aq].
Defined.
Lemma mpsc_quiet_calls_witness : ∃ q', destroy (queue (demo_run 12)) = Ok ((), q') ∧ nodes q' = ∅.
Proof.
  destruct (mpsc_quiet_calls 1 (map demo_event (seq 0 12)) (demo_run 12)) as (aq & _ & _ & _ & H);
    [done|apply (mrun_of_execution 1), demo_execution|by vm_compute|by vm_compute|exact H].
Defined.
Lemma mpsc_pop_returns_witness : cons_at (demo_run 5) = Spinning ∧ ∃ j, (5 ≤ j)%nat ∧ cons_at (demo_run j) = Idle.
Proof. split; [by vm_compute|]. apply (mpsc_pop_returns 1 demo_run demo_event 5); [done|apply demo_execution|apply demo_fair]. Defined.
