(* ===== verification/Scheduler.v ===== *)
(** * The periodic scheduler (src/src/common/scheduler.h, scheduler.cc)

    One thread runs periodic tasks; other threads add and complete tasks, start and stop the
    scheduler. A block that holds [tasks_mutex_] is one step, since [tasks_] and
    [task_status_] are only touched with the lock; accesses to [running_], notifications and
    waiting are steps of their own. The queue is a list of which any task with the least
    [next_run_time] can be the top. Times are milliseconds. The thread may wake up without a
    notification, as [std::condition_variable] allows. *)

From Stdlib Require Import ZArith Lia.
From stdpp Require Import prelude gmap.
From S2P Require Import Prelude.
Open Scope Z_scope.

(** ** State *)

Record PeriodicTask := MkTask { task : Z; next_run_time : Z; interval : Z; t_id : Z }.
(** Where the scheduler thread is: at the loop condition, at the lock, blocked in [wait] or in
    [wait_until], woken up, unlocked with a task that it picked at [now] and has not called yet,
    inside [task()] of a task that it picked at [now], or at its end. *)
Inductive thread_pc := AtWhile | AtLock | Waiting | WaitingUntil (tm : Z) | Woken | Picked (t : PeriodicTask) (now : Z) | InTask (t : PeriodicTask) (now : Z) | Returned.
(** Where a caller is: before the notification of [AddPeriodicTask]; in [Stop] before the store,
    before the notification, and in [join]. *)
Inductive caller_pc := AddNotify | StopStore | StopNotify | StopJoin.
(** What has happened: a task was added or completed, picked under the lock, or called. *)
Inductive event := EvAdd (id interval now : Z) | EvComplete (id : Z) | EvPick (id now : Z) | EvRun (id now : Z).
Record Scheduler := MkSched {
  tasks_ : list PeriodicTask; task_status_ : gmap Z bool; id_cnt_ : Z; running_ : bool;
  scheduler_thread_ : option thread_pc; callers : gmap nat caller_pc; clock : Z; log : list event }.
#[export] Instance eta_Scheduler : Eta Scheduler := λ s,
  MkSched (tasks_ s) (task_status_ s) (id_cnt_ s) (running_ s) (scheduler_thread_ s) (callers s) (clock s) (log s).
#[export] Instance caller_pc_eq_dec : EqDecision caller_pc.
Proof. solve_decision. Defined.
Definition new_scheduler (now : Z) : Scheduler := MkSched [] ∅ 0 false None ∅ now [].

(** ** Operations *)

(** The top of the queue is at position [i]. *)
Definition is_top (ts : list PeriodicTask) (i : nat) : bool :=
  match ts !! i with
  | Some t => forallb (λ u, next_run_time t <=? next_run_time u) ts
  | None => false
  end.
Definition notify (s : Scheduler) : Scheduler :=
  match scheduler_thread_ s with
  | Some Waiting | Some (WaitingUntil _) => s <| scheduler_thread_ := Some Woken |>
  | _ => s
  end.
(** [AddPeriodicTask] by caller [c] up to the release of the lock; the second result is
    [notify]. *)
Definition add_locked (f iv : Z) (s : Scheduler) : Scheduler * bool :=
  let next := clock s + iv in
  let notify := forallb (λ t, next <? next_run_time t) (tasks_ s) in
  let id := u32 (id_cnt_ s + 1) in
  (s <| id_cnt_ := id |> <| tasks_ ::= λ l, l ++ [MkTask f next iv id] |> <| task_status_ ::= <[id := true]> |>
     <| log ::= λ l, l ++ [EvAdd id iv (clock s)] |>, notify).
Definition AddPeriodicTask (c : nat) (f iv : Z) (s : Scheduler) : Scheduler :=
  let '(s, n) := add_locked f iv s in
  if n then s <| callers ::= <[c := AddNotify]> |> else s.
Definition CompleteTask (id : Z) (s : Scheduler) : Scheduler :=
  match task_status_ s !! id with
  | Some _ => s <| task_status_ ::= <[id := false]> |> <| log ::= λ l, l ++ [EvComplete id] |>
  | None => s
  end.
Definition Start (s : Scheduler) : Scheduler :=
  if running_ s then s else s <| running_ := true |> <| scheduler_thread_ := Some AtWhile |>.
Definition Clear (s : Scheduler) : Scheduler := s <| tasks_ := [] |> <| task_status_ := ∅ |> <| id_cnt_ := 0 |> <| log := [] |>.
(** The body of the loop from the lock to the next release, with the top at position [i]. *)
Definition locked_block (i : nat) (s : Scheduler) : option Scheduler :=
  match tasks_ s with
  | [] => Some (s <| scheduler_thread_ := Some Waiting |>)
  | _ =>
      if is_top (tasks_ s) i then
        next_task ← tasks_ s !! i;
        let now := clock s in
        if next_run_time next_task <=? now then
          let id := t_id next_task in
          let s := s <| tasks_ ::= delete i |> in
          match default false (task_status_ s !! id) with
          | true => Some (s <| scheduler_thread_ := Some (Picked next_task now) |> <| log ::= λ l, l ++ [EvPick id now] |>)
          | false => Some (s <| task_status_ ::= delete id |> <| scheduler_thread_ := Some AtWhile |>)
          end
        else Some (s <| scheduler_thread_ := Some (WaitingUntil (next_run_time next_task)) |>)
      else None
  end.
(** [task();], called without the lock. *)
Definition call_task (t : PeriodicTask) (now : Z) (s : Scheduler) : Scheduler :=
  s <| scheduler_thread_ := Some (InTask t now) |> <| log ::= λ l, l ++ [EvRun (t_id t) (clock s)] |>.
(** [lock.lock(); tasks_.push({task, now + interval, interval, id});] *)
Definition reschedule (t : PeriodicTask) (now : Z) (s : Scheduler) : Scheduler :=
  s <| tasks_ ::= λ l, l ++ [MkTask (task t) (now + interval t) (interval t) (t_id t)] |> <| scheduler_thread_ := Some AtWhile |>.

(** ** Steps *)

(** Steps of the scheduler thread and of time. *)
Inductive tstep : Scheduler → Scheduler → Prop :=
| t_while s : scheduler_thread_ s = Some AtWhile → tstep s (s <| scheduler_thread_ := Some (if running_ s then AtLock else Returned) |>)
| t_lock s i s' : scheduler_thread_ s = Some AtLock → locked_block i s = Some s' → tstep s s'
| t_timeout s tm : scheduler_thread_ s = Some (WaitingUntil tm) → tm <= clock s → tstep s (s <| scheduler_thread_ := Some Woken |>)
| t_woken s : scheduler_thread_ s = Some Woken → tstep s (s <| scheduler_thread_ := Some AtWhile |>)
| t_call s t now : scheduler_thread_ s = Some (Picked t now) → tstep s (call_task t now s)
| t_task s t now : scheduler_thread_ s = Some (InTask t now) → tstep s (reschedule t now s)
| t_tick s d : 0 <= d → tstep s (s <| clock ::= Z.add d |>).
(** Steps of the callers that are inside an operation. *)
Inductive cstep : Scheduler → Scheduler → Prop :=
| c_add_notify s c : callers s !! c = Some AddNotify → cstep s (notify (s <| callers ::= delete c |>))
| c_store s c : callers s !! c = Some StopStore → cstep s (s <| running_ := false |> <| callers ::= <[c := StopNotify]> |>)
| c_notify s c : callers s !! c = Some StopNotify → cstep s (notify (s <| callers ::= <[c := StopJoin]> |>))
| c_join s c : callers s !! c = Some StopJoin → scheduler_thread_ s = Some Returned ∨ scheduler_thread_ s = None →
    cstep s (s <| scheduler_thread_ := None |> <| callers ::= delete c |>).
(** New calls. [Start] is documented to be called once: not while the thread of an earlier start
    has not been joined. [Clear] is only called when the thread has been joined. *)
Inductive ostep : Scheduler → Scheduler → Prop :=
| o_add s c f iv : callers s !! c = None → 0 <= iv → id_cnt_ s + 1 < 2 ^ 32 → ostep s (AddPeriodicTask c f iv s)
| o_complete s id : ostep s (CompleteTask id s)
| o_start s : running_ s = true ∨ scheduler_thread_ s = None → ostep s (Start s)
| o_stop s c : callers s !! c = None → ostep s (if running_ s then s <| callers ::= <[c := StopStore]> |> else s)
| o_clear s : running_ s = false → scheduler_thread_ s = None → ostep s (Clear s)
| o_spurious s tm : scheduler_thread_ s = Some Waiting ∨ scheduler_thread_ s = Some (WaitingUntil tm) → ostep s (s <| scheduler_thread_ := Some Woken |>).
Inductive reach : Scheduler → Prop :=
| reach_new now : reach (new_scheduler now)
| reach_step s s' : reach s → tstep s s' ∨ cstep s s' ∨ ostep s s' → reach s'.

(** ** Picks are due, apart and not of completed tasks; a run has a pick of its own *)

(** The task out of the queue, when it was picked, and whether it was called. *)
Definition in_task (s : Scheduler) : option (PeriodicTask * Z * bool) :=
  match scheduler_thread_ s with Some (Picked t now) => Some (t, now, false) | Some (InTask t now) => Some (t, now, true) | _ => None end.
(** The ids in the queue and of the task that is out of it. *)
Definition ids (s : Scheduler) : list Z := (t_id <$> tasks_ s) ++ (match in_task s with Some (t, _, _) => [t_id t] | None => [] end).
Definition is_pick (id : Z) (e : event) : bool := match e with EvPick i _ => i =? id | _ => false end.
Definition is_run (id : Z) (e : event) : bool := match e with EvRun i _ => i =? id | _ => false end.
Definition tally (p : event → bool) (l : list event) : Z := Z.of_nat (length (List.filter p l)).
(** How often the task was picked and called. *)
Definition picks (id : Z) (l : list event) : Z := tally (is_pick id) l.
Definition runs (id : Z) (l : list event) : Z := tally (is_run id) l.
(** The thread has neither picked nor called a task. *)
Definition quiet (l : list event) : Prop := ∀ id u, EvPick id u ∉ l ∧ EvRun id u ∉ l.
(** What a pick of [id] at [t], and a call of [id] at [t], may follow. *)
Definition may_pick (l : list event) (id t : Z) : Prop :=
  EvComplete id ∉ l ∧ ∃ iv t0, EvAdd id iv t0 ∈ l ∧ 0 <= iv ∧ t0 + iv * (1 + picks id l) <= t ∧ ∀ u, EvPick id u ∈ l → u + iv <= t.
Definition may_run (l : list event) (id t : Z) : Prop :=
  ∃ l1 p l2, l = l1 ++ EvPick id p :: l2 ∧ quiet l2 ∧ p <= t ∧ runs id l1 = picks id l1.
Definition allowed (l : list event) (e : event) : Prop :=
  match e with EvPick id t => may_pick l id t | EvRun id t => may_run l id t | _ => True end.
Definition good_log (l : list event) : Prop := ∀ l1 e l2, l = l1 ++ e :: l2 → allowed l1 e.
Definition event_id (e : event) : Z := match e with EvAdd id _ _ | EvComplete id | EvPick id _ | EvRun id _ => id end.
(** A task that is queued was added, and its next run is an interval after that and after every
    pick it had. *)
Definition queued_ok (l : list event) (t : PeriodicTask) : Prop :=
  0 <= interval t ∧ (∃ t0, EvAdd (t_id t) (interval t) t0 ∈ l ∧ t0 + interval t * (1 + picks (t_id t) l) <= next_run_time t) ∧
  ∀ u, EvPick (t_id t) u ∈ l → u + interval t <= next_run_time t.
Definition running_ok (l : list event) (t : PeriodicTask) (now : Z) : Prop :=
  0 <= interval t ∧ (∃ t0, EvAdd (t_id t) (interval t) t0 ∈ l ∧ t0 + interval t * picks (t_id t) l <= now) ∧ ∀ u, EvPick (t_id t) u ∈ l → u <= now.
(** The picks of [id] that were not called. *)
Definition uncalled (s : Scheduler) (id : Z) : Z := match in_task s with Some (t, _, false) => if t_id t =? id then 1 else 0 | _ => 0 end.
Record sched_ok (s : Scheduler) : Prop := {
  so_nodup : NoDup (ids s);
  so_cnt : 0 <= id_cnt_ s < 2 ^ 32;
  so_ids : ∀ id, id ∈ ids s ∨ is_Some (task_status_ s !! id) ∨ id ∈ event_id <$> log s → id <= id_cnt_ s;
  so_queued : Forall (queued_ok (log s)) (tasks_ s);
  so_running : ∀ t now b, in_task s = Some (t, now, b) → running_ok (log s) t now;
  so_status : ∀ id, EvComplete id ∈ log s → task_status_ s !! id ≠ Some true;
  so_unique : ∀ id iv t0 iv' t0', EvAdd id iv t0 ∈ log s → EvAdd id iv' t0' ∈ log s → iv = iv' ∧ t0 = t0';
  so_log : good_log (log s);
  so_picked : ∀ t now, in_task s = Some (t, now, false) → may_run (log s) (t_id t) (clock s);
  so_count : ∀ id, runs id (log s) + uncalled s id = picks id (log s) }.

Lemma tally_snoc p l e : tally p (l ++ [e]) = tally p l + (if p e then 1 else 0).
Proof. unfold tally. rewrite List.filter_app, length_app. cbn. destruct (p e); cbn; lia. Qed.
Lemma picks_other id l e : (∀ u, e ≠ EvPick id u) → picks id (l ++ [e]) = picks id l.
Proof. intros He. unfold picks. rewrite tally_snoc. destruct e; cbn; try lia. destruct (Z.eqb_spec id0 id) as [->|]; [by destruct (He now)|lia]. Qed.
Lemma picks_self id l u : picks id (l ++ [EvPick id u]) = picks id l + 1.
Proof. unfold picks. rewrite tally_snoc. cbn. by rewrite Z.eqb_refl. Qed.
Lemma picks_fresh id l : (∀ u, EvPick id u ∉ l) → picks id l = 0.
Proof.
  induction l as [|e l IH] using rev_ind; intros H; [done|]. rewrite picks_other; [apply IH; intros u Hu; apply (H u); set_solver|]. intros u ->. apply (H u). set_solver.
Qed.
Lemma good_log_snoc l e : good_log l → allowed l e → good_log (l ++ [e]).
Proof.
  intros Hl He l1 e1 l2 E. destruct l2 as [|e' l2 _] using rev_ind.
  - by apply app_inj_tail in E as [-> ->].
  - rewrite app_comm_cons, app_assoc in E. apply app_inj_tail in E as [-> _]. by eapply Hl.
Qed.
(** A pick stays ready for its call while others add and complete tasks and time passes. *)
Lemma may_run_later l id t t' : may_run l id t → t <= t' → may_run l id t'.
Proof. intros (l1 & p & l2 & ? & ? & ? & ?) ?. exists l1, p, l2. split_and!; [done..|lia|done]. Qed.
Lemma may_run_snoc l id t e : may_run l id t → (∀ i u, e ≠ EvPick i u ∧ e ≠ EvRun i u) → may_run (l ++ [e]) id t.
Proof.
  intros (l1 & p & l2 & -> & Hq & Hp & Hr) He. exists l1, p, (l2 ++ [e]). split_and!; [by rewrite <- app_assoc| |done|done].
  intros i u. rewrite !elem_of_app, !list_elem_of_singleton. specialize (Hq i u). specialize (He i u). naive_solver.
Qed.
Lemma runs_other id l e : (∀ u, e ≠ EvRun id u) → runs id (l ++ [e]) = runs id l.
Proof. intros He. unfold runs. rewrite tally_snoc. destruct e; cbn; try lia. destruct (Z.eqb_spec id0 id) as [->|]; [by destruct (He now)|lia]. Qed.
Lemma new_ok now : sched_ok (new_scheduler now).
Proof.
  split; cbn [tasks_ task_status_ id_cnt_ log clock new_scheduler].
  - constructor.
  - lia.
  - intros id [?%not_elem_of_nil|[[? H]|?%not_elem_of_nil]]; [done|by rewrite lookup_empty in H|done].
  - constructor.
  - done.
  - by intros ? ?%not_elem_of_nil.
  - by intros ? ? ? ? ? ?%not_elem_of_nil.
  - by intros [] ? ? ?.
  - done.
  - done.
Qed.
(** Steps that leave the tasks and the log alone. *)
Lemma sched_frame s s' : sched_ok s → tasks_ s' = tasks_ s → task_status_ s' = task_status_ s → id_cnt_ s' = id_cnt_ s → log s' = log s → clock s <= clock s' → in_task s' = in_task s → sched_ok s'.
Proof.
  intros [H1 H2 H3 H4 H5 H6 H7 H8 H9 H10] E1 E2 E3 E4 Ec E5. split; unfold ids, uncalled in *; rewrite ?E1, ?E2, ?E3, ?E4, ?E5; try done.
  intros t now Ht. by eapply may_run_later; [eapply H9|].
Qed.
Lemma queued_other l e t : (∀ u, e ≠ EvPick (t_id t) u) → queued_ok l t → queued_ok (l ++ [e]) t.
Proof.
  intros He (H0 & (t0 & H1 & H2) & H3). split; [done|]. split; [exists t0; rewrite picks_other by done; split; [set_solver|done]|]. intros u [Hu|Hu%list_elem_of_singleton]%elem_of_app; [by apply H3|]. by destruct (He u).
Qed.
Lemma running_other l e t now : (∀ u, e ≠ EvPick (t_id t) u) → running_ok l t now → running_ok (l ++ [e]) t now.
Proof.
  intros He (H0 & (t0 & H1 & H2) & H3). split; [done|]. split; [exists t0; rewrite picks_other by done; split; [set_solver|done]|]. intros u [Hu|Hu%list_elem_of_singleton]%elem_of_app; [by apply H3|]. by destruct (He u).
Qed.
Lemma add_ok c f iv s : sched_ok s → 0 <= iv → id_cnt_ s + 1 < 2 ^ 32 → sched_ok (AddPeriodicTask c f iv s).
Proof.
  intros Hok Hiv Hcnt. assert (sched_ok (add_locked f iv s).1) as H.
  2: { unfold AddPeriodicTask. destruct (add_locked f iv s) as [s' []]; [|done]. eapply sched_frame; done. }
  destruct Hok as [H1 H2 H3 H4 H5 H6 H7 H8 H9 H10]. unfold add_locked. rewrite wrap_small by (unfold in_range; lia). set (id := id_cnt_ s + 1).
  assert (∀ x, x ∈ ids s → x ≠ id) as Hn by (intros x Hx ->; pose proof (H3 id (or_introl Hx)); lia).
  assert (∀ e, e ∈ log s → event_id e ≠ id) as Hle. { intros e He E. assert (event_id e ∈ event_id <$> log s) as Hin by (by apply list_elem_of_fmap_2). rewrite E in Hin. pose proof (H3 id (or_intror (or_intror Hin))). lia. }
  unfold ids in *. destruct s as [ts sta cnt run th ca ck lg]. cbn [fst tasks_ task_status_ id_cnt_ log clock upd in_task scheduler_thread_] in *.
  split; cbn [tasks_ task_status_ id_cnt_ log clock in_task scheduler_thread_ ids]; unfold ids; cbn [tasks_ task_status_ id_cnt_ log clock in_task scheduler_thread_] in *.
  - rewrite fmap_app, <- app_assoc. cbn. rewrite <- Permutation_middle. constructor; [|done]. intros Hx. by apply Hn in Hx.
  - lia.
  - intros x Hx. rewrite !fmap_app in Hx. destruct (decide (x = id)) as [->|]; [lia|]. assert (x <= cnt); [|lia]. apply H3. rewrite lookup_insert_is_Some' in Hx. set_solver.
  - apply Forall_app. split.
    + apply Forall_forall. intros t Ht. apply queued_other; [done|]. by eapply Forall_forall in H4.
    + rewrite list.Forall_singleton. split; [done|]. cbn [t_id interval next_run_time]. split; [exists ck; rewrite picks_other, picks_fresh; [split; [set_solver|lia]|by intros u Hu%Hle|done]|]. intros u [Hu|Hu%list_elem_of_singleton]%elem_of_app; [|done]. by apply Hle in Hu.
  - intros t now b Ht. apply running_other; [done|]. by eapply H5.
  - intros x [Hx|Hx%list_elem_of_singleton]%elem_of_app; [|done]. rewrite lookup_insert_ne; [by apply H6|]. intros E. apply Hle in Hx. by rewrite E in Hx.
  - intros x iv1 t1 iv2 t2 [Hx|Hx%list_elem_of_singleton]%elem_of_app [Hy|Hy%list_elem_of_singleton]%elem_of_app.
    + by apply (H7 x).
    + injection Hy as -> _ _. by apply Hle in Hx.
    + injection Hx as -> _ _. by apply Hle in Hy.
    + by injection Hx as -> -> ->; injection Hy as -> ->.
  - by apply good_log_snoc.
  - intros t now Ht. apply may_run_snoc; [by eapply H9|done].
  - intros x. rewrite runs_other, picks_other by done. apply H10.
Qed.
Lemma complete_ok id s : sched_ok s → sched_ok (CompleteTask id s).
Proof.
  intros Hok. unfold CompleteTask. destruct (task_status_ s !! id) as [v|] eqn:Hs; [|done]. destruct Hok as [H1 H2 H3 H4 H5 H6 H7 H8 H9 H10].
  destruct s as [ts sta cnt run th ca ck lg]. unfold ids in *. cbn [tasks_ task_status_ id_cnt_ log clock upd in_task scheduler_thread_] in *.
  split; unfold ids; cbn [tasks_ task_status_ id_cnt_ log clock in_task scheduler_thread_]; try done.
  - intros x Hx. apply H3. rewrite fmap_app in Hx. rewrite lookup_insert_is_Some' in Hx. destruct Hx as [?|[[->|?]|[?|Hx%list_elem_of_singleton]%elem_of_app]]; [auto|eauto|auto|auto|].
    cbn in Hx. subst x. eauto.
  - eapply Forall_impl; [done|]. intros t. by apply queued_other.
  - intros t now b Ht. apply running_other; [done|]. by eapply H5.
  - intros x Hx. destruct (decide (x = id)) as [->|Hne]; [by rewrite lookup_insert_eq|]. rewrite lookup_insert_ne by done. apply H6.
    apply elem_of_app in Hx as [?|Hx%list_elem_of_singleton]; [done|]. congruence.
  - intros x iv t0 iv' t0'. rewrite !elem_of_app, !list_elem_of_singleton. intros [Hx|?] [Hy|?]; try done. by eapply H7.
  - by apply good_log_snoc.
  - intros t now Ht. apply may_run_snoc; [by eapply H9|done].
  - intros x. rewrite runs_other, picks_other by done. apply H10.
Qed.
Lemma clear_ok s : sched_ok s → scheduler_thread_ s = None → sched_ok (Clear s).
Proof.
  intros _ Ht. apply (sched_frame (new_scheduler (clock s))); [apply new_ok|done..|]. unfold in_task. cbn. by rewrite Ht.
Qed.
Lemma reschedule_ok s t now : sched_ok s → scheduler_thread_ s = Some (InTask t now) → sched_ok (reschedule t now s).
Proof.
  intros [H1 H2 H3 H4 H5 H6 H7 H8 H9 H10] Ht. assert (in_task s = Some (t, now, true)) as Hin by (unfold in_task; by rewrite Ht). destruct (H5 _ _ _ Hin) as (Hiv & (t0 & R1 & R2) & R3).
  unfold ids, uncalled in *. rewrite Hin in *. unfold reschedule. destruct s as [ts sta cnt run th ca ck lg]. cbn [tasks_ task_status_ id_cnt_ log clock upd in_task scheduler_thread_] in *.
  split; unfold ids; cbn [tasks_ task_status_ id_cnt_ log clock in_task scheduler_thread_]; rewrite ?fmap_app, ?app_nil_r; try done.
  apply Forall_app. split; [done|]. rewrite list.Forall_singleton. split; [done|]. cbn [t_id interval next_run_time]. split; [exists t0; split; [done|lia]|]. intros u Hu. pose proof (R3 u Hu). lia.
Qed.
Lemma call_ok s t now : sched_ok s → scheduler_thread_ s = Some (Picked t now) → sched_ok (call_task t now s).
Proof.
  intros [H1 H2 H3 H4 H5 H6 H7 H8 H9 H10] Ht. assert (in_task s = Some (t, now, false)) as Hin by (unfold in_task; by rewrite Ht).
  pose proof (H5 _ _ _ Hin) as R. pose proof (H9 _ _ Hin) as Hm. assert (t_id t ∈ ids s) as Hid by (unfold ids; rewrite Hin; set_solver).
  unfold ids, uncalled in *. rewrite Hin in *. unfold call_task. destruct s as [ts sta cnt run th ca ck lg]. cbn [tasks_ task_status_ id_cnt_ log clock upd in_task scheduler_thread_] in *.
  split; unfold ids, uncalled; cbn [tasks_ task_status_ id_cnt_ log clock in_task scheduler_thread_]; try done.
  - intros x Hx. apply H3. rewrite fmap_app in Hx. destruct Hx as [?|[?|[?|Hx%list_elem_of_singleton]%elem_of_app]]; [auto..|]. cbn in Hx. subst x. auto.
  - eapply Forall_impl; [done|]. intros u. by apply queued_other.
  - intros u v b [= <- <- _]. by apply running_other.
  - intros x [Hx|Hx%list_elem_of_singleton]%elem_of_app; [by apply H6|done].
  - intros x iv b iv' b'. rewrite !elem_of_app, !list_elem_of_singleton. intros [Hx|?] [Hy|?]; try done. by eapply H7.
  - by apply good_log_snoc.
  - intros x. rewrite picks_other by done. specialize (H10 x). unfold runs in *. rewrite tally_snoc. cbn [is_run]. lia.
Qed.
(** The thread takes the top out of the queue. *)
Lemma pop_ids (ts : list PeriodicTask) i t : ts !! i = Some t → t_id <$> ts ≡ₚ t_id t :: (t_id <$> delete i ts).
Proof. intros Hi. rewrite <- fmap_cons. apply fmap_Permutation. by apply delete_Permutation. Qed.
Lemma locked_ok i s s' : sched_ok s → scheduler_thread_ s = Some AtLock → locked_block i s = Some s' → sched_ok s'.
Proof.
  intros Hok Ht. assert (in_task s = None) as Hnone by (unfold in_task; by rewrite Ht). unfold locked_block. destruct (tasks_ s) as [|t0 ts0] eqn:Ets.
  { intros [= <-]. by eapply sched_frame. }
  rewrite <- Ets. destruct (is_top (tasks_ s) i) eqn:Htop; [|done]. destruct (tasks_ s !! i) as [t|] eqn:Hi; [|done]. cbn [mbind option_bind].
  destruct (Z.leb_spec (next_run_time t) (clock s)) as [Hdue|_]; [|intros [= <-]; by eapply sched_frame].
  destruct Hok as [H1 H2 H3 H4 H5 H6 H7 H8 H9 H10]. unfold ids, uncalled in *. rewrite Hnone in *. rewrite app_nil_r in *. pose proof (pop_ids _ _ _ Hi) as Hp. rewrite Hp in H1. apply NoDup_cons in H1 as [N1 N2].
  pose proof (Forall_lookup_1 _ _ _ _ H4 Hi) as (Q0 & (a & Q1 & Q2) & Q3). assert (Forall (queued_ok (log s)) (delete i (tasks_ s))) as H4'.
  { apply Forall_forall. intros u Hu. rewrite Forall_forall in H4. apply H4. rewrite (delete_Permutation _ _ _ Hi). by apply list_elem_of_further. }
  assert (∀ x, x ∈ t_id <$> delete i (tasks_ s) → x ∈ t_id <$> tasks_ s) as Hsub by (intros x Hx; rewrite Hp; by apply list_elem_of_further).
  assert (t_id t ∈ t_id <$> tasks_ s) as Hself by (rewrite Hp; apply list_elem_of_here). clear Ets Htop.
  destruct s as [ts sta cnt run th ca ck lg]. cbn [tasks_ task_status_ id_cnt_ log clock upd in_task scheduler_thread_] in *. destruct (default false (sta !! t_id t)) eqn:Hst; intros [= <-].
  - assert (sta !! t_id t = Some true) as Hs by (by destruct (sta !! t_id t) as [[]|]).
    split; unfold ids, uncalled; cbn [tasks_ task_status_ id_cnt_ log clock in_task scheduler_thread_]; try done.
    + apply NoDup_app. split; [done|]. split; [intros x Hx ->%list_elem_of_singleton; done|apply NoDup_singleton].
    + intros x Hx. apply H3. rewrite fmap_app in Hx. destruct Hx as [[Hx|Hx%list_elem_of_singleton]%elem_of_app|[?|[?|Hx%list_elem_of_singleton]%elem_of_app]]; [auto|subst; auto|auto|auto|].
      cbn in Hx. subst x. auto.
    + apply Forall_forall. intros u Hu. rewrite Forall_forall in H4'. apply queued_other; [|by apply H4']. intros v [= E _]. apply N1. rewrite E. by apply list_elem_of_fmap_2.
    + intros u now b [= <- <- _]. split; [done|]. split; [exists a; rewrite picks_self; split; [set_solver|lia]|]. intros v [Hv|Hv%list_elem_of_singleton]%elem_of_app; [pose proof (Q3 v Hv); lia|]. injection Hv as ->. lia.
    + intros x [Hx|Hx%list_elem_of_singleton]%elem_of_app; [by apply H6|done].
    + intros x iv b iv' b'. rewrite !elem_of_app, !list_elem_of_singleton. intros [Hx|?] [Hy|?]; try done. by eapply H7.
    + apply good_log_snoc; [done|]. split; [intros Hc; by apply H6 in Hc|]. exists (interval t), a. split_and!; [done|done|lia|]. intros v Hv. pose proof (Q3 v Hv). lia.
    + intros u now [= <- <-]. exists lg, ck, []. split_and!; [done|by intros ? ?; split; apply not_elem_of_nil|lia|]. specialize (H10 (t_id t)). lia.
    + intros x. rewrite runs_other by done. specialize (H10 x). unfold picks in *. rewrite tally_snoc. cbn [is_pick]. lia.
  - split; unfold ids, uncalled; cbn [tasks_ task_status_ id_cnt_ log clock in_task scheduler_thread_]; rewrite ?app_nil_r; try done.
    + intros x [Hx|[Hx|Hx]]; apply H3; [auto| |auto]. apply lookup_delete_is_Some in Hx as [_ ?]. auto.
    + intros x Hx E. apply lookup_delete_Some in E as [_ E]. by apply (H6 x).
Qed.
Lemma notify_in_task s : in_task (notify s) = in_task s.
Proof. unfold notify, in_task. by destruct (scheduler_thread_ s) as [[]|] eqn:E; cbn; rewrite ?E. Qed.
Lemma notify_ok s : sched_ok s → sched_ok (notify s).
Proof. intros Hok. eapply sched_frame; [exact Hok|..|apply notify_in_task]; unfold notify; by destruct (scheduler_thread_ s) as [[]|]. Qed.
Lemma step_ok s s' : sched_ok s → tstep s s' ∨ cstep s s' ∨ ostep s s' → sched_ok s'.
Proof.
  intros Hok [H|[H|H]]; destruct H.
  1,3,4: eapply sched_frame; [exact Hok|done..|]; unfold in_task; cbn; rewrite H; by destruct (running_ s).
  - by eapply locked_ok.
  - by apply call_ok.
  - by apply reschedule_ok.
  - eapply sched_frame; [exact Hok|done..| |done]. cbn. lia.
  - apply notify_ok. by eapply sched_frame.
  - by eapply sched_frame.
  - apply notify_ok. by eapply sched_frame.
  - eapply sched_frame; [exact Hok|done..|]. unfold in_task. cbn. by destruct H0 as [-> | ->].
  - by apply add_ok.
  - by apply complete_ok.
  - unfold Start. destruct (running_ s) eqn:E; [done|]. eapply sched_frame; [exact Hok|done..|]. unfold in_task. cbn. by destruct H as [? | ->].
  - destruct (running_ s); [by eapply sched_frame|done].
  - by apply clear_ok.
  - eapply sched_frame; [exact Hok|done..|]. unfold in_task. cbn. by destruct H as [-> | ->].
Qed.
Lemma reach_ok s : reach s → sched_ok s.
Proof. induction 1 as [|s s' _ IH H]; [apply new_ok|by eapply step_ok]. Qed.

Lemma tally_app p l1 l2 : tally p (l1 ++ l2) = tally p l1 + tally p l2.
Proof. unfold tally. rewrite List.filter_app, length_app. lia. Qed.
Lemma quiet_runs id l : quiet l → runs id l = 0.
Proof.
  induction l as [|e l IH] using rev_ind; intros Hq; [done|]. rewrite runs_other.
  - apply IH. intros i u. specialize (Hq i u). set_solver.
  - intros u ->. apply (proj2 (Hq id u)). set_solver.
Qed.
(** The calls before a call of the same task are the picks before its own pick. *)
Lemma own_pick l id t : good_log l → may_run l id t → ∃ iv t0, EvAdd id iv t0 ∈ l ∧ 0 <= iv ∧ t0 + iv * (1 + runs id l) <= t.
Proof.
  intros Hl (l1 & p & l2 & -> & Hq & Hp & Hr). destruct (Hl l1 _ l2 eq_refl) as [_ (iv & t0 & Ha & Hiv & Ht & _)]. exists iv, t0. split_and!; [set_solver|done|].
  assert (runs id (l1 ++ EvPick id p :: l2) = runs id l1) as ->; [|rewrite Hr; lia]. pose proof (quiet_runs id l2 Hq) as H0. unfold runs in *. rewrite tally_app.
  change (EvPick id p :: l2) with ([EvPick id p] ++ l2). rewrite tally_app, H0. change (tally (is_run id) [EvPick id p]) with 0. lia.
Qed.
Lemma good_prefix l1 l2 : good_log (l1 ++ l2) → good_log l1.
Proof. intros H la e lb ->. apply (H la e (lb ++ l2)). by rewrite <- app_assoc. Qed.

(** C21: however adding, completing, starting and stopping interleave, the thread picks a task
    (the test of [task_status_] under the lock) only after the task was added and not after it
    was completed, at least its interval after it was added and after each earlier pick. Every
    call of a task follows a pick of its own, with no other pick or call by the thread in
    between, and is not earlier than that pick; so the n-th call is not before n intervals after
    the task was added. A task is never queued twice, nor queued while it is out of the queue,
    so that its calls do not overlap. That [CompleteTask] may return between a pick and its call
    is [run_after_complete]. *)
Theorem scheduler_runs s : reach s →
  (∀ l1 l2 id t, log s = l1 ++ EvPick id t :: l2 → EvComplete id ∉ l1 ∧
     ∃ iv t0, EvAdd id iv t0 ∈ l1 ∧ (∀ iv' t0', EvAdd id iv' t0' ∈ log s → iv' = iv ∧ t0' = t0) ∧ t0 + iv <= t ∧ ∀ u, EvPick id u ∈ l1 → u + iv <= t) ∧
  (∀ l1 l2 id t, log s = l1 ++ EvRun id t :: l2 →
     (∃ la p lb, l1 = la ++ EvPick id p :: lb ∧ quiet lb ∧ p <= t) ∧
     ∀ iv t0, EvAdd id iv t0 ∈ log s → t0 + iv * (1 + runs id l1) <= t) ∧
  NoDup (ids s).
Proof.
  intros [H1 _ _ _ _ _ H7 H8 _ _]%reach_ok. split_and!; [| |done]; intros l1 l2 id t E.
  - destruct (H8 _ _ _ E) as [Hc (iv & t0 & Ha & Hiv & Ht & Hr)]. split; [done|]. exists iv, t0. split_and!; [done| | |done].
    + intros iv' t0' H. apply (H7 id iv' t0' iv t0 H). rewrite E. set_solver.
    + assert (0 <= picks id l1) by (unfold picks, tally; lia). nia.
  - pose proof (H8 _ _ _ E) as Hm. pose proof Hm as (la & p & lb & E1 & Hq & Hp & _). split; [by exists la, p, lb|]. intros iv t0 Ha.
    rewrite E in H8. apply good_prefix in H8. destruct (own_pick _ _ _ H8 Hm) as (iv' & t0' & Ha' & _ & Ht).
    assert (EvAdd id iv' t0' ∈ log s) as Hb by (rewrite E; set_solver). by destruct (H7 _ _ _ _ _ Ha Hb) as [-> ->].
Qed.

(** ** The thread does not sleep past a task *)

Definition notifying (s : Scheduler) : Prop := ∃ c, callers s !! c = Some AddNotify.
(** While the thread sleeps without limit there is no task, while it sleeps until [tm] no task
    is due before, or a caller is about to notify it. *)
Definition awake_enough (s : Scheduler) : Prop :=
  match scheduler_thread_ s with
  | Some Waiting => tasks_ s = [] ∨ notifying s
  | Some (WaitingUntil tm) => Forall (λ t, tm <= next_run_time t) (tasks_ s) ∨ notifying s
  | _ => True
  end.
Lemma awake_notify s : awake_enough (notify s).
Proof. unfold awake_enough, notify. by destruct (scheduler_thread_ s) as [[]|] eqn:E; cbn; rewrite ?E. Qed.
(** Other callers do not take a notification away. *)
Lemma awake_frame s s' : awake_enough s → scheduler_thread_ s' = scheduler_thread_ s → tasks_ s' = tasks_ s →
  (notifying s → notifying s') → awake_enough s'.
Proof. unfold awake_enough. intros Hs -> -> Hn. destruct (scheduler_thread_ s) as [[]|]; naive_solver. Qed.
Lemma notifying_insert s c pc : callers s !! c ≠ Some AddNotify → notifying s → notifying (s <| callers ::= <[c := pc]> |>).
Proof. intros Hc [c' Hc']. exists c'. cbn. rewrite lookup_insert_ne; [done|]. by intros <-. Qed.
Lemma notifying_delete s c : callers s !! c ≠ Some AddNotify → notifying s → notifying (s <| callers ::= delete c |>).
Proof. intros Hc [c' Hc']. exists c'. cbn. rewrite lookup_delete_ne; [done|]. by intros <-. Qed.
Lemma awake_add c f iv s : awake_enough s → callers s !! c = None → awake_enough (AddPeriodicTask c f iv s).
Proof.
  intros Hs Hc. unfold AddPeriodicTask, add_locked. destruct (forallb _ (tasks_ s)) eqn:Hall.
  - unfold awake_enough. cbn. assert (∀ s0, callers s0 = <[c := AddNotify]> (callers s) → notifying s0) as H by (intros s0 E; exists c; rewrite E; apply lookup_insert_eq).
    destruct (scheduler_thread_ s) as [[]|]; try done; right; by apply H.
  - unfold awake_enough in *. cbn. assert (notifying s → ∀ s0, callers s0 = callers s → notifying s0) as H by (intros [c' Hc'] s0 E; exists c'; by rewrite E).
    destruct (scheduler_thread_ s) as [[]|]; try done.
    + destruct Hs as [E|Hs]; [by rewrite E in Hall|right; by apply H].
    + destruct Hs as [Hs|Hs]; [|right; by apply H]. left. apply Forall_app. split; [done|]. rewrite list.Forall_singleton. cbn.
      destruct (decide (tm <= clock s + iv)) as [|Hlt]; [done|]. apply not_true_iff_false in Hall. destruct Hall.
      apply forallb_forall. intros t Ht%list_elem_of_In. apply Z.ltb_lt. rewrite Forall_forall in Hs. specialize (Hs t Ht). lia.
Qed.
Lemma top_least ts i t : is_top ts i = true → ts !! i = Some t → Forall (λ u, next_run_time t <= next_run_time u) ts.
Proof.
  unfold is_top. intros H E. rewrite E in H. apply Forall_forall. intros u Hu%list_elem_of_In. apply Z.leb_le. by apply (proj1 (forallb_forall _ _) H).
Qed.
Lemma awake_locked i s s' : locked_block i s = Some s' → awake_enough s'.
Proof.
  unfold locked_block. destruct (tasks_ s) as [|t0 ts0] eqn:E; [intros [= <-]; cbn; by left|]. rewrite <- E.
  destruct (is_top (tasks_ s) i) eqn:Htop; [|done]. destruct (tasks_ s !! i) as [t|] eqn:Hi; [|done]. cbn [mbind option_bind].
  destruct (next_run_time t <=? clock s); [destruct (default _ _); by intros [= <-]|]. intros [= <-]. left. cbn. by eapply top_least.
Qed.
Lemma awake_step s s' : awake_enough s → tstep s s' ∨ cstep s s' ∨ ostep s s' → awake_enough s'.
Proof.
  intros Hs [H|[H|H]]; destruct H.
  - unfold awake_enough. cbn. by destruct (running_ s).
  - by eapply awake_locked.
  - done.
  - done.
  - done.
  - done.
  - by eapply awake_frame.
  - apply awake_notify.
  - eapply awake_frame; [done..|]. intros Hn. by apply (notifying_insert (s <| running_ := false |>) c StopNotify); [cbn; rewrite H|].
  - apply awake_notify.
  - done.
  - by apply awake_add.
  - unfold CompleteTask. destruct (task_status_ s !! id); [by eapply awake_frame|done].
  - unfold Start. destruct (running_ s); done.
  - destruct (running_ s); [|done]. eapply awake_frame; [done..|]. intros Hn. by apply notifying_insert; [rewrite H|].
  - unfold awake_enough. cbn. by rewrite H0.
  - done.
Qed.
Lemma reach_awake s : reach s → awake_enough s.
Proof. induction 1 as [|s s' _ IH H]; [done|by eapply awake_step]. Qed.

(** C22: the thread does not sleep past the time of a task. Whenever a task in the queue is due
    and the thread is asleep, it wakes up without help from outside: its own time limit has
    passed, or a caller that has added a task (this one or another) is about to notify it. *)
Theorem scheduler_no_oversleep s t : reach s → t ∈ tasks_ s → next_run_time t <= clock s →
  match scheduler_thread_ s with
  | Some Waiting => notifying s
  | Some (WaitingUntil tm) => tm <= clock s ∨ notifying s
  | _ => True
  end.
Proof.
  intros Hs%reach_awake Ht Hdue. unfold awake_enough in Hs. destruct (scheduler_thread_ s) as [[]|]; try done.
  - destruct Hs as [E|?]; [|done]. rewrite E in Ht. by apply not_elem_of_nil in Ht.
  - destruct Hs as [Hs|?]; [left|by right]. rewrite Forall_forall in Hs. specialize (Hs t Ht). lia.
Qed.

(** ** Stopping can hang *)

(** A scheduler that is stopped right after it was started: the thread has seen [running_] and
    not yet the lock when [Stop] stores and notifies. *)
Definition hung : Scheduler := MkSched [] ∅ 0 false (Some Waiting) {[ 0%nat := StopJoin ]} 0 [].
Lemma hung_reach : reach hung.
Proof.
  set (s0 := new_scheduler 0). set (s1 := Start s0). set (s2 := s1 <| scheduler_thread_ := Some AtLock |>).
  set (s3 := s2 <| callers ::= <[0%nat := StopStore]> |>). set (s4 := s3 <| running_ := false |> <| callers ::= <[0%nat := StopNotify]> |>).
  set (s5 := notify (s4 <| callers ::= <[0%nat := StopJoin]> |>)).
  apply (reach_step s5); [apply (reach_step s4); [apply (reach_step s3); [apply (reach_step s2); [apply (reach_step s1); [apply (reach_step s0); [apply reach_new|]|]|]|]|]|].
  - right. right. apply o_start. by right.
  - left. by apply (t_while s1).
  - right. right. apply (o_stop s2 0%nat). done.
  - right. left. by apply (c_store s3 0%nat).
  - right. left. by apply (c_notify s4 0%nat).
  - left. apply (t_lock s5 0%nat); done.
Qed.
Inductive inner_steps : Scheduler → Scheduler → Prop :=
| inner_refl s : inner_steps s s
| inner_more s s' s'' : inner_steps s s' → tstep s' s'' ∨ cstep s' s'' → inner_steps s s''.

(** C39: [Stop] changes [running_] and notifies without the lock. When it does so after the
    thread has read [running_] and before the thread waits, the notification is lost: the
    thread sleeps without limit, [Stop] waits for it in [join], and however far the two go on
    they stay there, unless another thread adds a task. *)
Theorem stop_loses_wakeup : reach hung ∧
  ∀ s, inner_steps hung s → scheduler_thread_ s = Some Waiting ∧ callers s = {[ 0%nat := StopJoin ]}.
Proof.
  split; [apply hung_reach|]. intros s H. remember hung as h eqn:Eh. induction H as [s|s s' s'' _ IH Hs]; [by subst s|].
  specialize (IH Eh) as [Ht Hc]. destruct Hs as [Hs|Hs]; destruct Hs; cbn; try congruence; try done.
  - rewrite Hc in H. apply lookup_singleton_Some in H as [_ ?]. done.
  - rewrite Hc in H. apply lookup_singleton_Some in H as [_ ?]. done.
  - rewrite Hc in H. apply lookup_singleton_Some in H as [_ ?]. done.
  - destruct H0; congruence.
Qed.

(** ** A run *)

(** A task of ten milliseconds is added while the thread sleeps, and falls due; the thread picks
    it, it is completed, and the thread calls it. *)
Definition demo_task : PeriodicTask := MkTask 7 10 10 1.
Definition demo_due : Scheduler := MkSched [demo_task] {[ 1 := true ]} 1 true (Some Waiting) {[ 0%nat := AddNotify ]} 10 [EvAdd 1 10 0].
Definition demo_picked : Scheduler := MkSched [] {[ 1 := true ]} 1 true (Some (Picked demo_task 10)) ∅ 10 [EvAdd 1 10 0; EvPick 1 10].
Definition demo_ran : Scheduler := MkSched [] {[ 1 := false ]} 1 true (Some (InTask demo_task 10)) ∅ 12 [EvAdd 1 10 0; EvPick 1 10; EvComplete 1; EvRun 1 12].
Lemma demo_due_reach : reach demo_due.
Proof.
  set (s0 := new_scheduler 0). set (s1 := Start s0). set (s2 := s1 <| scheduler_thread_ := Some AtLock |>). set (s3 := s2 <| scheduler_thread_ := Some Waiting |>).
  set (s4 := AddPeriodicTask 0 7 10 s3).
  apply (reach_step s4); [apply (reach_step s3); [apply (reach_step s2); [apply (reach_step s1); [apply (reach_step s0); [apply reach_new|]|]|]|]|].
  - right. right. apply o_start. by right.
  - left. by apply (t_while s1).
  - left. by apply (t_lock s2 0%nat).
  - right. right. by apply (o_add s3).
  - left. by apply (t_tick s4 10).
Qed.
Lemma demo_picked_reach : reach demo_picked.
Proof.
  set (s1 := notify (demo_due <| callers ::= delete 0%nat |>)). set (s2 := s1 <| scheduler_thread_ := Some AtWhile |>). set (s3 := s2 <| scheduler_thread_ := Some AtLock |>).
  apply (reach_step s3); [apply (reach_step s2); [apply (reach_step s1); [apply (reach_step demo_due); [apply demo_due_reach|]|]|]|].
  - right. left. by apply (c_add_notify demo_due 0%nat).
  - left. by apply (t_woken s1).
  - left. by apply (t_while s2).
  - left. apply (t_lock s3 0%nat); [done|]. vm_compute. reflexivity.
Qed.
Lemma demo_ran_reach : reach demo_ran.
Proof.
  set (s1 := CompleteTask 1 demo_picked). set (s2 := s1 <| clock ::= Z.add 2 |>).
  apply (reach_step s2); [apply (reach_step s1); [apply (reach_step demo_picked); [apply demo_picked_reach|]|]|].
  - right. right. apply (o_complete demo_picked 1).
  - left. by apply (t_tick s1 2).
  - left. by apply (t_call s2 demo_task 10).
Qed.
(** [CompleteTask] does not wait for a task that is picked: the thread tests [task_status_],
    releases the lock and then calls the task, so that the call can start after [CompleteTask]
    has returned. *)
Theorem run_after_complete : ∃ s l1 l2 t, reach s ∧ log s = l1 ++ EvRun 1 t :: l2 ∧ EvComplete 1 ∈ l1.
Proof. exists demo_ran, [EvAdd 1 10 0; EvPick 1 10; EvComplete 1], [], 12. split; [apply demo_ran_reach|]. split; [done|set_solver]. Qed.
Lemma scheduler_runs_witness : EvComplete 1 ∉ [EvAdd 1 10 0] ∧ 0 + 10 * (1 + runs 1 [EvAdd 1 10 0; EvPick 1 10; EvComplete 1]) <= 12.
Proof.
  destruct (scheduler_runs demo_ran demo_ran_reach) as (Hp & Hr & _). split.
  - exact (proj1 (Hp [EvAdd 1 10 0] [EvComplete 1; EvRun 1 12] 1 10 eq_refl)).
  - apply (proj2 (Hr [EvAdd 1 10 0; EvPick 1 10; EvComplete 1] [] 1 12 eq_refl)). apply list_elem_of_here.
Defined.
Lemma scheduler_no_oversleep_witness : notifying demo_due.
Proof. apply (scheduler_no_oversleep demo_due demo_task demo_due_reach); [apply list_elem_of_here|done]. Defined.
