(* ===== verification/DataFlow.v ===== *)
(** * Data flow channels (src/src/data_flow/data_flow_channel_impl.{h,cc}, data_flow_request.h)

    A channel takes batches of move and checksum operations, passes each as a request to an
    engine, and hands the results to [Poll] in the order of submission or of completion. It
    owns a fixed set of request objects with an engine context each; a request whose timer
    fired is reported at once, but its object stays aside until the engine has finished with
    it.

    The engine and the timers are interfaces ([Engine], [TimerService]); the software and DSA
    engines and the timer manager implement them. Metrics and log messages are not modelled. *)

From Stdlib Require Import ZArith Lia.
From stdpp Require Import prelude gmap.
From S2P Require Import Prelude Status.
Open Scope Z_scope.

(** ** Operations, requests and results (include/vesal/data_flow.h) *)

Definition kMaxSubmittedBatchSize : nat := 128.
Definition kMaxTotalLength : Z := 128 * 1024 * 1024.
Definition kMaxSrcSegmentNum : nat := 128.
Definition kMaxInternalBatchSize : Z := 1024.
Definition kIoDepthMaximum : nat := 128.

Inductive DataFlowPollOrderType := kOrdered | kUnordered.
#[export] Instance DataFlowPollOrderType_eq_dec : EqDecision DataFlowPollOrderType.
Proof. solve_decision. Defined.

Record DataFlowMoveOperation := MkMove {
  m_src : list Z; m_src_len : list Z; m_dst : Z; m_seed : Z; enable_crc : bool }.
(** The bytes of an operation. *)
Definition total (lens : list Z) : Z := foldr Z.add 0 lens.
Definition op_len (op : DataFlowMoveOperation) : Z := total (m_src_len op).
Record DataFlowCrcOperation := MkCrc { c_src : Z; c_len : Z; c_seed : Z }.
(** The array a request points to; the type of its elements is [op->type]. *)
Inductive op_array := MoveOps (ops : list DataFlowMoveOperation) | CrcOps (ops : list DataFlowCrcOperation).
Definition array_size (a : op_array) : nat := match a with MoveOps l => length l | CrcOps l => length l end.

Record DataFlowRequest := MkReq {
  r_op : option op_array; r_num : nat; r_hint : Z; r_completed : bool; r_expired : bool;
  timer_ctx : Z; engine_ctx : Z; user_ctx : Z; move_data_size : Z; crc_data_size : Z }.
#[export] Instance eta_DataFlowRequest : Eta DataFlowRequest := λ r,
  MkReq (r_op r) (r_num r) (r_hint r) (r_completed r) (r_expired r) (timer_ctx r) (engine_ctx r)
    (user_ctx r) (move_data_size r) (crc_data_size r).

Definition mark_completed (r : DataFlowRequest) : DataFlowRequest := r <| r_completed := true |>.
Definition mark_expired (r : DataFlowRequest) : DataFlowRequest := r <| r_expired := true |>.

(** [DataFlowRequest::Build]; [engine_ctx] stays. *)
Definition Build (op : op_array) (num : nat) (user_ctx hint move crc : Z) (r : DataFlowRequest) : DataFlowRequest :=
  MkReq (Some op) num hint false false 0 (engine_ctx r) user_ctx move crc.

Record DataFlowResult := MkResult { rs_status : StatusCode; crc_output : list Z; rs_ctx : Z }.
#[export] Instance eta_DataFlowResult : Eta DataFlowResult := λ r, MkResult (rs_status r) (crc_output r) (rs_ctx r).
(** [DataFlowResult discarded_result;] *)
Definition discarded_result : DataFlowResult := MkResult kOk [] 0.

(** ** What the channel uses *)

(** What an engine does with a context: nothing, or a batch of [num] operations. *)
Inductive work := Free | Running (num : nat).
#[export] Instance work_eq_dec : EqDecision work.
Proof. solve_decision. Defined.

(** An engine keeps a context per request object. [en_check] is [CheckCompletion]: it returns
    [None] and leaves the result alone while the work is not done. [en_env] is what the engine
    does on its own between two calls. [en_valid] is what the caller promises of the operands. *)
Class Engine (E : Type) := {
  en_prealloc : ST E (StatusCode * Z);
  en_submit : DataFlowRequest → ST E StatusCode;
  en_check : DataFlowRequest → DataFlowResult → ST E (option DataFlowResult);
  en_clear : Z → ST E unit;
  en_ok : E → gmap Z work → Prop;
  en_valid : E → op_array → nat → Prop;
  en_env : E → E → Prop;
  en_prealloc_law e m : en_ok e m →
    wp en_prealloc (λ '(st, c) e', if decide (st = kOk) then m !! c = None ∧ en_ok e' (<[c := Free]> m) else en_ok e' m) e;
  en_submit_law e m r op : en_ok e m → m !! engine_ctx r = Some Free → r_op r = Some op → en_valid e op (r_num r) →
    wp (en_submit r) (λ st e', en_ok e' (if decide (st = kOk) then <[engine_ctx r := Running (r_num r)]> m else m)) e;
  en_check_law e m r res : en_ok e m → m !! engine_ctx r = Some (Running (r_num r)) →
    wp (en_check r res) (λ o e', match o with
      | None => en_ok e' m
      | Some res' => en_ok e' (<[engine_ctx r := Free]> m) ∧ rs_ctx res' = user_ctx r
      end) e;
  en_clear_law e m c : en_ok e m → m !! c = Some Free → wp (en_clear c) (λ _ e', en_ok e' (delete c m)) e;
  en_env_law e e' m : en_ok e m → en_env e e' → en_ok e' m }.

(** Timers: [ts_handle now] calls back for the timers that are due and returns their
    arguments. *)
Record timer_view := MkTV { tv_ctx : Z; tv_arg : Z }.
Class TimerService (Tm : Type) := {
  ts_add : Z → Z → ST Tm Z;
  ts_remove : Z → ST Tm unit;
  ts_handle : Z → ST Tm (list Z);
  ts_ok : Tm → list timer_view → Prop;
  ts_room : Tm → Prop;
  ts_add_law t l now arg : ts_ok t l → ts_room t → wp (ts_add now arg) (λ c t', ts_ok t' (l ++ [MkTV c arg])) t;
  ts_remove_law t l1 x l2 : ts_ok t (l1 ++ x :: l2) → wp (ts_remove (tv_ctx x)) (λ _ t', ts_ok t' (l1 ++ l2)) t;
  ts_handle_law t l now : ts_ok t l →
    wp (ts_handle now) (λ args t', ∃ l1 l2, l = l1 ++ l2 ∧ args = tv_arg <$> l1 ∧ ts_ok t' l2) t }.

Section channel.
Context {E : Type} {EI : Engine E} {Tm : Type} {TI : TimerService Tm}.

(** ** State *)

(** [reqs] is the memory of the request objects and [next_req] the address the next [new]
    returns. *)
Record DataFlowChannelImpl := MkChannel {
  engine_ : E; queue_ : list Z; expired_queue_ : list Z; cached_resource_ : list Z;
  order_type : DataFlowPollOrderType; schedule_hint : Z; timer_manager_ : Tm;
  reqs : gmap Z DataFlowRequest; next_req : Z }.
#[local] Instance eta_DataFlowChannelImpl : Eta DataFlowChannelImpl := λ s,
  MkChannel (engine_ s) (queue_ s) (expired_queue_ s) (cached_resource_ s) (order_type s) (schedule_hint s)
    (timer_manager_ s) (reqs s) (next_req s).
Abbreviation chan := DataFlowChannelImpl.

Definition on_engine {A} (m : ST E A) : ST chan A := λ s,
  match m (engine_ s) with Ok (a, e) => Ok (a, s <| engine_ := e |>) | Err f => Err f end.
Definition on_timers {A} (m : ST Tm A) : ST chan A := λ s,
  match m (timer_manager_ s) with Ok (a, t) => Ok (a, s <| timer_manager_ := t |>) | Err f => Err f end.
Definition get_req (p : Z) : ST chan DataFlowRequest := s ← get; need NullDeref (reqs s !! p).
Definition mod_req (p : Z) (f : DataFlowRequest → DataFlowRequest) : ST chan unit :=
  get_req p;; modify (λ s, s <| reqs ::= alter f p |>).

(** ** Submission *)

(** [for (j...)]: the lengths of one operation; [None] when one of them is zero. *)
Fixpoint sum_lens (lens : list Z) (total_length : Z) : option Z :=
  match lens with
  | [] => Some total_length
  | l :: lens => if l =? 0 then None else sum_lens lens (u64 (total_length + l))
  end.
(** [for (i...)] of [SubmitMove], with the sums so far: moved, checksummed, segments. *)
Definition check_move (op : DataFlowMoveOperation) (acc : Z * Z * Z) : option (Z * Z * Z) :=
  let '(move_data_size, crc_data_size, segment_num) := acc in
  let op_src_size := length (m_src op) in
  let segment_num := u64 (segment_num + Z.of_nat op_src_size) in
  if Nat.eqb op_src_size 0 || negb (Nat.eqb op_src_size (length (m_src_len op))) || Nat.ltb kMaxSrcSegmentNum op_src_size then None
  else
    match sum_lens (m_src_len op) 0 with
    | None => None
    | Some total_length =>
        if kMaxTotalLength <? total_length then None
        else Some (u64 (move_data_size + total_length), u64 (crc_data_size + Z.b2z (enable_crc op) * total_length), segment_num)
    end.
Fixpoint scan_moves (ops : list DataFlowMoveOperation) (num : nat) (acc : Z * Z * Z) : res (option (Z * Z * Z)) :=
  match num with
  | O => Ok (Some acc)
  | S num =>
      match ops with
      | [] => Err OutOfBounds
      | op :: ops => match check_move op acc with None => Ok None | Some acc => scan_moves ops num acc end
      end
  end.
Fixpoint scan_crcs (ops : list DataFlowCrcOperation) (num : nat) (crc_data_size : Z) : res (option Z) :=
  match num with
  | O => Ok (Some crc_data_size)
  | S num =>
      match ops with
      | [] => Err OutOfBounds
      | op :: ops =>
          if (kMaxTotalLength <? c_len op) || (c_len op =? 0) then Ok None
          else scan_crcs ops num (u64 (crc_data_size + c_len op))
      end
  end.

Definition SubmitRequest (now : Z) (ops : op_array) (num : nat) (move_data_size crc_data_size user_ctx : Z) : ST chan StatusCode :=
  s ← get;
  match cached_resource_ s with
  | [] => mret kResourceBusy
  | req :: rest =>
      modify (λ s, s <| cached_resource_ := rest |>);;
      mod_req req (Build ops num user_ctx (schedule_hint s) move_data_size crc_data_size);;
      r ← get_req req;
      result ← on_engine (en_submit r);
      (if decide (result = kOk) then
         ctx ← on_timers (ts_add now req);
         mod_req req (λ r, r <| timer_ctx := ctx |>);;
         modify (λ s, s <| queue_ ::= λ l, l ++ [req] |>)
       else modify (λ s, s <| cached_resource_ ::= λ l, l ++ [req] |>));;
      mod_req req (λ r, r <| r_op := None |>);;
      mret result
  end.

Definition SubmitMove (now : Z) (ops : list DataFlowMoveOperation) (num : nat) (user_ctx : Z) : ST chan StatusCode :=
  if Nat.ltb kMaxSubmittedBatchSize num then mret kInvalidArgument
  else
    r ← lift (scan_moves ops num (0, 0, 0));
    match r with
    | None => mret kInvalidArgument
    | Some (move_data_size, crc_data_size, segment_num) =>
        if kMaxInternalBatchSize <? u64 (1 + segment_num + 1 + Z.of_nat num) then mret kInvalidArgument
        else SubmitRequest now (MoveOps ops) num move_data_size crc_data_size user_ctx
    end.
Definition SubmitCrc (now : Z) (ops : list DataFlowCrcOperation) (num : nat) (user_ctx : Z) : ST chan StatusCode :=
  if Nat.ltb kMaxSubmittedBatchSize num then mret kInvalidArgument
  else if kMaxInternalBatchSize <? 1 + Z.of_nat num then mret kInvalidArgument
  else
    r ← lift (scan_crcs ops num 0);
    match r with
    | None => mret kInvalidArgument
    | Some crc_data_size => SubmitRequest now (CrcOps ops) num 0 crc_data_size user_ctx
    end.

(** ** Polling *)

(** [engine_->CheckCompletion(req, &result)]: sets [completed] when the work is done. *)
Definition CheckCompletion (req : Z) (result : DataFlowResult) : ST chan DataFlowResult :=
  r ← get_req req;
  o ← on_engine (en_check r result);
  match o with
  | None => mret result
  | Some result => mod_req req mark_completed;; mret result
  end.

(** The loop over [queue_] from position [it]; [todo] are the elements not visited yet. The
    result array and the number of results are the loop's variables. *)
Fixpoint poll_loop (max_num : nat) (todo : list Z) (it : nat) (results : list DataFlowResult) (result_num : nat)
    : ST chan (list DataFlowResult * nat) :=
  match todo with
  | [] => mret (results, result_num)
  | req :: todo =>
      if negb (Nat.ltb result_num max_num) then mret (results, result_num)
      else
        r ← get_req req;
        if r_expired r then
          modify (λ s, s <| expired_queue_ ::= λ l, l ++ [req] |>);;
          res ← need OutOfBounds (results !! result_num);
          modify (λ s, s <| queue_ ::= delete it |>);;
          poll_loop max_num todo it
            (<[result_num := res <| rs_status := kTimeout |> <| rs_ctx := user_ctx r |>]> results) (S result_num)
        else
          res ← need OutOfBounds (results !! result_num);
          res ← CheckCompletion req res;
          let results := <[result_num := res]> results in
          r ← get_req req;
          if r_completed r then
            on_timers (ts_remove (timer_ctx r));;
            modify (λ s, s <| cached_resource_ ::= λ l, l ++ [req] |>);;
            modify (λ s, s <| queue_ ::= delete it |>);;
            poll_loop max_num todo it results (S result_num)
          else
            s ← get;
            if decide (order_type s = kOrdered) then mret (results, result_num)
            else poll_loop max_num todo (S it) results result_num
  end.

(** The loop over [expired_queue_] of [Poll] and [PollDiscardedResult]. *)
Fixpoint expired_loop (todo : list Z) (it : nat) : ST chan unit :=
  match todo with
  | [] => mret ()
  | req :: todo =>
      CheckCompletion req discarded_result;;
      r ← get_req req;
      if r_completed r then
        modify (λ s, s <| cached_resource_ ::= λ l, l ++ [req] |>);;
        modify (λ s, s <| expired_queue_ ::= delete it |>);;
        expired_loop todo it
      else expired_loop todo (S it)
  end.

(** The callback of the timers, once per argument. *)
Fixpoint set_expired (args : list Z) : ST chan unit :=
  match args with
  | [] => mret ()
  | req :: args => mod_req req mark_expired;; set_expired args
  end.

(** [timeout] is not used by the code. *)
Definition Poll (now : Z) (results : list DataFlowResult) (max_num : nat) (timeout : Z) : ST chan (list DataFlowResult * nat) :=
  s ← get;
  r ← poll_loop max_num (queue_ s) 0 results 0;
  args ← on_timers (ts_handle now);
  set_expired args;;
  s ← get;
  expired_loop (expired_queue_ s) 0;;
  mret r.

(** ** Closing *)

Fixpoint discard_loop (todo : list Z) (it : nat) : ST chan unit :=
  match todo with
  | [] => mret ()
  | req :: todo =>
      CheckCompletion req discarded_result;;
      r ← get_req req;
      if r_completed r then
        on_timers (ts_remove (timer_ctx r));;
        modify (λ s, s <| cached_resource_ ::= λ l, l ++ [req] |>);;
        modify (λ s, s <| queue_ ::= delete it |>);;
        discard_loop todo it
      else discard_loop todo (S it)
  end.
Definition PollDiscardedResult : ST chan unit :=
  s ← get;
  discard_loop (queue_ s) 0;;
  s ← get;
  expired_loop (expired_queue_ s) 0.

(** [for (req : cached_resource_) { engine_->ClearCtx(req); delete req; }] *)
Fixpoint clear_loop (l : list Z) : ST chan unit :=
  match l with
  | [] => mret ()
  | req :: l =>
      r ← get_req req;
      on_engine (en_clear (engine_ctx r));;
      modify (λ s, s <| reqs ::= delete req |>);;
      clear_loop l
  end.
Definition Close : ST chan StatusCode :=
  PollDiscardedResult;;
  s ← get;
  match queue_ s, expired_queue_ s with
  | [], [] => clear_loop (cached_resource_ s);; mret kOk
  | _, _ => mret kResourceBusy
  end.

(** ** Start *)

(** [for (i < kIoDepthMaximum)] of [Init]. *)
Fixpoint init_loop (n : nat) : ST chan StatusCode :=
  match n with
  | O => mret kOk
  | S n =>
      s ← get;
      let req := next_req s in
      modify (λ s, s <| reqs ::= insert req (MkReq None 0 0 false false 0 0 0 0 0) |> <| next_req ::= Z.succ |>);;
      '(result, ctx) ← on_engine en_prealloc;
      if decide (result = kOk) then
        mod_req req (λ r, r <| engine_ctx := ctx |>);;
        modify (λ s, s <| cached_resource_ ::= λ l, l ++ [req] |>);;
        init_loop n
      else
        modify (λ s, s <| reqs ::= delete req |>);;
        s ← get;
        clear_loop (cached_resource_ s);;
        modify (λ s, s <| cached_resource_ := [] |>);;
        mret result
  end.
Definition Init : ST chan StatusCode := init_loop kIoDepthMaximum.

(** ** The invariant

    Every request object is in exactly one of the three lists and has an engine context of its
    own; the engine runs the contexts of the first two and no other; the running timers are
    those of the requests in [queue_] that have not expired. *)

Definition no_timer (rs : gmap Z DataFlowRequest) (p : Z) : bool := match rs !! p with Some r => r_expired r | None => true end.
Definition timed (rs : gmap Z DataFlowRequest) (q : list Z) : list Z := filter (λ p, no_timer rs p = false) q.
Definition timer_of (rs : gmap Z DataFlowRequest) (p : Z) : timer_view :=
  MkTV (match rs !! p with Some r => timer_ctx r | None => 0 end) p.

Record inv (e : E) (q x c : list Z) (rs : gmap Z DataFlowRequest) (t : Tm) (m : gmap Z work) : Prop := {
  iv_nodup : NoDup (q ++ x ++ c);
  iv_dom : ∀ p, is_Some (rs !! p) ↔ p ∈ q ++ x ++ c;
  iv_inj : ∀ p p' r r', rs !! p = Some r → rs !! p' = Some r' → engine_ctx r = engine_ctx r' → p = p';
  iv_engine : en_ok e m;
  iv_busy : ∀ p r, p ∈ q ++ x → rs !! p = Some r → m !! engine_ctx r = Some (Running (r_num r)) ∧ r_completed r = false;
  iv_free : ∀ p r, p ∈ c → rs !! p = Some r → m !! engine_ctx r = Some Free;
  iv_timers : ts_ok t (timer_of rs <$> timed rs q) }.

Definition chan_ok (s : chan) : Prop :=
  ∃ m, inv (engine_ s) (queue_ s) (expired_queue_ s) (cached_resource_ s) (reqs s) (timer_manager_ s) m.

Lemma wp_engine {A} (m : ST E A) (P : A → E → Prop) (Q : A → chan → Prop) s :
  wp m P (engine_ s) → (∀ a e, P a e → Q a (s <| engine_ := e |>)) → wp (on_engine m) Q s.
Proof. unfold wp, on_engine. destruct (m (engine_ s)) as [[a e]|]; [|done]. intros HP HQ. by apply HQ. Qed.
Lemma wp_timers {A} (m : ST Tm A) (P : A → Tm → Prop) (Q : A → chan → Prop) s :
  wp m P (timer_manager_ s) → (∀ a t, P a t → Q a (s <| timer_manager_ := t |>)) → wp (on_timers m) Q s.
Proof. unfold wp, on_timers. destruct (m (timer_manager_ s)) as [[a t]|]; [|done]. intros HP HQ. by apply HQ. Qed.
Lemma wp_get_req p r (Q : DataFlowRequest → chan → Prop) s : reqs s !! p = Some r → Q r s → wp (get_req p) Q s.
Proof. intros Hp HQ. unfold get_req. do 2 wp_step. by eapply wp_need. Qed.
Lemma wp_mod_req p r f (Q : unit → chan → Prop) s :
  reqs s !! p = Some r → Q () (s <| reqs ::= alter f p |>) → wp (mod_req p f) Q s.
Proof. intros Hp HQ. unfold mod_req. wp_step. eapply wp_get_req; [done|]. by wp_step. Qed.

(** Parts of a request that a poll does not write. *)
Definition fixed (r : DataFlowRequest) : nat * Z * Z * Z := (r_num r, timer_ctx r, engine_ctx r, user_ctx r).
Definition same_fixed (rs rs' : gmap Z DataFlowRequest) : Prop := ∀ p, fixed <$> rs' !! p = fixed <$> rs !! p.
Lemma same_fixed_refl rs : same_fixed rs rs.
Proof. by intros p. Qed.
Lemma same_fixed_trans a b c : same_fixed a b → same_fixed b c → same_fixed a c.
Proof. intros H1 H2 p. by rewrite H2, H1. Qed.
Lemma same_fixed_alter rs p f : (∀ r, fixed (f r) = fixed r) → same_fixed rs (alter f p rs).
Proof. intros Hf q. rewrite lookup_alter. case_decide; [|done]. subst. destruct (rs !! q) as [r|]; [cbn; by rewrite Hf|done]. Qed.

Lemma timer_of_fixed rs rs' p : same_fixed rs rs' → timer_of rs' p = timer_of rs p.
Proof.
  intros H. specialize (H p). unfold timer_of. destruct (rs !! p), (rs' !! p); cbn in H; try done. by injection H as _ -> _ _.
Qed.

(** A member of [queue_] or [expired_queue_] that the engine has finished goes to the cache. *)
Lemma alter_completed_lookup (rs : gmap Z DataFlowRequest) p q r :
  alter mark_completed p rs !! q = Some r →
  ∃ r0, rs !! q = Some r0 ∧ fixed r = fixed r0 ∧ r_expired r = r_expired r0 ∧ (q ≠ p → r = r0).
Proof.
  rewrite lookup_alter. case_decide as Hd.
  - subst. intros (r0 & Hr0 & ->)%fmap_Some. by exists r0.
  - intros Hr. by exists r.
Qed.
Lemma no_timer_alter rs p q : no_timer (alter mark_completed p rs) q = no_timer rs q.
Proof. unfold no_timer. rewrite lookup_alter. case_decide; [|done]. subst. by destruct (rs !! q). Qed.
Lemma fixed_engine r r' : fixed r = fixed r' → engine_ctx r = engine_ctx r'.
Proof. by intros [= _ _ -> _]. Qed.

Lemma finish_inv e e' q x q' x' p c rs t t' m r :
  inv e q x c rs t m → q ++ x ≡ₚ p :: q' ++ x' → rs !! p = Some r → en_ok e' (<[engine_ctx r := Free]> m) →
  ts_ok t' (timer_of rs <$> timed rs q') →
  inv e' q' x' (c ++ [p]) (alter mark_completed p rs) t' (<[engine_ctx r := Free]> m).
Proof.
  intros [Hn Hd Hi He Hb Hf Ht] Hqx Hp He' Ht'. set (rs' := alter _ p rs).
  assert (q' ++ x' ++ c ++ [p] ≡ₚ q ++ x ++ c) as HP.
  { rewrite !app_assoc, Hqx. cbn. by rewrite <- Permutation_cons_append. }
  assert (p ∉ q' ++ x' ++ c) as Hpn.
  { rewrite app_assoc, Hqx in Hn. cbn in Hn. rewrite <- app_assoc in Hn. by apply NoDup_cons in Hn as [Hn _]. }
  split.
  - by rewrite HP.
  - intros a. rewrite HP, <- Hd. unfold rs'. rewrite lookup_alter. case_decide; [subst; by rewrite fmap_is_Some|done].
  - intros a b ra rb (ra0 & Ha & Fa & _)%alter_completed_lookup (rb0 & Hb' & Fb & _)%alter_completed_lookup Heq.
    apply (Hi a b ra0 rb0); [done..|]. by rewrite <- (fixed_engine _ _ Fa), <- (fixed_engine _ _ Fb).
  - done.
  - intros a ra Ha (ra0 & Hra & _ & _ & Hne)%alter_completed_lookup.
    assert (a ≠ p) as Hap. { intros ->. apply Hpn. rewrite app_assoc. apply elem_of_app. by left. }
    rewrite (Hne Hap) in *. destruct (Hb a ra0) as [Hm Hc]; [rewrite Hqx; by right|done|]. split; [|done].
    rewrite lookup_insert_ne; [done|]. intros Heq. by apply Hap, (Hi a p ra0 r).
  - intros a ra Ha (ra0 & Hra & Fa & _ & Hne)%alter_completed_lookup. destruct (decide (a = p)) as [->|Hap].
    + rewrite (fixed_engine _ _ Fa). simplify_eq. by rewrite lookup_insert_eq.
    + rewrite (Hne Hap) in *. rewrite lookup_insert_ne; [|intros Heq; by apply Hap, (Hi a p ra0 r)]. apply (Hf a); [|done].
      apply elem_of_app in Ha as [?|?%list_elem_of_singleton]; done.
  - assert (timed rs' q' = timed rs q') as ->.
    { unfold timed. apply list_filter_iff. intros a. unfold rs'. by rewrite no_timer_alter. }
    erewrite list_fmap_ext; [exact Ht'|]. intros i a _. cbn. apply timer_of_fixed. by apply same_fixed_alter.
Qed.
(** The engine was asked and has not finished. *)
Lemma pending_inv e e' q x c rs t m : inv e q x c rs t m → en_ok e' m → inv e' q x c rs t m.
Proof. intros [] He. by split. Qed.
(** A request whose timer fired is set aside. *)
Lemma expire_inv e q1 p q2 x c rs t m r :
  inv e (q1 ++ p :: q2) x c rs t m → rs !! p = Some r → r_expired r = true → inv e (q1 ++ q2) (x ++ [p]) c rs t m.
Proof.
  intros [Hn Hd Hi He Hb Hf Ht] Hp Hx.
  assert ((q1 ++ q2) ++ x ++ [p] ≡ₚ (q1 ++ p :: q2) ++ x) as HP.
  { rewrite app_assoc, <- Permutation_cons_append. by rewrite <- Permutation_middle. }
  assert ((q1 ++ q2) ++ (x ++ [p]) ++ c ≡ₚ (q1 ++ p :: q2) ++ x ++ c) as HP'.
  { rewrite app_assoc, HP. by rewrite app_assoc. }
  split; [by rewrite HP'|intros a; by rewrite HP'|done|done|intros a ra Ha; apply Hb; by rewrite <- HP|done|].
  assert (no_timer rs p = true) as Hno by (unfold no_timer; by rewrite Hp).
  unfold timed in *. rewrite filter_app in *. rewrite filter_cons, decide_False in Ht by (by rewrite Hno). done.
Qed.
(** [CheckCompletion] on a request the engine runs. *)
Lemma check_ok s m p r res :
  inv (engine_ s) (queue_ s) (expired_queue_ s) (cached_resource_ s) (reqs s) (timer_manager_ s) m →
  p ∈ queue_ s ++ expired_queue_ s → reqs s !! p = Some r →
  wp (CheckCompletion p res) (λ res' s', ∃ e,
    (res' = res ∧ s' = s <| engine_ := e |> ∧ en_ok e m) ∨
    (rs_ctx res' = user_ctx r ∧ en_ok e (<[engine_ctx r := Free]> m) ∧
     s' = s <| engine_ := e |> <| reqs ::= alter mark_completed p |>)) s.
Proof.
  intros Hinv Hp Hr. destruct (iv_busy _ _ _ _ _ _ _ Hinv p r Hp Hr) as [Hm Hc].
  unfold CheckCompletion. wp_step. eapply wp_get_req; [done|]. wp_step.
  eapply wp_engine; [exact (en_check_law _ m r res (iv_engine _ _ _ _ _ _ _ Hinv) Hm)|]. intros [res'|] e.
  - intros [He Hx]. wp_step. eapply wp_mod_req; [exact Hr|]. wp_step. exists e. by right.
  - intros He. wp_step. exists e. by left.
Qed.

(** What a poll keeps. *)
Record quiet (s s' : chan) : Prop := {
  qt_order : order_type s' = order_type s; qt_hint : schedule_hint s' = schedule_hint s; qt_next : next_req s' = next_req s;
  qt_fixed : same_fixed (reqs s) (reqs s');
  qt_size : (length (queue_ s' ++ expired_queue_ s' ++ cached_resource_ s') = length (queue_ s ++ expired_queue_ s ++ cached_resource_ s))%nat }.
Lemma chan_quiet_refl s : quiet s s.
Proof. split; done || apply same_fixed_refl. Qed.
Lemma chan_quiet_trans a b c : quiet a b → quiet b c → quiet a c.
Proof. intros [] []. split; [congruence..|by eapply same_fixed_trans|congruence]. Qed.
Definition same_flags (rs rs' : gmap Z DataFlowRequest) : Prop := ∀ p, r_expired <$> rs' !! p = r_expired <$> rs !! p.
Lemma same_flags_completed rs p : same_flags rs (alter mark_completed p rs).
Proof. intros a. rewrite lookup_alter. case_decide; [|done]. subst. by destruct (rs !! a). Qed.
Lemma same_flags_trans a b c : same_flags a b → same_flags b c → same_flags a c.
Proof. intros H1 H2 p. by rewrite H2, H1. Qed.
Lemma app_cons_snoc {A} (l1 : list A) x l2 : l1 ++ x :: l2 = (l1 ++ [x]) ++ l2.
Proof. by rewrite <- app_assoc. Qed.

Ltac chan_simpl := cbn [engine_ queue_ expired_queue_ cached_resource_ order_type schedule_hint timer_manager_ reqs next_req upd] in *.

Lemma expired_loop_ok todo : ∀ s kept,
  chan_ok s → expired_queue_ s = kept ++ todo →
  wp (expired_loop todo (length kept)) (λ _ s', chan_ok s' ∧ queue_ s' = queue_ s ∧ quiet s s' ∧ same_flags (reqs s) (reqs s')) s.
Proof.
  induction todo as [|p todo IH]; intros s kept [m Hinv] Hx; cbn [expired_loop].
  { wp_step. split_and!; [by exists m|done|apply chan_quiet_refl|done]. }
  assert (p ∈ queue_ s ++ expired_queue_ s) as Hp by (rewrite Hx; set_solver).
  destruct (proj2 (iv_dom _ _ _ _ _ _ _ Hinv p)) as [r Hr]; [set_solver|].
  wp_step. eapply wp_mono; [by eapply check_ok|]. destruct s as [e0 q x c o h t rs nr]. chan_simpl. subst x.
  cbv beta. intros res s1 (e & [(-> & -> & He)|(_ & He & ->)]); chan_simpl; wp_step.
  - eapply wp_get_req; [exact Hr|]. rewrite (proj2 (iv_busy _ _ _ _ _ _ _ Hinv p r Hp Hr)).
    replace (S (length kept)) with (length (kept ++ [p])) by (rewrite length_app; cbn; lia).
    eapply wp_mono; [apply (IH _ (kept ++ [p]))|]; chan_simpl.
    + exists m. by apply (pending_inv _ e _ _ _ _ _ _ Hinv).
    + by rewrite app_cons_snoc.
    + intros _ s' (Hok & Hq & Hqt & Hfl). split_and!; [done|done| |done]. by destruct Hqt.
  - eapply wp_get_req; [chan_simpl; by rewrite lookup_alter_eq, Hr|]. cbn [r_completed upd mark_completed]. do 4 wp_step. chan_simpl.
    rewrite delete_middle. eapply wp_mono; [apply (IH _ kept)|]; chan_simpl; [|done|].
    + exists (<[engine_ctx r := Free]> m). eapply finish_inv; [exact Hinv| |done..|exact (iv_timers _ _ _ _ _ _ _ Hinv)].
      chan_simpl. rewrite !(app_assoc q). symmetry. apply Permutation_middle.
    + intros _ s' (Hok & Hq & [? ? ? Hfx Hsz] & Hfl). chan_simpl. split_and!; [done|done| |].
      * split; chan_simpl; [done..|eapply same_fixed_trans; [|exact Hfx]; by apply same_fixed_alter|].
        rewrite Hsz, !length_app. cbn. lia.
      * eapply same_flags_trans; [apply same_flags_completed|done].
Qed.

(** ** The poll loop *)

(** [l] is [d] and [r] shuffled together. *)
Inductive splits {A} : list A → list A → list A → Prop :=
| splits_nil : splits [] [] []
| splits_out x l d r : splits l d r → splits (x :: l) (x :: d) r
| splits_in x l d r : splits l d r → splits (x :: l) d (x :: r).
Lemma splits_none {A} (l : list A) : splits l [] l.
Proof. induction l; by constructor. Qed.
Lemma splits_omap {A B} (f : A → option B) l d r : splits l d r → splits (omap f l) (omap f d) (omap f r).
Proof. induction 1; cbn; [constructor|destruct (f x); [by constructor|done]..]. Qed.

Lemma timed_split rs q1 p q2 r : rs !! p = Some r → r_expired r = false →
  timer_of rs <$> timed rs (q1 ++ p :: q2) = (timer_of rs <$> timed rs q1) ++ MkTV (timer_ctx r) p :: (timer_of rs <$> timed rs q2) ∧
  timer_of rs <$> timed rs (q1 ++ q2) = (timer_of rs <$> timed rs q1) ++ (timer_of rs <$> timed rs q2).
Proof.
  intros Hp Hx. unfold timed. rewrite !filter_app, !fmap_app, filter_cons, decide_True; [|unfold no_timer; by rewrite Hp].
  split; [|done]. rewrite fmap_cons. do 2 f_equal. unfold timer_of. by rewrite Hp.
Qed.

(** What the loop has done: [D] are the requests it reported, [R] the ones it left. *)
Record reported (ordered : bool) (rs : gmap Z DataFlowRequest) (todo D R : list Z) (results results' : list DataFlowResult) (n n' : nat) : Prop := {
  rp_splits : splits todo D R;
  rp_ordered : ordered = true → todo = D ++ R;
  rp_num : n' = (n + length D)%nat;
  rp_len : length results' = length results;
  rp_rest : ∀ i, (i < n ∨ n' ≤ i)%nat → results' !! i = results !! i;
  rp_each : ∀ k p, D !! k = Some p → ∃ res r, results' !! (n + k)%nat = Some res ∧ rs !! p = Some r ∧
    rs_ctx res = user_ctx r ∧ (r_expired r = true → rs_status res = kTimeout) }.
Lemma reported_stop b rs todo results n : reported b rs todo [] todo results results n n.
Proof. split; [apply splits_none|done|cbn; lia|done|done|done]. Qed.
(** The request at the front was reported, in entry [n]. *)
Lemma reported_out b rs rs' p todo D R results results' res r n n' :
  (n < length results)%nat → rs !! p = Some r → rs_ctx res = user_ctx r → (r_expired r = true → rs_status res = kTimeout) →
  same_fixed rs rs' → same_flags rs rs' →
  reported b rs' todo D R (<[n := res]> results) results' (S n) n' → reported b rs (p :: todo) (p :: D) R results results' n n'.
Proof.
  intros Hn Hp Hc Ht Hfx Hfl [H1 H2 H3 H4 H5 H6]. split.
  - by constructor.
  - intros Hb. by rewrite (H2 Hb).
  - cbn. lia.
  - by rewrite H4, length_insert.
  - intros i Hi. rewrite H5 by lia. apply list_lookup_insert_ne. lia.
  - intros [|k] a; cbn.
    + intros [= <-]. exists res, r. split_and!; [|done..]. rewrite H5 by lia. rewrite Nat.add_0_r. by apply list_lookup_insert_eq.
    + intros Ha. destruct (H6 k a Ha) as (res' & r' & Hr & Hr' & Hu & Hx). specialize (Hfx a). specialize (Hfl a). rewrite Hr' in Hfx, Hfl.
      destruct (rs !! a) as [r0|]; [|done]. injection Hfx as _ _ _ Eu. injection Hfl as Ef. exists res', r0. split_and!; [|done|congruence|intros ?; apply Hx; congruence].
      by rewrite Nat.add_succ_r.
Qed.

Lemma poll_loop_ok max_num todo : ∀ s kept results n,
  chan_ok s → queue_ s = kept ++ todo → (n ≤ max_num ≤ length results)%nat →
  wp (poll_loop max_num todo (length kept) results n) (λ '(results', n') s',
    chan_ok s' ∧ quiet s s' ∧ same_flags (reqs s) (reqs s') ∧ (n' ≤ max_num)%nat ∧
    ∃ D R, queue_ s' = kept ++ R ∧ reported (bool_decide (order_type s = kOrdered)) (reqs s) todo D R results results' n n') s.
Proof.
  induction todo as [|p todo IH]; intros s kept results n [m Hinv] Hq Hn; cbn [poll_loop].
  { wp_step. split_and!; [by exists m|apply chan_quiet_refl|done|lia|]. exists [], []. split; [done|apply reported_stop]. }
  destruct (Nat.ltb_spec n max_num) as [Hlt|Hge]; cbn [negb].
  2: { wp_step. split_and!; [by exists m|apply chan_quiet_refl|done|lia|]. exists [], (p :: todo). split; [done|apply reported_stop]. }
  assert (p ∈ queue_ s ++ expired_queue_ s) as Hp by (rewrite Hq; set_solver).
  destruct (proj2 (iv_dom _ _ _ _ _ _ _ Hinv p)) as [r Hr]; [set_solver|].
  destruct (lookup_lt_is_Some_2 results n) as [res Hres]; [lia|].
  destruct s as [e0 q x c o h t rs nr]. chan_simpl. subst q.
  wp_step. eapply wp_get_req; [done|]. destruct (r_expired r) eqn:Hxp.
  - do 2 wp_step. wp_step. eapply wp_need; [done|]. do 2 wp_step. chan_simpl. rewrite delete_middle.
    eapply wp_mono; [apply (IH _ kept); chan_simpl; [|done|rewrite length_insert; lia]|].
    + exists m. by apply (expire_inv _ _ _ _ _ _ _ _ _ r Hinv).
    + intros [results' n'] s' (Hok & Hqt & Hfl & Hm & D & R & Hq' & Hrep). chan_simpl. split_and!; [done| |done|done|].
      * destruct Hqt as [? ? ? ? Hsz]. split; chan_simpl; [done..|]. rewrite Hsz, !length_app. cbn. lia.
      * exists (p :: D), R. split; [done|]. eapply reported_out; [| | | | | |exact Hrep]; [lia|done|done|done|done|done].
  - wp_step. eapply wp_need; [done|]. wp_step. eapply wp_mono; [by eapply check_ok|].
    cbv beta. intros res' s1 (e & [(-> & -> & He)|(Hu & He & ->)]); chan_simpl; wp_step.
    + eapply wp_get_req; [exact Hr|]. rewrite (proj2 (iv_busy _ _ _ _ _ _ _ Hinv p r Hp Hr)). wp_step. wp_step.
      rewrite list_insert_id by done. destruct (decide _) as [Ho|Ho]; chan_simpl.
      * wp_step. split_and!; [exists m; by apply (pending_inv _ e _ _ _ _ _ _ Hinv)|by split|done|lia|].
        exists [], (p :: todo). split; [done|]. apply reported_stop.
      * replace (S (length kept)) with (length (kept ++ [p])) by (rewrite length_app; cbn; lia).
        eapply wp_mono; [apply (IH _ (kept ++ [p])); chan_simpl; [|by rewrite app_cons_snoc|lia]|].
        -- exists m. by apply (pending_inv _ e _ _ _ _ _ _ Hinv).
        -- intros [results' n'] s' (Hok & Hqt & Hfl & Hm & D & R & Hq' & [H1 H2 H3 H4 H5 H6]). chan_simpl.
           split_and!; [done|by destruct Hqt|done|done|]. exists D, (p :: R). split; [by rewrite app_cons_snoc|].
           split; [by constructor|by rewrite bool_decide_eq_false_2|done..].
    + eapply wp_get_req; [chan_simpl; by rewrite lookup_alter_eq, Hr|]. cbn [r_completed timer_ctx upd mark_completed]. wp_step.
      destruct (timed_split rs kept p todo r Hr Hxp) as [Et Et'].
      pose proof (iv_timers _ _ _ _ _ _ _ Hinv) as Ht. rewrite Et in Ht. eapply wp_timers; [exact (ts_remove_law _ _ _ _ Ht)|].
      intros [] t' Ht'. cbv beta in Ht'. rewrite <- Et' in Ht'. do 4 wp_step. chan_simpl. rewrite delete_middle.
      eapply wp_mono; [apply (IH _ kept); chan_simpl; [|done|rewrite length_insert; lia]|].
      * exists (<[engine_ctx r := Free]> m). chan_simpl. eapply finish_inv; [exact Hinv| |done..].
        rewrite <- !app_assoc. symmetry. apply Permutation_middle.
      * intros [results' n'] s' (Hok & Hqt & Hfl & Hm & D & R & Hq' & Hrep). chan_simpl. split_and!; [done| | |done|].
        -- destruct Hqt as [? ? ? Hfx Hsz]. split; chan_simpl; [done..|eapply same_fixed_trans; [|exact Hfx]; by apply same_fixed_alter|].
           rewrite Hsz, !length_app. cbn. lia.
        -- eapply same_flags_trans; [apply same_flags_completed|done].
        -- exists (p :: D), R. split; [done|]. eapply reported_out; [| | | | | |exact Hrep]; [lia|done|done|congruence|by apply same_fixed_alter|apply same_flags_completed].
Qed.

(** ** Timers that fired *)

Definition expire_all (args : list Z) (rs : gmap Z DataFlowRequest) : gmap Z DataFlowRequest :=
  map_imap (λ p r, Some (if decide (p ∈ args) then mark_expired r else r)) rs.
Lemma expire_all_lookup args rs p :
  expire_all args rs !! p = (λ r, if decide (p ∈ args) then mark_expired r else r) <$> rs !! p.
Proof. unfold expire_all. rewrite map_lookup_imap. by destruct (rs !! p). Qed.
Lemma set_expired_ok args : ∀ s, (∀ p, p ∈ args → is_Some (reqs s !! p)) →
  wp (set_expired args) (λ _ s', s' = s <| reqs ::= expire_all args |>) s.
Proof.
  induction args as [|p args IH]; intros s Hin; cbn [set_expired].
  - wp_step. destruct s as [e q x c o h t rs nr]. chan_simpl. f_equal. apply map_eq. intros a. rewrite expire_all_lookup.
    destruct (rs !! a); [|done]. cbn. rewrite decide_False; [done|]. apply not_elem_of_nil.
  - destruct (Hin p) as [r Hr]; [by left|]. wp_step. eapply wp_mod_req; [done|].
    destruct s as [e q x c o h t rs nr]. chan_simpl. eapply wp_mono; [apply IH|]; chan_simpl.
    + intros a Ha. rewrite lookup_alter. destruct (Hin a) as [ra Hra]; [by right|]. case_decide; [|by eexists].
      subst. rewrite Hra. by eexists.
    + intros _ s' ->. f_equal. apply map_eq. intros a. rewrite !expire_all_lookup. destruct (decide (p = a)) as [<-|Hne].
      * rewrite lookup_alter_eq, Hr. cbn. f_equal. rewrite (decide_True (P := p ∈ p :: args)) by (by left). by case_decide.
      * rewrite lookup_alter_ne by done. destruct (rs !! a); [|done]. cbn. f_equal. apply decide_ext. set_solver.
Qed.

Lemma timed_expired rs q args rest :
  NoDup q → timed rs q = args ++ rest → timed (expire_all args rs) q = rest.
Proof.
  intros Hn Ht. assert (NoDup (timed rs q)) as Hnt by (by apply NoDup_filter). rewrite Ht in Hnt.
  apply NoDup_app in Hnt as (_ & Hd & _).
  assert (timed (expire_all args rs) q = filter (λ p, p ∉ args) (timed rs q)) as ->.
  { unfold timed. clear. induction q as [|p q IH]; [done|]. rewrite !filter_cons.
    assert (no_timer (expire_all args rs) p = if decide (p ∈ args) then true else no_timer rs p) as ->.
    { unfold no_timer. rewrite expire_all_lookup. destruct (rs !! p) as [r|]; cbn; by case_decide. }
    destruct (decide (p ∈ args)) as [Hin|Hin].
    - rewrite decide_False by done. destruct (decide (no_timer rs p = false)); [|exact IH]. rewrite filter_cons, decide_False by tauto. exact IH.
    - destruct (decide (no_timer rs p = false)); [|exact IH]. rewrite filter_cons, decide_True by done. by f_equal. }
  rewrite Ht, filter_app, filter_none, filter_every; [done|intros a Ha Hx; by apply (Hd a)|intros a Ha Hx; by apply Hx].
Qed.
Lemma expire_fixed args rs : same_fixed rs (expire_all args rs).
Proof. intros p. rewrite expire_all_lookup. destruct (rs !! p); [cbn; by case_decide|done]. Qed.

(** The check for timeouts. *)
Lemma timeout_ok s now : chan_ok s →
  wp (args ← on_timers (ts_handle now); set_expired args) (λ _ s', chan_ok s' ∧ quiet s s' ∧ queue_ s' = queue_ s ∧
    expired_queue_ s' = expired_queue_ s ∧ ∃ args rest, timed (reqs s) (queue_ s) = args ++ rest ∧ timed (reqs s') (queue_ s') = rest) s.
Proof.
  intros [m Hinv]. destruct s as [e q x c o h t rs nr]. chan_simpl. pose proof Hinv as [Hn Hd Hi He Hb Hf Ht].
  wp_step. eapply wp_timers; [exact (ts_handle_law _ _ now Ht)|]. intros args t' (l1 & l2 & El & -> & Ht').
  assert (timed rs q = (tv_arg <$> l1) ++ (tv_arg <$> l2)) as Etq.
  { rewrite <- fmap_app, <- El, <- list_fmap_compose. symmetry. apply list_fmap_id. }
  eapply wp_mono; [apply set_expired_ok; chan_simpl|].
  - intros p Hp. apply Hd. apply elem_of_app. left. assert (p ∈ timed rs q) as Hq by (rewrite Etq; set_solver).
    by apply list_elem_of_filter in Hq as [_ ?].
  - intros _ s' ->. chan_simpl. set (rs' := expire_all _ rs). assert (same_fixed rs rs') as Hfx by apply expire_fixed.
    assert (timed rs' q = tv_arg <$> l2) as Etq'.
    { apply timed_expired; [|done]. by apply NoDup_app in Hn as [? _]. }
    assert (∀ p r, rs' !! p = Some r → ∃ r0, rs !! p = Some r0 ∧ engine_ctx r = engine_ctx r0 ∧
      r_completed r = r_completed r0 ∧ r_num r = r_num r0) as Hrs.
    { intros p r. unfold rs'. rewrite expire_all_lookup. intros (r0 & Hr0 & ->)%fmap_Some. exists r0. by case_decide. }
    split_and!; [|by split|done|done|by eexists _, _].
    exists m. chan_simpl. split; [done| | |done| | |].
    + intros p. rewrite <- Hd. unfold rs'. rewrite expire_all_lookup. by rewrite fmap_is_Some.
    + intros a b ra rb (ra0 & Ha & Ea & _)%Hrs (rb0 & Hb' & Eb & _)%Hrs Heq. apply (Hi a b ra0 rb0); [done..|congruence].
    + intros a ra Ha (ra0 & Hra & -> & -> & ->)%Hrs. by apply (Hb a).
    + intros a ra Ha (ra0 & Hra & -> & _)%Hrs. by apply (Hf a).
    + rewrite Etq'. assert (timer_of rs' <$> (tv_arg <$> l2) = l2) as ->; [|done].
      assert (timer_of rs <$> (tv_arg <$> l2) = l2) as El2.
      { apply (app_inj_1 (timer_of rs <$> (tv_arg <$> l1)) l1); [by rewrite !length_fmap|]. rewrite <- fmap_app, <- El. by rewrite <- Etq. }
      rewrite <- El2 at 2. apply list_fmap_ext. intros i a _. by apply timer_of_fixed.
Qed.

(** ** The channel as a queue of user contexts *)

Definition uctx (rs : gmap Z DataFlowRequest) (p : Z) : option Z := user_ctx <$> rs !! p.
(** The requests accepted and not reported yet, oldest first. *)
Definition pend (s : chan) : list Z := omap (uctx (reqs s)) (queue_ s).

Lemma uctx_fixed rs rs' (q : list Z) : same_fixed rs rs' → omap (uctx rs') q = omap (uctx rs) q.
Proof.
  intros H. induction q as [|p q IH]; [done|]. cbn. specialize (H p).
  assert (uctx rs' p = uctx rs p) as ->; [|by rewrite IH].
  unfold uctx. destruct (rs !! p), (rs' !! p); cbn in H; try done. injection H as _ _ _ E0. cbn. by rewrite E0.
Qed.
Lemma delivered_ctxs rs D : ∀ results,
  (∀ k p, D !! k = Some p → ∃ res r, results !! k = Some res ∧ rs !! p = Some r ∧ rs_ctx res = user_ctx r) →
  rs_ctx <$> take (length D) results = omap (uctx rs) D.
Proof.
  induction D as [|p D IH]; intros results HD; [done|]. destruct (HD 0%nat p) as (res & r & Hres & Hr & Hu); [done|].
  destruct results as [|res0 results]; [done|]. injection Hres as ->. cbn [length take fmap list_fmap]. cbn. unfold uctx at 1. rewrite Hr. cbn.
  rewrite Hu. f_equal. apply IH. intros k a Ha. exact (HD (S k) a Ha).
Qed.
Lemma wp_unbind {S A B} (m : ST S A) (k : A → ST S B) (Q : B → S → Prop) s :
  wp (x ← m; k x) Q s → wp m (λ a s', wp (k a) Q s') s.
Proof. unfold wp, mbind, ST_bind. by destruct (m s) as [[a s']|]. Qed.

Lemma Poll_ok s now results max_num timeout : chan_ok s → (max_num ≤ length results)%nat →
  wp (Poll now results max_num timeout) (λ '(results', n) s', chan_ok s' ∧ quiet s s' ∧ (n ≤ max_num)%nat ∧
    length results' = length results ∧ (∀ i, (n ≤ i)%nat → results' !! i = results !! i) ∧
    splits (pend s) (rs_ctx <$> take n results') (pend s') ∧
    (order_type s = kOrdered → pend s = (rs_ctx <$> take n results') ++ pend s')) s.
Proof.
  intros Hok Hmax. unfold Poll. do 2 wp_step. wp_step.
  eapply wp_mono; [apply (poll_loop_ok max_num (queue_ s) s [] results 0); [done|done|lia]|].
  intros [results' n'] s1 (Hok1 & Hqt1 & Hfl1 & Hm & D & R & Hq1 & [H1 H2 H3 H4 H5 H6]). cbn [app] in Hq1. wp_step.
  eapply wp_mono; [exact (wp_unbind _ _ _ _ (timeout_ok s1 now Hok1))|]. cbv beta. intros args s2' H2'. wp_step. eapply wp_mono; [exact H2'|].
  clear args s2' H2'. cbv beta. intros _ s2 (Hok2 & Hqt2 & Hq2 & Hx2 & _). do 3 wp_step.
  eapply wp_mono; [apply (expired_loop_ok (expired_queue_ s2) s2 []); done|]. cbv beta. intros _ s3 (Hok3 & Hq3 & Hqt3 & _). wp_step.
  assert (quiet s s3) as Hqt by (eapply chan_quiet_trans; [|done]; by eapply chan_quiet_trans).
  assert (pend s3 = omap (uctx (reqs s)) R) as Ep.
  { unfold pend. rewrite Hq3, Hq2, Hq1. apply uctx_fixed, Hqt. }
  assert (rs_ctx <$> take n' results' = omap (uctx (reqs s)) D) as ED.
  { rewrite H3. cbn [Nat.add]. apply delivered_ctxs. intros k p Hk. destruct (H6 k p Hk) as (res & r & ? & ? & ? & _). by exists res, r. }
  split_and!; [done|done|done|done|intros i Hi; apply H5; lia| |].
  - rewrite ED, Ep. by apply splits_omap.
  - intros Ho. rewrite ED, Ep, <- omap_app. unfold pend. f_equal. apply H2. by apply bool_decide_eq_true_2.
Qed.

(** ** Submission *)

Lemma take_inv e e' q x p c rs t t' m op num uc h mv cd ctx r :
  inv e q x (p :: c) rs t m → rs !! p = Some r →
  let r' := (Build op num uc h mv cd r) <| timer_ctx := ctx |> <| r_op := None |> in
  en_ok e' (<[engine_ctx r := Running num]> m) → ts_ok t' ((timer_of rs <$> timed rs q) ++ [MkTV ctx p]) →
  inv e' (q ++ [p]) x c (<[p := r']> rs) t' (<[engine_ctx r := Running num]> m).
Proof.
  intros [Hn Hd Hi He Hb Hf Ht] Hp r' He' Ht'.
  assert ((q ++ [p]) ++ x ++ c ≡ₚ q ++ x ++ p :: c) as HP.
  { rewrite <- app_assoc. cbn. apply Permutation_app_head, Permutation_middle. }
  assert (p ∉ q ++ x ∧ p ∉ c) as [Hpq Hpc].
  { rewrite app_assoc, <- Permutation_middle in Hn. apply NoDup_cons in Hn as [Hn _]. split; intros ?; apply Hn; set_solver. }
  assert (∀ a ra, <[p := r']> rs !! a = Some ra → ∃ r0, rs !! a = Some r0 ∧ engine_ctx ra = engine_ctx r0 ∧ (a ≠ p → ra = r0)) as Hrs.
  { intros a ra [[<- <-] | [Hne Ha]]%lookup_insert_Some; [by exists r|by exists ra]. }
  split.
  - by rewrite HP.
  - intros a. rewrite HP, <- Hd, lookup_insert_is_Some'. split; [|by right]. intros [<- |?]; [by eexists|done].
  - intros a b ra rb (ra0 & Ha & Ea & _)%Hrs (rb0 & Hb' & Eb & _)%Hrs Heq. apply (Hi a b ra0 rb0); [done..|congruence].
  - done.
  - intros a ra Ha Hra. destruct (decide (a = p)) as [->|Hne].
    + rewrite lookup_insert_eq in Hra. injection Hra as <-. split; [|done]. cbn. by rewrite lookup_insert_eq.
    + apply Hrs in Hra as (r0 & Hr0 & _ & E0). rewrite (E0 Hne) in *. destruct (Hb a r0) as [Hm Hc]; [set_solver|done|]. split; [|done].
      rewrite lookup_insert_ne; [done|]. intros Heq. by apply Hne, (Hi a p r0 r).
  - intros a ra Ha Hra. assert (a ≠ p) as Hne by (by intros ->). apply Hrs in Hra as (r0 & Hr0 & _ & E0). rewrite (E0 Hne) in *.
    rewrite lookup_insert_ne; [|intros Heq; by apply Hne, (Hi a p r0 r)]. apply (Hf a); [by right|done].
  - assert (timer_of (<[p := r']> rs) <$> timed (<[p := r']> rs) (q ++ [p]) = (timer_of rs <$> timed rs q) ++ [MkTV ctx p]) as ->; [|done].
    unfold timed. rewrite filter_app, fmap_app, filter_cons, decide_True; [|unfold no_timer; by rewrite lookup_insert_eq].
    assert (timer_of (<[p := r']> rs) p = MkTV ctx p) as E1 by (unfold timer_of; by rewrite lookup_insert_eq).
    assert (timer_of (<[p := r']> rs) <$> filter (λ a, no_timer (<[p := r']> rs) a = false) q =
      timer_of rs <$> filter (λ a, no_timer rs a = false) q) as E2; [|by rewrite fmap_cons, E1, E2].
    assert (∀ a, a ∈ q → a ≠ p) as Hqp by (intros a Ha ->; apply Hpq; apply elem_of_app; by left).
    clear -Hqp. induction q as [|a q IH]; [done|]. rewrite !filter_cons. assert (a ≠ p) by (apply Hqp; by left).
    assert (no_timer (<[p := r']> rs) a = no_timer rs a) as -> by (unfold no_timer; by rewrite lookup_insert_ne).
    case_decide; [|apply IH; intros; apply Hqp; by right]. rewrite !fmap_cons. f_equal; [unfold timer_of; by rewrite lookup_insert_ne|].
    apply IH. intros; apply Hqp; by right.
Qed.
(** The engine refused: the object goes back, with its fields overwritten. *)
Lemma refuse_inv e e' q x p c rs t m r r' :
  inv e q x (p :: c) rs t m → rs !! p = Some r → engine_ctx r' = engine_ctx r → en_ok e' m →
  inv e' q x (c ++ [p]) (<[p := r']> rs) t m.
Proof.
  intros [Hn Hd Hi He Hb Hf Ht] Hp Hc He'.
  assert (q ++ x ++ c ++ [p] ≡ₚ q ++ x ++ p :: c) as HP by (do 2 apply Permutation_app_head; symmetry; apply Permutation_cons_append).
  assert (p ∉ q ++ x) as Hpq.
  { rewrite app_assoc, <- Permutation_middle in Hn. apply NoDup_cons in Hn as [Hn _]. intros ?. apply Hn. set_solver. }
  assert (∀ a ra, <[p := r']> rs !! a = Some ra → ∃ r0, rs !! a = Some r0 ∧ engine_ctx ra = engine_ctx r0 ∧ (a ≠ p → ra = r0)) as Hrs.
  { intros a ra [[<- <-] | [Hne Ha]]%lookup_insert_Some; [by exists r|by exists ra]. }
  assert (∀ a, a ∈ q → <[p := r']> rs !! a = rs !! a) as Hq.
  { intros a Ha. apply lookup_insert_ne. intros <-. apply Hpq. apply elem_of_app. by left. }
  split.
  - by rewrite HP.
  - intros a. rewrite HP, <- Hd, lookup_insert_is_Some'. split; [|by right]. intros [<- |?]; [by eexists|done].
  - intros a b ra rb (ra0 & Ha & Ea & _)%Hrs (rb0 & Hb' & Eb & _)%Hrs Heq. apply (Hi a b ra0 rb0); [done..|congruence].
  - done.
  - intros a ra Ha Hra. assert (a ≠ p) as Hne by (by intros ->). apply Hrs in Hra as (r0 & Hr0 & _ & E0). rewrite (E0 Hne) in *. by apply (Hb a).
  - intros a ra Ha (r0 & Hr0 & -> & _)%Hrs. apply (Hf a); [|done]. set_solver.
  - assert (timed (<[p := r']> rs) q = timed rs q) as ->.
    { clear -Hq. induction q as [|a q IH]; [done|]. unfold timed in *. rewrite !filter_cons.
      assert (no_timer (<[p := r']> rs) a = no_timer rs a) as -> by (unfold no_timer; by rewrite Hq by (by left)).
      rewrite IH by (intros; apply Hq; by right). done. }
    erewrite list_fmap_ext; [exact Ht|]. intros i a Ha. cbn. unfold timer_of. rewrite Hq; [done|].
    apply list_elem_of_lookup_2 in Ha. by apply list_elem_of_filter in Ha as [_ ?].
Qed.
Lemma alter_some {A} (f : A → A) (m : gmap Z A) p r : m !! p = Some r → alter f p m = <[p := f r]> m.
Proof.
  intros Hp. apply map_eq. intros a. rewrite lookup_alter, lookup_insert. case_decide; [|done]. subst. by rewrite Hp.
Qed.
Lemma uctx_insert rs p r (q : list Z) : p ∉ q → omap (uctx (<[p := r]> rs)) q = omap (uctx rs) q.
Proof.
  intros Hp. induction q as [|a q IH]; [done|]. apply not_elem_of_cons in Hp as [Hne Hp]. cbn. rewrite IH by done.
  unfold uctx at 1 3. by rewrite lookup_insert_ne.
Qed.

Record submitted (s : chan) (user_ctx : Z) (st : StatusCode) (s' : chan) : Prop := {
  sb_ok : chan_ok s';
  sb_pend : pend s' = pend s ++ (if decide (st = kOk) then [user_ctx] else []);
  sb_busy : cached_resource_ s = [] → st = kResourceBusy;
  sb_keep : order_type s' = order_type s ∧ schedule_hint s' = schedule_hint s ∧ next_req s' = next_req s;
  sb_size : (length (queue_ s' ++ expired_queue_ s' ++ cached_resource_ s') = length (queue_ s ++ expired_queue_ s ++ cached_resource_ s))%nat }.

Lemma SubmitRequest_ok s now ops num mv cd uc :
  chan_ok s → ts_room (timer_manager_ s) → en_valid (engine_ s) ops num →
  wp (SubmitRequest now ops num mv cd uc) (submitted s uc) s.
Proof.
  intros [m Hinv] Hroom Hval. unfold SubmitRequest. do 2 wp_step. destruct s as [e q x c o h t rs nr]. chan_simpl.
  destruct c as [|p c]; [wp_step; split; chan_simpl; [by exists m|by rewrite app_nil_r|done..]|].
  destruct (proj2 (iv_dom _ _ _ _ _ _ _ Hinv p)) as [r Hr]; [set_solver|].
  assert (p ∉ q) as Hpq.
  { pose proof (iv_nodup _ _ _ _ _ _ _ Hinv) as (_ & Hn & _)%NoDup_app. intros Hq. apply (Hn p Hq). set_solver. }
  do 3 wp_step. eapply wp_mod_req; [exact Hr|]. chan_simpl. rewrite (alter_some _ _ _ _ Hr).
  wp_step. eapply wp_get_req; [chan_simpl; apply lookup_insert_eq|]. wp_step.
  set (r1 := Build ops num uc h mv cd r).
  eapply wp_engine; [exact (en_submit_law _ m r1 ops (iv_engine _ _ _ _ _ _ _ Hinv) (iv_free _ _ _ _ _ _ _ Hinv p r ltac:(by left) Hr) eq_refl Hval)|].
  intros st e'. cbv beta. intros He'. chan_simpl. wp_step. destruct (decide (st = kOk)) as [->|Hst].
  - wp_step. eapply wp_timers; [exact (ts_add_law _ _ now p (iv_timers _ _ _ _ _ _ _ Hinv) Hroom)|].
    intros ctx t'. cbv beta. intros Ht'. chan_simpl. wp_step. eapply wp_mod_req; [chan_simpl; apply lookup_insert_eq|]. chan_simpl. wp_step.
    rewrite (alter_some _ _ _ r1), insert_insert_eq by apply lookup_insert_eq.
    wp_step. eapply wp_mod_req; [chan_simpl; apply lookup_insert_eq|]. chan_simpl. wp_step.
    rewrite (alter_some _ _ _ (r1 <| timer_ctx := ctx |>)), insert_insert_eq by apply lookup_insert_eq.
    split; chan_simpl; [| |done|done|rewrite !length_app; cbn; lia].
    + exists (<[engine_ctx r1 := Running num]> m). chan_simpl. by apply (take_inv _ _ _ _ _ _ _ _ _ _ _ _ _ _ _ _ _ _ Hinv Hr).
    + unfold pend. chan_simpl. rewrite omap_app, uctx_insert by done. f_equal. cbn. unfold uctx. by rewrite lookup_insert_eq.
  - wp_step. chan_simpl. wp_step. eapply wp_mod_req; [chan_simpl; apply lookup_insert_eq|]. chan_simpl. wp_step.
    rewrite (alter_some _ _ _ r1), insert_insert_eq by apply lookup_insert_eq.
    split; chan_simpl; [| |done|done|rewrite !length_app; cbn; lia].
    + exists m. chan_simpl. by apply (refuse_inv _ _ _ _ _ _ _ _ _ r _ Hinv Hr).
    + unfold pend. chan_simpl. rewrite uctx_insert by done. rewrite decide_False by done. by rewrite app_nil_r.
Qed.

(** What the checks of [SubmitMove] and [SubmitCrc] let through. *)
Definition move_ok (op : DataFlowMoveOperation) : Prop :=
  (1 ≤ length (m_src op) ≤ kMaxSrcSegmentNum)%nat ∧ length (m_src_len op) = length (m_src op) ∧
  Forall (λ l, l ≠ 0) (m_src_len op) ∧ u64 (foldr Z.add 0 (m_src_len op)) <= kMaxTotalLength.
Definition segments (ops : list DataFlowMoveOperation) : Z := foldr (λ op n, Z.of_nat (length (m_src op)) + n) 0 ops.
Definition moves_ok (ops : list DataFlowMoveOperation) (num : nat) : Prop :=
  (num ≤ kMaxSubmittedBatchSize)%nat ∧ Forall move_ok (take num ops) ∧
  2 + segments (take num ops) + Z.of_nat num <= kMaxInternalBatchSize.
Definition crcs_ok (ops : list DataFlowCrcOperation) (num : nat) : Prop :=
  (num ≤ kMaxSubmittedBatchSize)%nat ∧ Forall (λ op, c_len op <= kMaxTotalLength ∧ c_len op ≠ 0) (take num ops).

Lemma segments_cons op ops : segments (op :: ops) = Z.of_nat (length (m_src op)) + segments ops.
Proof. done. Qed.
Lemma sum_lens_spec lens : ∀ total, in_range 64 total →
  sum_lens lens total = if decide (Forall (λ l, l ≠ 0) lens) then Some (u64 (total + foldr Z.add 0 lens)) else None.
Proof.
  induction lens as [|l lens IH]; intros total Ht; cbn [sum_lens foldr].
  - rewrite decide_True by constructor. by rewrite Z.add_0_r, wrap_small.
  - destruct (Z.eqb_spec l 0) as [->|Hl].
    + rewrite decide_False; [done|]. by intros [? _]%Forall_cons.
    + rewrite IH by (by apply wrap_range). destruct (decide (Forall _ lens)) as [Hf|Hf].
      * rewrite decide_True by (by constructor). f_equal. unfold wrap. rewrite Zplus_mod_idemp_l. f_equal. lia.
      * rewrite decide_False; [done|]. by intros [_ ?]%Forall_cons.
Qed.
Lemma check_move_spec op mv cd seg : 0 <= seg → seg + 128 < 2 ^ 64 →
  match check_move op (mv, cd, seg) with
  | Some (_, _, seg') => move_ok op ∧ seg' = seg + Z.of_nat (length (m_src op))
  | None => ¬ move_ok op
  end.
Proof.
  intros Hs Hb. unfold check_move, move_ok.
  destruct (Nat.eqb_spec (length (m_src op)) 0) as [|H0]; cbn [orb]; [intros [[? _] _]; lia|].
  destruct (Nat.eqb_spec (length (m_src op)) (length (m_src_len op))) as [Hl|Hl]; cbn [negb orb]; [|intros (_ & ? & _); lia].
  destruct (Nat.ltb_spec kMaxSrcSegmentNum (length (m_src op))); [intros [[_ ?] _]; lia|].
  rewrite sum_lens_spec by done. rewrite Z.add_0_l. destruct (decide _) as [Hf|Hf]; [|intros (_ & _ & ? & _); done].
  destruct (Z.ltb_spec kMaxTotalLength (u64 (foldr Z.add 0 (m_src_len op)))) as [Hm|Hm]; [intros (_ & _ & _ & ?); lia|].
  split; [split_and!; [lia|lia|lia|done|lia]|]. unfold kMaxSrcSegmentNum in *. apply wrap_small. unfold in_range. lia.
Qed.
Lemma scan_moves_spec ops : ∀ num mv cd seg, (num ≤ length ops)%nat → 0 <= seg → seg + 128 * Z.of_nat num < 2 ^ 63 →
  ∃ o, scan_moves ops num (mv, cd, seg) = Ok o ∧
    match o with
    | Some (_, _, seg') => Forall move_ok (take num ops) ∧ seg' = seg + segments (take num ops)
    | None => ¬ Forall move_ok (take num ops)
    end.
Proof.
  induction ops as [|op ops IH]; intros [|num] mv cd seg Hn Hs Hb; cbn [length] in *; try lia; cbn [scan_moves take].
  1,2: by eexists; split; [done|]; split; [constructor|cbn; lia].
  pose proof (check_move_spec op mv cd seg Hs ltac:(lia)) as Hc. destruct (check_move op (mv, cd, seg)) as [[[mv' cd'] seg']|].
  - destruct Hc as [Hop ->]. assert (length (m_src op) ≤ 128)%nat as Hl by apply Hop.
    destruct (IH num mv' cd' (seg + Z.of_nat (length (m_src op)))) as (o & Eo & Ho); [lia..|]. exists o. split; [done|].
    destruct o as [[[? ?] seg']|].
    + destruct Ho as [Hf ->]. split; [by constructor|]. rewrite segments_cons. lia.
    + by intros [_ ?]%Forall_cons.
  - exists None. split; [done|]. by intros [? _]%Forall_cons.
Qed.
Lemma segments_bound l : Forall move_ok l → 0 <= segments l <= 128 * Z.of_nat (length l).
Proof. induction 1 as [|op l [[? ?] _] Hl IH]; [cbn; lia|]. unfold kMaxSrcSegmentNum in *. rewrite segments_cons. cbn [length]. lia. Qed.
Lemma scan_crcs_spec ops : ∀ num cd, (num ≤ length ops)%nat →
  ∃ o, scan_crcs ops num cd = Ok o ∧ (is_Some o ↔ Forall (λ op, c_len op <= kMaxTotalLength ∧ c_len op ≠ 0) (take num ops)).
Proof.
  induction ops as [|op ops IH]; intros [|num] cd Hn; cbn [length] in *; try lia; cbn [scan_crcs take].
  1,2: by eexists; split; [done|]; split; [constructor|by eexists].
  destruct (Z.ltb_spec kMaxTotalLength (c_len op)); cbn [orb].
  { exists None. split; [done|]. split; [by intros []|]. intros [[? ?] _]%Forall_cons. lia. }
  destruct (Z.eqb_spec (c_len op) 0).
  { exists None. split; [done|]. split; [by intros []|]. by intros [[? ?] _]%Forall_cons. }
  destruct (IH num (u64 (cd + c_len op))) as (o & Eo & Ho); [lia|]. exists o. split; [done|]. rewrite Ho, Forall_cons. split; [|by intros [_ ?]].
  intros ?. by split.
Qed.
Lemma SubmitMove_ok s now ops num uc : chan_ok s → (num ≤ length ops)%nat → ts_room (timer_manager_ s) →
  (moves_ok ops num → en_valid (engine_ s) (MoveOps ops) num) →
  wp (SubmitMove now ops num uc) (λ st s', (moves_ok ops num ∧ submitted s uc st s') ∨ (¬ moves_ok ops num ∧ st = kInvalidArgument ∧ s' = s)) s.
Proof.
  intros Hok Hn Hroom Hval. unfold SubmitMove. destruct (Nat.ltb_spec kMaxSubmittedBatchSize num) as [Hb|Hb].
  { wp_step. right. split; [|done]. intros [? _]. lia. }
  destruct (scan_moves_spec ops num 0 0 0) as (o & -> & Ho); [done|lia|unfold kMaxSubmittedBatchSize in *; lia|]. do 2 wp_step.
  destruct o as [[[mv cd] seg]|].
  2: { wp_step. right. split; [|done]. by intros (_ & ? & _). }
  destruct Ho as [Hf ->]. pose proof (segments_bound _ Hf) as Hs. rewrite length_take in Hs. unfold kMaxSubmittedBatchSize in *.
  rewrite wrap_small by (unfold in_range; lia).
  match goal with |- context [?a <? ?b] => destruct (Z.ltb_spec a b) as [Hx|Hx] end.
  { wp_step. right. split; [|done]. intros (_ & _ & ?). lia. }
  assert (moves_ok ops num) as Hm by (split_and!; [done|done|lia]).
  eapply wp_mono; [apply SubmitRequest_ok; [done|done|by apply Hval]|]. intros st s' Hsb. left. by split.
Qed.
Lemma SubmitCrc_ok s now ops num uc : chan_ok s → (num ≤ length ops)%nat → ts_room (timer_manager_ s) →
  (crcs_ok ops num → en_valid (engine_ s) (CrcOps ops) num) →
  wp (SubmitCrc now ops num uc) (λ st s', (crcs_ok ops num ∧ submitted s uc st s') ∨ (¬ crcs_ok ops num ∧ st = kInvalidArgument ∧ s' = s)) s.
Proof.
  intros Hok Hn Hroom Hval. unfold SubmitCrc. destruct (Nat.ltb_spec kMaxSubmittedBatchSize num) as [Hb|Hb].
  { wp_step. right. split; [|done]. intros [? _]. lia. }
  destruct (Z.ltb_spec kMaxInternalBatchSize (1 + Z.of_nat num)) as [Hx|Hx]; [unfold kMaxInternalBatchSize, kMaxSubmittedBatchSize in *; lia|].
  destruct (scan_crcs_spec ops num 0 Hn) as (o & -> & Ho). do 2 wp_step. destruct o as [cd|].
  - assert (crcs_ok ops num) as Hm by (split; [lia|apply Ho; by eexists]).
    eapply wp_mono; [apply SubmitRequest_ok; [done|done|by apply Hval]|]. intros st s' Hsb. left. by split.
  - wp_step. right. split; [|done]. intros [_ [? ?]%Ho]. done.
Qed.

(** ** Closing *)

Definition none_expired (rs : gmap Z DataFlowRequest) (q : list Z) : Prop := ∀ p r, p ∈ q → rs !! p = Some r → r_expired r = false.
Lemma none_expired_flags rs rs' q q' : same_flags rs rs' → q' ⊆ q → none_expired rs q → none_expired rs' q'.
Proof.
  intros Hfl Hq Hn p r Hp Hr. specialize (Hfl p). rewrite Hr in Hfl. destruct (rs !! p) as [r0|] eqn:Hr0; [|done].
  injection Hfl as ->. eapply Hn; [by apply Hq|done].
Qed.
Lemma discard_loop_ok todo : ∀ s kept,
  chan_ok s → queue_ s = kept ++ todo → none_expired (reqs s) (queue_ s) →
  wp (discard_loop todo (length kept)) (λ _ s', chan_ok s' ∧ quiet s s' ∧ same_flags (reqs s) (reqs s') ∧
    ∃ D R, splits todo D R ∧ queue_ s' = kept ++ R) s.
Proof.
  induction todo as [|p todo IH]; intros s kept [m Hinv] Hq Hx; cbn [discard_loop].
  { wp_step. split_and!; [by exists m|apply chan_quiet_refl|done|]. exists [], []. split; [constructor|done]. }
  assert (p ∈ queue_ s ++ expired_queue_ s) as Hp by (rewrite Hq; set_solver).
  destruct (proj2 (iv_dom _ _ _ _ _ _ _ Hinv p)) as [r Hr]; [set_solver|].
  assert (r_expired r = false) as Hxp by (eapply Hx; [|done]; rewrite Hq; set_solver).
  wp_step. eapply wp_mono; [by eapply check_ok|]. destruct s as [e0 q x c o h t rs nr]. chan_simpl. subst q.
  cbv beta. intros res s1 (e & [(-> & -> & He)|(_ & He & ->)]); chan_simpl; wp_step.
  - eapply wp_get_req; [exact Hr|]. rewrite (proj2 (iv_busy _ _ _ _ _ _ _ Hinv p r Hp Hr)).
    replace (S (length kept)) with (length (kept ++ [p])) by (rewrite length_app; cbn; lia).
    eapply wp_mono; [apply (IH _ (kept ++ [p])); chan_simpl; [exists m; by apply (pending_inv _ e _ _ _ _ _ _ Hinv)|by rewrite app_cons_snoc|done]|].
    cbv beta. intros _ s' (Hok & Hqt & Hfl & D & R & Hs & Hq'). chan_simpl. split_and!; [done|by destruct Hqt|done|].
    exists D, (p :: R). split; [by constructor|by rewrite app_cons_snoc].
  - eapply wp_get_req; [chan_simpl; by rewrite lookup_alter_eq, Hr|]. cbn [r_completed timer_ctx upd mark_completed]. wp_step.
    destruct (timed_split rs kept p todo r Hr Hxp) as [Et Et'].
    pose proof (iv_timers _ _ _ _ _ _ _ Hinv) as Ht. rewrite Et in Ht. eapply wp_timers; [exact (ts_remove_law _ _ _ _ Ht)|].
    intros [] t' Ht'. cbv beta in Ht'. rewrite <- Et' in Ht'. do 4 wp_step. chan_simpl. rewrite delete_middle.
    eapply wp_mono; [apply (IH _ kept); chan_simpl; [|done|]|].
    + exists (<[engine_ctx r := Free]> m). chan_simpl. eapply finish_inv; [exact Hinv| |done..].
      rewrite <- !app_assoc. symmetry. apply Permutation_middle.
    + eapply none_expired_flags; [apply same_flags_completed| |exact Hx]. set_solver.
    + cbv beta. intros _ s' (Hok & Hqt & Hfl & D & R & Hs & Hq'). chan_simpl. split_and!; [done| | |].
      * destruct Hqt as [? ? ? Hfx Hsz]. split; chan_simpl; [done..|eapply same_fixed_trans; [|exact Hfx]; by apply same_fixed_alter|].
        rewrite Hsz, !length_app. cbn. lia.
      * eapply same_flags_trans; [apply same_flags_completed|done].
      * exists (p :: D), R. split; [by constructor|done].
Qed.

Lemma clear_ctxs_ok l : ∀ s m,
  en_ok (engine_ s) m → NoDup l →
  (∀ p, p ∈ l → ∃ r, reqs s !! p = Some r ∧ m !! engine_ctx r = Some Free) →
  (∀ p p' r r', reqs s !! p = Some r → reqs s !! p' = Some r' → engine_ctx r = engine_ctx r' → p = p') →
  wp (clear_loop l) (λ _ s', ∃ e m', s' = s <| engine_ := e |> <| reqs := reqs s' |> ∧ en_ok e m' ∧
    (∀ p, reqs s' !! p = if decide (p ∈ l) then None else reqs s !! p) ∧
    (∀ p r, p ∈ l → reqs s !! p = Some r → m' !! engine_ctx r = None) ∧
    (∀ c, (∀ p r, p ∈ l → reqs s !! p = Some r → c ≠ engine_ctx r) → m' !! c = m !! c)) s.
Proof.
  induction l as [|p l IH]; intros s m He Hn Hl Hi; cbn [clear_loop].
  { wp_step. exists (engine_ s), m. split_and!; [by destruct s|done|done|by intros ? ? ?%not_elem_of_nil|done]. }
  destruct (Hl p) as (r & Hr & Hm); [by left|]. apply NoDup_cons in Hn as [Hpl Hn].
  wp_step. eapply wp_get_req; [done|]. wp_step. eapply wp_engine; [exact (en_clear_law _ _ _ He Hm)|]. intros [] e. cbv beta. intros He'.
  do 2 wp_step. destruct s as [e0 q x c o h t rs nr]. chan_simpl.
  eapply wp_mono; [apply (IH _ (delete (engine_ctx r) m)); chan_simpl; [done|done| |]|].
  - intros a Ha. destruct (Hl a) as (ra & Hra & Hma); [by right|]. assert (a ≠ p) as Hne by (by intros ->). exists ra.
    split; [by rewrite lookup_delete_ne|]. rewrite lookup_delete_ne; [done|]. intros Heq. by apply Hne, (Hi a p ra r).
  - intros a b ra rb [_ Ha]%lookup_delete_Some [_ Hb]%lookup_delete_Some. by apply Hi.
  - cbv beta. intros _ s' (e' & m' & Es & Hem & Hrs & Hgone & Hkeep). chan_simpl. exists e', m'. split_and!; [exact Es|done| | |].
    + intros a. rewrite Hrs, lookup_delete. destruct (decide (a = p)) as [->|Hne].
      * rewrite (decide_True (P := p ∈ p :: l)) by (by left). rewrite (decide_True (P := p = p)) by done. by case_decide.
      * rewrite (decide_False (P := p = a)) by done. apply decide_ext. set_solver.
    + intros a ra Ha Hra. destruct (decide (a = p)) as [->|Hne].
      * rewrite Hr in Hra. injection Hra as <-. rewrite Hkeep; [by rewrite lookup_delete_eq|].
        intros b rb Hb [Hpb Hrb]%lookup_delete_Some Heq. by apply Hpb, (Hi p b r rb).
      * apply (Hgone a); [set_solver|]. by rewrite lookup_delete_ne.
    + intros cx Hcx. rewrite Hkeep.
      * rewrite lookup_delete_ne; [done|]. intros <-. eapply Hcx; [by left|done|done].
      * intros b rb Hb [_ Hrb]%lookup_delete_Some. apply (Hcx b); [by right|done].
Qed.

Lemma Close_ok s : chan_ok s → none_expired (reqs s) (queue_ s) →
  wp Close (λ st s',
    (st = kOk ∧ reqs s' = ∅ ∧ ∃ m', en_ok (engine_ s') m' ∧ ∀ p r, reqs s !! p = Some r → m' !! engine_ctx r = None) ∨
    (st = kResourceBusy ∧ chan_ok s' ∧ queue_ s' ++ expired_queue_ s' ≠ [] ∧ ∃ d, splits (pend s) d (pend s'))) s.
Proof.
  intros Hok Hx. unfold Close, PollDiscardedResult. do 4 wp_step.
  eapply wp_mono; [apply (discard_loop_ok (queue_ s) s []); done|]. cbv beta. intros _ s1 (Hok1 & Hqt1 & Hfl1 & D & R & Hs & Hq1). do 2 wp_step.
  eapply wp_mono; [apply (expired_loop_ok (expired_queue_ s1) s1 []); done|]. cbv beta. intros _ s2 (Hok2 & Hq2 & Hqt2 & _). do 2 wp_step.
  assert (quiet s s2) as Hqt by (by eapply chan_quiet_trans).
  assert (∃ d, splits (pend s) d (pend s2)) as Hsp.
  { exists (omap (uctx (reqs s)) D). unfold pend. rewrite (uctx_fixed _ _ _ (qt_fixed _ _ Hqt)), Hq2, Hq1. by apply splits_omap. }
  destruct (queue_ s2) as [|p q] eqn:Hq; [destruct (expired_queue_ s2) as [|p x] eqn:He|].
  - destruct Hok2 as [m [Hn Hd Hi Hen Hb Hf Ht]]. rewrite Hq, He in *. cbn [app] in *. wp_step. eapply wp_mono; [apply (clear_ctxs_ok _ s2 m); try done|].
    + intros p Hp. destruct (proj2 (Hd p) Hp) as [r Hr]. exists r. split; [done|]. by apply (Hf p).
    + cbv beta. intros _ s3 (e & m' & Es & Hem & Hrs & Hgone & _). wp_step. left. split; [done|]. split.
      * apply map_eq. intros p. rewrite Hrs, lookup_empty. case_decide as Hp; [done|]. destruct (reqs s2 !! p) eqn:Ep; [|done].
        exfalso. apply Hp, Hd. by eexists.
      * exists m'. split; [rewrite Es; exact Hem|]. intros p r Hr. pose proof (qt_fixed _ _ Hqt p) as Hfx. rewrite Hr in Hfx.
        destruct (reqs s2 !! p) as [r2|] eqn:Hr2; [|done]. injection Hfx as _ _ Ec _. rewrite <- Ec. apply (Hgone p); [|done]. apply Hd. by eexists.
  - wp_step. right. split_and!; [done|done|by rewrite Hq, He|done].
  - wp_step. right. split_and!; [done|done|by rewrite Hq|done].
Qed.

(** ** Start *)

Definition new_channel (e : E) (t : Tm) (order : DataFlowPollOrderType) (hint : Z) : chan := MkChannel e [] [] [] order hint t ∅ 1.

(** The contexts of this channel come on top of [m0], those of the other channels. *)
Definition on_top (m0 m : gmap Z work) (rs : gmap Z DataFlowRequest) : Prop :=
  (∀ p r, rs !! p = Some r → m0 !! engine_ctx r = None) ∧ ∀ c, (∀ p r, rs !! p = Some r → c ≠ engine_ctx r) → m !! c = m0 !! c.

Lemma grow_inv e e' c rs t m ctx p r :
  inv e [] [] c rs t m → rs !! p = None → engine_ctx r = ctx → m !! ctx = None → en_ok e' (<[ctx := Free]> m) →
  inv e' [] [] (c ++ [p]) (<[p := r]> rs) t (<[ctx := Free]> m).
Proof.
  intros [Hn Hd Hi He Hb Hf Ht] Hp Hr Hc He'. cbn [app] in *.
  assert (p ∉ c) as Hpc by (intros Hin; apply Hd in Hin as [? ?]; congruence).
  assert (∀ a ra, rs !! a = Some ra → engine_ctx ra ≠ ctx) as Hne.
  { intros a ra Ha Heq. assert (a ∈ c) as Hac by (apply Hd; by eexists). apply (Hf a ra Hac) in Ha. congruence. }
  split; cbn [app].
  - apply NoDup_app. split_and!; [done|set_solver|apply NoDup_singleton].
  - intros a. rewrite elem_of_app, list_elem_of_singleton, <- Hd, lookup_insert_is_Some'. naive_solver.
  - intros a b ra rb [[<- <-] | [Ha Hra]]%lookup_insert_Some [[<- <-] | [Hb' Hrb]]%lookup_insert_Some Heq; [done| | |by eapply Hi].
    + exfalso. by apply (Hne b rb Hrb); rewrite <- Heq.
    + exfalso. by apply (Hne a ra Hra); rewrite Heq.
  - done.
  - by intros ? ? ?%not_elem_of_nil.
  - intros a ra Ha [[<- <-] | [Hap Hra]]%lookup_insert_Some; [rewrite Hr; apply lookup_insert_eq|].
    rewrite lookup_insert_ne by (intros E0; by apply (Hne a ra Hra)). apply (Hf a); [|done].
    apply elem_of_app in Ha as [?|?%list_elem_of_singleton]; [done|congruence].
  - done.
Qed.

Lemma init_loop_ok n : ∀ e c o h t rs nr m m0,
  inv e [] [] c rs t m → (∀ p, is_Some (rs !! p) → p < nr) → on_top m0 m rs →
  wp (init_loop n) (λ st s',
    (st = kOk ∧ chan_ok s' ∧ queue_ s' = [] ∧ expired_queue_ s' = [] ∧ length (cached_resource_ s') = (length c + n)%nat ∧ order_type s' = o) ∨
    (st ≠ kOk ∧ reqs s' = ∅ ∧ cached_resource_ s' = [] ∧ en_ok (engine_ s') m0)) (MkChannel e [] [] c o h t rs nr).
Proof.
  induction n as [|n IH]; intros e c o h t rs nr m m0 Hinv Hnr [Hm0 Hm]; cbn [init_loop].
  { wp_step. left. split_and!; [done|by exists m|done|done|cbn; lia|done]. }
  do 4 wp_step. chan_simpl.
  assert (rs !! nr = None) as Hnew. { destruct (rs !! nr) eqn:Hx; [|done]. specialize (Hnr nr). rewrite Hx in Hnr. specialize (Hnr ltac:(by eexists)). lia. }
  wp_step. eapply wp_engine; [exact (en_prealloc_law _ _ (iv_engine _ _ _ _ _ _ _ Hinv))|].
  intros [st ctx] e'. cbv beta iota. intros Hst. chan_simpl. destruct (decide (st = kOk)) as [->|Hst'].
  - destruct Hst as [Hfresh He']. wp_step. eapply wp_mod_req; [chan_simpl; apply lookup_insert_eq|]. chan_simpl. do 2 wp_step. chan_simpl.
    rewrite (alter_some _ _ _ (MkReq None 0 0 false false 0 0 0 0 0)), insert_insert_eq by apply lookup_insert_eq.
    eapply wp_mono; [eapply (IH _ _ _ _ _ _ _ (<[ctx := Free]> m) m0); [by eapply grow_inv; [done..|]| |]|].
    + intros p. rewrite lookup_insert_is_Some'. intros [<- |Hp%Hnr]; lia.
    + assert (m0 !! ctx = None) as Hc0.
      { rewrite <- Hm; [done|]. intros p r Hp ->. assert (p ∈ c) as Hpc by (apply (iv_dom _ _ _ _ _ _ _ Hinv); by eexists).
        apply (iv_free _ _ _ _ _ _ _ Hinv p r Hpc) in Hp. congruence. }
      split.
      * intros p r [[_ <-] | [_ Hp]]%lookup_insert_Some; [done|by eapply Hm0].
      * intros cx Hcx. rewrite lookup_insert_ne by (intros <-; eapply Hcx; [apply lookup_insert_eq|done]). apply Hm. intros p r Hp.
        apply (Hcx p). rewrite lookup_insert_ne by congruence. done.
    + cbv beta. intros st s' [(-> & Hok & Hq & Hx & Hl & Ho)|Hfail]; [left|by right]. split_and!; [done..| |done]. rewrite Hl, length_app. cbn. lia.
  - do 5 wp_step. chan_simpl. rewrite delete_insert_id by done.
    pose proof Hinv as [Hn Hd Hi He Hb Hf Ht]. cbn [app] in *. eapply wp_mono; [apply (clear_ctxs_ok c _ m); chan_simpl; try done|].
    + intros p Hp. destruct (proj2 (Hd p) Hp) as [r Hr]. exists r. split; [done|]. by apply (Hf p).
    + cbv beta. intros _ s3 (e3 & m' & Es & Hem & Hrs & Hgone & Hkeep). chan_simpl. do 3 wp_step. right. rewrite Es. chan_simpl. split_and!; [done| |done|].
      * apply map_eq. intros p. rewrite Hrs, lookup_empty. case_decide as Hp; [done|]. destruct (rs !! p) eqn:Ep; [|done].
        exfalso. apply Hp, Hd. by eexists.
      * assert (m' = m0) as ->; [|done]. apply map_eq. intros cx. destruct (decide (Exists (λ p, engine_ctx <$> rs !! p = Some cx) c)) as [(p & Hp & (r & Hr & ->)%fmap_Some)%Exists_exists|Hno].
        -- rewrite (Hgone p r Hp Hr). symmetry. by eapply Hm0.
        -- rewrite Exists_exists in Hno. rewrite Hkeep; [apply Hm|]; intros p r Hp.
           ++ intros ->. apply Hno. exists p. split; [apply Hd; by eexists|by rewrite Hp].
           ++ intros Hr ->. apply Hno. exists p. by rewrite Hr.
Qed.

(** ** Runs *)

(** [chan_run o s acc del]: [s] was reached from a new channel, the requests with the user
    contexts [acc] were accepted, in this order, and the results with the contexts [del] were
    handed out, in this order. The engine may work between any two calls. *)
Inductive chan_run (o : DataFlowPollOrderType) : chan → list Z → list Z → Prop :=
| run_start e t h m s : en_ok e m → ts_ok t [] → Init (new_channel e t o h) = Ok (kOk, s) → chan_run o s [] []
| run_move s acc del now ops num uc st s' :
    chan_run o s acc del → (num ≤ length ops)%nat → ts_room (timer_manager_ s) →
    (moves_ok ops num → en_valid (engine_ s) (MoveOps ops) num) → SubmitMove now ops num uc s = Ok (st, s') →
    chan_run o s' (acc ++ if decide (st = kOk) then [uc] else []) del
| run_crc s acc del now ops num uc st s' :
    chan_run o s acc del → (num ≤ length ops)%nat → ts_room (timer_manager_ s) →
    (crcs_ok ops num → en_valid (engine_ s) (CrcOps ops) num) → SubmitCrc now ops num uc s = Ok (st, s') →
    chan_run o s' (acc ++ if decide (st = kOk) then [uc] else []) del
| run_poll s acc del now results max_num timeout results' n s' :
    chan_run o s acc del → (max_num ≤ length results)%nat → Poll now results max_num timeout s = Ok ((results', n), s') →
    chan_run o s' acc (del ++ (rs_ctx <$> take n results'))
| run_env s acc del e' : chan_run o s acc del → en_env (engine_ s) e' → chan_run o (s <| engine_ := e' |>) acc del.

Definition objects (s : chan) : nat := length (queue_ s ++ expired_queue_ s ++ cached_resource_ s).
Record run_ok (o : DataFlowPollOrderType) (s : chan) (acc del : list Z) : Prop := {
  ro_ok : chan_ok s;
  ro_order : order_type s = o;
  ro_all : acc ≡ₚ del ++ pend s;
  ro_fifo : o = kOrdered → acc = del ++ pend s;
  ro_objects : objects s = kIoDepthMaximum }.

Lemma splits_perm {A} (l d r : list A) : splits l d r → l ≡ₚ d ++ r.
Proof. induction 1; cbn; [done|by constructor|]. rewrite <- Permutation_middle. by constructor. Qed.
Lemma new_inv e t m : en_ok e m → ts_ok t [] → inv e [] [] [] ∅ t m.
Proof.
  intros He Ht. split; cbn; try done; [constructor|intros p; rewrite lookup_empty; split; [by intros []|by intros ?%not_elem_of_nil]|..].
  all: by intros ? ? ?%not_elem_of_nil.
Qed.
Lemma Init_ok e t o h m : en_ok e m → ts_ok t [] →
  wp Init (λ st s',
    (st = kOk ∧ chan_ok s' ∧ queue_ s' = [] ∧ expired_queue_ s' = [] ∧ length (cached_resource_ s') = kIoDepthMaximum ∧ order_type s' = o) ∨
    (st ≠ kOk ∧ reqs s' = ∅ ∧ cached_resource_ s' = [] ∧ en_ok (engine_ s') m)) (new_channel e t o h).
Proof.
  intros He Ht. apply (init_loop_ok kIoDepthMaximum e [] o h t ∅ 1 m m); [by apply new_inv| |].
  - intros p. rewrite lookup_empty. by intros [].
  - split; [|done]. intros p r. by rewrite lookup_empty.
Qed.
Lemma env_ok s e' : chan_ok s → en_env (engine_ s) e' → chan_ok (s <| engine_ := e' |>).
Proof. intros [m Hinv] He. exists m. destruct s. chan_simpl. eapply pending_inv; [done|]. eapply en_env_law; [apply Hinv|done]. Qed.

Lemma run_submit o s acc del uc st s' : run_ok o s acc del → submitted s uc st s' →
  run_ok o s' (acc ++ if decide (st = kOk) then [uc] else []) del.
Proof.
  intros [Hok Ho Hall Hf Hobj] [Hok' Hp _ (Ho' & _) Hsz]. split; [done|congruence| | |unfold objects in *; congruence].
  - rewrite Hp, app_assoc. by f_equiv.
  - intros Hord. rewrite Hp, app_assoc. f_equal. by apply Hf.
Qed.
Lemma run_sound o s acc del : chan_run o s acc del → run_ok o s acc del.
Proof.
  induction 1 as [e t h m s He Ht Hst|s acc del now ops num uc st s' Hrun IH Hn Hroom Hval Hst|s acc del now ops num uc st s' Hrun IH Hn Hroom Hval Hst
    |s acc del now results max_num timeout results' n s' Hrun IH Hmax Hst|s acc del e' Hrun IH He].
  - destruct (wp_run _ _ _ _ _ Hst (Init_ok e t o h m He Ht)) as [(_ & Hok & Hq & Hx & Hl & Ho)|[? _]]; [|done].
    assert (pend s = []) as Hp by (unfold pend; by rewrite Hq).
    split; [done|done|by rewrite Hp|by rewrite Hp|]. unfold objects. by rewrite Hq, Hx.
  - destruct (wp_run _ _ _ _ _ Hst (SubmitMove_ok s now ops num uc (ro_ok _ _ _ _ IH) Hn Hroom Hval)) as [[_ Hsb]|(_ & -> & ->)];
      [by eapply run_submit|]. rewrite decide_False by done. by rewrite app_nil_r.
  - destruct (wp_run _ _ _ _ _ Hst (SubmitCrc_ok s now ops num uc (ro_ok _ _ _ _ IH) Hn Hroom Hval)) as [[_ Hsb]|(_ & -> & ->)];
      [by eapply run_submit|]. rewrite decide_False by done. by rewrite app_nil_r.
  - destruct (wp_run _ _ _ _ _ Hst (Poll_ok s now results max_num timeout (ro_ok _ _ _ _ IH) Hmax)) as (Hok & Hqt & _ & _ & _ & Hsp & Hord).
    destruct IH as [_ Ho Hall Hf Hobj]. split; [done|by rewrite (qt_order _ _ Hqt)| | |].
    + rewrite Hall, <- app_assoc. f_equiv. by apply splits_perm.
    + intros Hk. rewrite (Hf Hk), <- app_assoc. f_equal. apply Hord. congruence.
    + unfold objects. rewrite (qt_size _ _ Hqt). exact Hobj.
  - destruct IH as [Hok Ho Hall Hf Hobj]. destruct s. split; try done. by apply env_ok.
Qed.

(** C6: in every state a channel can reach, with any engine that keeps the interface, each
    accepted request has been reported once or is still pending, none is lost and none is
    reported twice; an ordered channel reports them in the order of submission. All request
    objects are accounted for, and no context is given to the engine while it still works on
    it. The next call, whatever it is, returns. *)
Theorem channel_exactly_once o s acc del : chan_run o s acc del →
  acc ≡ₚ del ++ pend s ∧ (o = kOrdered → acc = del ++ pend s) ∧ objects s = kIoDepthMaximum ∧
  (∀ now results max_num timeout, (max_num ≤ length results)%nat → ∃ r, Poll now results max_num timeout s = Ok r) ∧
  (∀ now ops num uc, (num ≤ length ops)%nat → ts_room (timer_manager_ s) →
     (moves_ok ops num → en_valid (engine_ s) (MoveOps ops) num) → ∃ r, SubmitMove now ops num uc s = Ok r) ∧
  (∀ now ops num uc, (num ≤ length ops)%nat → ts_room (timer_manager_ s) →
     (crcs_ok ops num → en_valid (engine_ s) (CrcOps ops) num) → ∃ r, SubmitCrc now ops num uc s = Ok r).
Proof.
  intros Hrun. destruct (run_sound _ _ _ _ Hrun) as [Hok Ho Hall Hf Hobj]. split_and!; [done..| | |].
  - intros now results max_num timeout Hmax. pose proof (Poll_ok s now results max_num timeout Hok Hmax) as (r & s' & E0 & _)%wp_ok. by eexists.
  - intros now ops num uc Hn Hroom Hval. pose proof (SubmitMove_ok s now ops num uc Hok Hn Hroom Hval) as (r & s' & E0 & _)%wp_ok. by eexists.
  - intros now ops num uc Hn Hroom Hval. pose proof (SubmitCrc_ok s now ops num uc Hok Hn Hroom Hval) as (r & s' & E0 & _)%wp_ok. by eexists.
Qed.

(** The answer of [SubmitMove]: arguments outside of the documented limits are refused
    and nothing changes; otherwise the request is pending, at the end, exactly when the answer
    is OK, and the channel answers RESOURCE_BUSY when all its request objects are in use. *)
Theorem submit_move_answers o s acc del now ops num uc :
  chan_run o s acc del → (num ≤ length ops)%nat → ts_room (timer_manager_ s) →
  (moves_ok ops num → en_valid (engine_ s) (MoveOps ops) num) →
  wp (SubmitMove now ops num uc) (λ st s',
    if decide (moves_ok ops num) then
      pend s' = pend s ++ (if decide (st = kOk) then [uc] else []) ∧ (cached_resource_ s = [] → st = kResourceBusy)
    else st = kInvalidArgument ∧ s' = s) s.
Proof.
  intros Hrun Hn Hroom Hval. eapply wp_mono; [apply (SubmitMove_ok s now ops num uc (ro_ok _ _ _ _ (run_sound _ _ _ _ Hrun))); done|].
  cbv beta. intros st s' [[Hm [? ? ? ?]]|(Hm & -> & ->)]; [by rewrite decide_True|by rewrite decide_False].
Qed.

(** Closing a channel whose queued requests have not timed out either answers OK, and
    then every request object and every engine context has been released, once; or it answers
    RESOURCE_BUSY because the engine still works on a request, and the channel is intact. *)
Theorem channel_close s o acc del : chan_run o s acc del → none_expired (reqs s) (queue_ s) →
  wp Close (λ st s',
    (st = kOk ∧ reqs s' = ∅ ∧ ∃ m', en_ok (engine_ s') m' ∧ ∀ p r, reqs s !! p = Some r → m' !! engine_ctx r = None) ∨
    (st = kResourceBusy ∧ chan_ok s' ∧ queue_ s' ++ expired_queue_ s' ≠ [] ∧ ∃ d, splits (pend s) d (pend s'))) s.
Proof. intros Hrun Hx. apply Close_ok; [|done]. by apply (run_sound _ _ _ _ Hrun). Qed.
End channel.
