(* ===== verification/ByteMemory.v ===== *)
(** * Memory of the process, byte by byte

    A map from addresses to bytes; an address outside of it is not mapped, and touching it is
    a fault of the program. Shared by the software engine and the DSA engine. *)

From Stdlib Require Import ZArith Lia.
From stdpp Require Import prelude gmap list.
From S2P Require Import Prelude.
Open Scope Z_scope.

Definition mapped (m : gmap Z Z) (a n : Z) : Prop := ∀ i, 0 <= i < n → is_Some (m !! (a + i)).
Definition bytes_at (m : gmap Z Z) (a n : Z) : list Z := (λ i, default 0 (m !! (a + i))) <$> seqZ 0 n.
Fixpoint read_bytes (m : gmap Z Z) (a : Z) (n : nat) : option (list Z) :=
  match n with
  | O => Some []
  | S n => match m !! a, read_bytes m (a + 1) n with Some b, Some bs => Some (b :: bs) | _, _ => None end
  end.
Fixpoint write_bytes (a : Z) (bs : list Z) (m : gmap Z Z) : gmap Z Z :=
  match bs with
  | [] => m
  | b :: bs => write_bytes (a + 1) bs (<[a := b]> m)
  end.

Lemma bytes_at_cons m a n : 0 < n → bytes_at m a n = default 0 (m !! a) :: bytes_at m (a + 1) (n - 1).
Proof.
  intros Hn. unfold bytes_at. rewrite seqZ_cons by done. rewrite fmap_cons. f_equal; [by rewrite Z.add_0_r|].
  rewrite <- (fmap_add_seqZ 1 0), <- list_fmap_compose. replace (Z.pred n) with (n - 1) by lia. apply list_fmap_ext. intros i x _. cbn.
  by rewrite Z.add_assoc.
Qed.
Lemma bytes_at_nil m a n : n <= 0 → bytes_at m a n = [].
Proof. intros Hn. unfold bytes_at. by rewrite seqZ_nil. Qed.
Lemma bytes_at_length m a n : length (bytes_at m a n) = Z.to_nat n.
Proof. unfold bytes_at. by rewrite length_fmap, length_seqZ. Qed.
Lemma bytes_at_ext m m' a n : (∀ i, 0 <= i < n → m' !! (a + i) = m !! (a + i)) → bytes_at m' a n = bytes_at m a n.
Proof.
  intros H. unfold bytes_at. apply list_fmap_ext. intros j x Hx. apply list_elem_of_lookup_2, elem_of_seqZ in Hx.
  rewrite H; [done|lia].
Qed.
Lemma bytes_at_lookup m a n i : bytes_at m a n !! i = if decide (Z.of_nat i < n) then Some (default 0 (m !! (a + Z.of_nat i))) else None.
Proof.
  unfold bytes_at. rewrite list_lookup_fmap. case_decide; [by rewrite lookup_seqZ_lt|by rewrite lookup_seqZ_ge by lia].
Qed.
Lemma bytes_at_app m a n k : 0 <= n → 0 <= k → bytes_at m a (n + k) = bytes_at m a n ++ bytes_at m (a + n) k.
Proof.
  intros Hn Hk. apply list_eq. intros i. rewrite lookup_app, !bytes_at_lookup, bytes_at_length.
  destruct (decide (Z.of_nat i < n)); [rewrite decide_True by lia; done|].
  destruct (decide (Z.of_nat i < n + k)).
  - rewrite decide_True by lia. replace (a + n + Z.of_nat (i - Z.to_nat n)) with (a + Z.of_nat i) by lia. done.
  - by rewrite decide_False by lia.
Qed.
Lemma read_bytes_spec m n : ∀ a, mapped m a (Z.of_nat n) → read_bytes m a n = Some (bytes_at m a (Z.of_nat n)).
Proof.
  induction n as [|n IH]; intros a Hm; [by rewrite bytes_at_nil|]. cbn [read_bytes].
  destruct (Hm 0) as [b Hb]; [lia|]. rewrite Z.add_0_r in Hb. rewrite Hb, IH.
  - rewrite (bytes_at_cons m a), Hb by lia. replace (Z.of_nat (S n) - 1) with (Z.of_nat n) by lia. done.
  - intros i Hi. rewrite <- Z.add_assoc. apply Hm. lia.
Qed.
Lemma write_bytes_lookup bs : ∀ a m k,
  write_bytes a bs m !! k = if decide (a <= k < a + Z.of_nat (length bs)) then bs !! Z.to_nat (k - a) else m !! k.
Proof.
  induction bs as [|b bs IH]; intros a m k; cbn [write_bytes length].
  - rewrite decide_False by lia. done.
  - rewrite IH, lookup_insert. destruct (decide (a = k)) as [->|Hne].
    + rewrite decide_False by lia. rewrite decide_True by lia. by rewrite Z.sub_diag.
    + destruct (decide (a + 1 <= k < a + 1 + Z.of_nat (length bs))).
      * rewrite decide_True by lia. replace (Z.to_nat (k - a)) with (S (Z.to_nat (k - (a + 1)))) by lia. done.
      * rewrite decide_False by lia. done.
Qed.
Lemma write_bytes_at bs a m : bytes_at (write_bytes a bs m) a (Z.of_nat (length bs)) = bs.
Proof.
  apply list_eq. intros i. rewrite bytes_at_lookup, write_bytes_lookup. case_decide as Hi.
  - rewrite decide_True by lia. replace (Z.to_nat (a + Z.of_nat i - a)) with i by lia.
    destruct (lookup_lt_is_Some_2 bs i) as [b ->]; [lia|done].
  - symmetry. apply lookup_ge_None. lia.
Qed.
Lemma write_bytes_mapped a bs m b n : mapped m b n → mapped (write_bytes a bs m) b n.
Proof.
  intros Hm i Hi. rewrite write_bytes_lookup. case_decide; [apply lookup_lt_is_Some_2; lia|by apply Hm].
Qed.
Lemma read_bytes_some m n : ∀ a bs, read_bytes m a n = Some bs → bs = bytes_at m a (Z.of_nat n).
Proof.
  induction n as [|n IH]; intros a bs; cbn [read_bytes]; [intros [= <-]; by rewrite bytes_at_nil|].
  destruct (m !! a) as [b|] eqn:Hb; [|done]. destruct (read_bytes m (a + 1) n) as [bs'|] eqn:E; [|done]. intros [= <-].
  rewrite (bytes_at_cons m a), Hb by lia. replace (Z.of_nat (S n) - 1) with (Z.of_nat n) by lia. by rewrite (IH _ _ E).
Qed.
