(* ===== verification/DataFlowSw.v ===== *)
(** * The software engine, and timers for the channel (src/src/data_flow/sw/data_flow_sw_engine.cc)

    The software engine does the work in [Submit] and keeps the checksums in the context until
    they are asked for. It implements the interface [Engine]; the timer manager implements
    [TimerService]. *)

From Stdlib Require Import ZArith Lia.
From stdpp Require Import prelude gmap.
From S2P Require Import Prelude ByteMemory Status Checksum ObjectPool TimerManager DataFlow.
Open Scope Z_scope.

(** ** Timers *)

Lemma expired_remaining now l : expired now l ++ remaining now l = l.
Proof.
  unfold remaining. induction l as [|x l IH]; [done|]. cbn [expired]. destruct (now <? t_due x); [done|]. cbn. by rewrite IH.
Qed.

Section timers.
Context {St : Type} {OA : ObjectAllocator St TimeoutContext}.
Context (clean_unlinked : ∀ t, oa_clean t ↔ unlinked t).

(** The callback of the channel sets a flag of the request; it does not use the pool, and the
    timer manager does not read the flag. The channel sets it for the recorded arguments. *)
Definition no_callback (arg : Z) : ST St unit := mret ().
Lemma no_callback_frame arg st live : oa_ok st live →
  wp (no_callback arg) (λ _ st', ∃ live', live ⊆ live' ∧ oa_ok st' live' ∧ ∀ q, q ∈ live → oa_objs st' !! q = oa_objs st !! q) st.
Proof. intros Hok. by exists live. Qed.

Definition view (x : timer) : timer_view := MkTV (t_ctx x) (t_arg x).
Definition handle (now : Z) : ST TimerManager (list Z) :=
  s0 ← get; HandleTimeout no_callback now;; s ← get; mret (drop (length (fired s0)) (fired s)).

#[refine] Definition timer_service : TimerService (TimerManager (St := St)) := {|
  ts_add := AddTimer; ts_remove := RemoveTimer; ts_handle := handle;
  ts_ok s l := ∃ tl others, tm_ok s tl others ∧ l = view <$> tl;
  ts_room s := oa_mem (alloc s) |}.
Proof.
  - intros t l now arg (tl & others & Hok & ->) Hroom.
    eapply wp_mono; [by apply (AddTimer_ok no_callback clean_unlinked no_callback_frame)|]. cbv beta. intros p s' (Hok' & _). eexists _, others. split; [exact Hok'|]. by rewrite fmap_app.
  - intros t l1 x l2 (tl & others & Hok & E). symmetry in E. apply fmap_app_inv in E as (tl1 & tl2 & -> & E2 & ->).
    symmetry in E2. apply fmap_cons_inv in E2 as (y & tl2' & -> & -> & ->).
    eapply wp_mono; [exact (RemoveTimer_ok no_callback clean_unlinked no_callback_frame _ _ _ _ _ Hok)|]. cbv beta. intros _ s' (Hok' & _).
    exists (tl1 ++ tl2'), others. split; [exact Hok'|]. by rewrite fmap_app.
  - intros t l now (tl & others & Hok & ->). unfold handle. do 3 wp_step.
    eapply wp_mono; [apply (HandleTimeout_ok no_callback clean_unlinked no_callback_frame _ _ _ now Hok)|]. cbv beta.
    intros _ s' (others' & Hok' & Hf & _). do 3 wp_step. rewrite Hf, drop_app_length.
    exists (view <$> expired now tl), (view <$> remaining now tl). split_and!.
    + by rewrite <- fmap_app, expired_remaining.
    + by rewrite <- list_fmap_compose.
    + by eexists _, others'.
Defined.
End timers.

(** ** The engine *)

(** [sw_mem] is the memory of the process, [sw_ctxs] the arrays of [PreallocateCtx]. *)
Record SwEngine := MkSw { sw_mem : gmap Z Z; sw_ctxs : gmap Z (list Z); next_ctx : Z }.
#[export] Instance eta_SwEngine : Eta SwEngine := λ e, MkSw (sw_mem e) (sw_ctxs e) (next_ctx e).

(** [std::memmove(dst, src, n)]: the bytes are read before any is written. *)
Definition memmove (dst src n : Z) : ST SwEngine unit :=
  e ← get;
  bs ← need NullDeref (read_bytes (sw_mem e) src (Z.to_nat n));
  need NullDeref (read_bytes (sw_mem e) dst (Z.to_nat n));;
  modify (λ e, e <| sw_mem ::= write_bytes dst bs |>).
(** [sw_ctx[i] = v] *)
Definition set_ctx (c : Z) (i : nat) (v : Z) : ST SwEngine unit :=
  e ← get;
  a ← need NullDeref (sw_ctxs e !! c);
  if Nat.ltb i (length a) then modify (λ e, e <| sw_ctxs ::= <[c := <[i := v]> a]> |>) else raise OutOfBounds.

Section sw.
(** The feature bits of the processor. *)
Context (ecx : Z).

Definition crc_of (seed a n : Z) : ST SwEngine Z :=
  e ← get;
  bs ← need NullDeref (read_bytes (sw_mem e) a (Z.to_nat n));
  lift (ComputeCRC32 ecx (u32 seed) bs).

(** The loop over the segments of one operation; returns the final offset. *)
Fixpoint move_segments (dst : Z) (src src_len : list Z) (offset : Z) : ST SwEngine Z :=
  match src with
  | [] => mret offset
  | a :: src =>
      match src_len with
      | [] => raise OutOfBounds
      | n :: src_len => memmove (u64 (dst + offset)) a n;; move_segments dst src src_len (u64 (offset + n))
      end
  end.
Definition move_op (c : Z) (i : nat) (op : DataFlowMoveOperation) : ST SwEngine unit :=
  offset ← move_segments (m_dst op) (m_src op) (m_src_len op) 0;
  if enable_crc op then v ← crc_of (m_seed op) (m_dst op) offset; set_ctx c i v else set_ctx c i 0.
Fixpoint move_loop (c : Z) (ops : list DataFlowMoveOperation) (i num : nat) {struct num} : ST SwEngine unit :=
  match num with
  | O => mret ()
  | S num => match ops with [] => raise OutOfBounds | op :: ops => move_op c i op;; move_loop c ops (S i) num end
  end.
Fixpoint crc_loop (c : Z) (ops : list DataFlowCrcOperation) (i num : nat) {struct num} : ST SwEngine unit :=
  match num with
  | O => mret ()
  | S num =>
      match ops with
      | [] => raise OutOfBounds
      | op :: ops => v ← crc_of (c_seed op) (c_src op) (c_len op); set_ctx c i v;; crc_loop c ops (S i) num
      end
  end.

Definition sw_Submit (r : DataFlowRequest) : ST SwEngine StatusCode :=
  op ← need NullDeref (r_op r);
  match op with
  | MoveOps [] | CrcOps [] => raise OutOfBounds
  | MoveOps ops => move_loop (engine_ctx r) ops 0 (r_num r);; mret kOk
  | CrcOps ops => crc_loop (engine_ctx r) ops 0 (r_num r);; mret kOk
  end.
(** The checksums are appended to what [crc_output] holds. *)
Definition sw_CheckCompletion (r : DataFlowRequest) (result : DataFlowResult) : ST SwEngine (option DataFlowResult) :=
  e ← get;
  a ← need NullDeref (sw_ctxs e !! engine_ctx r);
  if Nat.leb (r_num r) (length a) then
    mret (Some (MkResult kOk (crc_output result ++ take (r_num r) a) (user_ctx r)))
  else raise OutOfBounds.
(** [new uint64_t[kMaxSubmittedBatchSize]]; the values it starts with are never read. *)
Definition sw_PreallocateCtx : ST SwEngine (StatusCode * Z) :=
  e ← get;
  modify (λ e, e <| sw_ctxs ::= <[next_ctx e := replicate kMaxSubmittedBatchSize 0]> |> <| next_ctx ::= Z.succ |>);;
  mret (kOk, next_ctx e).
Definition sw_ClearCtx (c : Z) : ST SwEngine unit :=
  e ← get; need NullDeref (sw_ctxs e !! c);; modify (λ e, e <| sw_ctxs ::= delete c |>).

(** ** What the engine computes *)

Context (has_sse42 : Z.testbit ecx 20 = true).

(** The bytes an operation collects. *)
Definition gather (m : gmap Z Z) (srcs lens : list Z) : list Z := concat (zip_with (bytes_at m) srcs lens).
Definition apart (a n b k : Z) : Prop := a + n <= b ∨ b + k <= a.
Definition bytes_mem (m : gmap Z Z) : Prop := ∀ a b, m !! a = Some b → in_range 8 b.
Definition sources_ok (m : gmap Z Z) (srcs lens : list Z) : Prop := Forall2 (λ a n, 0 <= n ∧ mapped m a n) srcs lens.
Definition op_valid (m : gmap Z Z) (op : DataFlowMoveOperation) : Prop :=
  sources_ok m (m_src op) (m_src_len op) ∧ 0 <= m_dst op ∧ m_dst op + total (m_src_len op) < 2 ^ 64 ∧
  mapped m (m_dst op) (total (m_src_len op)).
Definition crc_valid (m : gmap Z Z) (op : DataFlowCrcOperation) : Prop := 0 <= c_len op ∧ mapped m (c_src op) (c_len op).

Lemma total_nonneg m srcs lens : sources_ok m srcs lens → 0 <= total lens.
Proof. induction 1 as [|a n srcs lens [? _] _ IH]; [done|]. cbn. unfold total in IH. lia. Qed.
Lemma sources_ok_mapped m m' srcs lens : (∀ a n, mapped m a n → mapped m' a n) → sources_ok m srcs lens → sources_ok m' srcs lens.
Proof. intros Hm Hs. eapply Forall2_impl; [exact Hs|]. intros a n [? ?]. split; [done|by apply Hm]. Qed.
Lemma bytes_at_ok m a n : bytes_mem m → bytes_ok (bytes_at m a n).
Proof.
  intros Hm. apply Forall_lookup. intros i b. rewrite bytes_at_lookup. case_decide; [|done]. intros [= <-].
  destruct (m !! _) as [x|] eqn:Hx; [by apply (Hm _ _ Hx)|]. done.
Qed.
Lemma gather_ok m srcs lens : bytes_mem m → bytes_ok (gather m srcs lens).
Proof.
  intros Hm. revert lens. induction srcs as [|a srcs IH]; intros [|n lens]; try by constructor. apply Forall_app. split; [by apply bytes_at_ok|apply IH].
Qed.
Lemma gather_ext m m' srcs lens :
  Forall2 (λ a n, ∀ i, 0 <= i < n → m' !! (a + i) = m !! (a + i)) srcs lens → gather m' srcs lens = gather m srcs lens.
Proof. unfold gather. induction 1 as [|a n srcs lens H _ IH]; [done|]. cbn. by rewrite IH, (bytes_at_ext m m'). Qed.
Lemma gather_length m srcs lens : sources_ok m srcs lens → Z.of_nat (length (gather m srcs lens)) = total lens.
Proof.
  unfold gather, total. induction 1 as [|a n srcs lens [? _] _ IH]; [done|]. cbn [zip_with concat foldr].
  rewrite length_app, bytes_at_length. lia.
Qed.

(** The memory after a copy to [dst, dst+n). *)
Record copied (m m' : gmap Z Z) (dst n : Z) : Prop := {
  cp_frame : ∀ k, ¬ (dst <= k < dst + n) → m' !! k = m !! k;
  cp_mapped : ∀ a k, mapped m a k → mapped m' a k;
  cp_bytes : bytes_mem m → bytes_mem m' }.
Lemma copied_refl m dst n : copied m m dst n.
Proof. by split. Qed.
Lemma copied_trans m1 m2 m3 d1 n1 d2 n2 dst n : copied m1 m2 d1 n1 → copied m2 m3 d2 n2 →
  dst <= d1 → d1 + n1 <= dst + n → dst <= d2 → d2 + n2 <= dst + n → copied m1 m3 dst n.
Proof.
  intros [F1 M1 B1] [F2 M2 B2] ? ? ? ?. split; [|by auto|by auto]. intros k Hk. rewrite F2, F1 by lia. done.
Qed.
Lemma memmove_ok dst src n e : 0 <= n → mapped (sw_mem e) src n → mapped (sw_mem e) dst n →
  wp (memmove dst src n) (λ _ e', e' = e <| sw_mem := sw_mem e' |> ∧ copied (sw_mem e) (sw_mem e') dst n ∧
    bytes_at (sw_mem e') dst n = bytes_at (sw_mem e) src n) e.
Proof.
  intros Hn Hs Hd. unfold memmove. do 3 wp_step. eapply wp_need; [apply read_bytes_spec; by rewrite Z2Nat.id by lia|].
  rewrite !Z2Nat.id by lia. wp_step. eapply wp_need; [apply read_bytes_spec; by rewrite Z2Nat.id by lia|]. wp_step.
  set (bs := bytes_at (sw_mem e) src n). assert (Z.of_nat (length bs) = n) as Hl by (unfold bs; rewrite bytes_at_length; lia).
  split; [done|]. cbn. split; [|rewrite <- Hl; apply write_bytes_at]. split.
  - intros k Hk. rewrite write_bytes_lookup, decide_False; [done|lia].
  - intros a k. apply write_bytes_mapped.
  - intros Hb k b. rewrite write_bytes_lookup. case_decide; [|apply Hb]. intros Hx. apply list_elem_of_lookup_2 in Hx.
    pose proof (bytes_at_ok (sw_mem e) src n Hb) as Hok. unfold bytes_ok in Hok. rewrite Forall_forall in Hok. by apply Hok.
Qed.

(** The segments at [srcs] are copied to [d] one behind the other, and [w] bytes have been written
    there: a segment is read before it is written, so that it may overlap its own copy and what
    is written later, but not what was written for the segments before it. *)
Fixpoint reads_first (d w : Z) (srcs lens : list Z) : Prop :=
  match srcs, lens with
  | a :: srcs, n :: lens => (w = 0 ∨ apart a n d w) ∧ reads_first d (w + n) srcs lens
  | _, _ => True
  end.
Lemma reads_first_shift d n srcs : ∀ lens w m, sources_ok m srcs lens → 0 <= n <= w → reads_first d w srcs lens → reads_first (d + n) (w - n) srcs lens.
Proof.
  induction srcs as [|a srcs IH]; intros [|k lens] w m Hs Hn; cbn [reads_first]; try done. intros [H1 H2]. apply Forall2_cons in Hs as [[Hk _] Hs]. split.
  - destruct H1 as [->|[?|?]]; [left; lia|right; left; lia|right; right; lia].
  - replace (w - n + k) with (w + k - n) by lia. apply (IH lens (w + k) m); [done|lia|done].
Qed.
Lemma reads_first_apart d n srcs : ∀ lens w m, sources_ok m srcs lens → 0 < n <= w → reads_first d w srcs lens → Forall2 (λ a k, apart a k d n) srcs lens.
Proof.
  induction srcs as [|a srcs IH]; intros lens w m Hs Hn H; inversion Hs as [|? k ? lens' [Hk _] Hs']; subst; [constructor|]. cbn [reads_first] in H. destruct H as [H1 H2]. constructor.
  - destruct H1 as [->|[?|?]]; [lia|left; lia|right; lia].
  - apply (IH lens' (w + k) m); [done|lia|done].
Qed.
Lemma move_segments_ok dst srcs : ∀ lens off e,
  sources_ok (sw_mem e) srcs lens → 0 <= dst → 0 <= off → dst + off + total lens < 2 ^ 64 → mapped (sw_mem e) (dst + off) (total lens) →
  wp (move_segments dst srcs lens off) (λ o e', o = off + total lens ∧ e' = e <| sw_mem := sw_mem e' |> ∧
    copied (sw_mem e) (sw_mem e') (dst + off) (total lens) ∧
    (reads_first (dst + off) 0 srcs lens →
     bytes_at (sw_mem e') (dst + off) (total lens) = gather (sw_mem e) srcs lens)) e.
Proof.
  induction srcs as [|a srcs IH]; intros lens off e Hs Hd Ho Hb Hm.
  { apply Forall2_nil_inv_l in Hs as ->. cbn. split_and!; [lia|by destruct e|apply copied_refl|done]. }
  apply Forall2_cons_inv_l in Hs as (n & lens' & [Hn Hmn] & Hs & ->). rename lens' into lens. cbn [move_segments].
  pose proof (total_nonneg _ _ _ Hs) as Ht. change (total (n :: lens)) with (n + total lens) in *.
  rewrite !(wrap_small 64) by (unfold in_range; lia). wp_step.
  eapply wp_mono; [apply memmove_ok; [done|done|]|].
  { intros i Hi. apply Hm. lia. }
  cbv beta. intros _ e1 (E1 & Hc1 & Hw1). eapply wp_mono; [apply (IH lens (off + n) e1)|]; [|lia..| |].
  - eapply sources_ok_mapped; [|done]. intros; by eapply (cp_mapped _ _ _ _ Hc1).
  - intros i Hi. eapply (cp_mapped _ _ _ _ Hc1 (dst + (off + n)) (total lens)); [|done]. intros j Hj.
    replace (dst + (off + n) + j) with (dst + off + (n + j)) by lia. apply Hm. lia.
  - cbv beta. intros o e2 (-> & E2 & Hc2 & Hw2). split; [lia|]. split; [rewrite E2, E1; done|].
    replace (dst + (off + n)) with (dst + off + n) in * by lia.
    split; [eapply copied_trans; [exact Hc1|exact Hc2|lia..]|].
    cbn [reads_first]. intros [_ Hrf]. rewrite Z.add_0_l in Hrf. unfold gather. cbn [zip_with concat]. rewrite bytes_at_app by lia.
    rewrite <- Hw1. f_equal.
    + apply bytes_at_ext. intros i Hi. apply (cp_frame _ _ _ _ Hc2). lia.
    + rewrite Hw2.
      * apply gather_ext. destruct (decide (n = 0)) as [->|Hn0].
        { eapply Forall2_impl; [exact Hs|]. intros b k _ i Hi. apply (cp_frame _ _ _ _ Hc1). lia. }
        pose proof (reads_first_apart (dst + off) n srcs lens n _ Hs ltac:(lia) Hrf) as Hap. eapply Forall2_impl; [exact Hap|]. intros b k Hbk i Hi. apply (cp_frame _ _ _ _ Hc1). unfold apart in Hbk. lia.
      * rewrite <- (Z.sub_diag n). apply (reads_first_shift (dst + off) n srcs lens n (sw_mem e)); [done|lia|done].
Qed.

Definition op_gather (m : gmap Z Z) (op : DataFlowMoveOperation) : list Z := gather m (m_src op) (m_src_len op).
Definition op_reads_first (op : DataFlowMoveOperation) : Prop := reads_first (m_dst op) 0 (m_src op) (m_src_len op).
Definition op_apart (op : DataFlowMoveOperation) (dst n : Z) : Prop := Forall2 (λ a k, apart a k dst n) (m_src op) (m_src_len op).
(** The checksum the user expects of an operation. *)
Definition crc_result (m : gmap Z Z) (op : DataFlowMoveOperation) : Z :=
  if enable_crc op then crc_bytes (u32 (m_seed op)) (op_gather m op) else 0.

Lemma crc_of_ok seed a n e : 0 <= n → mapped (sw_mem e) a n → bytes_mem (sw_mem e) →
  wp (crc_of seed a n) (λ v e', e' = e ∧ v = crc_bytes (u32 seed) (bytes_at (sw_mem e) a n)) e.
Proof.
  intros Hn Hm Hb. unfold crc_of. do 3 wp_step. eapply wp_need; [apply read_bytes_spec; by rewrite Z2Nat.id by lia|].
  rewrite Z2Nat.id by lia. unfold ComputeCRC32, Get_ComputeCRC32_Impl. rewrite has_sse42. wp_step. split; [done|].
  apply accelerate_spec; [by apply wrap_range|by apply bytes_at_ok].
Qed.
Lemma set_ctx_ok c i v e a : sw_ctxs e !! c = Some a → (i < length a)%nat →
  wp (set_ctx c i v) (λ _ e', e' = e <| sw_ctxs ::= <[c := <[i := v]> a]> |>) e.
Proof.
  intros Hc Hi. unfold set_ctx. do 3 wp_step. eapply wp_need; [done|]. rewrite (proj2 (Nat.ltb_lt _ _) Hi). by wp_step.
Qed.
Lemma move_op_ok c i op e a : op_valid (sw_mem e) op → bytes_mem (sw_mem e) → sw_ctxs e !! c = Some a → (i < length a)%nat →
  wp (move_op c i op) (λ _ e', copied (sw_mem e) (sw_mem e') (m_dst op) (op_len op) ∧ next_ctx e' = next_ctx e ∧
    ∃ v, sw_ctxs e' = <[c := <[i := v]> a]> (sw_ctxs e) ∧
      (op_reads_first op → bytes_at (sw_mem e') (m_dst op) (op_len op) = op_gather (sw_mem e) op ∧ v = crc_result (sw_mem e) op)) e.
Proof.
  intros (Hs & Hd & Hb & Hm) Hby Hc Hi. unfold move_op. wp_step.
  eapply wp_mono; [apply (move_segments_ok (m_dst op) (m_src op) (m_src_len op) 0 e); [done|done|done|lia|by rewrite Z.add_0_r]|].
  cbv beta. rewrite !Z.add_0_r, Z.add_0_l. fold (op_len op). intros o e1 (-> & E1 & Hc1 & Hw). 
  assert (sw_ctxs e1 = sw_ctxs e ∧ next_ctx e1 = next_ctx e) as [Ec En] by (by rewrite E1).
  destruct (enable_crc op) eqn:Hen.
  - wp_step. eapply wp_mono; [apply crc_of_ok; [by eapply total_nonneg|by apply (cp_mapped _ _ _ _ Hc1)|by apply (cp_bytes _ _ _ _ Hc1)]|].
    cbv beta. intros v e2 [-> ->]. eapply wp_mono; [eapply set_ctx_ok; [by rewrite Ec|done]|]. cbv beta. intros _ e3 ->. cbn [sw_mem next_ctx sw_ctxs upd].
    split_and!; [done|done|]. eexists. split; [by rewrite Ec|]. intros Hap. rewrite (Hw Hap). unfold crc_result. by rewrite Hen.
  - eapply wp_mono; [eapply set_ctx_ok; [by rewrite Ec|done]|]. cbv beta. intros _ e3 ->. cbn [sw_mem next_ctx sw_ctxs upd].
    split_and!; [done|done|]. eexists. split; [by rewrite Ec|]. intros Hap. rewrite (Hw Hap). unfold crc_result. by rewrite Hen.
Qed.

(** No operation of the batch writes what a later one reads or writes, and no operation writes
    over one of its sources before that is read. *)
Definition independent (ops : list DataFlowMoveOperation) : Prop :=
  Forall op_reads_first ops ∧
  ∀ j k o1 o2, ops !! j = Some o1 → ops !! k = Some o2 → (j < k)%nat →
    op_apart o2 (m_dst o1) (op_len o1) ∧ apart (m_dst o1) (op_len o1) (m_dst o2) (op_len o2).

(** A move of one segment is independent however its source and destination overlap. *)
Lemma overlapping_move op a : m_src op = [a] → independent [op].
Proof.
  intros E. split; [|intros [|j] [|k] o1 o2 H1 H2; [lia|done|done|done]]. rewrite Forall_singleton. unfold op_reads_first. rewrite E.
  destruct (m_src_len op) as [|n [|]]; cbn; auto.
Qed.
Lemma op_valid_mapped m m' op : (∀ a n, mapped m a n → mapped m' a n) → op_valid m op → op_valid m' op.
Proof. intros Hm (Hs & ? & ? & ?). split_and!; [by eapply sources_ok_mapped|done|done|by apply Hm]. Qed.
Lemma op_gather_copied m m' op dst n : copied m m' dst n → op_apart op dst n → op_gather m' op = op_gather m op.
Proof.
  intros Hc Hap. apply gather_ext. eapply Forall2_impl; [exact Hap|]. unfold apart. intros a k Hak i Hi. apply (cp_frame _ _ _ _ Hc). lia.
Qed.

Record batch_done (m m' : gmap Z Z) (ops : list DataFlowMoveOperation) (i : nat) (a a' : list Z) : Prop := {
  bd_mapped : ∀ b n, mapped m b n → mapped m' b n;
  bd_bytes : bytes_mem m → bytes_mem m';
  bd_len : length a' = length a;
  bd_before : ∀ j, (j < i)%nat → a' !! j = a !! j;
  bd_frame : ∀ k, (∀ op, op ∈ ops → ¬ (m_dst op <= k < m_dst op + op_len op)) → m' !! k = m !! k;
  bd_each : independent ops → ∀ j op, ops !! j = Some op →
    bytes_at m' (m_dst op) (op_len op) = op_gather m op ∧ a' !! (i + j)%nat = Some (crc_result m op) }.

Lemma move_loop_ok c num : ∀ ops i e a, (num ≤ length ops)%nat → Forall (op_valid (sw_mem e)) (take num ops) → bytes_mem (sw_mem e) →
  sw_ctxs e !! c = Some a → (i + num ≤ length a)%nat →
  wp (move_loop c ops i num) (λ _ e', next_ctx e' = next_ctx e ∧ ∃ a', sw_ctxs e' = <[c := a']> (sw_ctxs e) ∧
    batch_done (sw_mem e) (sw_mem e') (take num ops) i a a') e.
Proof.
  induction num as [|num IH]; intros ops i e a Hn Hv Hb Hc Hi.
  { cbn [move_loop]. wp_step. split; [done|]. exists a. split; [by rewrite insert_id|]. split; try done. }
  destruct ops as [|op ops]; [cbn in Hn; lia|]. cbn [take] in *. apply Forall_cons in Hv as [Hop Hv]. cbn [move_loop]. wp_step.
  eapply wp_mono; [apply (move_op_ok c i op e a Hop Hb Hc); lia|]. cbv beta. intros _ e1 (Hc1 & Hnx & v & Ec & Hw).
  eapply wp_mono; [apply (IH ops (S i) e1 (<[i := v]> a)); [cbn in Hn; lia| |by apply (cp_bytes _ _ _ _ Hc1)|rewrite Ec; apply lookup_insert_eq|rewrite length_insert; lia]|].
  { eapply Forall_impl; [exact Hv|]. intros o. apply op_valid_mapped. intros; by eapply (cp_mapped _ _ _ _ Hc1). }
  cbv beta. intros _ e2 (Hnx2 & a' & Ec2 & [D1 D2 D3 D4 D5 D6]). split; [congruence|]. exists a'.
  split; [rewrite Ec2, Ec; by rewrite insert_insert_eq|]. split.
  - intros b n Hm. by apply D1, (cp_mapped _ _ _ _ Hc1).
  - intros Hm. by apply D2, (cp_bytes _ _ _ _ Hc1).
  - by rewrite D3, length_insert.
  - intros j Hj. rewrite D4 by lia. apply list_lookup_insert_ne. lia.
  - intros k Hk. rewrite D5 by (intros; apply Hk; by right). apply (cp_frame _ _ _ _ Hc1). apply Hk. by left.
  - intros [[Hself Hselfs]%Forall_cons Hind]. assert (independent (take num ops)) as Hind' by (split; [done|intros j k o1 o2 H1 H2 Hjk; apply (Hind (S j) (S k) o1 o2 H1 H2); lia]).
    intros [|j] o; cbn [lookup list_lookup].
    + intros [= <-]. destruct (Hw Hself) as [Hg ->]. rewrite <- Hg. split.
      * apply bytes_at_ext. intros x Hx. apply D5. intros o2 [k Hk]%list_elem_of_lookup_1.
        destruct (Hind 0%nat (S k) op o2 eq_refl Hk ltac:(lia)) as [_ Hne]. unfold apart in Hne. lia.
      * rewrite D4 by lia. rewrite Nat.add_0_r, list_lookup_insert_eq by lia. done.
    + intros Ho. destruct (D6 Hind' j o Ho) as [Hb' Ha']. rewrite Nat.add_succ_r. cbn in Ha'. unfold crc_result in *.
      destruct (Hind 0%nat (S j) op o eq_refl Ho ltac:(lia)) as [Hap _]. by rewrite (op_gather_copied _ _ o _ _ Hc1 Hap) in *.
Qed.
Lemma crc_loop_ok c num : ∀ ops i e a, (num ≤ length ops)%nat → Forall (crc_valid (sw_mem e)) (take num ops) → bytes_mem (sw_mem e) →
  sw_ctxs e !! c = Some a → (i + num ≤ length a)%nat →
  wp (crc_loop c ops i num) (λ _ e', next_ctx e' = next_ctx e ∧ sw_mem e' = sw_mem e ∧ ∃ a', sw_ctxs e' = <[c := a']> (sw_ctxs e) ∧
    length a' = length a ∧ (∀ j, (j < i)%nat → a' !! j = a !! j) ∧
    ∀ j op, take num ops !! j = Some op → a' !! (i + j)%nat = Some (crc_bytes (u32 (c_seed op)) (bytes_at (sw_mem e) (c_src op) (c_len op)))) e.
Proof.
  induction num as [|num IH]; intros ops i e a Hn Hv Hb Hc Hi.
  { cbn [crc_loop]. wp_step. split_and!; [done..|]. exists a. split_and!; [by rewrite insert_id|done..]. }
  destruct ops as [|op ops]; [cbn in Hn; lia|]. cbn [take] in *. apply Forall_cons in Hv as [[Hl Hm] Hv]. cbn [crc_loop]. wp_step.
  eapply wp_mono; [by apply crc_of_ok|]. cbv beta. intros v e1 [-> ->]. wp_step.
  eapply wp_mono; [eapply set_ctx_ok; [done|lia]|]. cbv beta. intros _ e2 ->.
  eapply wp_mono; [apply (IH ops (S i) _ (<[i := crc_bytes (u32 (c_seed op)) (bytes_at (sw_mem e) (c_src op) (c_len op))]> a)); cbn [sw_mem sw_ctxs upd];
    [cbn in Hn; lia|done|done|apply lookup_insert_eq|rewrite length_insert; lia]|].
  cbv beta. cbn [sw_mem sw_ctxs next_ctx upd]. intros _ e3 (Hx & Hm3 & a' & Ec & Hl' & Hbef & Heach). split_and!; [done|done|]. exists a'. split_and!.
  - rewrite Ec. by rewrite insert_insert_eq.
  - by rewrite Hl', length_insert.
  - intros j Hj. rewrite Hbef by lia. apply list_lookup_insert_ne. lia.
  - intros [|j] o; cbn [lookup list_lookup].
    + intros [= <-]. rewrite Hbef, Nat.add_0_r, list_lookup_insert_eq by lia. done.
    + intros Ho. rewrite Nat.add_succ_r. by apply (Heach j o).
Qed.

(** ** The interface *)

Record sw_ok (e : SwEngine) (m : gmap Z work) : Prop := {
  so_dom : ∀ c, is_Some (sw_ctxs e !! c) ↔ is_Some (m !! c);
  so_len : ∀ c a, sw_ctxs e !! c = Some a → length a = kMaxSubmittedBatchSize ∧ c < next_ctx e;
  so_num : ∀ c n, m !! c = Some (Running n) → (n ≤ kMaxSubmittedBatchSize)%nat;
  so_bytes : bytes_mem (sw_mem e) }.
(** The buffers are mapped, and the array has the operations it is said to have. *)
Definition sw_valid (e : SwEngine) (op : op_array) (num : nat) : Prop :=
  (num ≤ kMaxSubmittedBatchSize)%nat ∧ (num ≤ array_size op)%nat ∧ (1 ≤ array_size op)%nat ∧
  match op with
  | MoveOps ops => Forall (op_valid (sw_mem e)) (take num ops)
  | CrcOps ops => Forall (crc_valid (sw_mem e)) (take num ops)
  end.
(** Between two calls the user writes to memory. *)
Definition sw_env (e e' : SwEngine) : Prop :=
  sw_ctxs e' = sw_ctxs e ∧ next_ctx e' = next_ctx e ∧ bytes_mem (sw_mem e').

Lemma sw_ctx e m c w : sw_ok e m → m !! c = Some w → ∃ a, sw_ctxs e !! c = Some a ∧ length a = kMaxSubmittedBatchSize.
Proof. intros Hok Hc. destruct (proj2 (so_dom _ _ Hok c)) as [a Ha]; [by eexists|]. exists a. split; [done|]. by apply (so_len _ _ Hok c). Qed.
Lemma sw_ok_insert e e' m c a w : sw_ok e m → is_Some (m !! c) → sw_ctxs e' = <[c := a]> (sw_ctxs e) → length a = kMaxSubmittedBatchSize →
  next_ctx e' = next_ctx e → bytes_mem (sw_mem e') → (∀ n, w = Running n → (n ≤ kMaxSubmittedBatchSize)%nat) → sw_ok e' (<[c := w]> m).
Proof.
  intros [H1 H2 H3 H4] Hm Hc Hl Hn Hb Hw. split.
  - intros c'. rewrite Hc, !lookup_insert_is_Some', H1. done.
  - intros c' a'. rewrite Hc, Hn. intros [[<- <-] | [_ Ha]]%lookup_insert_Some; [|by apply H2]. split; [done|].
    destruct (proj2 (H1 c) Hm) as [a0 Ha0]. by apply (H2 c a0).
  - intros c' n [[<- E] | [_ Ha]]%lookup_insert_Some; [by apply Hw|by eapply H3].
  - done.
Qed.

(** A batch of moves, and one of checksums. *)
Lemma sw_move_ok e m r ops : sw_ok e m → is_Some (m !! engine_ctx r) → r_op r = Some (MoveOps ops) → sw_valid e (MoveOps ops) (r_num r) →
  wp (sw_Submit r) (λ st e', st = kOk ∧ sw_ok e' (<[engine_ctx r := Running (r_num r)]> m) ∧
    ∃ a a', sw_ctxs e' !! engine_ctx r = Some a' ∧ length a' = kMaxSubmittedBatchSize ∧
      batch_done (sw_mem e) (sw_mem e') (take (r_num r) ops) 0 a a') e.
Proof.
  intros Hok [w Hw] Hop (Hn & Hs & H1 & Hv). unfold sw_Submit. wp_step. eapply wp_need; [done|].
  destruct ops as [|op0 ops']; [cbn in H1; lia|]. set (ops := op0 :: ops') in *. cbn [array_size] in Hs. fold ops.
  destruct (sw_ctx _ _ _ _ Hok Hw) as (a & Ha & Hl). wp_step.
  eapply wp_mono; [apply (move_loop_ok (engine_ctx r) (r_num r) ops 0 e a); [done|done|apply Hok|done|lia]|].
  cbv beta. intros _ e' (Hx & a' & Hc & Hbd). wp_step. split; [done|]. split.
  - eapply sw_ok_insert; [done|by eexists|exact Hc|by rewrite (bd_len _ _ _ _ _ _ Hbd)|done| |].
    + by apply (bd_bytes _ _ _ _ _ _ Hbd), Hok.
    + by intros n [= <-].
  - exists a, a'. split; [rewrite Hc; apply lookup_insert_eq|]. split; [by rewrite (bd_len _ _ _ _ _ _ Hbd)|done].
Qed.
Lemma sw_crc_ok e m r ops : sw_ok e m → is_Some (m !! engine_ctx r) → r_op r = Some (CrcOps ops) → sw_valid e (CrcOps ops) (r_num r) →
  wp (sw_Submit r) (λ st e', st = kOk ∧ sw_ok e' (<[engine_ctx r := Running (r_num r)]> m) ∧ sw_mem e' = sw_mem e ∧
    ∃ a', sw_ctxs e' !! engine_ctx r = Some a' ∧ length a' = kMaxSubmittedBatchSize ∧ ∀ j op, take (r_num r) ops !! j = Some op →
      a' !! j = Some (crc_bytes (u32 (c_seed op)) (bytes_at (sw_mem e) (c_src op) (c_len op)))) e.
Proof.
  intros Hok [w Hw] Hop (Hn & Hs & H1 & Hv). unfold sw_Submit. wp_step. eapply wp_need; [done|].
  destruct ops as [|op0 ops']; [cbn in H1; lia|]. set (ops := op0 :: ops') in *. cbn [array_size] in Hs. fold ops.
  destruct (sw_ctx _ _ _ _ Hok Hw) as (a & Ha & Hl). wp_step.
  eapply wp_mono; [apply (crc_loop_ok (engine_ctx r) (r_num r) ops 0 e a); [done|done|apply Hok|done|lia]|].
  cbv beta. intros _ e' (Hx & Hm & a' & Hc & Hl' & _ & Heach). wp_step. split; [done|]. split; [|split; [done|]].
  - eapply sw_ok_insert; [done|by eexists|exact Hc|congruence|done|rewrite Hm; apply Hok|]. by intros n [= <-].
  - exists a'. split; [rewrite Hc; apply lookup_insert_eq|]. split; [congruence|exact Heach].
Qed.
Lemma sw_check_ok e m r res : sw_ok e m → m !! engine_ctx r = Some (Running (r_num r)) →
  wp (sw_CheckCompletion r res) (λ o e', e' = e ∧ ∃ a, sw_ctxs e !! engine_ctx r = Some a ∧
    o = Some (MkResult kOk (crc_output res ++ take (r_num r) a) (user_ctx r))) e.
Proof.
  intros Hok Hm. destruct (sw_ctx _ _ _ _ Hok Hm) as (a & Ha & Hl). unfold sw_CheckCompletion. do 3 wp_step. eapply wp_need; [done|].
  rewrite (proj2 (Nat.leb_le _ _)) by (rewrite Hl; by apply (so_num _ _ Hok (engine_ctx r))). wp_step. split; [done|]. by exists a.
Qed.

#[refine] Definition sw_engine : Engine SwEngine := {|
  en_prealloc := sw_PreallocateCtx; en_submit := sw_Submit; en_check := sw_CheckCompletion; en_clear := sw_ClearCtx;
  en_ok := sw_ok; en_valid := sw_valid; en_env := sw_env |}.
Proof.
  - intros e m Hok. unfold sw_PreallocateCtx. do 5 wp_step. rewrite decide_True by done.
    assert (sw_ctxs e !! next_ctx e = None) as Hn.
    { destruct (sw_ctxs e !! next_ctx e) eqn:E; [|done]. apply (so_len _ _ Hok) in E as [_ ?]. lia. }
    split; [destruct (m !! next_ctx e) eqn:E; [|done]; destruct (proj2 (so_dom _ _ Hok (next_ctx e))) as [? ?]; [by eexists|congruence]|].
    destruct Hok as [H1 H2 H3 H4]. split; cbn [sw_ctxs next_ctx sw_mem upd].
    + intros c. rewrite !lookup_insert_is_Some', H1. done.
    + intros c a [[<- <-] | [_ Ha]]%lookup_insert_Some; [split; [by rewrite length_replicate|lia]|]. destruct (H2 c a Ha). split; [done|lia].
    + intros c n [[_ ?] | [_ Ha]]%lookup_insert_Some; [done|by eapply H3].
    + done.
  - intros e m r [ops|ops] Hok Hm Hop Hv.
    + eapply wp_mono; [eapply sw_move_ok; [done|by eexists|done|done]|]. cbv beta. intros st e' (-> & Hok' & _). by rewrite decide_True.
    + eapply wp_mono; [eapply sw_crc_ok; [done|by eexists|done|done]|]. cbv beta. intros st e' (-> & Hok' & _). by rewrite decide_True.
  - intros e m r res Hok Hm. eapply wp_mono; [by eapply sw_check_ok|]. cbv beta. intros o e' (-> & a & Ha & ->). split; [|done].
    eapply sw_ok_insert; [done|by eexists|by rewrite insert_id|by apply (so_len _ _ Hok (engine_ctx r))|done|apply Hok|done].
  - intros e m c Hok Hm. destruct (sw_ctx _ _ _ _ Hok Hm) as (a & Ha & Hl). unfold sw_ClearCtx. do 3 wp_step. eapply wp_need; [done|]. wp_step.
    destruct Hok as [H1 H2 H3 H4]. split; cbn [sw_ctxs next_ctx sw_mem upd].
    + intros c'. rewrite !lookup_delete_is_Some, H1. done.
    + intros c' a' [_ Ha']%lookup_delete_Some. by apply H2.
    + intros c' n [_ Hn]%lookup_delete_Some. by eapply H3.
    + done.
  - intros e e' m [H1 H2 H3 H4] (Ec & En & Hb). split; rewrite ?Ec, ?En; done.
Defined.

Lemma sw_batch e m r ops res :
  sw_ok e m → is_Some (m !! engine_ctx r) → r_op r = Some (MoveOps ops) → sw_valid e (MoveOps ops) (r_num r) →
  independent (take (r_num r) ops) →
  wp (st ← sw_Submit r; o ← sw_CheckCompletion r res; mret (st, o)) (λ '(st, o) e', st = kOk ∧
    o = Some (MkResult kOk (crc_output res ++ (crc_result (sw_mem e) <$> take (r_num r) ops)) (user_ctx r)) ∧
    (∀ op, op ∈ take (r_num r) ops → bytes_at (sw_mem e') (m_dst op) (op_len op) = op_gather (sw_mem e) op) ∧
    (∀ k, (∀ op, op ∈ take (r_num r) ops → ¬ (m_dst op <= k < m_dst op + op_len op)) → sw_mem e' !! k = sw_mem e !! k)) e.
Proof.
  intros Hok Hm Hop Hv Hind. wp_step. eapply wp_mono; [by eapply sw_move_ok|].
  cbv beta. intros st e1 (-> & Hok1 & a & a' & Ha' & Hl & [D1 D2 D3 D4 D5 D6]). wp_step.
  eapply wp_mono; [apply (sw_check_ok _ _ _ _ Hok1), lookup_insert_eq|]. cbv beta. intros o e2 (-> & a2 & Ha2 & ->). wp_step.
  rewrite Ha' in Ha2. injection Ha2 as <-. split; [done|]. split; [|split; [|done]].
  - do 3 f_equal. apply list_eq. intros j. rewrite list_lookup_fmap.
    destruct (take (r_num r) ops !! j) as [op|] eqn:Hj.
    + rewrite lookup_take_lt by (apply lookup_lt_Some in Hj; rewrite length_take in Hj; lia). destruct (D6 Hind j op Hj) as [_ E]. cbn [Nat.add] in E. by rewrite E.
    + apply lookup_ge_None in Hj. rewrite length_take in Hj. apply lookup_ge_None. rewrite length_take. destruct Hv as (? & Hs & _). cbn in Hs. lia.
  - intros op [j Hj]%list_elem_of_lookup_1. by destruct (D6 Hind j op Hj) as [-> _].
Qed.

(** C7: the software engine does what the user asked for. When no operation of a batch writes
    what a later one reads or writes, and none overwrites one of its own segments before it is
    read (a single segment may overlap its destination in any way), every destination holds the
    concatenation of the sources of its operation as they were before, nothing else in memory
    changes, and the checksums appended to the result are the CRC32C of each destination, from
    the seed of the operation, or 0 where none was asked for. *)
Theorem sw_batch_correct e m r ops res :
  sw_ok e m → is_Some (m !! engine_ctx r) → r_op r = Some (MoveOps ops) → sw_valid e (MoveOps ops) (r_num r) →
  independent (take (r_num r) ops) →
  wp (st ← sw_Submit r; o ← sw_CheckCompletion r res; mret (st, o)) (λ '(st, o) e', st = kOk ∧
    o = Some (MkResult kOk (crc_output res ++ (crc_result (sw_mem e) <$> take (r_num r) ops)) (user_ctx r)) ∧
    (∀ op, op ∈ take (r_num r) ops → bytes_at (sw_mem e') (m_dst op) (op_len op) = op_gather (sw_mem e) op) ∧
    (∀ k, (∀ op, op ∈ take (r_num r) ops → ¬ (m_dst op <= k < m_dst op + op_len op)) → sw_mem e' !! k = sw_mem e !! k)) e.
Proof. apply sw_batch. Qed.
End sw.

(** ** A channel on the software engine *)

Definition demo_ecx : Z := 2 ^ 20.
#[local] Instance demo_allocator : ObjectAllocator (TlsObjectPool (T := TimeoutContext)) TimeoutContext :=
  tls_allocator demo_ctx 32 demo_memalign unlinked 7 demo_size demo_memalign_ok (conj eq_refl eq_refl).
#[local] Instance demo_service : TimerService TimerManager := timer_service (λ _, iff_refl _).
#[local] Instance demo_engine : Engine SwEngine := sw_engine demo_ecx eq_refl.

(** The bytes "123456789" at 1000, and room at 2000. *)
Definition demo_memory : gmap Z Z :=
  write_bytes 2000 (replicate 16 0) (write_bytes 1000 [0x31; 0x32; 0x33; 0x34; 0x35; 0x36; 0x37; 0x38; 0x39] ∅).
Definition demo_sw : SwEngine := MkSw demo_memory ∅ 1.
Definition demo_move : DataFlowMoveOperation := MkMove [1000; 1004] [4; 5] 2000 0xFFFFFFFF true.
Definition demo_chan (o : DataFlowPollOrderType) : DataFlowChannelImpl := new_channel demo_sw demo_tm o 0.
Definition demo_results : list DataFlowResult := replicate 4 (MkResult kUnknown [] 0).

Definition final {S A} (m : ST S A) (s : S) : S := match m s with Ok (_, s') => s' | Err _ => s end.
Definition demo_ready : DataFlowChannelImpl := final Init (demo_chan kOrdered).
Definition demo_busy : DataFlowChannelImpl := final (SubmitMove 100 [demo_move] 1 42) demo_ready.

Example demo_round : match (SubmitMove 100 [demo_move] 1 42;; Poll 101 demo_results 4 0) demo_ready with
  | Ok ((rs, n), s) => n = 1%nat ∧ rs !! 0%nat = Some (MkResult kOk [0x1CF96D7C] 42) ∧ queue_ s = []
  | Err _ => False
  end.
Proof. vm_compute. auto. Qed.

Lemma final_run {S A} (m : ST S A) s a : match m s with Ok (a', _) => a' = a | Err _ => False end → m s = Ok (a, final m s).
Proof. unfold final. by destruct (m s) as [[a' s']|]; [intros ->|]. Qed.
Definition mapped_b (m : gmap Z Z) (a n : Z) : bool := forallb (λ i, bool_decide (is_Some (m !! (a + i)))) (seqZ 0 n).
Lemma mapped_b_ok m a n : mapped_b m a n = true → mapped m a n.
Proof.
  unfold mapped_b. rewrite forallb_forall. intros H i Hi. eapply bool_decide_eq_true_1, H. rewrite <- list_elem_of_In, elem_of_seqZ. lia.
Qed.
Lemma bytes_mem_write a bs m : bytes_ok bs → bytes_mem m → bytes_mem (write_bytes a bs m).
Proof.
  intros Hb Hm k b. rewrite write_bytes_lookup. case_decide; [|apply Hm]. intros Hx%list_elem_of_lookup_2.
  unfold bytes_ok in Hb. rewrite Forall_forall in Hb. by apply Hb.
Qed.
Lemma demo_sw_ok : sw_ok demo_sw ∅.
Proof.
  split; cbn [demo_sw sw_ctxs sw_mem].
  - intros c. by rewrite !lookup_empty.
  - intros c a. by rewrite lookup_empty.
  - intros c n. by rewrite lookup_empty.
  - unfold demo_memory. apply bytes_mem_write; [cbn; repeat (constructor; [unfold in_range; lia|]); constructor|].
    apply bytes_mem_write; [repeat (constructor; [unfold in_range; lia|]); constructor|]. intros a b. by rewrite lookup_empty.
Qed.
Lemma demo_valid m : (∀ a n, mapped_b demo_memory a n = true → mapped m a n) → op_valid m demo_move.
Proof.
  intros Hm. split_and!; [|done|by vm_compute|apply Hm; vm_compute; reflexivity].
  repeat constructor; [done|apply Hm; vm_compute; reflexivity|done|apply Hm; vm_compute; reflexivity].
Qed.
Lemma demo_ready_run : chan_run kOrdered demo_ready [] [].
Proof.
  apply (run_start kOrdered demo_sw demo_tm 0 ∅).
  - apply demo_sw_ok.
  - exists [], ∅. split; [apply demo_tm_ok|done].
  - refine (final_run Init (demo_chan kOrdered) kOk _). vm_compute. reflexivity.
Qed.
Lemma demo_ready_valid : sw_valid (engine_ demo_ready) (MoveOps [demo_move]) 1.
Proof.
  assert (sw_mem (engine_ demo_ready) = demo_memory) as E by (vm_compute; reflexivity).
  split_and!; [vm_compute; lia|done|done|]. rewrite E. apply Forall_singleton, demo_valid. intros. by apply mapped_b_ok.
Qed.
Lemma demo_room : ts_room (timer_manager_ demo_ready).
Proof. vm_compute. discriminate. Qed.
Lemma demo_busy_run : chan_run kOrdered demo_busy [42] [].
Proof.
  change [42] with ([] ++ if decide (kOk = kOk) then [42] else []).
  eapply (run_move kOrdered demo_ready [] [] 100 [demo_move] 1 42 kOk); [apply demo_ready_run|done|apply demo_room|intros _; apply demo_ready_valid|].
  refine (final_run (SubmitMove 100 [demo_move] 1 42) demo_ready kOk _). vm_compute. reflexivity.
Qed.

Lemma channel_exactly_once_witness : [42] = [] ++ pend demo_busy ∧ objects demo_busy = kIoDepthMaximum.
Proof. destruct (channel_exactly_once kOrdered demo_busy [42] [] demo_busy_run) as (_ & H & Hobj & _). split; [by apply H|exact Hobj]. Defined.
Lemma submit_move_answers_witness :
  wp (SubmitMove 100 [demo_move] 1 42) (λ st s', if decide (moves_ok [demo_move] 1) then
    pend s' = pend demo_ready ++ (if decide (st = kOk) then [42] else []) ∧ (cached_resource_ demo_ready = [] → st = kResourceBusy)
    else st = kInvalidArgument ∧ s' = demo_ready) demo_ready.
Proof.
  apply (submit_move_answers kOrdered demo_ready [] []); [apply demo_ready_run|done|apply demo_room|intros _; apply demo_ready_valid].
Defined.
Lemma channel_close_witness : wp Close (λ st s',
    (st = kOk ∧ reqs s' = ∅ ∧ ∃ m', en_ok (engine_ s') m' ∧ ∀ p r, reqs demo_busy !! p = Some r → m' !! engine_ctx r = None) ∨
    (st = kResourceBusy ∧ chan_ok s' ∧ queue_ s' ++ expired_queue_ s' ≠ [] ∧ ∃ d, splits (pend demo_busy) d (pend s'))) demo_busy.
Proof.
  apply (channel_close demo_busy kOrdered [42] []); [apply demo_busy_run|]. intros p r Hp Hr.
  assert (queue_ demo_busy = [1]) as Hq by (vm_compute; reflexivity). rewrite Hq in Hp. apply list_elem_of_singleton in Hp as ->.
  assert (r_expired <$> reqs demo_busy !! 1 = Some false) as Hx by (vm_compute; reflexivity). rewrite Hr in Hx. by injection Hx.
Defined.
Definition demo_request : DataFlowRequest := Build (MoveOps [demo_move]) 1 42 0 9 9 (MkReq None 0 0 false false 0 1 0 0 0).
Definition demo_prepared : SwEngine := final sw_PreallocateCtx demo_sw.
Lemma sw_batch_correct_witness :
  wp (st ← sw_Submit demo_ecx demo_request; o ← sw_CheckCompletion demo_request (MkResult kUnknown [] 0); mret (st, o)) (λ '(st, o) e', st = kOk ∧
    bytes_at (sw_mem e') 2000 9 = [0x31; 0x32; 0x33; 0x34; 0x35; 0x36; 0x37; 0x38; 0x39]) demo_prepared.
Proof.
  refine (wp_mono _ _ _ _ (sw_batch_correct demo_ecx eq_refl demo_prepared {[1 := Free]} demo_request [demo_move] (MkResult kUnknown [] 0) _ _ _ _ _) _).
  - pose proof (wp_run _ _ _ _ _ (final_run sw_PreallocateCtx demo_sw (kOk, 1) ltac:(vm_compute; reflexivity)) (en_prealloc_law _ _ demo_sw_ok)) as [_ H].
    by rewrite insert_empty in H.
  - by eexists.
  - reflexivity.
  - assert (sw_mem demo_prepared = demo_memory) as E by (vm_compute; reflexivity).
    split_and!; [vm_compute; lia|done|done|]. rewrite E. apply Forall_singleton, demo_valid. intros. by apply mapped_b_ok.
  - split; [apply Forall_singleton; split; [by left|]; split; [right; left; by vm_compute|done]|]. intros [|j] [|k] o1 o2 H1 H2; [lia|done|done|done].
  - intros [st o] e' (-> & _ & Hb & _). split; [done|].
    change (bytes_at (sw_mem e') (m_dst demo_move) (op_len demo_move) = [0x31; 0x32; 0x33; 0x34; 0x35; 0x36; 0x37; 0x38; 0x39]).
    rewrite (Hb demo_move); [vm_compute; reflexivity|by left].
Defined.

(** ** Runs in which the channel goes wrong *)

(** Two requests are pending and one is polled late. The timer of the other one fires and
    its context goes back to the pool, but the request stays in the queue with the pointer.
    Closing the channel finds the request finished and removes the timer again: the context
    is no longer in the list, and its null links are dereferenced. *)
Theorem close_after_timeout_faults :
  match (SubmitMove 100 [demo_move] 1 42;; SubmitMove 100 [demo_move] 1 43;; Poll 200 demo_results 1 0) demo_ready with
  | Ok ((rs, n), s) => n = 1%nat ∧ Close s = Err NullDeref
  | Err _ => False
  end.
Proof. vm_compute. auto. Qed.

(** [Close] deletes the requests but leaves their addresses in the cache, so that a
    submission on a closed channel writes to a deleted request instead of answering
    CHANNEL_ERROR. *)
Theorem submit_after_close_faults :
  match Close demo_ready with
  | Ok (st, s) => st = kOk ∧ SubmitMove 100 [demo_move] 1 42 s = Err NullDeref
  | Err _ => False
  end.
Proof. vm_compute. auto. Qed.

(** The sum of the lengths is kept in 64 bits and compared with the limit afterwards: two
    segments of 2^63 bytes each count as none, and the operation is passed to the engine; a
    single segment of one byte more than the limit is refused. *)
Theorem length_check_overflows :
  let huge := MkMove [1000; 1004] [2 ^ 63; 2 ^ 63] 2000 0 false in
  SubmitMove 100 [huge] 1 42 = SubmitRequest 100 (MoveOps [huge]) 1 0 0 42 ∧
  SubmitMove 100 [MkMove [1000] [kMaxTotalLength + 1] 2000 0 false] 1 42 demo_ready = Ok (kInvalidArgument, demo_ready).
Proof. split; [reflexivity|vm_compute; reflexivity]. Qed.

(** A result entry that is used again keeps the checksums of the request before. *)
Example results_accumulate :
  match (SubmitMove 100 [demo_move] 1 42;; r ← Poll 101 demo_results 4 0; SubmitMove 102 [demo_move] 1 43;; Poll 103 r.1 4 0) demo_ready with
  | Ok ((rs, n), s) => crc_output <$> rs !! 0%nat = Some [0x1CF96D7C; 0x1CF96D7C]
  | Err _ => False
  end.
Proof. vm_compute. reflexivity. Qed.
