(* ===== verification/DsaDispatch.v ===== *)
(** * Dispatching to DSA work queues (src/src/data_flow/dsa/schedule_strategy.h, dsa_dispatcher.cc)

    The dispatcher owns the work queues, parses the quota each may use, chooses a queue for a
    request by one of three strategies and counts the requests in each queue with an atomic
    counter. The counter's accesses are interleaved between threads in [dstep]. A work queue
    is its position in the dispatcher's list; gauges and log messages are not modelled. *)

From Stdlib Require Import ZArith Lia Ascii String.
From stdpp Require Import prelude gmap strings.
From S2P Require Import Prelude Status DsaUio.
Open Scope Z_scope.

(** ** Work queues (work_queue_info.h) *)

Definition kMaxNumaNum : Z := 32.
Definition kWorkQueueCapacity : Z := 128.

Record WorkQueueInfo := MkWq { uio_info : UioWqInfo; dsa_index : nat; capacity : Z; wq_count : Z }.
#[export] Instance eta_WorkQueueInfo : Eta WorkQueueInfo := λ w, MkWq (uio_info w) (dsa_index w) (capacity w) (wq_count w).

(** ** Strategies *)

Inductive DataFlowScheduleHintType := kNumaAware | kDeviceAware | kRoundRobin | kNumHints.
(** The strategy object: a table of queues by device, a list of queues, or lists by node. *)
Inductive ScheduleStrategy :=
| DeviceAwareStrategy (wq_list_by_dsa_index : list (option nat))
| RoundRobinStrategy (wq_list : list nat)
| NumaAwareStrategy (wq_list_by_numa : list (list nat)).

(** The positions of the queues with a quota, with what [f] says of them. *)
Definition with_quota (wqs : list WorkQueueInfo) : list (nat * WorkQueueInfo) :=
  filter (λ x, 0 < capacity x.2) (imap pair wqs).

Definition dsa_index_max (wqs : list WorkQueueInfo) : nat :=
  foldl (λ m x, if Nat.ltb m (dsa_index x.2) then dsa_index x.2 else m) 0%nat (with_quota wqs).
(** [VESAL_CHECK(table[index] == nullptr); table[index] = wq] for each queue with a quota. *)
Fixpoint fill_devices (l : list (nat * WorkQueueInfo)) (table : list (option nat)) : res (list (option nat)) :=
  match l with
  | [] => Ok table
  | (i, wq) :: l =>
      match table !! dsa_index wq with
      | None => Err OutOfBounds
      | Some (Some _) => Err CheckFailed
      | Some None => fill_devices l (<[dsa_index wq := Some i]> table)
      end
  end.
(** [VESAL_CHECK(numa < kMaxNumaNum); by_numa[numa].push_back(wq)]; the array is indexed with
    the signed node number. *)
Fixpoint fill_nodes (l : list (nat * WorkQueueInfo)) (by_numa : list (list nat)) : res (list (list nat)) :=
  match l with
  | [] => Ok by_numa
  | (i, wq) :: l =>
      let numa := info_numa_node (uio_info wq) in
      if kMaxNumaNum <=? numa then Err CheckFailed
      else if numa <? 0 then Err OutOfBounds
      else fill_nodes l (alter (λ q, q ++ [i]) (Z.to_nat numa) by_numa)
  end.
Definition strategy_Init (hint : DataFlowScheduleHintType) (wqs : list WorkQueueInfo) : res ScheduleStrategy :=
  match wqs with
  | [] => Err CheckFailed
  | _ =>
      match hint with
      | kNumaAware => t ← fill_nodes (with_quota wqs) (replicate (Z.to_nat kMaxNumaNum) []); Ok (NumaAwareStrategy t)
      | kDeviceAware => t ← fill_devices (with_quota wqs) (replicate (S (dsa_index_max wqs)) None); Ok (DeviceAwareStrategy t)
      | _ => Ok (RoundRobinStrategy (fst <$> with_quota wqs))
      end
  end.

(** The thread-local counters. *)
Record tls := MkTls { tls_counter_ : Z; tls_counter_by_numa_ : list Z }.
#[export] Instance eta_tls : Eta tls := λ t, MkTls (tls_counter_ t) (tls_counter_by_numa_ t).
Definition tls_init : tls := MkTls 0 (replicate (Z.to_nat kMaxNumaNum) 0).

Definition GetNext (s : ScheduleStrategy) (schedule_hint : Z) : ST tls (option nat) :=
  match s with
  | DeviceAwareStrategy t =>
      if Z.of_nat (length t) <=? schedule_hint then mret None
      else need OutOfBounds (t !! Z.to_nat schedule_hint)
  | RoundRobinStrategy l =>
      if Nat.eqb (length l) 0 then raise DivByZero
      else
        c ← gets tls_counter_;
        modify (λ t, t <| tls_counter_ ::= λ c, u64 (c + 1) |>);;
        w ← need OutOfBounds (l !! Z.to_nat (c mod Z.of_nat (length l)));
        mret (Some w)
  | NumaAwareStrategy t =>
      if kMaxNumaNum <=? schedule_hint then mret None
      else
        l ← need OutOfBounds (t !! Z.to_nat schedule_hint);
        if Nat.eqb (length l) 0 then mret None
        else
          cs ← gets tls_counter_by_numa_;
          c ← need OutOfBounds (cs !! Z.to_nat schedule_hint);
          modify (λ t, t <| tls_counter_by_numa_ ::= alter (λ c, u64 (c + 1)) (Z.to_nat schedule_hint) |>);;
          w ← need OutOfBounds (l !! Z.to_nat (c mod Z.of_nat (length l)));
          mret (Some w)
  end.

(** ** The quota flag *)

Definition isdigit (c : ascii) : bool := (48 <=? Z.of_nat (nat_of_ascii c)) && (Z.of_nat (nat_of_ascii c) <=? 57).
Definition isspace (c : ascii) : bool :=
  (Z.of_nat (nat_of_ascii c) =? 32) || ((9 <=? Z.of_nat (nat_of_ascii c)) && (Z.of_nat (nat_of_ascii c) <=? 13)).
Definition digit_value (c : ascii) : Z := Z.of_nat (nat_of_ascii c) - 48.

(** [std::stoull]: leading space, a sign, the longest run of digits; it throws when there is
    no digit or the number needs more than 64 bits. *)
Fixpoint leading_digits (s : list ascii) (v : Z) : Z :=
  match s with
  | c :: s => if isdigit c then leading_digits s (10 * v + digit_value c) else v
  | [] => v
  end.
Fixpoint skip_space (s : list ascii) : list ascii :=
  match s with c :: s' => if isspace c then skip_space s' else s | [] => [] end.
Definition stoull (s : list ascii) : res Z :=
  let s := skip_space s in
  let '(negative, s) := match s with "-"%char :: s => (true, s) | "+"%char :: s => (false, s) | s => (false, s) end in
  match s with
  | c :: _ =>
      if isdigit c then
        let v := leading_digits s 0 in
        if 2 ^ 64 <=? v then Err Uncaught else Ok (if negative : bool then u64 (- v) else v)
      else Err Uncaught
  | [] => Err Uncaught
  end.

(** [std::getline(ss, token, ',')] until the stream is used up. *)
Fixpoint getlines (s token : list ascii) : list (list ascii) :=
  match s with
  | [] => [token]
  | c :: s => if bool_decide (c = ","%char) then token :: getlines s [] else getlines s (token ++ [c])
  end.
Fixpoint parse_tokens (l : list (list ascii)) : res (list Z) :=
  match l with
  | [] => Ok []
  | t :: l => if bool_decide (t = []) then parse_tokens l else v ← stoull t; vs ← parse_tokens l; Ok (v :: vs)
  end.
Definition Parse (s : string) : res (list Z) := parse_tokens (getlines (list_ascii_of_string s) []).

Fixpoint valid_loop (s : list ascii) (last_was_comma : bool) : bool :=
  match s with
  | [] => true
  | c :: s =>
      if isdigit c then valid_loop s false
      else if bool_decide (c = ","%char) then (if last_was_comma then false else valid_loop s true)
      else false
  end.
Definition IsValidNumberList (str : string) : bool :=
  let s := list_ascii_of_string str in
  match s with
  | [] => false
  | front :: _ => if negb (isdigit front) || negb (isdigit (List.last s front)) then false else valid_loop s false
  end.

(** A list of numbers separated by commas. *)
Definition number (t : list ascii) : Prop := t ≠ [] ∧ Forall (λ c, isdigit c = true) t.
Fixpoint join (ts : list (list ascii)) : list ascii :=
  match ts with
  | [] => []
  | [t] => t
  | t :: ts => t ++ ","%char :: join ts
  end.
Definition value (t : list ascii) : Z := leading_digits t 0.

Lemma comma_no_digit : isdigit ","%char = false.
Proof. reflexivity. Qed.
Lemma getlines_token t : ∀ s acc, Forall (λ c, isdigit c = true) t → getlines (t ++ s) acc = getlines s (acc ++ t).
Proof.
  induction t as [|c t IH]; intros s acc Ht; [by rewrite app_nil_r|]. apply Forall_cons in Ht as [Hc Ht]. cbn [app getlines].
  rewrite bool_decide_eq_false_2 by (by intros ->). rewrite IH by done. by rewrite <- app_assoc.
Qed.
Lemma getlines_join ts : Forall number ts → ts ≠ [] → getlines (join ts) [] = ts.
Proof.
  induction 1 as [|t ts [Hne Ht] Hts IH]; [done|]. intros _. destruct ts as [|t2 ts].
  - cbn [join]. rewrite <- (app_nil_r t) at 1. by rewrite getlines_token.
  - change (join (t :: t2 :: ts)) with (t ++ ","%char :: join (t2 :: ts)). rewrite getlines_token by done. cbn [getlines app].
    rewrite bool_decide_eq_true_2 by done. by rewrite IH.
Qed.
Lemma stoull_number t : number t → stoull t = if 2 ^ 64 <=? value t then Err Uncaught else Ok (value t).
Proof.
  intros [Hne Ht]. destruct t as [|c t]; [done|]. apply Forall_cons in Ht as [Hc Ht]. unfold stoull.
  assert (isspace c = false) as Hs. { unfold isdigit, isspace in *. lia. }
  cbn [skip_space]. rewrite Hs.
  assert (c ≠ "-"%char ∧ c ≠ "+"%char) as [H1 H2] by (split; intros ->; done).
  destruct c as [b0 b1 b2 b3 b4 b5 b6 b7].
  destruct b0, b1, b2, b3, b4, b5, b6, b7; try (by destruct H1); try (by destruct H2); cbn -[leading_digits Z.leb Z.pow isdigit]; rewrite Hc; done.
Qed.
Lemma parse_numbers ts : Forall number ts →
  parse_tokens ts = if forallb (λ t, value t <? 2 ^ 64) ts then Ok (value <$> ts) else Err Uncaught.
Proof.
  induction 1 as [|t ts Ht Hts IH]; [done|]. cbn [parse_tokens forallb]. rewrite bool_decide_eq_false_2 by apply Ht.
  rewrite stoull_number by done. destruct (Z.leb_spec (2 ^ 64) (value t)) as [Hv|Hv].
  - by rewrite (proj2 (Z.ltb_ge _ _) Hv).
  - rewrite (proj2 (Z.ltb_lt _ _) Hv). cbn. rewrite IH. by destruct (forallb _ ts).
Qed.
Lemma getlines_nonempty s : ∀ acc, getlines s acc ≠ [].
Proof. induction s as [|c s IH]; intros acc; cbn; [done|]. case_bool_decide; [done|apply IH]. Qed.
Lemma join_getlines s : ∀ acc, join (getlines s acc) = acc ++ s.
Proof.
  induction s as [|c s IH]; intros acc; cbn [getlines]; [by rewrite app_nil_r|]. case_bool_decide as Hc.
  - subst. specialize (IH []). destruct (getlines s []) as [|t ts] eqn:E; [by destruct (getlines_nonempty s [])|].
    change (acc ++ ","%char :: join (t :: ts) = acc ++ ","%char :: s). by rewrite IH.
  - rewrite IH. by rewrite <- app_assoc.
Qed.
Lemma last_default {A} (l : list A) d d' : l ≠ [] → List.last l d = List.last l d'.
Proof. induction l as [|x [|y l] IH]; [done|done|]. intros _. by apply IH. Qed.
Lemma valid_tokens s : ∀ acc lwc d, valid_loop s lwc = true → Forall (λ c, isdigit c = true) acc → (lwc = false → acc ≠ []) →
  match s with [] => acc ≠ [] | _ => isdigit (List.last s d) = true end → Forall number (getlines s acc).
Proof.
  induction s as [|c s IH]; intros acc lwc d Hv Ha Hl Hlast; cbn [getlines valid_loop] in *.
  { constructor; [by split|constructor]. }
  destruct (isdigit c) eqn:Hc.
  - rewrite bool_decide_eq_false_2 by (by intros ->). apply (IH (acc ++ [c]) false d Hv).
    + apply Forall_app. by split; [|constructor].
    + intros _. by destruct acc.
    + destruct s; [by destruct acc|]. exact Hlast.
  - case_bool_decide as Hcm; [|done]. subst. destruct lwc; [done|]. constructor; [split; [by apply Hl|done]|].
    apply (IH [] true d Hv); [constructor|done|]. destruct s; [discriminate Hlast|exact Hlast].
Qed.
Lemma valid_digits t : ∀ s b, number t → valid_loop (t ++ s) b = valid_loop s false.
Proof.
  induction t as [|c t IH]; intros s b [Hne Ht]; [done|]. apply Forall_cons in Ht as [Hc Ht]. cbn [app valid_loop]. rewrite Hc.
  destruct t as [|c2 t]; [done|]. by apply IH.
Qed.
Lemma last_app_cons {A} (l : list A) x k d : List.last (l ++ x :: k) d = List.last (x :: k) d.
Proof. induction l as [|y l IH]; [done|]. cbn [app]. rewrite <- IH. by destruct l. Qed.
Lemma join_shape ts : Forall number ts → ts ≠ [] →
  valid_loop (join ts) false = true ∧ ∃ c s, join ts = c :: s ∧ isdigit c = true ∧ ∀ d, isdigit (List.last (join ts) d) = true.
Proof.
  assert (∀ t : list ascii, number t → ∃ c s, t = c :: s ∧ isdigit c = true ∧ ∀ d, isdigit (List.last t d) = true) as Hnum.
  { intros t [Hne Ht]. destruct t as [|c t]; [done|]. exists c, t. apply Forall_cons in Ht as Hc. split_and!; [done|apply Hc|]. intros d.
    rewrite Forall_forall in Ht. apply Ht. clear. revert c. induction t as [|x t IH]; intros c; [by left|]. right. apply IH. }
  induction 1 as [|t ts Ht Hts IH]; [done|]. intros _. destruct ts as [|t2 ts].
  - cbn [join]. split; [|by apply Hnum]. rewrite <- (app_nil_r t). by rewrite valid_digits.
  - change (join (t :: t2 :: ts)) with (t ++ ","%char :: join (t2 :: ts)). destruct IH as (Hv & c & s & E & Hc & Hl); [done|].
    split.
    + rewrite valid_digits by done. cbn [valid_loop]. rewrite comma_no_digit, bool_decide_eq_true_2 by done.
      revert Hv. rewrite E. cbn [valid_loop]. by rewrite Hc.
    + destruct (Hnum t Ht) as (c' & s' & -> & Hc' & _). exists c', (s' ++ ","%char :: join (t2 :: ts)). split_and!; [done|done|]. intros d.
      rewrite last_app_cons. specialize (Hl d). rewrite E in *. exact Hl.
Qed.

(** The quota flag. A string passes the check exactly when it is a list of decimal numbers
    separated by single commas; parsing such a string gives the numbers in order, or throws
    when one of them needs more than 64 bits. *)
Theorem quota_parses str :
  (IsValidNumberList str = true ↔ ∃ ts, ts ≠ [] ∧ Forall number ts ∧ list_ascii_of_string str = join ts) ∧
  ∀ ts, ts ≠ [] → Forall number ts → list_ascii_of_string str = join ts →
    Parse str = if forallb (λ t, value t <? 2 ^ 64) ts then Ok (value <$> ts) else Err Uncaught.
Proof.
  split; [|intros ts Hne Hts E; unfold Parse; rewrite E, getlines_join by done; by apply parse_numbers].
  unfold IsValidNumberList. set (s := list_ascii_of_string str). split.
  - intros Hv. exists (getlines s []). split_and!; [apply getlines_nonempty| |by rewrite join_getlines].
    destruct s as [|c s]; [done|]. destruct (isdigit c) eqn:Hc; [|done]. destruct (isdigit (List.last (c :: s) c)) eqn:Hl; [|done].
    cbn [negb orb] in Hv. cbn [getlines valid_loop] in *. rewrite Hc in Hv. rewrite bool_decide_eq_false_2 by (by intros ->).
    apply (valid_tokens s [c] false c Hv); [by constructor|done|]. destruct s; [done|exact Hl].
  - intros (ts & Hne & Hts & ->). destruct (join_shape ts Hts Hne) as (Hv & c & s' & E & Hc & Hl). specialize (Hl c). rewrite E in *.
    by rewrite Hc, Hl.
Qed.
Example quota_example : IsValidNumberList "16,32" = true ∧ Parse "16,32" = Ok [16; 32] ∧
  IsValidNumberList "16,,32" = false ∧ IsValidNumberList "18446744073709551616" = true ∧ Parse "18446744073709551616" = Err Uncaught.
Proof. vm_compute. auto. Qed.
Lemma quota_parses_witness : ∃ ts, ts ≠ [] ∧ Forall number ts ∧ list_ascii_of_string "16,32" = join ts.
Proof. apply (proj1 (quota_parses "16,32")). vm_compute. reflexivity. Defined.

(** ** The driver as a source of work queues *)

(** What the dispatcher relies on: a queue that is handed out is not out already, a queue that
    is out can be returned, and there are at most [ws_room] queues. *)
Class WorkQueueSource (U : Type) := {
  ws_next : ST U (option UioWqInfo);
  ws_return : UioWqInfo → ST U unit;
  ws_out : U → gset Z → Prop;
  ws_room : U → nat;
  ws_known : UioWqInfo → Prop;
  ws_next_law u out : ws_out u out →
    wp ws_next (λ r u', ws_room u' = ws_room u ∧
      match r with
      | Some w => ws_known w ∧ portal w ≠ 0 ∧ portal w ∉ out ∧ ws_out u' ({[portal w]} ∪ out)
      | None => ws_out u' out
      end) u;
  ws_return_law u out w : ws_out u out → portal w ∈ out →
    wp (ws_return w) (λ _ u', ws_room u' = ws_room u ∧ ws_out u' (out ∖ {[portal w]})) u;
  ws_bound u out : ws_out u out → (size out ≤ ws_room u)%nat }.

Section dispatcher.
Context {U : Type} {WS : WorkQueueSource U}.
(** [InitDsaConfig()], whose result the dispatcher does not look at. *)
Context (InitDsaConfig : ST U unit).

Record DsaDispatcher := MkDisp {
  driver : U; wq_list_ : list WorkQueueInfo; strategy_ : option ScheduleStrategy; init_ : bool }.
#[local] Instance eta_DsaDispatcher : Eta DsaDispatcher := λ d, MkDisp (driver d) (wq_list_ d) (strategy_ d) (init_ d).
Definition on_driver {A} (m : ST U A) : ST DsaDispatcher A := λ d,
  match m (driver d) with Ok (a, u) => Ok (a, d <| driver := u |>) | Err e => Err e end.

(** [for (i = 0;; i++)]: every round takes a queue; the loop ends when there is none. *)
Fixpoint grab_loop (fuel : nat) (i : nat) : ST DsaDispatcher unit :=
  match fuel with
  | O => raise OutOfFuel
  | S fuel =>
      r ← on_driver ws_next;
      match r with
      | None => mret ()
      | Some info =>
          check (negb (portal info =? 0));;
          modify (λ d, d <| wq_list_ ::= λ l, l ++ [MkWq info i 0 0] |>);;
          grab_loop fuel (S i)
      end
  end.
Fixpoint return_loop (l : list WorkQueueInfo) : ST DsaDispatcher unit :=
  match l with
  | [] => mret ()
  | w :: l => on_driver (ws_return (uio_info w));; return_loop l
  end.
Definition CleanUp : ST DsaDispatcher unit :=
  d ← get;
  return_loop (wq_list_ d);;
  modify (λ d, MkDisp (driver d) [] None false).

Definition set_capacities (caps : list Z) (l : list WorkQueueInfo) : list WorkQueueInfo :=
  zip_with (λ w c, w <| capacity := c |>) l caps.
Definition default_quota (n : nat) : list Z := kWorkQueueCapacity :: replicate (pred n) 0.

Definition disp_Init (flag : string) (hint : DataFlowScheduleHintType) : ST DsaDispatcher StatusCode :=
  d ← get;
  if init_ d then mret kOk
  else
    modify (λ d, d <| init_ := true |>);;
    on_driver InitDsaConfig;;
    modify (λ d, d <| wq_list_ := [] |>);;
    d ← get;
    grab_loop (S (ws_room (driver d))) 0;;
    d ← get;
    if bool_decide (wq_list_ d = []) then CleanUp;; mret kHardwareError
    else
      let start :=
        d ← get;
        s ← lift (strategy_Init hint (wq_list_ d));
        modify (λ d, d <| strategy_ := Some s |>);;
        mret kOk in
      if bool_decide (flag = EmptyString) then
        modify (λ d, d <| wq_list_ ::= λ l, set_capacities (default_quota (length l)) l |>);; start
      else if negb (IsValidNumberList flag) then CleanUp;; mret kInvalidArgument
      else
        quota ← lift (Parse flag);
        if negb (Nat.eqb (length quota) (length (wq_list_ d))) then CleanUp;; mret kInvalidArgument
        else modify (λ d, d <| wq_list_ ::= set_capacities quota |>);; start.

(** ** Starting and stopping *)

Definition ports (l : list WorkQueueInfo) : list Z := (λ w, portal (uio_info w)) <$> l.
(** The queues the dispatcher owns are the ones that are out. *)
Record grabbed (d : DsaDispatcher) : Prop := {
  gb_out : ws_out (driver d) (list_to_set (ports (wq_list_ d)));
  gb_nodup : NoDup (ports (wq_list_ d));
  gb_each : ∀ j w, wq_list_ d !! j = Some w → dsa_index w = j ∧ wq_count w = 0 ∧ ws_known (uio_info w) ∧ portal (uio_info w) ≠ 0 }.

Lemma wp_driver {A} (m : ST U A) (P : A → U → Prop) (Q : A → DsaDispatcher → Prop) d :
  wp m P (driver d) → (∀ a u, P a u → Q a (d <| driver := u |>)) → wp (on_driver m) Q d.
Proof. unfold wp, on_driver. destruct (m (driver d)) as [[a u]|]; [|done]. intros HP HQ. by apply HQ. Qed.

Lemma grab_loop_ok fuel : ∀ d, grabbed d → (ws_room (driver d) < fuel + length (wq_list_ d))%nat →
  wp (grab_loop fuel (length (wq_list_ d))) (λ _ d', grabbed d' ∧ strategy_ d' = strategy_ d ∧ init_ d' = init_ d) d.
Proof.
  induction fuel as [|fuel IH]; intros d Hg Hf.
  { exfalso. pose proof (ws_bound _ _ (gb_out _ Hg)) as Hb. rewrite size_list_to_set in Hb by apply Hg. unfold ports in Hb. rewrite length_fmap in Hb. lia. }
  cbn [grab_loop]. wp_step. eapply wp_driver; [exact (ws_next_law _ _ (gb_out _ Hg))|]. cbv beta. intros [w|] u [Hr Hw].
  - destruct Hw as (Hk & Hp0 & Hnew & Hout). rewrite (proj2 (Z.eqb_neq _ _) Hp0). wp_step. apply wp_check; [done|]. do 2 wp_step.
    destruct d as [u0 l st ini]. cbn [driver wq_list_ strategy_ init_ upd] in *.
    set (d1 := MkDisp u (l ++ [MkWq w (length l) 0 0]) st ini).
    assert (grabbed d1) as Hg1.
    { destruct Hg as [G1 G2 G3]. cbn in *. split; cbn.
      - unfold ports in *. rewrite fmap_app, list_to_set_app_L. cbn. rewrite union_empty_r_L, (union_comm_L _ {[_]}). exact Hout.
      - unfold ports in *. rewrite fmap_app. apply NoDup_app. split_and!; [done| |apply NoDup_singleton].
        intros p Hp Hp'%list_elem_of_singleton. subst p. apply Hnew. by apply elem_of_list_to_set.
      - intros j x [Hj|[Hj Hx]]%lookup_app_Some; [by apply G3|]. apply list_lookup_singleton_Some in Hx as [Hx <-]. cbn. split_and!; [lia|done|done|done]. }
    replace (S (length l)) with (length (wq_list_ d1)) by (cbn; rewrite length_app; cbn; lia).
    eapply wp_mono; [apply (IH d1 Hg1); cbn; rewrite length_app; cbn; lia|]. done.
  - wp_step. destruct d as [u0 l st ini]. cbn [driver wq_list_ strategy_ init_ upd] in *. split; [|done]. destruct Hg as [_ G2 G3]. by split.
Qed.

Lemma return_loop_ok l : ∀ d, NoDup (ports l) → ws_out (driver d) (list_to_set (ports l)) →
  wp (return_loop l) (λ _ d', ws_out (driver d') ∅) d.
Proof.
  induction l as [|w l IH]; intros d Hn Ho; cbn [return_loop]; [by wp_step|].
  apply NoDup_cons in Hn as [Hw Hn]. wp_step. eapply wp_driver; [eapply ws_return_law; [exact Ho|cbn; set_solver]|].
  cbv beta. intros [] u [_ Hu]. apply IH; [done|]. cbn [driver upd]. cbn in Hu.
  replace (({[portal (uio_info w)]} ∪ list_to_set (ports l)) ∖ {[portal (uio_info w)]}) with (list_to_set (C := gset Z) (ports l)) in Hu; [done|].
  apply set_eq. intros p. rewrite elem_of_difference, elem_of_union, elem_of_singleton. split; [|naive_solver].
  intros Hp. split; [by right|]. intros ->. apply Hw. by apply elem_of_list_to_set in Hp.
Qed.
Definition down (d : DsaDispatcher) : Prop := wq_list_ d = [] ∧ strategy_ d = None ∧ init_ d = false ∧ ws_out (driver d) ∅.
Lemma CleanUp_ok d : grabbed d → wp CleanUp (λ _ d', down d') d.
Proof.
  intros [G1 G2 G3]. unfold CleanUp. do 3 wp_step. eapply wp_mono; [by apply return_loop_ok|]. cbv beta. intros _ d' Hd. wp_step. by split_and!.
Qed.

(** ** The strategies *)

Lemma with_quota_elem wqs i w : (i, w) ∈ with_quota wqs ↔ wqs !! i = Some w ∧ 0 < capacity w.
Proof.
  unfold with_quota. rewrite list_elem_of_filter. cbn. rewrite elem_of_lookup_imap. split.
  - intros (Hc & j & x & [= -> ->] & Hj). done.
  - intros [Hw Hc]. split; [done|]. by exists i, w.
Qed.
Lemma with_quota_nodup wqs : NoDup ((with_quota wqs).*1).
Proof.
  assert (NoDup ((imap pair wqs).*1)) as Hn.
  { assert (∀ k, (imap (λ i w, ((k + i)%nat, w)) wqs).*1 = seq k (length wqs)) as E.
    { induction wqs as [|w wqs IH]; intros k; [done|]. cbn. f_equal; [lia|]. rewrite <- IH. f_equal. apply imap_ext. intros i x _. cbn. f_equal. lia. }
    pose proof (E 0%nat : (imap pair wqs).*1 = seq 0 (length wqs)) as ->. apply NoDup_seq. }
  unfold with_quota. clear -Hn. induction (imap pair wqs) as [|x l IH]; [constructor|]. cbn in Hn. apply NoDup_cons in Hn as [Hx Hn]. rewrite filter_cons.
  case_decide; [|by apply IH]. cbn. constructor; [|by apply IH]. intros Hin. apply Hx. apply list_elem_of_fmap in Hin as (y & -> & Hy).
  apply list_elem_of_filter in Hy as [_ Hy]. by apply list_elem_of_fmap_2.
Qed.

(** A table by device: position [j] holds queue [j]. *)
Lemma fill_devices_ok l : ∀ table,
  NoDup (l.*1) → (∀ i w, (i, w) ∈ l → dsa_index w = i ∧ table !! i = Some None) →
  ∃ t, fill_devices l table = Ok t ∧ length t = length table ∧ ∀ j, t !! j = if decide (j ∈ l.*1) then Some (Some j) else table !! j.
Proof.
  induction l as [|[i w] l IH]; intros table Hn Hl; cbn [fill_devices].
  { exists table. split_and!; [done|done|]. intros j. by rewrite decide_False by apply not_elem_of_nil. }
  cbn in Hn. apply NoDup_cons in Hn as [Hi Hn]. destruct (Hl i w) as [Hd Ht]; [by left|]. rewrite Hd, Ht.
  destruct (IH (<[i := Some i]> table) Hn) as (t & E & Hlen & Hj).
  - intros k x Hx. destruct (Hl k x) as [? ?]; [by right|]. split; [done|]. rewrite list_lookup_insert_ne; [done|].
    intros <-. apply Hi. by apply (list_elem_of_fmap_2 fst l (i, x)).
  - exists t. split_and!; [done|by rewrite Hlen, length_insert|]. intros j. rewrite Hj. cbn. destruct (decide (j = i)) as [->|Hne].
    + rewrite (decide_True (P := i ∈ i :: l.*1)) by (by left). case_decide; [done|]. apply list_lookup_insert_eq. by eapply lookup_lt_Some.
    + rewrite list_lookup_insert_ne by done. apply decide_ext. rewrite elem_of_cons. naive_solver.
Qed.
Lemma dsa_index_max_bound wqs i w : (i, w) ∈ with_quota wqs → (dsa_index w ≤ dsa_index_max wqs)%nat.
Proof.
  unfold dsa_index_max. generalize 0%nat. induction (with_quota wqs) as [|x l IH]; intros m; [by intros ?%not_elem_of_nil|].
  assert (∀ k, k ≤ foldl (λ m x, if Nat.ltb m (dsa_index x.2) then dsa_index x.2 else m) k l)%nat as Hge.
  { clear. induction l as [|y l IH]; intros k; cbn [foldl]; [done|]. destruct (Nat.ltb_spec k (dsa_index y.2)); [|apply IH]. etrans; [|apply IH]. lia. }
  cbn [foldl]. intros [<- |Hin]%elem_of_cons; [|by apply IH]. cbn [snd]. destruct (Nat.ltb_spec m (dsa_index w)); [apply Hge|]. etrans; [|apply Hge]. lia.
Qed.
(** The lists by node. *)
Lemma fill_nodes_ok l : ∀ t, length t = Z.to_nat kMaxNumaNum →
  (∀ i w, (i, w) ∈ l → 0 <= info_numa_node (uio_info w) < kMaxNumaNum) →
  ∃ t', fill_nodes l t = Ok t' ∧ length t' = Z.to_nat kMaxNumaNum ∧
    ∀ n q, t !! n = Some q → t' !! n = Some (q ++ (filter (λ x, info_numa_node (uio_info x.2) = Z.of_nat n) l).*1).
Proof.
  induction l as [|[i w] l IH]; intros t Ht Hl; cbn [fill_nodes].
  { exists t. split_and!; [done|done|]. intros n q Hq. by rewrite app_nil_r. }
  destruct (Hl i w) as [H0 H1]; [by left|]. rewrite (proj2 (Z.leb_gt _ _) H1), (proj2 (Z.ltb_ge _ _) H0).
  set (a := Z.to_nat (info_numa_node (uio_info w))).
  destruct (IH (alter (λ q, q ++ [i]) a t)) as (t' & E & Hlen & Hn); [by rewrite length_alter|intros; eapply Hl; by right|].
  exists t'. split_and!; [done|done|]. intros n q Hq. rewrite filter_cons. cbn [snd].
  destruct (decide (n = a)) as [->|Hne].
  - rewrite decide_True by (unfold a; lia). cbn. rewrite (Hn a (q ++ [i])) by (by rewrite list_lookup_alter_eq, Hq). by rewrite <- app_assoc.
  - rewrite decide_False by (unfold a in Hne; lia). apply Hn. by rewrite list_lookup_alter_ne.
Qed.

(** Several calls by one thread. *)
Fixpoint GetNexts (s : ScheduleStrategy) (hint : Z) (n : nat) : ST tls (list (option nat)) :=
  match n with O => mret [] | S n => w ← GetNext s hint; ws ← GetNexts s hint n; mret (w :: ws) end.
Definition picks (l : list nat) (c : Z) (n : nat) : list (option nat) := (λ k, l !! Z.to_nat ((c + Z.of_nat k) mod Z.of_nat (length l))) <$> seq 0 n.

Lemma picks_cons l c n : picks l c (S n) = l !! Z.to_nat (c mod Z.of_nat (length l)) :: picks l (c + 1) n.
Proof.
  unfold picks. cbn [seq fmap list_fmap]. rewrite Z.add_0_r. f_equal. rewrite <- fmap_S_seq, <- list_fmap_compose. apply list_fmap_ext.
  intros i x _. cbn. do 3 f_equal. lia.
Qed.
(** As many calls as there are queues give each queue once. *)
Lemma picks_round l c : 0 <= c → picks l c (length l) ≡ₚ Some <$> l.
Proof.
  intros Hc. assert (picks l c (length l) = Some <$> rotate (Z.to_nat c) l) as ->.
  { apply list_eq. intros i. unfold picks. rewrite !list_lookup_fmap. destruct (decide (i < length l)%nat) as [Hi|Hi].
    - rewrite lookup_seq_lt, lookup_rotate_r by done. cbn. unfold rotate_nat_add. rewrite Z2Nat.id by done.
      assert (Z.to_nat ((c + Z.of_nat i) mod Z.of_nat (length l)) < length l)%nat as Hlt.
      { pose proof (Z.mod_pos_bound (c + Z.of_nat i) (Z.of_nat (length l)) ltac:(lia)). lia. }
      by destruct (lookup_lt_is_Some_2 l _ Hlt) as [x ->].
    - rewrite lookup_seq_ge, (proj2 (lookup_ge_None (rotate _ _) i)) by (rewrite ?length_rotate; lia). done. }
  apply fmap_Permutation. unfold rotate. by rewrite Permutation_app_comm, take_drop.
Qed.
Lemma lookup_mod (l : list nat) c : (0 < length l)%nat → ∃ w, l !! Z.to_nat (c mod Z.of_nat (length l)) = Some w ∧ w ∈ l.
Proof.
  intros Hl. destruct (lookup_lt_is_Some_2 l (Z.to_nat (c mod Z.of_nat (length l)))) as [w Hw].
  - pose proof (Z.mod_pos_bound c (Z.of_nat (length l)) ltac:(lia)). lia.
  - exists w. split; [done|by eapply list_elem_of_lookup_2].
Qed.
Lemma rr_calls l hint n : ∀ t, (0 < length l)%nat → 0 <= tls_counter_ t → tls_counter_ t + Z.of_nat n <= 2 ^ 64 →
  wp (GetNexts (RoundRobinStrategy l) hint n) (λ ws _, ws = picks l (tls_counter_ t) n) t.
Proof.
  induction n as [|n IH]; intros t Hl H0 Hb; cbn [GetNexts]; [by wp_step|].
  wp_step. cbn [GetNext]. rewrite (proj2 (Nat.eqb_neq _ _)) by lia. do 4 wp_step.
  destruct (lookup_mod l (tls_counter_ t) Hl) as (w & Hw & _). wp_step. eapply wp_need; [exact Hw|]. do 2 wp_step.
  rewrite picks_cons, Hw. destruct n as [|n].
  - cbn [GetNexts]. do 2 wp_step. done.
  - eapply wp_mono; [apply IH; [done| |]; cbn; rewrite (wrap_small 64) by (unfold in_range; lia); lia|]. cbv beta. cbn [tls_counter_ upd].
    intros ws t' ->. wp_step. by rewrite (wrap_small 64) by (unfold in_range; lia).
Qed.
Lemma numa_calls tbl l hint n : ∀ t c, tbl !! Z.to_nat hint = Some l → (0 < length l)%nat → 0 <= hint < kMaxNumaNum →
  tls_counter_by_numa_ t !! Z.to_nat hint = Some c → 0 <= c → c + Z.of_nat n <= 2 ^ 64 →
  wp (GetNexts (NumaAwareStrategy tbl) hint n) (λ ws _, ws = picks l c n) t.
Proof.
  induction n as [|n IH]; intros t c Ht Hl Hh Hc H0 Hb; cbn [GetNexts]; [by wp_step|].
  wp_step. cbn [GetNext]. rewrite (proj2 (Z.leb_gt _ _)) by lia. wp_step. eapply wp_need; [exact Ht|]. rewrite (proj2 (Nat.eqb_neq _ _)) by lia.
  do 2 wp_step. wp_step. eapply wp_need; [exact Hc|]. do 2 wp_step.
  destruct (lookup_mod l c Hl) as (w & Hw & _). wp_step. eapply wp_need; [exact Hw|]. do 2 wp_step. rewrite picks_cons, Hw. destruct n as [|n].
  - cbn [GetNexts]. do 2 wp_step. done.
  - eapply wp_mono; [apply (IH _ (u64 (c + 1))); [done|done|done|cbn; by rewrite list_lookup_alter_eq, Hc|..]; rewrite (wrap_small 64) by (unfold in_range; lia); lia|].
    cbv beta. intros ws t' ->. wp_step. by rewrite (wrap_small 64) by (unfold in_range; lia).
Qed.

(** The queues with a quota, and those of one node. *)
Definition usable (wqs : list WorkQueueInfo) : list nat := (with_quota wqs).*1.
Definition usable_on (wqs : list WorkQueueInfo) (node : Z) : list nat :=
  (filter (λ x, info_numa_node (uio_info x.2) = node) (with_quota wqs)).*1.

Lemma device_strategy wqs : wqs ≠ [] → (∀ j w, wqs !! j = Some w → dsa_index w = j) →
  ∃ t, strategy_Init kDeviceAware wqs = Ok (DeviceAwareStrategy t) ∧
    ∀ hint tl, 0 <= hint → GetNext (DeviceAwareStrategy t) hint tl = Ok (if decide (Z.to_nat hint ∈ usable wqs) then Some (Z.to_nat hint) else None, tl).
Proof.
  intros Hne Hidx. assert (∀ i w, (i, w) ∈ with_quota wqs → dsa_index w = i) as Hd by (intros i w [Hw _]%with_quota_elem; by apply Hidx).
  destruct (fill_devices_ok (with_quota wqs) (replicate (S (dsa_index_max wqs)) None)) as (t & E & Hl & Hj).
  - apply with_quota_nodup.
  - intros i w Hw. split; [by apply Hd|]. pose proof (dsa_index_max_bound _ _ _ Hw) as Hb. rewrite (Hd _ _ Hw) in Hb. apply lookup_replicate. split; [done|lia].
  - exists t. split; [unfold strategy_Init; destruct wqs; [done|]; by rewrite E|]. rewrite length_replicate in Hl.
    intros hint tl Hh. cbn [GetNext]. destruct (Z.leb_spec (Z.of_nat (length t)) hint) as [Hge|Hlt].
    + rewrite decide_False; [done|]. unfold usable. intros ([i w] & Ei & Hw)%list_elem_of_fmap.
      pose proof (dsa_index_max_bound _ _ _ Hw) as Hb. rewrite (Hd _ _ Hw) in Hb. cbn in Ei. lia.
    + rewrite Hj. fold (usable wqs). case_decide as Hu; [done|]. rewrite (lookup_replicate_2 (S (dsa_index_max wqs)) None) by lia. done.
Qed.

(** Which work queue a request goes to. By device, a hint selects exactly the queue of that
    device, if it has a quota. By node, a hint selects the queues of that node with a quota in
    turn, each once in as many calls as there are queues; without such a queue none is
    selected. Otherwise all queues with a quota are selected in turn. *)
Theorem strategy_chooses wqs hint tl :
  wqs ≠ [] → (∀ j w, wqs !! j = Some w → dsa_index w = j) → 0 <= hint →
  (∃ s, strategy_Init kDeviceAware wqs = Ok s ∧
    GetNext s hint tl = Ok (if decide (Z.to_nat hint ∈ usable wqs) then Some (Z.to_nat hint) else None, tl)) ∧
  ((∀ j w, wqs !! j = Some w → 0 < capacity w → 0 <= info_numa_node (uio_info w) < kMaxNumaNum) →
   ∃ s, strategy_Init kNumaAware wqs = Ok s ∧
    if decide (usable_on wqs hint = []) then GetNext s hint tl = Ok (None, tl)
    else ∀ c, tls_counter_by_numa_ tl !! Z.to_nat hint = Some c → 0 <= c → c + Z.of_nat (length (usable_on wqs hint)) <= 2 ^ 64 →
      wp (GetNexts s hint (length (usable_on wqs hint))) (λ ws _, ws ≡ₚ Some <$> usable_on wqs hint) tl) ∧
  (usable wqs ≠ [] → ∃ s, strategy_Init kRoundRobin wqs = Ok s ∧
    (0 <= tls_counter_ tl → tls_counter_ tl + Z.of_nat (length (usable wqs)) <= 2 ^ 64 →
     wp (GetNexts s hint (length (usable wqs))) (λ ws _, ws ≡ₚ Some <$> usable wqs) tl)).
Proof.
  intros Hne Hidx Hh. split_and!.
  - destruct (device_strategy wqs Hne Hidx) as (t & E & Hg). exists (DeviceAwareStrategy t). split; [done|by apply Hg].
  - intros Hnode. destruct (fill_nodes_ok (with_quota wqs) (replicate (Z.to_nat kMaxNumaNum) [])) as (t & E & Hl & Hn).
    { by rewrite length_replicate. }
    { intros i w [Hw Hc]%with_quota_elem. by apply (Hnode i). }
    exists (NumaAwareStrategy t). split; [unfold strategy_Init; destruct wqs; [done|]; by rewrite E|].
    destruct (decide (hint < kMaxNumaNum)) as [Hlt|Hge].
    + specialize (Hn (Z.to_nat hint) []). rewrite Z2Nat.id in Hn by done. fold (usable_on wqs hint) in Hn. cbn [app] in Hn.
      specialize (Hn ltac:(apply lookup_replicate; split; [done|lia])). destruct (decide (usable_on wqs hint = [])) as [He|He].
      * cbn [GetNext]. rewrite (proj2 (Z.leb_gt _ _)) by lia. by rewrite Hn, He.
      * intros c Hc H0 Hb. eapply wp_mono; [eapply numa_calls; [exact Hn| |done|exact Hc|done|done]; destruct (usable_on wqs hint); [done|cbn; lia]|].
        cbv beta. intros ws _ ->. by apply picks_round.
    + assert (usable_on wqs hint = []) as Hnone.
      { unfold usable_on. rewrite filter_none; [done|]. intros [i w] [Hw Hc]%with_quota_elem Hx. cbn in Hx. pose proof (Hnode i w Hw Hc). lia. }
      rewrite decide_True by done. cbn [GetNext]. by rewrite (proj2 (Z.leb_le _ _)) by lia.
  - intros Hu. exists (RoundRobinStrategy (usable wqs)). split; [by destruct wqs|]. intros H0 Hb.
    eapply wp_mono; [apply rr_calls; [destruct (usable wqs); [done|cbn; lia]|done|done]|]. cbv beta. intros ws _ ->. by apply picks_round.
Qed.

(** ** Initialisation *)

Lemma set_capacities_lookup caps l j w : length caps = length l → set_capacities caps l !! j = Some w →
  ∃ w0 c, l !! j = Some w0 ∧ caps !! j = Some c ∧ w = w0 <| capacity := c |>.
Proof. intros Hl. unfold set_capacities. rewrite lookup_zip_with_Some. intros (w0 & c & -> & ? & ?). eauto. Qed.
Lemma set_capacities_length caps l : length caps = length l → length (set_capacities caps l) = length l.
Proof. intros Hl. unfold set_capacities. rewrite length_zip_with. lia. Qed.
Lemma set_capacities_grabbed caps d : length caps = length (wq_list_ d) → grabbed d → grabbed (d <| wq_list_ ::= set_capacities caps |>).
Proof.
  intros Hl [G1 G2 G3]. destruct d as [u l st ini]. cbn [driver wq_list_ strategy_ init_ upd] in *.
  assert (ports (set_capacities caps l) = ports l) as Hp.
  { clear -Hl. unfold ports, set_capacities. revert caps Hl. induction l as [|w l IH]; intros [|c caps] Hl; try done. cbn. f_equal. apply IH. by injection Hl. }
  split; cbn [driver wq_list_].
  - by rewrite Hp.
  - by rewrite Hp.
  - intros j w (w0 & c & Hw & _ & ->)%set_capacities_lookup; [|done]. cbn. by apply G3.
Qed.
Lemma set_capacities_caps caps l : length caps = length l → capacity <$> set_capacities caps l = caps.
Proof.
  revert caps. induction l as [|w l IH]; intros [|c caps] Hl; try done. cbn. f_equal. apply IH. by injection Hl.
Qed.
Lemma strategy_Init_ok d hint : grabbed d → wq_list_ d ≠ [] →
  (hint = kNumaAware → ∀ w, ws_known w → 0 <= info_numa_node w < kMaxNumaNum) → ∃ s, strategy_Init hint (wq_list_ d) = Ok s.
Proof.
  intros [G1 G2 G3] Hne Hn. unfold strategy_Init. destruct (wq_list_ d) as [|w0 l] eqn:El; [done|]. rewrite <- El in *. destruct hint.
  - destruct (fill_nodes_ok (with_quota (wq_list_ d)) (replicate (Z.to_nat kMaxNumaNum) [])) as (t & E & _); [by rewrite length_replicate| |].
    + intros i w [Hw _]%with_quota_elem. destruct (G3 i w Hw) as (_ & _ & Hk & _). by apply Hn.
    + rewrite El in *. rewrite E. by eexists.
  - destruct (device_strategy (wq_list_ d)) as (t & E & _); [by rewrite El|intros j w Hw; by apply (G3 j)|].
    unfold strategy_Init in E. rewrite El in *. by eexists.
  - rewrite El. by eexists.
  - rewrite El. by eexists.
Qed.

Record started (flag : string) (hint : DataFlowScheduleHintType) (d : DsaDispatcher) : Prop := {
  sd_grabbed : grabbed d;
  sd_some : wq_list_ d ≠ [];
  sd_init : init_ d = true;
  sd_strategy : ∃ s, strategy_ d = Some s ∧ strategy_Init hint (wq_list_ d) = Ok s;
  sd_quota : if bool_decide (flag = EmptyString) then capacity <$> wq_list_ d = default_quota (length (wq_list_ d))
    else Parse flag = Ok (capacity <$> wq_list_ d) }.

(** Starting the dispatcher. When the driver is up and every quota fits in 64 bits, the
    start returns: either all free queues are owned, each by one entry, every entry has the
    quota the flag gives it (all of the first queue's capacity when the flag is empty), and
    the strategy is ready; or an error is answered and every queue has been returned. *)
Theorem dispatcher_starts d flag hint :
  init_ d = false → wp InitDsaConfig (λ _ u, ws_out u ∅) (driver d) →
  (IsValidNumberList flag = true → ∃ q, Parse flag = Ok q) →
  (hint = kNumaAware → ∀ w, ws_known w → 0 <= info_numa_node w < kMaxNumaNum) →
  wp (disp_Init flag hint) (λ st d', (st = kOk ∧ started flag hint d') ∨ (st ≠ kOk ∧ down d')) d.
Proof.
  intros Hi Hconf Hq Hn. unfold disp_Init. do 2 wp_step. rewrite Hi. do 3 wp_step.
  eapply wp_driver; [exact Hconf|]. cbv beta. intros [] u Hu. do 5 wp_step. destruct d as [u0 l0 st0 i0]. cbn [driver wq_list_ strategy_ init_ upd] in *.
  set (d1 := MkDisp u [] st0 true).
  assert (grabbed d1) as Hg1 by (split; cbn; [exact Hu|constructor|done]).
  eapply wp_mono; [apply (grab_loop_ok _ d1 Hg1); cbn; lia|]. cbv beta. intros _ d2 (Hg2 & Hs2 & Hi2). do 2 wp_step.
  case_bool_decide as Hempty.
  { wp_step. eapply wp_mono; [by apply CleanUp_ok|]. cbv beta. intros _ d3 Hd3. wp_step. by right. }
  assert (∀ d3, grabbed d3 → wq_list_ d3 ≠ [] → init_ d3 = true →
    (if bool_decide (flag = EmptyString) then capacity <$> wq_list_ d3 = default_quota (length (wq_list_ d3)) else Parse flag = Ok (capacity <$> wq_list_ d3)) →
    wp (d ← get; s ← lift (strategy_Init hint (wq_list_ d)); modify (λ d, d <| strategy_ := Some s |>);; mret kOk)
      (λ st d', (st = kOk ∧ started flag hint d') ∨ (st ≠ kOk ∧ down d')) d3) as Hstart.
  { intros d3 Hg3 Hne3 Hi3 Hq3. destruct (strategy_Init_ok d3 hint Hg3 Hne3 Hn) as [s Es]. do 2 wp_step. rewrite Es. do 5 wp_step. left. split; [done|].
    destruct d3 as [u3 l3 s3 i3]. cbn [driver wq_list_ strategy_ init_ upd] in *. destruct Hg3 as [G1 G2 G3]. split; cbn [wq_list_ init_ strategy_ driver]; [by split|done|done|by exists s|done]. }
  destruct d2 as [u2 l2 s2 i2]. cbn [driver wq_list_ strategy_ init_ upd] in *. subst i2.
  assert (∀ caps, length caps = length l2 → set_capacities caps l2 ≠ []) as Hsc.
  { intros caps Hl E. apply (f_equal length) in E. rewrite set_capacities_length in E by done. by destruct l2. }
  assert (length (default_quota (length l2)) = length l2) as Hdq.
  { unfold default_quota. cbn. rewrite length_replicate. destruct l2; [done|]. cbn. lia. }
  case_bool_decide as Hflag.
  - do 2 wp_step. cbn [driver wq_list_ strategy_ init_ upd]. apply Hstart; cbn [wq_list_ init_]; [|by apply Hsc|done|].
    + exact (set_capacities_grabbed (default_quota (length l2)) (MkDisp u2 l2 s2 _) Hdq Hg2).
    + rewrite set_capacities_caps, set_capacities_length by done. done.
  - destruct (IsValidNumberList flag) eqn:Hv; cbn [negb].
    2: { wp_step. eapply wp_mono; [by apply CleanUp_ok|]. cbv beta. intros _ d3 Hd3. wp_step. by right. }
    destruct (Hq eq_refl) as [q Eq]. rewrite Eq. do 2 wp_step. destruct (Nat.eqb_spec (length q) (length l2)) as [Hl|Hl]; cbn [negb].
    2: { wp_step. eapply wp_mono; [by apply CleanUp_ok|]. cbv beta. intros _ d3 Hd3. wp_step. by right. }
    do 2 wp_step. cbn [driver wq_list_ strategy_ init_ upd]. apply Hstart; cbn [wq_list_ init_]; [|by apply Hsc|done|].
    + exact (set_capacities_grabbed q (MkDisp u2 l2 s2 _) Hl Hg2).
    + by rewrite set_capacities_caps.
Qed.
End dispatcher.

(** ** Submission *)

(** [size.fetch_add(1)] and [size.fetch_sub(1)] of queue [w]; they return the old value. *)
Definition fetch_add (w : nat) : ST (list WorkQueueInfo) Z :=
  l ← get;
  x ← need NullDeref (l !! w);
  modify (alter (λ x, x <| wq_count ::= λ n, u64 (n + 1) |>) w);;
  mret (wq_count x).
Definition fetch_sub (w : nat) : ST (list WorkQueueInfo) Z :=
  l ← get;
  x ← need NullDeref (l !! w);
  modify (alter (λ x, x <| wq_count ::= λ n, u64 (n - 1) |>) w);;
  mret (wq_count x).

(** What a thread sees: the queues, its counters, and the descriptors written to portals. *)
Record queues := MkQueues { wqs : list WorkQueueInfo; my_tls : tls; portal_writes : list (Z * Z) }.
#[export] Instance eta_queues : Eta queues := λ q, MkQueues (wqs q) (my_tls q) (portal_writes q).
Definition on_tls {A} (m : ST tls A) : ST queues A := λ q,
  match m (my_tls q) with Ok (a, t) => Ok (a, q <| my_tls := t |>) | Err e => Err e end.
Definition on_wqs {A} (m : ST (list WorkQueueInfo) A) : ST queues A := λ q,
  match m (wqs q) with Ok (a, l) => Ok (a, q <| wqs := l |>) | Err e => Err e end.

(** [DsaDispatcher::Submit] for the descriptors at [descs]; the queue is stored in the
    context. *)
Definition disp_Submit (s : ScheduleStrategy) (hint descs : Z) : ST queues (StatusCode * option nat) :=
  chosen ← on_tls (GetNext s hint);
  match chosen with
  | None => mret (kInvalidArgument, None)
  | Some w =>
      q ← get;
      x ← need NullDeref (wqs q !! w);
      result ← on_wqs (fetch_add w);
      if result <? capacity x then
        modify (λ q, q <| portal_writes ::= λ l, l ++ [(portal (uio_info x), descs)] |>);;
        mret (kOk, Some w)
      else on_wqs (fetch_sub w);; mret (kResourceBusy, None)
  end.
Definition NotifyCompletion (w : nat) : ST queues Z := on_wqs (fetch_sub w).

(** ** Threads that share the queues

    A thread inside [Submit] has won or lost the comparison; [d_inflight] are the queues of
    the descriptors that were written and whose completion was not noticed yet. *)

Inductive phase := Won (w : nat) | Lost (w : nat).
#[export] Instance phase_eq_dec : EqDecision phase.
Proof. solve_decision. Defined.
Definition queue_of (p : phase) : nat := match p with Won w => w | Lost w => w end.
Record dsys := MkDsys { d_wqs : list WorkQueueInfo; d_threads : gmap nat phase; d_inflight : list nat }.

Inductive dstep (T : nat) : dsys → dsys → Prop :=
| d_add ws th fl t w x old ws' :
    (t < T)%nat → th !! t = None → ws !! w = Some x → fetch_add w ws = Ok (old, ws') →
    dstep T (MkDsys ws th fl) (MkDsys ws' (<[t := if old <? capacity x then Won w else Lost w]> th) fl)
| d_write ws th fl t w : th !! t = Some (Won w) → dstep T (MkDsys ws th fl) (MkDsys ws (delete t th) (w :: fl))
| d_undo ws th fl t w old ws' :
    th !! t = Some (Lost w) → fetch_sub w ws = Ok (old, ws') → dstep T (MkDsys ws th fl) (MkDsys ws' (delete t th) fl)
| d_notify ws th fl1 w fl2 old ws' :
    fetch_sub w ws = Ok (old, ws') → dstep T (MkDsys ws th (fl1 ++ w :: fl2)) (MkDsys ws' th (fl1 ++ fl2)).

Definition held_by (P : phase → Prop) `{!∀ p, Decision (P p)} (th : gmap nat phase) : nat := size (filter (λ x, P x.2) th).
Lemma held_insert P `{!∀ p, Decision (P p)} th t p : th !! t = None → held_by P (<[t := p]> th) = ((if decide (P p) then 1 else 0) + held_by P th)%nat.
Proof.
  intros Ht. unfold held_by. case_decide as Hp.
  - rewrite map_filter_insert_True by done. apply map_size_insert_None. apply map_lookup_filter_None. by left.
  - rewrite map_filter_insert_False, delete_id by done. done.
Qed.
Lemma held_delete P `{!∀ p, Decision (P p)} th t p : th !! t = Some p → held_by P th = ((if decide (P p) then 1 else 0) + held_by P (delete t th))%nat.
Proof. intros Ht. rewrite <- (insert_delete_id th t p Ht) at 1. apply held_insert. apply lookup_delete_eq. Qed.
Lemma held_le P Q `{!∀ p, Decision (P p)} `{!∀ p, Decision (Q p)} th : (∀ p, P p → Q p) → (held_by P th ≤ held_by Q th)%nat.
Proof.
  intros HPQ. unfold held_by. apply map_subseteq_size, map_subseteq_spec. intros i x [Hi Hx]%map_lookup_filter_Some.
  apply map_lookup_filter_Some. split; [done|]. by apply HPQ.
Qed.

Definition at_queue (w : nat) (th : gmap nat phase) : nat := held_by (λ p, queue_of p = w) th.
Definition won_at (w : nat) (th : gmap nat phase) : nat := held_by (λ p, p = Won w) th.
Definition in_queue (w : nat) (fl : list nat) : nat := length (filter (λ v, v = w) fl).

Record dinv (T : nat) (s : dsys) : Prop := {
  di_threads : ∀ t, is_Some (d_threads s !! t) → (t < T)%nat;
  di_known : ∀ t p, d_threads s !! t = Some p → is_Some (d_wqs s !! queue_of p);
  di_flight : ∀ w, w ∈ d_inflight s → is_Some (d_wqs s !! w);
  di_count : ∀ w x, d_wqs s !! w = Some x →
    wq_count x = Z.of_nat (at_queue w (d_threads s)) + Z.of_nat (in_queue w (d_inflight s));
  di_cap : ∀ w x, d_wqs s !! w = Some x →
    Z.of_nat (won_at w (d_threads s)) + Z.of_nat (in_queue w (d_inflight s)) <= capacity x ∧ capacity x + Z.of_nat T < 2 ^ 64 }.

Lemma threads_bound T (th : gmap nat phase) w : (∀ t, is_Some (th !! t) → (t < T)%nat) → (at_queue w th ≤ T)%nat.
Proof.
  intros Ht. etrans; [apply (held_le _ (λ _, True)); done|]. unfold held_by. rewrite map_filter_id by done. rewrite <- size_dom.
  rewrite <- (size_set_seq (C := gset nat) 0 T). apply subseteq_size. intros t Hd%elem_of_dom%Ht. apply elem_of_set_seq. lia.
Qed.
Lemma won_le w th : (won_at w th ≤ at_queue w th)%nat.
Proof. apply held_le. by intros p ->. Qed.
Lemma alter_wq f w (ws : list WorkQueueInfo) v x : alter f w ws !! v = Some x →
  ∃ x0, ws !! v = Some x0 ∧ x = if decide (v = w) then f x0 else x0.
Proof.
  destruct (decide (v = w)) as [->|Hne].
  - rewrite list_lookup_alter_eq. intros (x0 & Hx & ->)%fmap_Some. exists x0. done.
  - rewrite list_lookup_alter_ne by done. intros Hx. exists x. done.
Qed.
Lemma alter_known f w (ws : list WorkQueueInfo) v : is_Some (ws !! v) → is_Some (alter f w ws !! v).
Proof. destruct (decide (v = w)) as [->|Hne]; [rewrite list_lookup_alter_eq, fmap_is_Some; done|by rewrite list_lookup_alter_ne]. Qed.
Lemma in_queue_cons w v fl : in_queue w (v :: fl) = ((if decide (v = w) then 1 else 0) + in_queue w fl)%nat.
Proof. unfold in_queue. rewrite filter_cons. by case_decide. Qed.
Lemma in_queue_middle w fl1 v fl2 : in_queue w (fl1 ++ v :: fl2) = ((if decide (v = w) then 1 else 0) + in_queue w (fl1 ++ fl2))%nat.
Proof. unfold in_queue. rewrite !filter_app, !length_app, filter_cons. case_decide; cbn [length]; lia. Qed.
Lemma fetch_add_run w ws old ws' : fetch_add w ws = Ok (old, ws') → ∃ x, ws !! w = Some x ∧ old = wq_count x ∧
  ws' = alter (λ x, x <| wq_count ::= λ n, u64 (n + 1) |>) w ws.
Proof. unfold fetch_add, mbind, ST_bind, get. cbn. destruct (ws !! w) as [x|]; [|done]. intros [= <- <-]. by exists x. Qed.
Lemma fetch_sub_run w ws old ws' : fetch_sub w ws = Ok (old, ws') → ∃ x, ws !! w = Some x ∧ old = wq_count x ∧
  ws' = alter (λ x, x <| wq_count ::= λ n, u64 (n - 1) |>) w ws.
Proof. unfold fetch_sub, mbind, ST_bind, get. cbn. destruct (ws !! w) as [x|]; [|done]. intros [= <- <-]. by exists x. Qed.

Lemma dstep_inv T s s' : dinv T s → dstep T s s' → dinv T s'.
Proof.
  intros [I1 I2 I3 I4 I5] Hst. destruct Hst as [ws th fl t w x old ws' Ht Hn Hw Hadd|ws th fl t w Ht|ws th fl t w old ws' Ht Hsub|ws th fl1 w fl2 old ws' Hsub]; cbn [d_wqs d_threads d_inflight] in *.
  - apply fetch_add_run in Hadd as (x' & Hx' & -> & ->). rewrite Hw in Hx'. injection Hx' as <-.
    set (p := if wq_count x <? capacity x then Won w else Lost w). assert (queue_of p = w) as Hp by (unfold p; by destruct (_ <? _)).
    split; cbn [d_wqs d_threads d_inflight].
    + intros t'. rewrite lookup_insert_is_Some'. intros [<- |?]; [done|by apply I1].
    + intros t' q [[<- <-] | [_ Hq]]%lookup_insert_Some; apply alter_known; [rewrite Hp; by eexists|by eapply I2].
    + intros v Hv. by apply alter_known, I3.
    + intros v y (y0 & Hy & ->)%alter_wq. unfold at_queue. rewrite (held_insert _ th t p Hn), Hp. fold (at_queue v th).
      pose proof (I4 v y0 Hy) as Hc. destruct (decide (v = w)) as [->|Hne]; [|rewrite decide_False by done; lia].
      rewrite decide_True by done. cbn. destruct (I5 w y0 Hy).
      assert (S (at_queue w th) ≤ T)%nat.
      { transitivity (at_queue w (<[t:=p]> th)); [unfold at_queue; rewrite (held_insert _ th t p Hn), decide_True by done; lia|].
        apply threads_bound. intros t'. rewrite lookup_insert_is_Some'. intros [<- |?]; [done|by apply I1]. }
      rewrite wrap_small by (unfold in_range; lia). lia.
    + intros v y (y0 & Hy & ->)%alter_wq. destruct (I5 v y0 Hy) as [Hcap Hb]. unfold won_at. rewrite (held_insert _ th t p Hn). fold (won_at v th).
      destruct (decide (v = w)) as [->|Hne].
      * rewrite Hw in Hy. injection Hy as <-. cbn. split; [|done]. pose proof (I4 w x Hw) as Hc. pose proof (won_le w th).
        unfold p. destruct (Z.ltb_spec (wq_count x) (capacity x)); case_decide; try done; lia.
      * split; [|done]. rewrite decide_False by (intros E; apply Hne; by rewrite <- Hp, E). lia.
  - split; cbn [d_wqs d_threads d_inflight].
    + intros t' [_ [? ?]]%lookup_delete_is_Some. apply I1. by eexists.
    + intros t' q [_ Hq]%lookup_delete_Some. by eapply I2.
    + intros v [-> |?]%elem_of_cons; [by apply (I2 t (Won w))|by apply I3].
    + intros v y Hy. pose proof (I4 v y Hy) as Hc. rewrite Hc, in_queue_cons. unfold at_queue. rewrite (held_delete _ th t _ Ht). cbn [queue_of].
      destruct (decide (w = v)); lia.
    + intros v y Hy. destruct (I5 v y Hy) as [Hcap Hb]. split; [|done]. rewrite in_queue_cons. unfold won_at in *. rewrite (held_delete _ th t _ Ht) in Hcap.
      destruct (decide (Won w = Won v)) as [[= ->]|Hne]; [rewrite decide_True by done; lia|]. rewrite decide_False by (intros ->; done). lia.
  - apply fetch_sub_run in Hsub as (x & Hx & -> & ->). split; cbn [d_wqs d_threads d_inflight].
    + intros t' [_ [? ?]]%lookup_delete_is_Some. apply I1. by eexists.
    + intros t' q [_ Hq]%lookup_delete_Some. apply alter_known. by eapply I2.
    + intros v Hv. by apply alter_known, I3.
    + intros v y (y0 & Hy & ->)%alter_wq. pose proof (I4 v y0 Hy) as Hc. unfold at_queue in *. rewrite (held_delete _ th t _ Ht) in Hc. cbn [queue_of] in Hc.
      destruct (decide (v = w)) as [->|Hne]; [|rewrite decide_False in Hc by done; lia].
      rewrite decide_True in Hc by done. cbn. destruct (I5 w y0 Hy). pose proof (threads_bound T th w I1) as Hb. unfold at_queue in Hb. rewrite (held_delete _ th t _ Ht) in Hb.
      cbn [queue_of] in Hb. rewrite decide_True in Hb by done. rewrite wrap_small by (unfold in_range; lia). lia.
    + intros v y (y0 & Hy & ->)%alter_wq. destruct (I5 v y0 Hy) as [Hcap Hb]. unfold won_at in *. rewrite (held_delete _ th t _ Ht), decide_False in Hcap by done.
      destruct (decide (v = w)); cbn; lia.
  - apply fetch_sub_run in Hsub as (x & Hx & -> & ->). split; cbn [d_wqs d_threads d_inflight].
    + done.
    + intros t' q Hq. apply alter_known. by eapply I2.
    + intros v Hv. apply alter_known, I3. apply elem_of_app in Hv as [?|?]; apply elem_of_app; [by left|right; by right].
    + intros v y (y0 & Hy & ->)%alter_wq. pose proof (I4 v y0 Hy) as Hc. rewrite in_queue_middle in Hc. destruct (I5 v y0 Hy) as [Hcap Hb].
      rewrite in_queue_middle in Hcap. pose proof (threads_bound T th v I1).
      destruct (decide (v = w)) as [->|Hne]; [|rewrite decide_False in Hc by done; lia]. rewrite decide_True in Hc, Hcap by done. cbn.
      rewrite wrap_small by (unfold in_range; lia). lia.
    + intros v y (y0 & Hy & ->)%alter_wq. destruct (I5 v y0 Hy) as [Hcap Hb]. rewrite in_queue_middle in Hcap. destruct (decide (v = w)), (decide (w = v)); cbn; lia.
Qed.

(** The steps are those of the code: a call of [Submit] or [NotifyCompletion] that nobody
    interrupts is a run of them. *)
Lemma submit_is_steps T s hint descs ws tl wr th fl t r q' :
  (t < T)%nat → th !! t = None → disp_Submit s hint descs (MkQueues ws tl wr) = Ok (r, q') →
  rtc (dstep T) (MkDsys ws th fl) (MkDsys (wqs q') th (from_option (λ w, w :: fl) fl r.2)) ∧
  (r.1 = kOk ↔ is_Some r.2) ∧
  portal_writes q' = wr ++ from_option (λ w, from_option (λ x, [(portal (uio_info x), descs)]) [] (ws !! w)) [] r.2.
Proof.
  intros Ht Hn. unfold disp_Submit, mbind, ST_bind, on_tls, on_wqs. cbn [my_tls].
  destruct (GetNext s hint tl) as [[[w|] tl']|]; [| |done]; cbn [fst snd wqs get need upd my_tls].
  2: { intros [= <- <-]. cbn. rewrite app_nil_r. split; [constructor|]. split; [|done]. split; [done|by intros []]. }
  destruct (ws !! w) as [x|] eqn:Hw; [|done]. cbn [mret ST_ret need wqs upd].
  destruct (fetch_add w ws) as [[old ws']|] eqn:Hadd; [|done].
  pose proof (d_add T ws th fl t w x old ws' Ht Hn Hw Hadd) as Hst.
  destruct (old <? capacity x).
  - intros [= <- <-]. cbn. rewrite Hw. split; [|done]. eapply rtc_l; [exact Hst|]. eapply rtc_l; [apply (d_write T _ _ _ t w); apply lookup_insert_eq|].
    rewrite delete_insert_id by done. constructor.
  - cbn [wqs upd]. destruct (fetch_sub w ws') as [[old2 ws2]|] eqn:Hsub; [|done]. intros [= <- <-]. cbn. rewrite app_nil_r.
    split; [|split; [split; [done|by intros []]|done]]. eapply rtc_l; [exact Hst|].
    eapply rtc_l; [apply (d_undo T _ _ _ t w old2 ws2); [apply lookup_insert_eq|done]|]. rewrite delete_insert_id by done. constructor.
Qed.
Lemma notify_is_step T w q old q' th fl1 fl2 : NotifyCompletion w q = Ok (old, q') →
  dstep T (MkDsys (wqs q) th (fl1 ++ w :: fl2)) (MkDsys (wqs q') th (fl1 ++ fl2)).
Proof.
  unfold NotifyCompletion, on_wqs. destruct (fetch_sub w (wqs q)) as [[o ws']|] eqn:E; [|done]. intros [= <- <-]. by eapply d_notify.
Qed.

(** C10: whatever the interleaving of any number of threads that submit, give up and notice
    completions, no work queue ever has more descriptors written and not completed than its
    quota, writes that are about to happen included; and the counter of a queue nobody is
    submitting to is the number of its descriptors in flight. *)
Theorem dispatcher_respects_quota T ws s :
  (∀ w x, ws !! w = Some x → wq_count x = 0 ∧ 0 <= capacity x ∧ capacity x + Z.of_nat T < 2 ^ 64) →
  rtc (dstep T) (MkDsys ws ∅ []) s →
  ∀ w x, d_wqs s !! w = Some x →
    Z.of_nat (won_at w (d_threads s)) + Z.of_nat (in_queue w (d_inflight s)) <= capacity x ∧
    (d_threads s = ∅ → wq_count x = Z.of_nat (in_queue w (d_inflight s))).
Proof.
  intros Hws Hr. assert (dinv T s) as Hinv.
  { assert (dinv T (MkDsys ws ∅ [])) as H0.
    - split; cbn; [intros t; by rewrite lookup_empty; intros []|intros t p; by rewrite lookup_empty|by intros w ?%not_elem_of_nil|..].
      + intros w x Hx. by destruct (Hws w x Hx) as [-> _].
      + intros w x Hx. destruct (Hws w x Hx) as (_ & ? & ?). unfold won_at, held_by. rewrite map_filter_empty, map_size_empty. cbn. lia.
    - revert H0. clear -Hr. induction Hr as [|a b c Hst Hr IH]; [done|]. intros H0. apply IH. by eapply dstep_inv. }
  intros w x Hx. split; [by apply (di_cap _ _ Hinv)|]. intros E. rewrite (di_count _ _ Hinv w x Hx), E. unfold at_queue, held_by.
  rewrite map_filter_empty, map_size_empty. cbn. lia.
Qed.
