(* ===== verification/DsaDispatchUio.v ===== *)
(** * The dispatcher on the user space driver

    [uio_source] shows that the driver of DsaUio.v keeps what the dispatcher of DsaDispatch.v
    relies on, so the dispatcher's theorems hold of the two together. The rest are the
    dispatcher's error behaviours and concrete runs of it. *)

From Stdlib Require Import ZArith Lia Ascii String.
From stdpp Require Import prelude gmap strings.
From S2P Require Import Prelude Status DsaUio DsaUioTable DsaDispatch.
Open Scope Z_scope.

(** ** The driver as a source of work queues *)

(** The driver's tables and the static flag of [InitDsaConfig]. *)
Definition uio : Type := ud * bool.
Definition on_ud {A} (m : ST ud A) : ST uio A := λ u,
  match m u.1 with Ok (a, s) => Ok (a, (s, u.2)) | Err e => Err e end.
Lemma wp_on_ud {A} (m : ST ud A) (P : A → ud → Prop) (Q : A → uio → Prop) u :
  wp m P u.1 → (∀ a s, P a s → Q a (s, u.2)) → wp (on_ud m) Q u.
Proof. unfold wp, on_ud. destruct (m u.1) as [[a s]|]; [|done]. eauto. Qed.

(** [InitDsaConfig], as the dispatcher calls it. *)
Definition uio_config (os : Os) : ST uio unit := λ u,
  match InitDsaConfig os u.2 u.1 with Ok ((flag, _), s) => Ok ((), (s, flag)) | Err e => Err e end.

Definition uio_out (os : Os) (u : uio) (out : gset Z) : Prop :=
  ud_inv os u.1 ∧ ∀ p, p ∈ out ↔ portal_out u.1 p.
(** A queue of a device: its portal is the mapped one. *)
Definition uio_known (os : Os) (w : UioWqInfo) : Prop :=
  ∃ b, info_bdf w = Some b ∧ portal w = map_resource os b "resource2".

Lemma uio_next_law os u out : maps_ok os → uio_out os u out →
  wp (on_ud (GetNextWorkQueue os)) (λ r u', length (uwi u'.1) = length (uwi u.1) ∧
    match r with
    | Some w => uio_known os w ∧ portal w ≠ 0 ∧ portal w ∉ out ∧ uio_out os u' ({[portal w]} ∪ out)
    | None => uio_out os u' out
    end) u.
Proof.
  intros Hmaps [Hinv Hout]. eapply wp_on_ud; [by apply wp_GetNextWorkQueue|]. intros [w|] s (Hi & _ & Hl & Hr); (split; [done|]).
  - destruct Hr as (d & b & i & ? & ? & ? & _ & _ & Hno & _ & Hp). split_and!; [by exists b|done|by rewrite Hout|].
    split; [done|]. intros p. cbn. rewrite Hp, elem_of_union, elem_of_singleton, Hout. done.
  - destruct Hr as (Hu & _). split; [done|]. intros p. rewrite Hout. unfold portal_out. cbn. by rewrite Hu.
Qed.
Lemma uio_return_law os u out w : maps_ok os → uio_out os u out → portal w ∈ out →
  wp (on_ud (ReturnWorkQueue w)) (λ _ u', length (uwi u'.1) = length (uwi u.1) ∧ uio_out os u' (out ∖ {[portal w]})) u.
Proof.
  intros Hmaps [Hinv Hout] Hw. apply Hout in Hw. destruct w as [n i p]. cbn in Hw.
  eapply wp_on_ud; [by apply (wp_ReturnWorkQueue os)|]. intros _ s (Hi & _ & Hl & _ & Hp & _). split; [done|]. split; [done|].
  intros q. cbn. by rewrite Hp, elem_of_difference, elem_of_singleton, Hout.
Qed.
Lemma list_to_set_size (l : list Z) : (size (list_to_set l : gset Z) ≤ length l)%nat.
Proof.
  induction l as [|x l IH]; [done|]. rewrite list_to_set_cons, size_union_alt, size_singleton. cbn.
  assert (size ((list_to_set l : gset Z) ∖ {[x]}) ≤ size (list_to_set l : gset Z))%nat by (apply subseteq_size; set_solver). lia.
Qed.
Lemma uio_bound os u out : uio_out os u out → (size out ≤ length (uwi u.1))%nat.
Proof.
  intros [_ Hout]. transitivity (size (list_to_set (ptr <$> uwi u.1) : gset Z)).
  - apply subseteq_size. intros p (j & w & Hj & _ & <-)%Hout. apply elem_of_list_to_set, list_elem_of_fmap_2. by eapply list_elem_of_lookup_2.
  - etrans; [apply list_to_set_size|]. by rewrite length_fmap.
Qed.
Definition uio_source (os : Os) (Hmaps : maps_ok os) : WorkQueueSource uio := {|
  ws_next := on_ud (GetNextWorkQueue os);
  ws_return := λ w, on_ud (ReturnWorkQueue w);
  ws_out := uio_out os;
  ws_room := λ u, length (uwi u.1);
  ws_known := uio_known os;
  ws_next_law := λ u out, uio_next_law os u out Hmaps;
  ws_return_law := λ u out w, uio_return_law os u out w Hmaps;
  ws_bound := uio_bound os |}.

(** The driver comes up: after [InitDsaConfig] no queue is out. *)
Lemma uio_config_ok os lines s :
  bdf_lines os = Some lines → NoDup lines → Forall (λ l, is_Some (hws s !! l)) lines →
  wp (user_driver_init os (-1)) (λ rc _, rc = 0) s →
  wp (uio_config os) (λ _ u, uio_out os u ∅) (s, false).
Proof.
  intros Hl Hnd Hh Hup. pose proof (wp_user_driver_init os (-1) lines s Hl Hnd Hh) as Hinit.
  unfold uio_config, InitDsaConfig, wp, mbind, ST_bind in *. cbn [fst snd].
  destruct (user_driver_init os (-1) s) as [[rc s']|]; [|done]. cbn in *. destruct (Hinit Hup) as (Hinv & _ & Hc & _).
  split; [done|]. intros p. cbn. split; [by intros ?%elem_of_empty|]. intros (j & w & Hj & Hw & _). exfalso.
  unfold used_count in Hc. apply length_zero_iff_nil in Hc.
  assert (w ∈ filter used (uwi s')) as Hin by (apply list_elem_of_filter; split; [done|by eapply list_elem_of_lookup_2]).
  rewrite Hc in Hin. by apply not_elem_of_nil in Hin.
Qed.

(** ** Error behaviours *)

(** Without any quota, the strategy that serves all queues in turn divides by zero. *)
Lemma no_quota_no_queue wqs : usable wqs = [] → wqs ≠ [] → strategy_Init kRoundRobin wqs = Ok (RoundRobinStrategy []).
Proof. unfold usable. intros E Hne. unfold strategy_Init. destruct wqs; [done|]. by rewrite E. Qed.

(** With a quota flag of zeroes the start succeeds, and then every submission by the
    strategy that serves the queues in turn divides by zero: the process is killed instead of
    an error being answered. *)
Theorem zero_quota_kills wqs hint descs tl writes :
  wqs ≠ [] → (∀ w, w ∈ wqs → capacity w = 0) →
  ∃ s, strategy_Init kRoundRobin wqs = Ok s ∧ disp_Submit s hint descs (MkQueues wqs tl writes) = Err DivByZero.
Proof.
  intros Hne Hz. exists (RoundRobinStrategy []). split; [|done]. apply no_quota_no_queue; [|done].
  unfold usable. destruct (with_quota wqs) as [|[i w] l] eqn:E; [done|]. exfalso.
  assert ((i, w) ∈ with_quota wqs) as [Hw Hc]%with_quota_elem by (rewrite E; constructor).
  rewrite (Hz w) in Hc; [lia|by eapply list_elem_of_lookup_2].
Qed.
(** A queue of a device without a NUMA node (the system reports node -1) passes the check
    of the strategy by node and is stored in front of the array. *)
Theorem node_underflows w ws :
  0 < capacity w → info_numa_node (uio_info w) < 0 → strategy_Init kNumaAware (w :: ws) = Err OutOfBounds.
Proof.
  intros Hc Hn. unfold strategy_Init, with_quota. rewrite imap_cons, filter_cons, decide_True by done. cbn [fill_nodes].
  rewrite (proj2 (Z.leb_gt _ _)) by (unfold kMaxNumaNum; lia). by rewrite (proj2 (Z.ltb_lt _ _)).
Qed.

(** ** A system with two devices *)

Definition demo_queue (p : Z) (i : nat) (cap : Z) (node : Z) : WorkQueueInfo := MkWq (MkUioWqInfo None node p) i cap 0.
Lemma zero_quota_kills_witness :
  ∃ s, strategy_Init kRoundRobin [demo_queue 16 0 0 0] = Ok s ∧
       disp_Submit s 0 4096 (MkQueues [demo_queue 16 0 0 0] tls_init []) = Err DivByZero.
Proof. apply (zero_quota_kills [demo_queue 16 0 0 0] 0 4096 tls_init []); [done|]. by intros w ->%list_elem_of_singleton. Defined.
Lemma node_underflows_witness : strategy_Init kNumaAware [demo_queue 16 0 128 (-1)] = Err OutOfBounds.
Proof. apply (node_underflows (demo_queue 16 0 128 (-1)) []); done. Defined.

Definition demo_disp : DsaDispatcher := MkDisp (demo_boot 2 (demo_hw 1 1), false) [] None false.
Definition demo_init : ST DsaDispatcher StatusCode :=
  @disp_Init uio (uio_source demo_uio demo_maps) (uio_config demo_uio) "16,32" kRoundRobin.
Lemma demo_init_code : result (demo_init demo_disp) = Some kOk.
Proof. vm_compute. reflexivity. Qed.
Lemma demo_config : wp (uio_config demo_uio) (λ _ u, uio_out demo_uio u ∅) (driver demo_disp).
Proof.
  apply (uio_config_ok demo_uio demo_lines); [done|by apply (bool_decide_unpack _)|repeat constructor; eexists; reflexivity|].
  unfold wp. vm_compute. reflexivity.
Qed.
Lemma demo_quota : Parse "16,32" = Ok [16; 32].
Proof. vm_compute. reflexivity. Qed.
Lemma wp_result {S A} (m : ST S A) (Q : A → S → Prop) s a : result (m s) = Some a → wp m Q s → wp m (λ b s', b = a ∧ Q b s') s.
Proof. unfold wp. destruct (m s) as [[b s']|]; [|done]. cbn. by intros [= ->]. Qed.
Lemma demo_started st d' : st = kOk ∧ ((st = kOk ∧ started (WS := uio_source demo_uio demo_maps) "16,32" kRoundRobin d') ∨
    (st ≠ kOk ∧ down (WS := uio_source demo_uio demo_maps) d')) →
  st = kOk ∧ capacity <$> wq_list_ d' = [16; 32] ∧ init_ d' = true.
Proof.
  intros [-> [[_ [_ _ Hi _ Hp]]|[Hst _]]]; [|by destruct Hst].
  rewrite bool_decide_eq_false_2, demo_quota in Hp by discriminate. by injection Hp as <-.
Qed.
Lemma dispatcher_starts_witness :
  wp demo_init (λ st d, st = kOk ∧ capacity <$> wq_list_ d = [16; 32] ∧ init_ d = true) demo_disp.
Proof.
  refine (wp_mono _ _ _ _ (wp_result _ _ _ _ demo_init_code _) demo_started).
  refine (@dispatcher_starts uio (uio_source demo_uio demo_maps) (uio_config demo_uio) demo_disp "16,32" kRoundRobin
    eq_refl demo_config (λ _, ex_intro _ _ demo_quota) _). intros H; discriminate H.
Defined.

Definition two_queues : list WorkQueueInfo := [demo_queue 16 0 2 0; demo_queue 32 1 1 0].
Lemma strategy_chooses_witness : ∃ s, strategy_Init kRoundRobin two_queues = Ok s ∧
  wp (GetNexts s 0 2) (λ ws _, ws ≡ₚ [Some 0%nat; Some 1%nat]) tls_init.
Proof.
  destruct (strategy_chooses two_queues 0 tls_init) as (_ & _ & H); [done| |done|].
  - intros [|[|j]] w; cbn; intros [= <-]; reflexivity.
  - destruct H as (s & Hs & H); [done|]. exists s. split; [exact Hs|]. apply H; done.
Defined.

(** Three threads on a queue with room for two: one of them is turned away. *)
Lemma dispatcher_respects_quota_witness :
  ∃ s, rtc (dstep 3) (MkDsys two_queues ∅ []) s ∧ d_inflight s = [0%nat; 0%nat] ∧ d_threads s = {[2%nat := Lost 0%nat]} ∧
    ∀ w x, d_wqs s !! w = Some x →
      Z.of_nat (won_at w (d_threads s)) + Z.of_nat (in_queue w (d_inflight s)) <= capacity x.
Proof.
  assert (∃ s, rtc (dstep 3) (MkDsys two_queues ∅ []) s ∧ d_inflight s = [0%nat; 0%nat] ∧ d_threads s = {[2%nat := Lost 0%nat]}) as (s & Hr & Hf & Ht).
  { eexists. split; [|split].
    - eapply rtc_l; [apply (d_add 3 _ _ _ 0%nat 0%nat); [lia|done|reflexivity|reflexivity]|].
      eapply rtc_l; [apply (d_add 3 _ _ _ 1%nat 0%nat); [lia|done|reflexivity|reflexivity]|].
      eapply rtc_l; [apply (d_add 3 _ _ _ 2%nat 0%nat); [lia|done|reflexivity|reflexivity]|].
      eapply rtc_l; [apply (d_write 3 _ _ _ 0%nat 0%nat); reflexivity|].
      eapply rtc_l; [apply (d_write 3 _ _ _ 1%nat 0%nat); reflexivity|]. apply rtc_refl.
    - reflexivity.
    - reflexivity. }
  exists s. split_and!; [done..|]. intros w x Hx. apply (dispatcher_respects_quota 3 two_queues s); [|done|done].
  intros [|[|v]] y; cbn; intros [= <-]; cbn; lia.
Defined.
