(* ===== verification/DsaCtx.v ===== *)
(** * Contexts of the DSA engine (src/src/data_flow/dsa/dsa_ctx_factory.h, dsa_ctx_factory.cc)

    A context owns a block of memory for the descriptors of one request and one for their
    completion records. [BuildCtx] turns a batch of operations into descriptors with physical
    addresses. Memory comes from the memory pool through the interface [MemoryPool], physical
    addresses from the address manager of AddressManager.v. A [DsaCtx] that is allocated with
    [new] and not initialised starts with zeroes. *)

From Stdlib Require Import ZArith Lia.
From stdpp Require Import prelude gmap.
From S2P Require Import Prelude Status ByteMemory AddressManager DsaDesc DataFlow.
Open Scope Z_scope.

Definition kDsaHwDescSize : Z := 64.
Definition kDsaCompletionRecordSize : Z := 32.
(** [VESAL_CRC_REVISE(seed)] of a 64-bit seed, passed as a [uint32_t]. *)
Definition revise_seed (seed : Z) : Z := u32 (unot 64 seed).

Record DsaCtx := MkCtx {
  desc_memory_chunk : Z; dsa_hw_descs : Z; dsa_hw_descs_phys : Z;
  completion_record_memory_chunk : Z; dsa_completion_records : Z; dsa_completion_records_phys : Z;
  desc_num : Z; crc_results : list Z; work_queue : option nat }.
#[export] Instance eta_DsaCtx : Eta DsaCtx := λ x,
  MkCtx (desc_memory_chunk x) (dsa_hw_descs x) (dsa_hw_descs_phys x) (completion_record_memory_chunk x)
    (dsa_completion_records x) (dsa_completion_records_phys x) (desc_num x) (crc_results x) (work_queue x).

(** What the factory relies on: [mp_ok s b] says that the blocks of [b], base to size, are
    held. Blocks are apart and lie in the memory of the pool, [mp_home]. *)
Class MemoryPool (M : Type) := {
  mp_Allocate : Z → ST M Z;
  mp_Deallocate : Z → ST M unit;
  mp_ok : M → gmap Z Z → Prop;
  mp_home : Z → Z → Prop;
  mp_allocate_law s b n : mp_ok s b → 0 < n →
    wp (mp_Allocate n) (λ p s', if p =? 0 then mp_ok s' b else b !! p = None ∧ mp_ok s' (<[p := n]> b)) s;
  mp_deallocate_law s b p : mp_ok s b → p = 0 ∨ is_Some (b !! p) →
    wp (mp_Deallocate p) (λ _ s', mp_ok s' (delete p b)) s;
  mp_block s b p n : mp_ok s b → b !! p = Some n → 0 < p ∧ mp_home p n;
  mp_apart s b p q n k : mp_ok s b → b !! p = Some n → b !! q = Some k → p ≠ q → p + n <= q ∨ q + k <= p }.

(** [IsNoOverlap], on addresses of 64 bits. *)
Definition IsNoOverlap (src dst size : Z) : bool :=
  (u64 (src + size) <=? dst) || (u64 (dst + size) <=? src).
Definition IsCopyWithCrcOk (op : DataFlowMoveOperation) : bool :=
  match m_src op, m_src_len op with
  | [a], n :: _ => IsNoOverlap a (m_dst op) n
  | _, _ => false
  end.
(** [VESAL_CHECK(alignment % 2 == 0); return (addr + alignment - 1) & ~(alignment - 1);] *)
Definition GetNextAlignedAddress (addr alignment : Z) : res Z :=
  if alignment mod 2 =? 0 then Ok (Z.land (u64 (addr + alignment - 1)) (unot 64 (u64 (alignment - 1)))) else Err CheckFailed.

(** ** What a descriptor says *)

Inductive command :=
| Copy (src len dst : Z)
| CopyCrc (src len dst seed : Z)
| Crc (src len seed : Z)
| Fence
| Batch (count list_addr : Z).
(** The descriptor of a command in memory that was cleared, with its completion record. *)
Definition encode (cmd : command) (cr : Z) : list Z :=
  let zero := replicate GetDsaHwDescSize 0 in
  match cmd with
  | Copy src len dst => FillCopy src len dst cr zero
  | CopyCrc src len dst seed => FillCopyWithCrc src len dst seed cr zero
  | Crc src len seed => FillCrc src len seed cr zero
  | Fence => FillFence cr zero
  | Batch n list_addr => FillBatch n list_addr cr zero
  end.
(** How the device reads it. *)
Definition decode (d : list Z) : option (command * Z) :=
  let f x := get_field x d in
  cmd ← (if f f_opcode =? opcode_value DSA_OPCODE_MEMMOVE then Some (Copy (f f_src_addr) (f f_xfer_size) (f f_dst_addr))
    else if f f_opcode =? opcode_value DSA_OPCODE_COPY_CRC then
      Some (CopyCrc (f f_src_addr) (f f_xfer_size) (f f_dst_addr) (f f_crc_seed))
    else if f f_opcode =? opcode_value DSA_OPCODE_CRCGEN then Some (Crc (f f_src_addr) (f f_xfer_size) (f f_crc_seed))
    else if f f_opcode =? opcode_value DSA_OPCODE_BATCH then Some (Batch (f f_desc_count) (f f_desc_list_addr))
    else if (f f_opcode =? opcode_value DSA_OPCODE_NOOP) && (Z.odd (f f_flags)) then Some Fence
    else None);
  Some (cmd, f f_completion_addr).
Definition cmd_ok (cmd : command) : Prop :=
  match cmd with
  | Copy src len dst => in_range 64 src ∧ in_range 32 len ∧ in_range 64 dst
  | CopyCrc src len dst seed => in_range 64 src ∧ in_range 32 len ∧ in_range 64 dst ∧ in_range 32 seed
  | Crc src len seed => in_range 64 src ∧ in_range 32 len ∧ in_range 32 seed
  | Fence => True
  | Batch n list_addr => in_range 32 n ∧ in_range 64 list_addr
  end.
Definition fields (cmd : command) (cr : Z) : list (desc_field * Z) :=
  match cmd with
  | Copy src len dst => [(f_opcode, 3); (f_flags, 0x10C); (f_xfer_size, len); (f_src_addr, src); (f_dst_addr, dst); (f_completion_addr, cr)]
  | CopyCrc src len dst seed =>
      [(f_opcode, 0x11); (f_flags, 0x10C); (f_xfer_size, len); (f_src_addr, src); (f_dst_addr, dst); (f_crc_seed, seed); (f_completion_addr, cr)]
  | Crc src len seed => [(f_opcode, 0x10); (f_flags, 0xC); (f_xfer_size, len); (f_src_addr, src); (f_crc_seed, seed); (f_completion_addr, cr)]
  | Fence => [(f_opcode, 0); (f_flags, 0xD); (f_completion_addr, cr)]
  | Batch n list_addr => [(f_opcode, 1); (f_flags, 0xC); (f_desc_count, n); (f_desc_list_addr, list_addr); (f_completion_addr, cr)]
  end.
Lemma encode_build cmd cr : encode cmd cr = build (fields cmd cr) (replicate GetDsaHwDescSize 0).
Proof. by destruct cmd. Qed.
Lemma encode_length cmd cr : length (encode cmd cr) = GetDsaHwDescSize.
Proof. rewrite encode_build. by apply build_length. Qed.
Lemma encode_get cmd cr f v : (f, v) ∈ fields cmd cr → get_field f (encode cmd cr) = wrap (8 * Z.of_nat (desc_bytes f)) v.
Proof. intros Hf. rewrite encode_build. apply build_get; [done| |done]. by destruct cmd. Qed.

Ltac field_in := cbn [fields]; repeat first [apply list_elem_of_here | apply list_elem_of_further].

(** The device reads back exactly the command that was written, with the address of its
    completion record. *)
Theorem decode_encode cmd cr : cmd_ok cmd → in_range 64 cr → decode (encode cmd cr) = Some (cmd, cr).
Proof.
  intros Hok Hcr. unfold decode. cbv zeta beta.
  destruct cmd; cbn [cmd_ok] in Hok; destruct_and?;
    erewrite (encode_get _ _ f_completion_addr) by field_in;
    erewrite (encode_get _ _ f_opcode) by field_in; rewrite !wrap_small by (done || by (cbn; unfold in_range; lia)); eval_cmp; cbn [mbind option_bind];
    repeat (erewrite encode_get by field_in); rewrite ?wrap_small by done; done.
Qed.

(** ** Addresses *)

(** The physical address of a byte, 0 when its page is not registered; a buffer inside one
    registered page. *)
Definition pa (T : gmap Z PhysChunk) (a : Z) : Z := default 0 (translate T a).
Definition one_page (T : gmap Z PhysChunk) (a n : Z) : Prop :=
  ∃ ch, reg T ch ∧ covers ch a ∧ covers ch (a + n - 1).
Definition am_at (T : gmap Z PhysChunk) (s : am) : Prop := am_ok s ∧ memory_info_by_vaddr_ s = T.

Lemma pa_covers T ch a : wf_table T → in_range 63 a → reg T ch → covers ch a → pa T a = phys_addr ch + (a - start_addr ch).
Proof.
  intros Hwf Ha Hr Hc. unfold pa. rewrite (translate_covers T ch); [done|done|unfold in_range in *; lia|done|done].
Qed.
Lemma one_page_pa T a n : wf_table T → 0 <= a → 0 < n → a + n <= 2 ^ 63 → one_page T a n →
  0 < pa T a ∧ pa T a + n <= 2 ^ 64 ∧ ∀ o, 0 <= o < n → pa T (a + o) = pa T a + o.
Proof.
  intros Hwf Ha Hn Hl (ch & Hr & H1 & H2). destruct (proj1 Hwf _ _ Hr) as [_ (_ & _ & _ & _ & Hp & Hpe)].
  rewrite (pa_covers T ch a) by (done || (unfold in_range; lia)). unfold covers in *. split_and!; [lia|lia|].
  intros o Ho. rewrite (pa_covers T ch (a + o)); [lia|done|unfold in_range; lia|done|unfold covers; lia].
Qed.
Lemma wp_LookUp T a s : am_at T s → in_range 63 a → wp (LookUpAddr a) (λ r s', am_at T s' ∧ r = pa T a) s.
Proof.
  intros [Hok <-] Ha. unfold LookUpAddr, GetPhysAddr. wp_step. apply wp_lookup_cached; [done|unfold in_range in *; lia|].
  intros s' Hok' HT _. unfold pa, translate. destruct (TableLookUp _ a default_order) as [ch|] eqn:E; wp_step; (split; [done|]); [|done].
  pose proof Hok as [Hwf _]. apply lookup_global in E as [Hr Hc]; [|done|unfold in_range in *; lia].
  destruct (proj1 Hwf _ _ Hr) as [_ (Hk & _ & Hs & Hse & Hp & Hpe)]. unfold covers, in_range in *. cbn.
  rewrite !wrap_small; unfold in_range; rewrite ?wrap_small by (unfold in_range; lia); lia.
Qed.
Lemma wp_LookUpOnePage T a n s : am_at T s → 0 <= a → 0 < n → a + n <= 2 ^ 63 →
  wp (LookUpAddrIfNotAcrossBound a n) (λ r s', am_at T s' ∧ (r = 0 ∧ ¬ one_page T a n ∨ r = pa T a ∧ r ≠ 0 ∧ one_page T a n)) s.
Proof.
  intros [Hok HT] Ha Hn Hl. pose proof (lookup_one_page_correct a n s Hok Ha Hn Hl) as H.
  assert (wp (LookUpAddrIfNotAcrossBound a n) (λ _ s', am_at T s') s) as H2.
  { unfold LookUpAddrIfNotAcrossBound, LookUpAddrAcrossBound. wp_step. apply wp_GetPhysAddrBound; [done|lia..|].
    intros s' ret segs Hok' HT' Hr. cbn beta iota. destruct (Z.eqb_spec ret 1) as [->|]; [|wp_step; split; congruence].
    destruct Hr as [[? _]|(l & cs & Hb & Hr)]; [lia|]. destruct segs as [|[p k] segs].
    - destruct (0 <? l); cbn in Hr; lia.
    - eapply wp_need; [done|]. split; congruence. }
  unfold wp in *. destruct (LookUpAddrIfNotAcrossBound a n s) as [[r s']|]; [|done]. split; [done|].
  destruct H as [H1 H3]. rewrite HT in *. pose proof Hok as [Hwf _]. rewrite HT in Hwf. destruct (decide (r = 0)) as [->|Hr].
  - left. split; [done|]. intros (ch & Hch & Hc1 & Hc2). specialize (H1 ch Hch Hc1 Hc2). destruct (proj1 Hwf _ _ Hch) as [_ (_ & _ & _ & _ & Hp & _)].
    unfold covers in Hc1. lia.
  - right. destruct (H3 Hr) as (ch & Hch & Hc1 & Hc2 & ->). split_and!; [|done|by exists ch].
    symmetry. apply pa_covers; [done|unfold in_range; lia|done|done].
Qed.

(** [num == 1 && op->src.size() == 1 && (!op->enable_crc || IsNoOverlap(...))] *)
Definition one_copy (ops : list DataFlowMoveOperation) (num : nat) : option (DataFlowMoveOperation * Z * Z) :=
  match num, ops with
  | 1%nat, op :: _ =>
      match m_src op, m_src_len op with
      | [a], n :: _ => if negb (enable_crc op) || IsNoOverlap a (m_dst op) n then Some (op, a, n) else None
      | _, _ => None
      end
  | _, _ => None
  end.
(** Descriptor and record number [k]. *)
Definition desc_at (x : DsaCtx) (k : nat) : Z := u64 (dsa_hw_descs x + Z.of_nat k * kDsaHwDescSize).
Definition record_at (x : DsaCtx) (k : nat) : Z := u64 (dsa_completion_records x + Z.of_nat k * kDsaCompletionRecordSize).
Definition record_phys_at (x : DsaCtx) (k : nat) : Z := u64 (dsa_completion_records_phys x + Z.of_nat k * kDsaCompletionRecordSize).

(** ** Alignment *)

Definition align_up (a n : Z) : Z := a + n - 1 - (a + n - 1) mod n.
Lemma next_aligned a k : 1 <= k < 64 → 0 <= a → a + 2 ^ k <= 2 ^ 64 → GetNextAlignedAddress a (2 ^ k) = Ok (align_up a (2 ^ k)).
Proof.
  intros Hk Ha Hl. assert (0 < 2 ^ k) by lia. unfold GetNextAlignedAddress.
  replace (2 ^ k mod 2) with 0; [|symmetry; replace k with (1 + (k - 1)) by lia; rewrite Z.pow_add_r, Z.mul_comm by lia; apply Z.mod_mul; lia].
  rewrite Z.eqb_refl. f_equal. change (Z.land _ (unot 64 (u64 (2 ^ k - 1)))) with (VESAL_PAGE_ALIGN (u64 (a + 2 ^ k - 1)) (2 ^ k)).
  rewrite page_align_pow2 by (lia || by apply wrap_range). rewrite wrap_small by (unfold in_range; lia). done.
Qed.
Lemma align_up_spec a n : 0 < n → a <= align_up a n < a + n ∧ align_up a n mod n = 0.
Proof.
  intros Hn. unfold align_up. pose proof (Z.mod_pos_bound (a + n - 1) n Hn). split; [lia|].
  rewrite Zminus_mod_idemp_r. replace (a + n - 1 - (a + n - 1)) with 0 by lia. by rewrite Z.mod_0_l by lia.
Qed.
Lemma align_up_shift a b n : 0 < n → a mod n = b mod n → align_up b n = b + (align_up a n - a).
Proof.
  intros Hn Hab. unfold align_up. rewrite <- !Z.add_sub_assoc, (Z.add_mod a), (Z.add_mod b), Hab by lia. lia.
Qed.

(** ** What a batch of operations becomes *)

Section plan.
Context (T : gmap Z PhysChunk).
(** An operation whose checksum is computed with the copy, and one where it follows later. *)
Definition early (op : DataFlowMoveOperation) : bool := enable_crc op && IsCopyWithCrcOk op.
Definition late (op : DataFlowMoveOperation) : bool := enable_crc op && negb (IsCopyWithCrcOk op).
Definition seg_cmd (op : DataFlowMoveOperation) (a n off : Z) : command :=
  let dst := u64 (pa T (m_dst op) + off) in
  if early op then CopyCrc (pa T a) n dst (revise_seed (m_seed op)) else Copy (pa T a) n dst.
Fixpoint seg_cmds (op : DataFlowMoveOperation) (srcs lens : list Z) (off : Z) : list command :=
  match srcs, lens with
  | a :: srcs, n :: lens => seg_cmd op a n off :: seg_cmds op srcs lens (off + n)
  | _, _ => []
  end.
Definition op_cmds (op : DataFlowMoveOperation) : list command := seg_cmds op (m_src op) (m_src_len op) 0.
Definition late_cmd (op : DataFlowMoveOperation) : command := Crc (pa T (m_dst op)) (op_len op) (revise_seed (m_seed op)).
Definition late_cmds (ops : list DataFlowMoveOperation) : list command := late_cmd <$> filter (λ op, late op = true) ops.
Definition body (ops : list DataFlowMoveOperation) : list command :=
  concat (op_cmds <$> ops) ++ match late_cmds ops with [] => [] | l => Fence :: l end.
(** All descriptors: a single copy, or a batch that points behind itself. *)
Definition move_plan (descs_phys : Z) (ops : list DataFlowMoveOperation) (num : nat) : list command :=
  match one_copy ops num with
  | Some (op, _, _) => op_cmds op
  | None => Batch (Z.of_nat (length (body (take num ops)))) (u64 (descs_phys + kDsaHwDescSize)) :: body (take num ops)
  end.
(** The command that computes the checksum of an operation. *)
Definition crc_cmd (op : DataFlowMoveOperation) : command :=
  if early op then seg_cmd op (default 0 (head (m_src op))) (default 0 (head (m_src_len op))) 0 else late_cmd op.
(** The record where the checksum of [op] will be, 0 without one. *)
Definition slot (x : DsaCtx) (cmds : list command) (op : DataFlowMoveOperation) (v : Z) : Prop :=
  if enable_crc op then ∃ k, cmds !! k = Some (crc_cmd op) ∧ v = record_at x k else v = 0.

(** Batches of checksums. *)
Definition gen_cmd (op : DataFlowCrcOperation) : command := Crc (pa T (c_src op)) (c_len op) (revise_seed (c_seed op)).
Definition crc_plan (descs_phys : Z) (ops : list DataFlowCrcOperation) (num : nat) : list command :=
  match num, ops with
  | 1%nat, op :: _ => [gen_cmd op]
  | _, _ => Batch (Z.of_nat num) (u64 (descs_phys + kDsaHwDescSize)) :: (gen_cmd <$> take num ops)
  end.

(** The caller's buffers: non-empty, in the user half of the address space. *)
Definition buffer_ok (a n : Z) : Prop := 0 <= a ∧ 0 < n ∧ a + n <= 2 ^ 63.
Definition user_op (op : DataFlowMoveOperation) : Prop :=
  Forall2 buffer_ok (m_src op) (m_src_len op) ∧ buffer_ok (m_dst op) (op_len op).
(** Every buffer is inside one registered page. *)
Definition dma_op (op : DataFlowMoveOperation) : Prop :=
  Forall2 (one_page T) (m_src op) (m_src_len op) ∧ one_page T (m_dst op) (op_len op).
End plan.

Section factory.
Context {M : Type} {MP : MemoryPool M}.

(** [f_mem] is the memory of the process, [f_ctxs] the contexts on the heap, [op_len_sum] the
    thread-local array of [BuildMoveCtx]. *)
Record DsaCtxFactory := MkFac {
  f_am : am; f_pool : M; f_mem : gmap Z Z; f_ctxs : gmap Z DsaCtx; f_next : Z; op_len_sum : list Z }.
#[local] Instance eta_DsaCtxFactory : Eta DsaCtxFactory := λ f,
  MkFac (f_am f) (f_pool f) (f_mem f) (f_ctxs f) (f_next f) (op_len_sum f).
Abbreviation fac := DsaCtxFactory.

Definition on_am {A} (m : ST am A) : ST fac A := λ s,
  match m (f_am s) with Ok (a, t) => Ok (a, s <| f_am := t |>) | Err e => Err e end.
Definition on_pool {A} (m : ST M A) : ST fac A := λ s,
  match m (f_pool s) with Ok (a, t) => Ok (a, s <| f_pool := t |>) | Err e => Err e end.
Definition get_ctx (c : Z) : ST fac DsaCtx := s ← get; need NullDeref (f_ctxs s !! c).
Definition mod_ctx (c : Z) (f : DsaCtx → DsaCtx) : ST fac unit := get_ctx c;; modify (λ s, s <| f_ctxs ::= alter f c |>).

(** ** Allocation *)

Definition PreallocateCtx : ST fac (StatusCode * Z) :=
  c ← gets f_next;
  modify (λ s, s <| f_next ::= Z.add 1 |>);;
  desc_chunk ← on_pool (mp_Allocate (kDsaHwDescSize * (kMaxInternalBatchSize + 1)));
  rec_chunk ← on_pool (mp_Allocate (kDsaCompletionRecordSize * (kMaxInternalBatchSize + 1)));
  if (desc_chunk =? 0) || (rec_chunk =? 0) then
    on_pool (mp_Deallocate desc_chunk);; on_pool (mp_Deallocate rec_chunk);; mret (kResourceBusy, 0)
  else
    phys_addr1 ← on_am (LookUpAddr desc_chunk);
    phys_addr2 ← on_am (LookUpAddr rec_chunk);
    if (phys_addr1 =? 0) || (phys_addr2 =? 0) then
      on_pool (mp_Deallocate desc_chunk);; on_pool (mp_Deallocate rec_chunk);; mret (kUnknown, 0)
    else
      descs ← lift (GetNextAlignedAddress desc_chunk kDsaHwDescSize);
      descs_phys ← lift (GetNextAlignedAddress phys_addr1 kDsaHwDescSize);
      records ← lift (GetNextAlignedAddress rec_chunk kDsaCompletionRecordSize);
      records_phys ← lift (GetNextAlignedAddress phys_addr2 kDsaCompletionRecordSize);
      modify (λ s, s <| f_ctxs ::= <[c := MkCtx desc_chunk descs descs_phys rec_chunk records records_phys 0
        (replicate kMaxSubmittedBatchSize 0) None]> |>);;
      mret (kOk, c).

Definition ClearCtx (c : Z) : ST fac unit :=
  x ← get_ctx c;
  on_pool (mp_Deallocate (desc_memory_chunk x));;
  on_pool (mp_Deallocate (completion_record_memory_chunk x));;
  modify (λ s, s <| f_ctxs ::= delete c |>).

(** ** Writing descriptors *)

Definition with_desc (a : Z) (fill : list Z → list Z) : ST fac unit :=
  s ← get;
  bs ← need NullDeref (read_bytes (f_mem s) a GetDsaHwDescSize);
  modify (λ s, s <| f_mem ::= write_bytes a (fill bs) |>).
(** [memset(a, 0, n)] *)
Definition memset0 (a n : Z) : ST fac unit :=
  s ← get;
  need NullDeref (read_bytes (f_mem s) a (Z.to_nat n));;
  modify (λ s, s <| f_mem ::= write_bytes a (replicate (Z.to_nat n) 0) |>).

Definition ResetCtx (c : Z) : ST fac unit :=
  x ← get_ctx c;
  memset0 (dsa_hw_descs x) (kDsaHwDescSize * desc_num x);;
  memset0 (dsa_completion_records x) kDsaCompletionRecordSize.

(** [crc_results[i] = v] *)
Definition set_crc (c : Z) (i : nat) (v : Z) : ST fac unit :=
  x ← get_ctx c;
  if Nat.ltb i (length (crc_results x)) then mod_ctx c (λ x, x <| crc_results ::= <[i := v]> |>) else raise OutOfBounds.
(** The pointer [crc_result] is entry [i] of the context's array. *)
Definition FillCopyMaybeWithCrc (c : Z) (i : nat) (desc src len dst seed : Z) (enable_crc : bool)
    (completion_record_addr completion_record : Z) : ST fac unit :=
  if enable_crc then
    with_desc desc (FillCopyWithCrc src len dst seed completion_record_addr);; set_crc c i completion_record
  else
    with_desc desc (FillCopy src len dst completion_record_addr);; set_crc c i 0.

Definition start_batch (c : Z) (n : Z) : ST fac unit :=
  mod_ctx c (λ x, x <| desc_num := n |>);;
  ResetCtx c;;
  x ← get_ctx c;
  with_desc (dsa_hw_descs x) (FillBatch (n - 1) (u64 (dsa_hw_descs_phys x + kDsaHwDescSize)) (dsa_completion_records_phys x)).

(** ** Moves *)

(** The number of copies and of separate checksums. *)
Fixpoint count_loop (ops : list DataFlowMoveOperation) (num copy_num crc_num : nat) {struct num} : res (nat * nat) :=
  match num with
  | O => Ok (copy_num, crc_num)
  | S num =>
      match ops with
      | [] => Err OutOfBounds
      | op :: ops => count_loop ops num (copy_num + length (m_src op))
          (if enable_crc op && negb (IsCopyWithCrcOk op) then S crc_num else crc_num)
      end
  end.
(** The loop over the segments of operation [i]; [None] is an early return of kBadData,
    otherwise the next descriptor and the length, which is stored in [op_len_sum] after the
    loop: nothing reads the entry before, nor after an early return. *)
Fixpoint seg_loop (c : Z) (i : nat) (op : DataFlowMoveOperation) (srcs lens : list Z) (dst_phys : Z) (desc_offset : nat) (sum : Z)
    : ST fac (option (nat * Z)) :=
  match srcs with
  | [] => mret (Some (desc_offset, sum))
  | a :: srcs =>
      match lens with
      | [] => raise OutOfBounds
      | n :: lens =>
          src_phys ← on_am (LookUpAddrIfNotAcrossBound a n);
          if src_phys =? 0 then mret None
          else
            x ← get_ctx c;
            FillCopyMaybeWithCrc c i (desc_at x desc_offset) src_phys n (u64 (dst_phys + sum)) (revise_seed (m_seed op))
              (enable_crc op && IsCopyWithCrcOk op) (record_phys_at x desc_offset) (record_at x desc_offset);;
            seg_loop c i op srcs lens dst_phys (S desc_offset) (u64 (sum + n))
      end
  end.
Fixpoint op_loop (c : Z) (ops : list DataFlowMoveOperation) (i num desc_offset : nat) {struct num} : ST fac (option nat) :=
  match num with
  | O => mret (Some desc_offset)
  | S num =>
      match ops with
      | [] => raise OutOfBounds
      | op :: ops =>
          dst_phys ← on_am (LookUpAddr (m_dst op));
          if dst_phys =? 0 then mret None
          else
            r ← seg_loop c i op (m_src op) (m_src_len op) dst_phys desc_offset 0;
            match r with
            | None => mret None
            | Some (desc_offset, sum) =>
                modify (λ s, s <| op_len_sum ::= <[i := sum]> |>);;
                whole ← on_am (LookUpAddrIfNotAcrossBound (m_dst op) sum);
                if whole =? 0 then mret None else op_loop c ops (S i) num desc_offset
            end
      end
  end.
(** The checksums after the fence. *)
Fixpoint crc_pass (c : Z) (ops : list DataFlowMoveOperation) (i num desc_offset : nat) {struct num} : ST fac unit :=
  match num with
  | O => mret ()
  | S num =>
      match ops with
      | [] => raise OutOfBounds
      | op :: ops =>
          if enable_crc op && negb (IsCopyWithCrcOk op) then
            dst_phys ← on_am (LookUpAddr (m_dst op));
            s ← get;
            sum ← need OutOfBounds (op_len_sum s !! i);
            x ← get_ctx c;
            with_desc (desc_at x desc_offset) (FillCrc dst_phys sum (revise_seed (m_seed op)) (record_phys_at x desc_offset));;
            set_crc c i (record_at x desc_offset);;
            crc_pass c ops (S i) num (S desc_offset)
          else crc_pass c ops (S i) num desc_offset
      end
  end.

Definition BuildMoveCtx (r : DataFlowRequest) (ops : list DataFlowMoveOperation) : ST fac StatusCode :=
  let c := engine_ctx r in
  match one_copy ops (r_num r) with
  | Some (op, a, n) =>
      mod_ctx c (λ x, x <| desc_num := 1 |>);;
      ResetCtx c;;
      src_phys ← on_am (LookUpAddrIfNotAcrossBound a n);
      dst_phys ← on_am (LookUpAddrIfNotAcrossBound (m_dst op) n);
      if (src_phys =? 0) || (dst_phys =? 0) then mret kBadData
      else
        x ← get_ctx c;
        FillCopyMaybeWithCrc c 0 (dsa_hw_descs x) src_phys n dst_phys (revise_seed (m_seed op)) (enable_crc op)
          (dsa_completion_records_phys x) (dsa_completion_records x);;
        mret kOk
  | None =>
      '(copy_num, crc_num) ← lift (count_loop ops (r_num r) 0 0);
      start_batch c (Z.of_nat (1 + copy_num + crc_num + (if Nat.eqb crc_num 0 then 0 else 1)));;
      o ← op_loop c ops 0 (r_num r) 1;
      match o with
      | None => mret kBadData
      | Some desc_offset =>
          when (negb (Nat.eqb crc_num 0))
            (x ← get_ctx c;
             with_desc (desc_at x desc_offset) (FillFence (record_phys_at x desc_offset));;
             crc_pass c ops 0 (r_num r) (S desc_offset));;
          mret kOk
      end
  end.

(** ** Checksums *)

Fixpoint fill_crcs (c : Z) (ops : list DataFlowCrcOperation) (i num : nat) {struct num} : ST fac bool :=
  match num with
  | O => mret true
  | S num =>
      match ops with
      | [] => raise OutOfBounds
      | op :: ops =>
          src_phys ← on_am (LookUpAddrIfNotAcrossBound (c_src op) (c_len op));
          if src_phys =? 0 then mret false
          else
            x ← get_ctx c;
            with_desc (desc_at x (S i)) (FillCrc src_phys (c_len op) (revise_seed (c_seed op)) (record_phys_at x (S i)));;
            set_crc c i (record_at x (S i));;
            fill_crcs c ops (S i) num
      end
  end.
Definition BuildCrcCtx (r : DataFlowRequest) (ops : list DataFlowCrcOperation) : ST fac StatusCode :=
  let c := engine_ctx r in
  match r_num r, ops with
  | 1%nat, op :: _ =>
      mod_ctx c (λ x, x <| desc_num := 1 |>);;
      ResetCtx c;;
      src_phys ← on_am (LookUpAddrIfNotAcrossBound (c_src op) (c_len op));
      if src_phys =? 0 then mret kBadData
      else
        x ← get_ctx c;
        with_desc (dsa_hw_descs x) (FillCrc src_phys (c_len op) (revise_seed (c_seed op)) (dsa_completion_records_phys x));;
        set_crc c 0 (dsa_completion_records x);;
        mret kOk
  | _, _ =>
      start_batch c (Z.of_nat (r_num r + 1));;
      ok ← fill_crcs c ops 0 (r_num r);
      mret (match ok with true => kOk | false => kBadData end)
  end.

Definition BuildCtx (r : DataFlowRequest) : ST fac StatusCode :=
  op ← need NullDeref (r_op r);
  match op with
  | MoveOps ops => BuildMoveCtx r ops
  | CrcOps ops => BuildCrcCtx r ops
  end.
(** ** The memory of a context *)

Section context.
Context (x : DsaCtx).
Notation D := (dsa_hw_descs x).
Notation R := (dsa_completion_records x).

(** Room for [kMaxInternalBatchSize] descriptors and records. *)
Record area_ok (m : gmap Z Z) : Prop := {
  ar_descs : 0 <= D ∧ D + 65536 <= 2 ^ 63 ∧ mapped m D 65536;
  ar_records : 0 <= R ∧ R + 32768 <= 2 ^ 63 ∧ mapped m R 32768;
  ar_apart : D + 65536 <= R ∨ R + 32768 <= D;
  ar_phys : in_range 64 (dsa_completion_records_phys x) }.

(** From memory [m0] the first [n] descriptors were cleared and then the descriptors of [l]
    written; nothing else changed but the first record. *)
Record laid_out (m0 m : gmap Z Z) (n : nat) (l : list (list Z)) : Prop := {
  lo_done : ∀ k d, l !! k = Some d → bytes_at m (D + 64 * Z.of_nat k) 64 = d;
  lo_rest : ∀ k, (length l ≤ k < n)%nat → bytes_at m (D + 64 * Z.of_nat k) 64 = replicate 64 0;
  lo_record : bytes_at m R 32 = replicate 32 0;
  lo_frame : ∀ a, ¬ (D <= a < D + 64 * Z.of_nat n) → ¬ (R <= a < R + 32) → m !! a = m0 !! a;
  lo_room : (length l ≤ n)%nat;
  lo_area : area_ok m }.

Lemma desc_at_small k m : area_ok m → (k < 1024)%nat → desc_at x k = D + 64 * Z.of_nat k.
Proof. intros [(? & ? & _) _ _ _] Hk. unfold desc_at, kDsaHwDescSize. rewrite wrap_small by (unfold in_range; lia). lia. Qed.
Lemma area_write m a bs : area_ok m → area_ok (write_bytes a bs m).
Proof. intros [(? & ? & ?) (? & ? & ?) ? ?]. split; split_and?; try done; by apply write_bytes_mapped. Qed.
Lemma bytes_at_write_ne m a bs b n : b + n <= a ∨ a + Z.of_nat (length bs) <= b → bytes_at (write_bytes a bs m) b n = bytes_at m b n.
Proof. intros H. apply bytes_at_ext. intros i Hi. rewrite write_bytes_lookup, decide_False by lia. done. Qed.
Lemma bytes_at_zero m a k b n : a <= b → b + n <= a + Z.of_nat k → bytes_at (write_bytes a (replicate k 0) m) b n = replicate (Z.to_nat n) 0.
Proof.
  intros H1 H2. apply list_eq. intros i. rewrite bytes_at_lookup, write_bytes_lookup, length_replicate. case_decide as Hi.
  - rewrite decide_True by lia. rewrite !lookup_replicate_2 by lia. done.
  - symmetry. apply lookup_ge_None. rewrite length_replicate. lia.
Qed.

(** Clearing the descriptors. *)
Lemma laid_out_reset m0 n : area_ok m0 → (n ≤ 1024)%nat →
  laid_out m0 (write_bytes R (replicate 32 0) (write_bytes D (replicate (64 * n) 0) m0)) n [].
Proof.
  intros Ha Hn. pose proof Ha as [(? & ? & ?) (? & ? & ?) ? _]. split; cbn [length]; try lia.
  - intros k d. by rewrite lookup_nil.
  - intros k Hk. rewrite bytes_at_write_ne by (rewrite length_replicate; lia). by rewrite bytes_at_zero by lia.
  - by rewrite bytes_at_zero by lia.
  - intros a Ha1 Ha2. rewrite !write_bytes_lookup, !length_replicate, !decide_False by lia. done.
  - by apply area_write, area_write.
Qed.
(** Writing the next one. *)
Lemma laid_out_next m0 m n l d : laid_out m0 m n l → (length l < n)%nat → (n ≤ 1024)%nat → length d = 64%nat →
  laid_out m0 (write_bytes (D + 64 * Z.of_nat (length l)) d m) n (l ++ [d]).
Proof.
  intros [H1 H2 H3 H4 _ H5] Hl Hn Hd. pose proof H5 as [(? & ? & ?) (? & ? & ?) ? _]. split.
  - intros k d'. rewrite lookup_app_Some. intros [Hk|[Hk [Hk' <-]%list_lookup_singleton_Some]].
    + pose proof (lookup_lt_Some _ _ _ Hk). rewrite bytes_at_write_ne by lia. by apply H1.
    + replace k with (length l) by lia. rewrite <- (write_bytes_at d (D + 64 * Z.of_nat (length l)) m) at 2. by rewrite Hd.
  - intros k. rewrite length_app. cbn [length]. intros Hk. rewrite bytes_at_write_ne by lia. apply H2. lia.
  - rewrite bytes_at_write_ne by lia. done.
  - intros a Ha1 Ha2. rewrite write_bytes_lookup, decide_False by lia. by apply H4.
  - rewrite length_app. cbn. lia.
  - by apply area_write.
Qed.
End context.
(** ** Building a batch *)

(** The descriptors of a list of commands, each with its record. *)
Definition encs (x : DsaCtx) (cmds : list command) : list (list Z) := imap (λ k cmd, encode cmd (record_phys_at x k)) cmds.
Lemma encs_length x cmds : length (encs x cmds) = length cmds.
Proof. apply length_imap. Qed.
Lemma encs_next x cmds cmd : encs x (cmds ++ [cmd]) = encs x cmds ++ [encode cmd (record_phys_at x (length cmds))].
Proof. unfold encs. rewrite imap_app. cbn. by rewrite Nat.add_0_r. Qed.

(** Context [c], which was [x] in [s0], has room for [n] descriptors, of which those of [cmds]
    are written, and [crcs] in its array. *)
Record building (T : gmap Z PhysChunk) (c : Z) (x : DsaCtx) (s0 s : fac) (n : nat) (cmds : list command) (crcs : list Z) : Prop := {
  bu_am : am_at T (f_am s);
  bu_ctx : f_ctxs s = <[c := x <| desc_num := Z.of_nat n |> <| crc_results := crcs |>]> (f_ctxs s0);
  bu_pool : f_pool s = f_pool s0;
  bu_next : f_next s = f_next s0;
  bu_mem : laid_out x (f_mem s0) (f_mem s) n (encs x cmds);
  bu_sums : length (op_len_sum s) = length (op_len_sum s0);
  bu_crcs : length crcs = kMaxSubmittedBatchSize;
  bu_room : (n ≤ 1024)%nat }.

Section steps.
Context (T : gmap Z PhysChunk) (c : Z) (x : DsaCtx) (s0 : fac) (n : nat).
Notation bld := (building T c x s0).

Lemma wp_get_dsa_ctx s cmds crcs (Q : DsaCtx → fac → Prop) : bld s n cmds crcs →
  Q (x <| desc_num := Z.of_nat n |> <| crc_results := crcs |>) s → wp (get_ctx c) Q s.
Proof. intros Hb HQ. unfold get_ctx. do 2 wp_step. eapply wp_need; [|exact HQ]. rewrite (bu_ctx _ _ _ _ _ _ _ _ Hb). apply lookup_insert_eq. Qed.
Lemma wp_lookup_on {A} s cmds crcs (m : ST am A) (P : A → Prop) :
  bld s n cmds crcs → wp m (λ r a, am_at T a ∧ P r) (f_am s) →
  wp (on_am m) (λ r s', bld s' n cmds crcs ∧ op_len_sum s' = op_len_sum s ∧ P r) s.
Proof.
  intros [] Hm. unfold wp, on_am in *. destruct (m (f_am s)) as [[r a]|]; [|done]. destruct Hm as [Ha HP]. split_and!; [by split|done|done].
Qed.
Lemma wp_next_desc s cmds crcs cmd fill a : bld s n cmds crcs → (length cmds < n)%nat → a = dsa_hw_descs x + 64 * Z.of_nat (length cmds) →
  fill (replicate 64 0) = encode cmd (record_phys_at x (length cmds)) →
  wp (with_desc a fill) (λ _ s', bld s' n (cmds ++ [cmd]) crcs ∧ op_len_sum s' = op_len_sum s) s.
Proof.
  intros [] Hl -> Hf. pose proof bu_mem0 as [_ Hz _ _ _ [(? & ? & Hm) _ _ _]]. rewrite encs_length in Hz. unfold with_desc. do 3 wp_step.
  eapply wp_need.
  { apply read_bytes_spec. intros i Hi. rewrite <- Z.add_assoc. apply Hm. unfold GetDsaHwDescSize in *. lia. }
  wp_step. split; [|done]. change (Z.of_nat GetDsaHwDescSize) with 64. rewrite Hz by lia. rewrite Hf. split; cbn [f_am f_ctxs f_pool f_next f_mem op_len_sum upd]; try done.
  rewrite encs_next. rewrite <- (encs_length x cmds) at 1. apply laid_out_next; [done|by rewrite encs_length|done|apply encode_length].
Qed.
Lemma wp_set_crc s cmds crcs i v : bld s n cmds crcs → (i < kMaxSubmittedBatchSize)%nat →
  wp (set_crc c i v) (λ _ s', bld s' n cmds (<[i := v]> crcs) ∧ op_len_sum s' = op_len_sum s) s.
Proof.
  intros Hb Hi. unfold set_crc. wp_step. eapply wp_get_dsa_ctx; [exact Hb|]. cbn [crc_results upd]. rewrite (bu_crcs _ _ _ _ _ _ _ _ Hb).
  rewrite (proj2 (Nat.ltb_lt _ _) Hi). unfold mod_ctx. wp_step. eapply wp_get_dsa_ctx; [exact Hb|]. wp_step. split; [|done].
  destruct Hb. split; cbn [f_am f_ctxs f_pool f_next f_mem op_len_sum upd]; try done.
  - rewrite bu_ctx0, alter_insert_eq. done.
  - by rewrite length_insert.
Qed.
(** [desc_num = n; ResetCtx()] *)
Lemma wp_start s : f_ctxs s !! c = Some x → am_at T (f_am s) → area_ok x (f_mem s) → length (crc_results x) = kMaxSubmittedBatchSize → (n ≤ 1024)%nat →
  s = s0 → wp (mod_ctx c (λ x, x <| desc_num := Z.of_nat n |>);; ResetCtx c) (λ _ s', bld s' n [] (crc_results x) ∧ op_len_sum s' = op_len_sum s) s.
Proof.
  intros Hc Ha Har Hl Hn ->. pose proof Har as [(? & ? & Hm1) (? & ? & Hm2) _ _]. unfold mod_ctx, get_ctx. do 4 wp_step. eapply wp_need; [exact Hc|]. wp_step.
  unfold ResetCtx, get_ctx. do 3 wp_step. cbn [f_ctxs upd]. eapply wp_need; [by rewrite lookup_alter_eq, Hc|].
  cbn [desc_num dsa_hw_descs dsa_completion_records upd]. unfold memset0, kDsaHwDescSize, kDsaCompletionRecordSize.
  do 4 wp_step. cbn [f_mem upd]. eapply wp_need.
  { apply read_bytes_spec. intros i Hi. apply Hm1. lia. }
  do 4 wp_step. cbn [f_mem upd]. eapply wp_need.
  { apply read_bytes_spec. apply write_bytes_mapped. intros i Hi. apply Hm2. lia. }
  wp_step. split; [|done]. split; cbn [f_am f_ctxs f_pool f_next f_mem op_len_sum upd]; try done.
  - rewrite <- (insert_id (f_ctxs s0) c x Hc) at 1. by rewrite alter_insert_eq.
  - replace (Z.to_nat (64 * Z.of_nat n)) with (64 * n)%nat by lia. by apply laid_out_reset.
Qed.
End steps.
(** ** The loops *)

Section loops.
Context (T : gmap Z PhysChunk) (HT : wf_table T) (c : Z) (x : DsaCtx) (s0 : fac) (n : nat).
Notation bld := (building T c x s0).

Lemma bld_desc s cmds crcs k : bld s n cmds crcs → (k < n)%nat →
  desc_at (x <| desc_num := Z.of_nat n |> <| crc_results := crcs |>) k = dsa_hw_descs x + 64 * Z.of_nat k.
Proof.
  intros Hb Hk. pose proof (lo_area _ _ _ _ _ (bu_mem _ _ _ _ _ _ _ _ Hb)) as Ha. pose proof (bu_room _ _ _ _ _ _ _ _ Hb).
  rewrite <- (desc_at_small x k (f_mem s)) by (done || lia). done.
Qed.

(** One copy: [FillCopyMaybeWithCrc] at the next descriptor. *)
Lemma wp_fill s cmds crcs i op a len off d dst ec rp rc : bld s n cmds crcs → (length cmds < n)%nat → (i < kMaxSubmittedBatchSize)%nat →
  d = dsa_hw_descs x + 64 * Z.of_nat (length cmds) → dst = u64 (pa T (m_dst op) + off) → ec = early op → rp = record_phys_at x (length cmds) →
  wp (FillCopyMaybeWithCrc c i d (pa T a) len dst (revise_seed (m_seed op)) ec rp rc)
    (λ _ s', bld s' n (cmds ++ [seg_cmd T op a len off]) (<[i := if early op then rc else 0]> crcs) ∧ op_len_sum s' = op_len_sum s) s.
Proof.
  intros Hb Hl Hi -> -> -> ->. unfold FillCopyMaybeWithCrc.
  assert (∀ fill v, fill (replicate 64 0) = encode (seg_cmd T op a len off) (record_phys_at x (length cmds)) →
    wp (with_desc (dsa_hw_descs x + 64 * Z.of_nat (length cmds)) fill;; set_crc c i v)
      (λ _ s', bld s' n (cmds ++ [seg_cmd T op a len off]) (<[i := v]> crcs) ∧ op_len_sum s' = op_len_sum s) s) as Hw.
  { intros fill v Hf. wp_step. eapply wp_mono; [by eapply (wp_next_desc T c x s0 n s cmds crcs)|].
    cbv beta. intros _ s1 [Hb1 Hs1]. eapply wp_mono; [by eapply wp_set_crc|]. cbv beta. intros _ s2 [Hb2 Hs2]. split; [exact Hb2|congruence]. }
  destruct (early op) eqn:He; apply Hw; unfold seg_cmd; by rewrite He.
Qed.
Lemma wp_copy s cmds crcs i op a len off : bld s n cmds crcs → (length cmds < n)%nat → (i < kMaxSubmittedBatchSize)%nat →
  wp (x ← get_ctx c;
      FillCopyMaybeWithCrc c i (desc_at x (length cmds)) (pa T a) len (u64 (pa T (m_dst op) + off)) (revise_seed (m_seed op))
        (enable_crc op && IsCopyWithCrcOk op) (record_phys_at x (length cmds)) (record_at x (length cmds)))
    (λ _ s', bld s' n (cmds ++ [seg_cmd T op a len off]) (<[i := if early op then record_at x (length cmds) else 0]> crcs) ∧
       op_len_sum s' = op_len_sum s) s.
Proof.
  intros Hb Hl Hi. wp_step. eapply wp_get_dsa_ctx; [exact Hb|]. rewrite (bld_desc _ _ _ _ Hb Hl). by apply (wp_fill s cmds crcs i op a len off).
Qed.
Definition crc_entry (op : DataFlowMoveOperation) (srcs : list Z) (off : nat) (i : nat) (crcs : list Z) : list Z :=
  match srcs with [] => crcs | _ => <[i := if early op then record_at x (off + length srcs - 1) else 0]> crcs end.
Lemma crc_entry_cons op a srcs off i crcs :
  crc_entry op srcs (S off) i (<[i := if early op then record_at x off else 0]> crcs) = crc_entry op (a :: srcs) off i crcs.
Proof.
  destruct srcs as [|b srcs]; cbn [crc_entry length].
  - by replace (off + 1 - 1)%nat with off by lia.
  - rewrite list_insert_insert_eq. by replace (S off + S (length srcs) - 1)%nat with (off + S (S (length srcs)) - 1)%nat by lia.
Qed.
Lemma wp_bind_assoc' {A B C} (m : ST fac A) (k : A → ST fac B) (h : ST fac C) (P : B → fac → Prop) (Q : C → fac → Prop) s :
  wp (y ← m; k y) P s → (∀ b s', P b s' → wp h Q s') → wp (y ← m; k y;; h) Q s.
Proof.
  unfold wp, mbind, ST_bind. destruct (m s) as [[a s']|]; [|done]. destruct (k a s') as [[b s'']|]; [|done]. intros HP Hk. exact (Hk b s'' HP).
Qed.
Lemma seg_loop_ok i op srcs : ∀ lens off sum cmds crcs s,
  bld s n cmds crcs → Forall2 buffer_ok srcs lens → off = length cmds → (length cmds + length srcs ≤ n)%nat →
  (i < kMaxSubmittedBatchSize)%nat → 0 <= sum → sum + total lens < 2 ^ 64 →
  wp (seg_loop c i op srcs lens (pa T (m_dst op)) off sum) (λ r s', op_len_sum s' = op_len_sum s ∧
    match r with
    | None => ¬ Forall2 (one_page T) srcs lens ∧ ∃ cmds' crcs', bld s' n cmds' crcs'
    | Some (off', sum') => Forall2 (one_page T) srcs lens ∧ off' = (length cmds + length srcs)%nat ∧ sum' = sum + total lens ∧
        bld s' n (cmds ++ seg_cmds T op srcs lens sum) (crc_entry op srcs off i crcs)
    end) s.
Proof.
  induction srcs as [|a srcs IH]; intros lens off sum cmds crcs s Hb Hbuf -> Hn Hi Hs Ht; cbn [seg_loop].
  { apply Forall2_nil_inv_l in Hbuf as ->. wp_step. cbn. rewrite app_nil_r, Nat.add_0_r, Z.add_0_r. auto. }
  destruct lens as [|len lens]; [by apply Forall2_cons_nil_inv in Hbuf|]. apply Forall2_cons in Hbuf as [(Ha & Hlen & Hal) Hbuf].
  cbn [length total foldr] in Hn, Ht. fold (total lens) in Ht.
  assert (0 <= total lens) as Htl.
  { clear -Hbuf. induction Hbuf as [|b k bs ks [? [? ?]] ? IH]; [done|]. unfold total in *. cbn. lia. }
  wp_step. eapply wp_mono; [eapply wp_lookup_on; [exact Hb|]; apply wp_LookUpOnePage; [apply Hb|done..]|].
  cbv beta. intros p s1 (Hb1 & Hs1 & [[-> Hno]|(-> & Hp & Hpage)]).
  { rewrite Z.eqb_refl. wp_step. split; [done|]. split; [by intros [? _]%Forall2_cons|eauto]. }
  rewrite (proj2 (Z.eqb_neq _ _) Hp). 
  eapply (wp_bind_assoc' (get_ctx c)); [apply (wp_copy s1 cmds crcs i op a len sum Hb1); [lia|done]|]. cbv beta. intros _ s2 [Hb2 Hs2].
  rewrite (wrap_small 64) by (unfold in_range; lia).
  eapply wp_mono; [apply (IH lens (S (length cmds)) (sum + len) (cmds ++ [seg_cmd T op a len sum]) _ s2 Hb2 Hbuf); [rewrite length_app; cbn; lia|rewrite length_app; cbn; lia|done|lia|lia]|].
  cbv beta. intros [[off' sum']|] s3 [Hs3 Hr]; (split; [congruence|]).
  - destruct Hr as (Hpages & -> & -> & Hb3). rewrite length_app. cbn [length total foldr]. fold (total lens). split_and!; [by constructor|lia|lia|].
    rewrite <- app_assoc in Hb3. cbn [seg_cmds]. by rewrite (crc_entry_cons op a) in Hb3.
  - destruct Hr as [Hno Hb3]. split; [by intros [_ ?]%Forall2_cons|done].
Qed.
Lemma seg_cmds_length op srcs : ∀ lens off, length srcs = length lens → length (seg_cmds T op srcs lens off) = length srcs.
Proof. induction srcs as [|a srcs IH]; intros [|k lens] off; cbn; try done. intros [= H]. by rewrite IH. Qed.
(** The checksum of a copy is in the record of that copy. *)
Definition early_slot (cmds : list command) (op : DataFlowMoveOperation) (v : Z) : Prop :=
  if early op then ∃ k, cmds !! k = Some (crc_cmd T op) ∧ v = record_at x k else v = 0.
Lemma op_slot op cmds crcs i : m_src op ≠ [] → length (m_src op) = length (m_src_len op) → (i < length crcs)%nat →
  ∃ v, crc_entry op (m_src op) (length cmds) i crcs = <[i := v]> crcs ∧ early_slot (cmds ++ op_cmds T op) op v.
Proof.
  intros Hne Hl Hi. exists (if early op then record_at x (length cmds + length (m_src op) - 1) else 0). split; [by destruct (m_src op)|].
  unfold early_slot, crc_cmd, op_cmds. destruct (early op) eqn:He; [|done]. pose proof He as He'.
  unfold early, IsCopyWithCrcOk in He. apply andb_true_iff in He as [_ He]. destruct (m_src op) as [|a [|]] eqn:Hs; try done.
  destruct (m_src_len op) as [|k [|]] eqn:Hk; try done. exists (length cmds). cbn [length seg_cmds head default].
  rewrite lookup_app_r, Nat.sub_diag by lia. split; [done|]. f_equal. lia.
Qed.
Definition nsegs (ops : list DataFlowMoveOperation) : nat := sum_list_with (λ op, length (m_src op)) ops.
Record ops_done (ops : list DataFlowMoveOperation) (i : nat) (cmds : list command) (crcs crcs' sums sums' : list Z) : Prop := {
  od_before : ∀ j, (j < i)%nat → crcs' !! j = crcs !! j ∧ sums' !! j = sums !! j;
  od_each : ∀ j op, ops !! j = Some op → sums' !! (i + j)%nat = Some (op_len op) ∧ ∃ v, crcs' !! (i + j)%nat = Some v ∧ early_slot cmds op v }.
Lemma ops_done_cons op ops i cmds crcs crcs1 crcs' sums sums1 sums' v :
  crcs1 = <[i := v]> crcs → sums1 = <[i := op_len op]> sums → (i < length crcs)%nat → (i < length sums)%nat → early_slot cmds op v →
  ops_done ops (S i) cmds crcs1 crcs' sums1 sums' → ops_done (op :: ops) i cmds crcs crcs' sums sums'.
Proof.
  intros -> -> Hc Hs Hv [H1 H2]. split.
  - intros j Hj. destruct (H1 j) as [-> ->]; [lia|]. by rewrite !list_lookup_insert_ne by lia.
  - intros [|j] op'; cbn [lookup list_lookup].
    + intros [= <-]. rewrite Nat.add_0_r. destruct (H1 i) as [-> ->]; [lia|]. rewrite !list_lookup_insert_eq by done. eauto.
    + intros Hj. rewrite <- Nat.add_succ_comm. by apply H2.
Qed.
Lemma op_loop_ok num : ∀ ops i off cmds crcs s,
  bld s n cmds crcs → off = length cmds → (num ≤ length ops)%nat → Forall user_op (take num ops) → Forall (λ op, m_src op ≠ []) (take num ops) →
  (length cmds + nsegs (take num ops) ≤ n)%nat → (i + num ≤ kMaxSubmittedBatchSize)%nat → length (op_len_sum s) = kMaxSubmittedBatchSize →
  wp (op_loop c ops i num off) (λ r s',
    match r with
    | None => ¬ Forall (dma_op T) (take num ops) ∧ ∃ cmds' crcs', bld s' n cmds' crcs'
    | Some off' => Forall (dma_op T) (take num ops) ∧ off' = (length cmds + nsegs (take num ops))%nat ∧
        ∃ crcs', bld s' n (cmds ++ concat (op_cmds T <$> take num ops)) crcs' ∧
          ops_done (take num ops) i (cmds ++ concat (op_cmds T <$> take num ops)) crcs crcs' (op_len_sum s) (op_len_sum s')
    end) s.
Proof.
  induction num as [|num IH]; intros ops i off cmds crcs s Hb -> Hnum Hu Hne Hn Hi Hsum; cbn [op_loop].
  { wp_step. cbn. rewrite app_nil_r, Nat.add_0_r. split_and!; [constructor|done|]. exists crcs. split; [done|]. split; [done|]. intros j op. by rewrite take_0, lookup_nil. }
  destruct ops as [|op ops]; [cbn in Hnum; lia|]. cbn [take] in *. cbn [length] in Hnum.
  apply Forall_cons in Hu as [[Hub Hud] Hu]. apply Forall_cons in Hne as [Hne1 Hne]. unfold nsegs in Hn. cbn [sum_list_with] in Hn. fold (nsegs (take num ops)) in Hn.
  pose proof (Forall2_length _ _ _ Hub) as Hlen. pose proof Hud as (Hd0 & Hd1 & Hd2).
  wp_step. eapply wp_mono; [eapply wp_lookup_on; [exact Hb|]; apply wp_LookUp; [apply Hb|unfold in_range; lia]|].
  cbv beta. intros p s1 (Hb1 & Hs1 & ->).
  destruct (Z.eqb_spec (pa T (m_dst op)) 0) as [Hz|Hz].
  { wp_step. split; [|eauto]. intros [[_ Hpg] _]%Forall_cons. apply one_page_pa in Hpg; [lia|done..]. }
  wp_step. eapply wp_mono; [apply (seg_loop_ok i op _ _ _ 0 cmds crcs s1 Hb1 Hub); [done|lia|lia|done|]|].
  { change (0 + op_len op < 2 ^ 64). lia. }
  cbv beta. intros [[off1 sum1]|] s2 [Hs2 Hr].
  2: { wp_step. destruct Hr as [Hno Hr]. split; [|done]. by intros [[? _] _]%Forall_cons. }
  destruct Hr as (Hpages & -> & -> & Hb2). do 2 wp_step. fold (op_cmds T op) in Hb2. change (0 + total (m_src_len op)) with (op_len op).
  destruct (op_slot op cmds crcs i Hne1 Hlen) as (v & Hv & Hslot); [rewrite (bu_crcs _ _ _ _ _ _ _ _ Hb); lia|].
  assert (bld (s2 <| op_len_sum ::= <[i := op_len op]> |>) n (cmds ++ op_cmds T op) (crc_entry op (m_src op) (length cmds) i crcs)) as Hb3.
  { destruct Hb2. split; try done. cbn. by rewrite length_insert. }
  wp_step. eapply wp_mono; [eapply wp_lookup_on; [exact Hb3|]; apply wp_LookUpOnePage; [apply Hb3|done..]|].
  cbv beta. intros w s3 (Hb4 & Hs4 & [[-> Hno]|(-> & Hw & Hpage)]).
  { rewrite Z.eqb_refl. wp_step. split; [|eauto]. by intros [[_ ?] _]%Forall_cons. }
  rewrite (proj2 (Z.eqb_neq _ _) Hw). assert (length (op_cmds T op) = length (m_src op)) as Hoc by (by apply seg_cmds_length).
  eapply wp_mono; [apply (IH ops (S i) _ _ _ s3 Hb4); [rewrite length_app; lia|lia|done|done|rewrite length_app; lia|lia|]|].
  { rewrite Hs4. cbn. rewrite length_insert. congruence. }
  cbv beta. intros [off'|] s4 Hr.
  - destruct Hr as (Hdma & -> & crcs' & Hb5 & Hdone). rewrite length_app, Hoc. cbn [fmap list_fmap concat]. split_and!; [by repeat constructor|unfold nsegs; cbn; lia|].
    exists crcs'. rewrite <- app_assoc in Hb5, Hdone. split; [done|].
    refine (ops_done_cons _ _ _ _ _ _ _ _ _ _ v Hv _ _ _ _ Hdone); [rewrite Hs4; cbn; congruence|rewrite (bu_crcs _ _ _ _ _ _ _ _ Hb); lia|lia|].
    revert Hslot. unfold early_slot. destruct (early op); [|done]. intros (k & Hk & Ev). exists k. rewrite app_assoc. split; [by apply lookup_app_l_Some|done].
  - destruct Hr as [Hno Hr]. split; [|done]. by intros [_ ?]%Forall_cons.
Qed.
Lemma late_cmds_cons op ops : late_cmds T (op :: ops) = (if late op then [late_cmd T op] else []) ++ late_cmds T ops.
Proof. unfold late_cmds. rewrite filter_cons. destruct (late op); [rewrite decide_True by done|rewrite decide_False by done]; done. Qed.
Record crcs_done (ops : list DataFlowMoveOperation) (i : nat) (cmds : list command) (crcs crcs' : list Z) : Prop := {
  cd_before : ∀ j, (j < i)%nat → crcs' !! j = crcs !! j;
  cd_each : ∀ j op, ops !! j = Some op → if late op then ∃ k, cmds !! k = Some (late_cmd T op) ∧ crcs' !! (i + j)%nat = Some (record_at x k)
    else crcs' !! (i + j)%nat = crcs !! (i + j)%nat }.
Lemma crc_pass_ok num : ∀ ops i off cmds crcs s,
  bld s n cmds crcs → off = length cmds → (num ≤ length ops)%nat → Forall user_op (take num ops) →
  (length cmds + length (late_cmds T (take num ops)) ≤ n)%nat → (i + num ≤ kMaxSubmittedBatchSize)%nat →
  (∀ j op, take num ops !! j = Some op → op_len_sum s !! (i + j)%nat = Some (op_len op)) →
  wp (crc_pass c ops i num off) (λ _ s', ∃ crcs', bld s' n (cmds ++ late_cmds T (take num ops)) crcs' ∧
    crcs_done (take num ops) i (cmds ++ late_cmds T (take num ops)) crcs crcs') s.
Proof.
  induction num as [|num IH]; intros ops i off cmds crcs s Hb -> Hnum Hu Hn Hi Hsum; cbn [crc_pass].
  { wp_step. exists crcs. change (late_cmds T (take 0 ops)) with (@nil command). rewrite app_nil_r. split; [done|]. split; [done|]. intros j op. by rewrite take_0, lookup_nil. }
  destruct ops as [|op ops]; [cbn in Hnum; lia|]. cbn [take] in *. cbn [length] in Hnum.
  apply Forall_cons in Hu as [[_ (Hd0 & Hd1 & Hd2)] Hu]. rewrite late_cmds_cons in *. fold (late op).
  assert (∀ j op', take num ops !! j = Some op' → op_len_sum s !! (S i + j)%nat = Some (op_len op')) as Hsum'.
  { intros j op' Hj. rewrite Nat.add_succ_comm. by apply Hsum. }
  destruct (late op) eqn:Hlate; cbn [app length] in *.
  - wp_step. eapply wp_mono; [eapply wp_lookup_on; [exact Hb|]; apply wp_LookUp; [apply Hb|unfold in_range; lia]|].
    cbv beta. intros p s1 (Hb1 & Hs1 & ->). do 3 wp_step. eapply wp_need.
    { rewrite Hs1. specialize (Hsum 0%nat op eq_refl). by rewrite Nat.add_0_r in Hsum. }
    wp_step. eapply wp_get_dsa_ctx; [exact Hb1|]. rewrite (bld_desc _ _ _ _ Hb1) by lia. wp_step.
    eapply wp_mono; [eapply (wp_next_desc T c x s0 n s1 cmds crcs (late_cmd T op)); [done|lia|done|done]|].
    cbv beta. intros _ s2 [Hb2 Hs2]. wp_step. eapply wp_mono; [eapply wp_set_crc; [exact Hb2|lia]|]. cbv beta. intros _ s3 [Hb3 Hs3].
    eapply wp_mono; [apply (IH ops (S i) _ _ _ s3 Hb3); [rewrite length_app; cbn; lia|lia|done|rewrite length_app; cbn; lia|lia|by rewrite Hs3, Hs2, Hs1]|].
    cbv beta. intros _ s4 (crcs' & Hb4 & [D1 D2]). rewrite <- app_assoc in Hb4, D2. exists crcs'. split; [done|]. split.
    + intros j Hj. rewrite D1 by lia. by rewrite list_lookup_insert_ne by lia.
    + intros [|j] op'; cbn [lookup list_lookup].
      * intros [= <-]. rewrite Hlate, Nat.add_0_r. exists (length cmds). split; [by rewrite lookup_app_r, Nat.sub_diag by lia|].
        rewrite D1 by lia. rewrite list_lookup_insert_eq; [done|]. rewrite (bu_crcs _ _ _ _ _ _ _ _ Hb2). lia.
      * intros Hj. specialize (D2 j op' Hj). rewrite <- Nat.add_succ_comm. destruct (late op'); [done|]. by rewrite list_lookup_insert_ne in D2 by lia.
  - eapply wp_mono; [apply (IH ops (S i) _ _ _ s Hb); [done|lia|done|lia|lia|done]|].
    cbv beta. intros _ s4 (crcs' & Hb4 & [D1 D2]). exists crcs'. split; [done|]. split; [intros j Hj; apply D1; lia|].
    intros [|j] op'; cbn [lookup list_lookup].
    + intros [= <-]. rewrite Hlate, Nat.add_0_r. apply D1. lia.
    + intros Hj. rewrite <- Nat.add_succ_comm. by apply D2.
Qed.
Lemma count_loop_ok num : ∀ ops a b, (num ≤ length ops)%nat →
  count_loop ops num a b = Ok ((a + nsegs (take num ops))%nat, (b + length (late_cmds T (take num ops)))%nat).
Proof.
  induction num as [|num IH]; intros ops a b Hn; cbn [count_loop]; [by rewrite take_0, !Nat.add_0_r|].
  destruct ops as [|op ops]; [cbn in Hn; lia|]. cbn [take length] in *. rewrite IH, late_cmds_cons by lia. fold (late op). unfold nsegs. cbn [sum_list_with].
  destruct (late op); cbn [app length]; do 2 f_equal; lia.
Qed.
End loops.
(** ** Batches of moves *)

Section moves.
Context (T : gmap Z PhysChunk) (HT : wf_table T).

(** A context that is ready to be filled. *)
Record ctx_at (c : Z) (x : DsaCtx) (s : fac) : Prop := {
  ca_ctx : f_ctxs s !! c = Some x;
  ca_am : am_at T (f_am s);
  ca_area : area_ok x (f_mem s);
  ca_crcs : length (crc_results x) = kMaxSubmittedBatchSize;
  ca_sums : length (op_len_sum s) = kMaxSubmittedBatchSize }.

Lemma at_zero x m : area_ok x m →
  desc_at x 0 = dsa_hw_descs x ∧ record_at x 0 = dsa_completion_records x ∧ record_phys_at x 0 = dsa_completion_records_phys x.
Proof.
  intros [(? & ? & _) (? & ? & _) _ ?]. unfold desc_at, record_at, record_phys_at. rewrite !Z.mul_0_l, !Z.add_0_r.
  rewrite !wrap_small by (done || (unfold in_range; lia)). done.
Qed.
Lemma one_copy_some ops num op a n : one_copy ops num = Some (op, a, n) → (length (m_src op) = length (m_src_len op))%nat →
  take num ops = [op] ∧ m_src op = [a] ∧ m_src_len op = [n] ∧ early op = enable_crc op.
Proof.
  unfold one_copy, early, IsCopyWithCrcOk. destruct num as [|[|num]]; try done. destruct ops as [|op' ops]; [done|].
  destruct (m_src op') as [|a' [|]] eqn:E1; try done. destruct (m_src_len op') as [|n' l] eqn:E2; try done.
  destruct (negb (enable_crc op') || IsNoOverlap a' (m_dst op') n') eqn:E; [|done]. intros [= -> -> ->] Hl. rewrite E1, E2 in *. cbn in Hl.
  destruct l; [|done]. split_and!; [reflexivity|done|done|]. destruct (enable_crc op); [exact E|done].
Qed.
Lemma late_early op : late op = true → enable_crc op = true ∧ early op = false.
Proof. unfold late, early. destruct (enable_crc op), (IsCopyWithCrcOk op); done. Qed.
Lemma not_late op : late op = false → early op = enable_crc op.
Proof. unfold late, early. destruct (enable_crc op), (IsCopyWithCrcOk op); done. Qed.

(** What building leaves behind, and the answer. *)
Definition built (c : Z) (x : DsaCtx) (s : fac) (dma : Prop) (plan : list command) (each : list command → list Z → Prop) (st : StatusCode) (s' : fac) : Prop :=
  ∃ n cmds crcs, building T c x s s' n cmds crcs ∧
    (st = kBadData ∧ ¬ dma ∨ st = kOk ∧ dma ∧ cmds = plan ∧ n = length plan ∧ each cmds crcs).
Definition slots (x : DsaCtx) (ops : list DataFlowMoveOperation) (cmds : list command) (crcs : list Z) : Prop :=
  ∀ i op, ops !! i = Some op → ∃ v, crcs !! i = Some v ∧ slot T x cmds op v.

Lemma BuildMove_one c x s r ops op a n : ctx_at c x s → engine_ctx r = c → one_copy ops (r_num r) = Some (op, a, n) →
  Forall user_op (take (r_num r) ops) → length (m_src op) = length (m_src_len op) →
  wp (BuildMoveCtx r ops) (built c x s (Forall (dma_op T) (take (r_num r) ops)) (move_plan T (dsa_hw_descs_phys x) ops (r_num r))
    (slots x (take (r_num r) ops))) s.
Proof.
  intros [Hc Ha Har Hl Hsum] <- Hone Hu Hlen. destruct (one_copy_some _ _ _ _ _ Hone Hlen) as (Et & Es & El & He).
  unfold BuildMoveCtx, built, move_plan. rewrite Hone, Et in *. apply Forall_singleton in Hu as [Hu Hud]. unfold op_len in Hud. rewrite Es, El in *.
  apply Forall2_cons in Hu as [(Ha0 & Hn0 & Han) _]. destruct Hud as (Hd0 & _ & Hdn). cbn in Hdn. rewrite Z.add_0_r in Hdn.
  eapply (wp_bind_assoc' (mod_ctx (engine_ctx r) _)); [apply (wp_start T (engine_ctx r) x s 1 s Hc Ha Har Hl); [lia|done]|]. cbv beta. intros _ s1 [Hb1 Hs1].
  wp_step. eapply wp_mono; [eapply wp_lookup_on; [exact Hb1|]; apply wp_LookUpOnePage; [apply Hb1|done..]|].
  cbv beta. intros p1 s2 (Hb2 & Hs2 & Hp1).
  wp_step. eapply wp_mono; [eapply wp_lookup_on; [exact Hb2|]; apply wp_LookUpOnePage; [apply Hb2|done..]|].
  cbv beta. intros p2 s3 (Hb3 & Hs3 & Hp2).
  assert (Forall (dma_op T) [op] ↔ one_page T a n ∧ one_page T (m_dst op) n) as Hdma.
  { rewrite Forall_singleton. unfold dma_op, op_len. rewrite Es, El. cbn. rewrite Z.add_0_r, Forall2_cons. split; [intros [[? _] ?]; done|intros [? ?]; done]. }
  destruct ((p1 =? 0) || (p2 =? 0)) eqn:Ez.
  { wp_step. exists 1%nat, [], (crc_results x). split; [done|]. left. split; [done|]. apply orb_true_iff in Ez. rewrite !Z.eqb_eq in Ez. rewrite Hdma. clear -Ez Hp1 Hp2. intuition. }
  apply orb_false_iff in Ez. rewrite !Z.eqb_neq in Ez. destruct Ez as [Ez1 Ez2].
  destruct Hp1 as [[? _]|(-> & _ & Hg1)]; [done|]. destruct Hp2 as [[? _]|(-> & _ & Hg2)]; [done|].
  wp_step. eapply wp_get_dsa_ctx; [exact Hb3|]. wp_step.
  destruct (at_zero x (f_mem s) Har) as (Z1 & Z2 & Z3).
  assert (u64 (pa T (m_dst op) + 0) = pa T (m_dst op)) as Zd.
  { destruct (one_page_pa T (m_dst op) n HT Hd0 Hn0 Hdn Hg2) as (? & ? & _). rewrite Z.add_0_r. apply wrap_small. unfold in_range. lia. }
  eapply wp_mono; [apply (wp_fill T (engine_ctx r) x s 1 s3 [] (crc_results x) 0 op a n 0 _ _ _ _ _ Hb3); cbn [length]|].
  { lia. } { unfold kMaxSubmittedBatchSize. lia. } { cbn. lia. } { done. } { done. } { cbn. by rewrite Z3. }
  cbv beta. intros _ s4 [Hb4 Hs4]. wp_step. exists 1%nat, [seg_cmd T op a n 0]. eexists. split; [exact Hb4|]. right.
  assert (op_cmds T op = [seg_cmd T op a n 0]) as Eoc by (unfold op_cmds; rewrite Es, El; done). rewrite Eoc.
  split_and!; [done|by apply Hdma|done|done|]. intros i op' [-> <-]%list_lookup_singleton_Some.
  rewrite list_lookup_insert_eq by (rewrite Hl; unfold kMaxSubmittedBatchSize; lia). eexists. split; [done|].
  unfold slot, crc_cmd. rewrite <- He. destruct (early op); [|done]. exists 0%nat. rewrite Es, El. cbn. split; [done|]. by rewrite Z2.
Qed.
(** The first descriptor of a batch. *)
Lemma wp_start_batch c x s n : ctx_at c x s → (1 ≤ n ≤ 1024)%nat →
  wp (start_batch c (Z.of_nat n)) (λ _ s', building T c x s s' n [Batch (Z.of_nat n - 1) (u64 (dsa_hw_descs_phys x + kDsaHwDescSize))] (crc_results x) ∧
    op_len_sum s' = op_len_sum s) s.
Proof.
  intros [Hc Ha Har Hl Hsum] Hn. unfold start_batch.
  eapply (wp_bind_assoc' (mod_ctx c _)); [apply (wp_start T c x s n s Hc Ha Har Hl); [lia|done]|]. cbv beta. intros _ s1 [Hb1 Hs1].
  wp_step. eapply wp_get_dsa_ctx; [exact Hb1|]. destruct (at_zero x (f_mem s) Har) as (_ & _ & Z3).
  eapply wp_mono; [eapply (wp_next_desc T c x s n s1 [] _ (Batch (Z.of_nat n - 1) (u64 (dsa_hw_descs_phys x + kDsaHwDescSize))));
    [exact Hb1|cbn; lia|cbn; lia|cbn [length]; rewrite Z3; reflexivity]|].
  cbv beta. intros _ s2 [Hb2 Hs2]. split; [exact Hb2|congruence].
Qed.
Lemma late_count ops : (length (late_cmds T ops) ≤ length ops)%nat.
Proof. unfold late_cmds. rewrite length_fmap. apply length_filter. Qed.
Lemma segments_nsegs ops : segments ops = Z.of_nat (nsegs ops).
Proof. induction ops as [|op ops IH]; [done|]. rewrite segments_cons, IH. unfold nsegs. cbn. lia. Qed.
Lemma body_length ops : Forall (λ op, length (m_src op) = length (m_src_len op)) ops →
  length (body T ops) = (nsegs ops + length (late_cmds T ops) + (if Nat.eqb (length (late_cmds T ops)) 0 then 0 else 1))%nat.
Proof.
  intros Hl. unfold body. rewrite length_app. assert (length (concat (op_cmds T <$> ops)) = nsegs ops) as ->.
  { induction Hl as [|op ops Hop _ IH]; [done|]. cbn [fmap list_fmap concat]. rewrite length_app, IH. unfold op_cmds. by rewrite seg_cmds_length. }
  destruct (late_cmds T ops); cbn [length Nat.eqb]; lia.
Qed.
Lemma slots_early x ops cmds crcs crcs' sums sums' : (∀ op, op ∈ ops → late op = false) →
  ops_done T x ops 0 cmds crcs crcs' sums sums' → slots x ops cmds crcs'.
Proof.
  intros Hno [_ H] i op Hi. destruct (H i op Hi) as (_ & v & Hv & Hs). exists v. split; [done|]. unfold early_slot, slot in *.
  rewrite <- (not_late op); [done|]. apply Hno. by eapply list_elem_of_lookup_2.
Qed.
Lemma slots_late x ops cmds more crcs crcs' crcs'' sums sums' :
  ops_done T x ops 0 cmds crcs crcs' sums sums' → crcs_done T x ops 0 (cmds ++ more) crcs' crcs'' → slots x ops (cmds ++ more) crcs''.
Proof.
  intros [_ H1] [_ H2] i op Hi. destruct (H1 i op Hi) as (_ & v & Hv & Hs). specialize (H2 i op Hi). cbn [Nat.add] in *. unfold slot, early_slot, crc_cmd in *.
  destruct (late op) eqn:Hlate.
  - destruct (late_early op Hlate) as [He1 He2]. destruct H2 as (k & Hk & Hv2). exists (record_at x k). rewrite He1, He2. eauto.
  - exists v. split; [congruence|]. rewrite <- (not_late op Hlate). destruct (early op); [|done]. destruct Hs as (k & Hk & ->). exists k. split; [by apply lookup_app_l_Some|done].
Qed.
Lemma BuildMove_batch c x s r ops : ctx_at c x s → engine_ctx r = c → one_copy ops (r_num r) = None → (r_num r ≤ length ops)%nat →
  Forall user_op (take (r_num r) ops) → moves_ok ops (r_num r) →
  wp (BuildMoveCtx r ops) (built c x s (Forall (dma_op T) (take (r_num r) ops)) (move_plan T (dsa_hw_descs_phys x) ops (r_num r))
    (slots x (take (r_num r) ops))) s.
Proof.
  intros Hat <- Hone Hnum Hu (Hmax & Hops & Hroom). unfold BuildMoveCtx, built, move_plan. rewrite Hone.
  set (ops' := take (r_num r) ops) in *. rewrite (count_loop_ok T) by done. fold ops'. cbn [Nat.add]. do 2 wp_step.
  set (nc := length (late_cmds T ops')). set (N := (1 + nsegs ops' + nc + (if Nat.eqb nc 0 then 0 else 1))%nat).
  assert (Forall (λ op, m_src op ≠ []) ops' ∧ Forall (λ op, length (m_src op) = length (m_src_len op)) ops') as [Hne Hlens].
  { split; eapply Forall_impl; try exact Hops; intros op [[? ?] [? _]]; [destruct (m_src op); [cbn in *; lia|done]|done]. }
  pose proof (body_length ops' Hlens) as Hbody. fold nc in Hbody.
  assert (1 ≤ N ≤ 1024)%nat as HN.
  { pose proof (late_count ops') as Hc. fold nc in Hc. unfold ops' in Hc at 1. rewrite length_take in Hc. rewrite segments_nsegs in Hroom. fold ops' in Hroom.
    unfold N, kMaxInternalBatchSize in *. destruct (Nat.eqb nc 0); lia. }
  cbn beta iota. wp_step. eapply wp_mono; [apply (wp_start_batch _ x s N Hat HN)|]. cbv beta. intros _ s1 [Hb1 Hs1].
  replace (Z.of_nat N - 1) with (Z.of_nat (length (body T ops'))) in Hb1 by (unfold N; lia). set (first := Batch _ _) in *.
  wp_step. eapply wp_mono; [apply (op_loop_ok T HT (engine_ctx r) x s N (r_num r) ops 0 1 [first] _ s1 Hb1)|]; fold ops'; try done.
  { unfold N. cbn. lia. } { rewrite Hs1. apply Hat. }
  cbv beta. intros [off|] s2 Hr.
  2: { wp_step. destruct Hr as (Hno & cmds & crcs & Hb2). exists N, cmds, crcs. split; [done|]. by left. }
  destruct Hr as (Hdma & -> & crcs & Hb2 & Hdone). cbn [length Nat.add app] in *.
  set (copies := concat (op_cmds T <$> ops')) in *. wp_step.
  assert (length copies = nsegs ops') as Hcl by (unfold body in Hbody; rewrite length_app in Hbody; fold copies in Hbody; unfold nc in Hbody; destruct (late_cmds T ops'); cbn [length Nat.eqb] in Hbody; lia).
  apply wp_when; intros Hnc.
  - apply negb_true_iff in Hnc. assert (late_cmds T ops' ≠ []) as Hlc by (intros E; unfold nc in Hnc; by rewrite E in Hnc).
    wp_step. eapply wp_get_dsa_ctx; [exact Hb2|]. assert (N = 2 + nsegs ops' + nc)%nat as EN by (unfold N; rewrite Hnc; lia).
    rewrite (bld_desc T (engine_ctx r) x s N _ _ _ _ Hb2) by lia. wp_step.
    eapply wp_mono; [eapply (wp_next_desc T (engine_ctx r) x s N s2 _ _ Fence); [exact Hb2|cbn; lia|cbn [length]; by rewrite Hcl|cbn [length]; by rewrite Hcl]|].
    cbv beta. intros _ s3 [Hb3 Hs3].
    eapply wp_mono; [apply (crc_pass_ok T (engine_ctx r) x s N (r_num r) ops 0 _ _ _ s3 Hb3)|]; fold ops'; try done.
    { rewrite length_app. cbn. lia. } { rewrite length_app. cbn. fold nc. lia. } { intros j op Hj. rewrite Hs3. by apply (od_each _ _ _ _ _ _ _ _ _ Hdone). }
    cbv beta. intros _ s4 (crcs' & Hb4 & Hcd). wp_step. exists N. eexists _, crcs'. split; [exact Hb4|]. right.
    assert (body T ops' = copies ++ Fence :: late_cmds T ops') as Eb by (unfold body; by destruct (late_cmds T ops')).
    rewrite Eb. rewrite <- app_assoc in *. cbn [app length] in *. split_and!; [done|done|done|rewrite <- Eb, Hbody, Hnc; lia|].
    exact (slots_late x ops' (first :: copies) (Fence :: late_cmds T ops') _ _ _ _ _ Hdone Hcd).
  - apply negb_false_iff, Nat.eqb_eq in Hnc. assert (late_cmds T ops' = []) as Hlc by (by apply length_zero_iff_nil).
    wp_step. exists N. eexists _, crcs. split; [exact Hb2|]. right.
    assert (body T ops' = copies) as Eb by (unfold body; rewrite Hlc; apply app_nil_r). rewrite Eb.
    split_and!; [done|done|done|cbn [length]; rewrite Hcl; unfold N; rewrite Hnc; cbn; lia|].
    refine (slots_early x ops' _ _ _ _ _ _ Hdone). intros op Hop. destruct (late op) eqn:E; [|done]. exfalso.
    unfold late_cmds in Hlc. apply fmap_nil_inv in Hlc. assert (op ∈ filter (λ op, late op = true) ops') as Hin by (by apply list_elem_of_filter).
    rewrite Hlc in Hin. by apply not_elem_of_nil in Hin.
Qed.
(** ** Batches of checksums *)

Definition gen_slots (x : DsaCtx) (ops : list DataFlowCrcOperation) (cmds : list command) (crcs : list Z) : Prop :=
  ∀ i op, ops !! i = Some op → ∃ k, cmds !! k = Some (gen_cmd T op) ∧ crcs !! i = Some (record_at x k).
Definition user_crc (op : DataFlowCrcOperation) : Prop := buffer_ok (c_src op) (c_len op).
Definition dma_crc (op : DataFlowCrcOperation) : Prop := one_page T (c_src op) (c_len op).

Lemma fill_crcs_ok c x s0 n num : ∀ ops i cmds crcs s, building T c x s0 s n cmds crcs → length cmds = S i → (num ≤ length ops)%nat →
  Forall user_crc (take num ops) → (S i + num ≤ n)%nat → (i + num ≤ kMaxSubmittedBatchSize)%nat →
  wp (fill_crcs c ops i num) (λ ok s', match ok with
    | false => ¬ Forall dma_crc (take num ops) ∧ ∃ cmds' crcs', building T c x s0 s' n cmds' crcs'
    | true => Forall dma_crc (take num ops) ∧ ∃ crcs', building T c x s0 s' n (cmds ++ (gen_cmd T <$> take num ops)) crcs' ∧
        (∀ j, (j < i)%nat → crcs' !! j = crcs !! j) ∧
        ∀ j op, take num ops !! j = Some op → crcs' !! (i + j)%nat = Some (record_at x (S (i + j)))
    end) s.
Proof.
  induction num as [|num IH]; intros ops i cmds crcs s Hb Hl Hnum Hu Hn Hi; cbn [fill_crcs].
  { wp_step. rewrite take_0. split; [constructor|]. exists crcs. cbn. rewrite app_nil_r. split_and!; [done|done|]. intros j op. by rewrite lookup_nil. }
  destruct ops as [|op ops]; [cbn in Hnum; lia|]. cbn [take length] in *. apply Forall_cons in Hu as [(H1 & H2 & H3) Hu].
  wp_step. eapply wp_mono; [eapply wp_lookup_on; [exact Hb|]; apply wp_LookUpOnePage; [apply Hb|done..]|].
  cbv beta. intros p s1 (Hb1 & Hs1 & [[-> Hno]|(-> & Hp & Hpage)]).
  { rewrite Z.eqb_refl. wp_step. split; [by intros [? _]%Forall_cons|eauto]. }
  rewrite (proj2 (Z.eqb_neq _ _) Hp). wp_step. eapply wp_get_dsa_ctx; [exact Hb1|]. rewrite (bld_desc T c x s0 n _ _ _ _ Hb1) by lia. wp_step.
  eapply wp_mono; [eapply (wp_next_desc T c x s0 n s1 cmds crcs (gen_cmd T op)); [done|lia|by rewrite Hl|by rewrite Hl]|].
  cbv beta. intros _ s2 [Hb2 Hs2]. wp_step. eapply wp_mono; [eapply wp_set_crc; [exact Hb2|lia]|]. cbv beta. intros _ s3 [Hb3 Hs3].
  eapply wp_mono; [apply (IH ops (S i) _ _ s3 Hb3); [rewrite length_app; cbn; lia|lia|done|lia|lia]|].
  cbv beta. intros [] s4 Hr.
  - destruct Hr as (Hd & crcs' & Hb4 & H4 & H5). split; [by constructor|]. exists crcs'. rewrite <- app_assoc in Hb4. split_and!; [done| |].
    + intros j Hj. rewrite H4 by lia. by rewrite list_lookup_insert_ne by lia.
    + intros [|j] op'; cbn [lookup list_lookup].
      * intros [= <-]. rewrite Nat.add_0_r, H4 by lia. rewrite list_lookup_insert_eq by (rewrite (bu_crcs _ _ _ _ _ _ _ _ Hb2); lia). done.
      * intros Hj. rewrite <- Nat.add_succ_comm. by rewrite (H5 j op' Hj).
  - destruct Hr as [Hno Hr]. split; [by intros [_ ?]%Forall_cons|done].
Qed.
Lemma BuildCrc_ok c x s r ops : ctx_at c x s → engine_ctx r = c → (r_num r ≤ length ops)%nat → (r_num r ≤ kMaxSubmittedBatchSize)%nat →
  Forall user_crc (take (r_num r) ops) →
  wp (BuildCrcCtx r ops) (built c x s (Forall dma_crc (take (r_num r) ops)) (crc_plan T (dsa_hw_descs_phys x) ops (r_num r))
    (gen_slots x (take (r_num r) ops))) s.
Proof.
  intros Hat <- Hnum Hmax Hu. unfold BuildCrcCtx, built, crc_plan.
  assert (wp (start_batch (engine_ctx r) (Z.of_nat (r_num r + 1));; ok ← fill_crcs (engine_ctx r) ops 0 (r_num r); mret (match ok with true => kOk | false => kBadData end))
    (built (engine_ctx r) x s (Forall dma_crc (take (r_num r) ops)) (Batch (Z.of_nat (r_num r)) (u64 (dsa_hw_descs_phys x + kDsaHwDescSize)) :: (gen_cmd T <$> take (r_num r) ops))
    (gen_slots x (take (r_num r) ops))) s) as Hbatch.
  { wp_step. eapply wp_mono; [apply (wp_start_batch _ x s (r_num r + 1) Hat); unfold kMaxSubmittedBatchSize in *; lia|]. cbv beta. intros _ s1 [Hb1 Hs1].
    replace (Z.of_nat (r_num r + 1) - 1) with (Z.of_nat (r_num r)) in Hb1 by lia.
    wp_step. eapply wp_mono; [apply (fill_crcs_ok (engine_ctx r) x s (r_num r + 1) (r_num r) ops 0 _ _ s1 Hb1); [done|done|done|lia|lia]|].
    cbv beta. intros [] s2 Hr; wp_step; unfold built.
    - destruct Hr as (Hd & crcs' & Hb2 & _ & Heach). exists (r_num r + 1)%nat. eexists _, crcs'. split; [exact Hb2|]. right. cbn [app].
      split_and!; [done|done|done|cbn; rewrite length_fmap, length_take; lia|]. intros i op Hi. exists (S i). split; [change ((gen_cmd T <$> take (r_num r) ops) !! i = Some (gen_cmd T op)); by rewrite list_lookup_fmap, Hi|by apply (Heach i op)].
    - destruct Hr as (Hno & cmds & crcs & Hb2). exists (r_num r + 1)%nat, cmds, crcs. split; [done|]. by left. }
  destruct (r_num r) as [|[|num]] eqn:En; [exact Hbatch| |exact Hbatch]. destruct ops as [|op ops]; [cbn in Hnum; lia|]. clear Hbatch.
  change (take 1 (op :: ops)) with [op] in *. apply Forall_singleton in Hu as (H1 & H2 & H3). destruct Hat as [Hc Ha Har Hl Hsum].
  eapply (wp_bind_assoc' (mod_ctx (engine_ctx r) _)); [apply (wp_start T (engine_ctx r) x s 1 s Hc Ha Har Hl); [lia|done]|]. cbv beta. intros _ s1 [Hb1 Hs1].
  wp_step. eapply wp_mono; [eapply wp_lookup_on; [exact Hb1|]; apply wp_LookUpOnePage; [apply Hb1|done..]|].
  cbv beta. intros p s2 (Hb2 & Hs2 & [[-> Hno]|(-> & Hp & Hpage)]).
  { rewrite Z.eqb_refl. wp_step. exists 1%nat, [], (crc_results x). split; [done|]. left. split; [done|]. intros Hd. apply Hno. exact (proj1 (Forall_singleton dma_crc op) Hd). }
  rewrite (proj2 (Z.eqb_neq _ _) Hp). wp_step. eapply wp_get_dsa_ctx; [exact Hb2|]. wp_step. destruct (at_zero x (f_mem s) Har) as (_ & Z2 & Z3).
  eapply wp_mono; [eapply (wp_next_desc T (engine_ctx r) x s 1 s2 [] _ (gen_cmd T op)); [exact Hb2|cbn; lia|cbn; lia|cbn [length]; rewrite Z3; reflexivity]|].
  cbv beta. intros _ s3 [Hb3 Hs3]. wp_step. eapply wp_mono; [eapply wp_set_crc; [exact Hb3|unfold kMaxSubmittedBatchSize; lia]|]. cbv beta. intros _ s4 [Hb4 Hs4].
  wp_step. exists 1%nat. eexists _, _. split; [exact Hb4|]. right. split_and!; [done|by apply Forall_singleton|done|done|].
  intros i op' [-> <-]%list_lookup_singleton_Some. exists 0%nat. split; [done|].
  rewrite list_lookup_insert_eq by (rewrite Hl; unfold kMaxSubmittedBatchSize; lia). by rewrite Z2.
Qed.
(** ** The factory *)

Definition kDescBlock : Z := 65600.
Definition kRecordBlock : Z := 32800.
(** A context's descriptors and records are aligned, inside its blocks, and the device sees
    them at the physical addresses the context has. *)
Record placed (x : DsaCtx) : Prop := {
  pl_descs : desc_memory_chunk x <= dsa_hw_descs x ∧ dsa_hw_descs x + 65536 <= desc_memory_chunk x + kDescBlock ∧ dsa_hw_descs x mod 64 = 0;
  pl_records : completion_record_memory_chunk x <= dsa_completion_records x ∧
    dsa_completion_records x + 32768 <= completion_record_memory_chunk x + kRecordBlock ∧ dsa_completion_records x mod 32 = 0;
  pl_descs_phys : ∀ o, 0 <= o < 65536 → pa T (dsa_hw_descs x + o) = dsa_hw_descs_phys x + o;
  pl_records_phys : ∀ o, 0 <= o < 32768 → pa T (dsa_completion_records x + o) = dsa_completion_records_phys x + o;
  pl_range : 0 < dsa_hw_descs_phys x ∧ dsa_hw_descs_phys x + 65536 <= 2 ^ 64 ∧ 0 < dsa_completion_records_phys x ∧ dsa_completion_records_phys x + 32768 <= 2 ^ 64;
  pl_crcs : length (crc_results x) = kMaxSubmittedBatchSize }.

(** [b] are the blocks held. The pages of the pool are mapped and registered, and page frames
    are aligned. *)
Record fac_ok (b : gmap Z Z) (s : fac) : Prop := {
  fo_am : am_at T (f_am s);
  fo_pool : mp_ok (f_pool s) b;
  fo_blocks : ∀ c x, f_ctxs s !! c = Some x → b !! desc_memory_chunk x = Some kDescBlock ∧ b !! completion_record_memory_chunk x = Some kRecordBlock;
  fo_apart : ∀ c c' x x', f_ctxs s !! c = Some x → f_ctxs s !! c' = Some x' → c ≠ c' →
    desc_memory_chunk x ≠ desc_memory_chunk x' ∧ completion_record_memory_chunk x ≠ completion_record_memory_chunk x';
  fo_ctx : ∀ c x, f_ctxs s !! c = Some x → c < f_next s ∧ placed x;
  fo_home : ∀ p n, mp_home p n → mapped (f_mem s) p n ∧ one_page T p n ∧ p + n <= 2 ^ 63;
  fo_frames : ∀ ch, reg T ch → phys_addr ch mod 64 = 0;
  fo_sums : length (op_len_sum s) = kMaxSubmittedBatchSize }.

Lemma fac_area b s c x : fac_ok b s → f_ctxs s !! c = Some x → area_ok x (f_mem s).
Proof.
  intros Hok Hc. destruct (fo_blocks _ _ Hok c x Hc) as [Hd Hr]. destruct (fo_ctx _ _ Hok c x Hc) as [_ [(D1 & D2 & _) (R1 & R2 & _) _ _ Hrg _]].
  destruct (mp_block _ _ _ _ (fo_pool _ _ Hok) Hd) as [Hd0 Hdh]. destruct (mp_block _ _ _ _ (fo_pool _ _ Hok) Hr) as [Hr0 Hrh].
  destruct (fo_home _ _ Hok _ _ Hdh) as (Md & _ & Ld). destruct (fo_home _ _ Hok _ _ Hrh) as (Mr & _ & Lr).
  assert (desc_memory_chunk x ≠ completion_record_memory_chunk x) as Hne by (intros E; rewrite E, Hr in Hd; done).
  pose proof (mp_apart _ _ _ _ _ _ (fo_pool _ _ Hok) Hd Hr Hne). unfold kDescBlock, kRecordBlock in *. split; [| |lia|unfold in_range; lia].
  - split_and!; [lia|lia|]. intros i Hi. replace (dsa_hw_descs x + i) with (desc_memory_chunk x + (dsa_hw_descs x - desc_memory_chunk x + i)) by lia. apply Md. lia.
  - split_and!; [lia|lia|]. intros i Hi.
    replace (dsa_completion_records x + i) with (completion_record_memory_chunk x + (dsa_completion_records x - completion_record_memory_chunk x + i)) by lia. apply Mr. lia.
Qed.
Lemma fac_ctx_at b s c x : fac_ok b s → f_ctxs s !! c = Some x → ctx_at c x s.
Proof. intros Hok Hc. split; [done|apply Hok|by eapply fac_area|apply (fo_ctx _ _ Hok c x Hc)|apply Hok]. Qed.
Lemma laid_out_mapped x m0 m n l : laid_out x m0 m n l → (n ≤ 1024)%nat → ∀ a, is_Some (m0 !! a) → is_Some (m !! a).
Proof.
  intros [_ _ _ Hf _ [(_ & _ & Md) (_ & _ & Mr) _ _]] Hn a Ha.
  destruct (decide (dsa_hw_descs x <= a < dsa_hw_descs x + 64 * Z.of_nat n)) as [H1|H1].
  { replace a with (dsa_hw_descs x + (a - dsa_hw_descs x)) by lia. apply Md. lia. }
  destruct (decide (dsa_completion_records x <= a < dsa_completion_records x + 32)) as [H2|H2].
  { replace a with (dsa_completion_records x + (a - dsa_completion_records x)) by lia. apply Mr. lia. }
  by rewrite Hf.
Qed.
(** Replacing contexts by ones with the same memory. *)
Definition same_place (x x' : DsaCtx) : Prop :=
  desc_memory_chunk x' = desc_memory_chunk x ∧ completion_record_memory_chunk x' = completion_record_memory_chunk x ∧ (placed x → placed x').
Lemma fac_update b s s' : fac_ok b s → am_at T (f_am s') → f_pool s' = f_pool s → f_next s' = f_next s → length (op_len_sum s') = length (op_len_sum s) →
  (∀ a, is_Some (f_mem s !! a) → is_Some (f_mem s' !! a)) →
  (∀ c x', f_ctxs s' !! c = Some x' → ∃ x, f_ctxs s !! c = Some x ∧ same_place x x') → fac_ok b s'.
Proof.
  intros Hok Ha Hp Hn Hs Hm Hold. split; [done|rewrite Hp; apply Hok|..].
  - intros c x' (x & Hx & -> & -> & _)%Hold. by apply (fo_blocks _ _ Hok c).
  - intros c1 c2 x1 x2 (y1 & H1 & -> & -> & _)%Hold (y2 & H2 & -> & -> & _)%Hold Hne. by apply (fo_apart _ _ Hok c1 c2).
  - intros c x' (x & Hx & _ & _ & Hpl)%Hold. rewrite Hn. destruct (fo_ctx _ _ Hok c x Hx). auto.
  - intros p k Hpk. destruct (fo_home _ _ Hok p k Hpk) as (Hmp & ? & ?). split_and!; [|done|done]. intros i Hi. by apply Hm, Hmp.
  - apply Hok.
  - rewrite Hs. apply Hok.
Qed.
Lemma fac_building b s s' c x n cmds crcs : fac_ok b s → f_ctxs s !! c = Some x → building T c x s s' n cmds crcs → fac_ok b s'.
Proof.
  intros Hok Hc [B1 B2 B3 B4 B5 B6 B7 B8]. eapply fac_update; try done.
  - intros a Ha. by eapply laid_out_mapped.
  - intros c' x'. rewrite B2. intros [[<- <-] | [_ Hx]]%lookup_insert_Some; [|exists x'; split; [done|by split_and!]].
    exists x. split; [done|]. split_and!; [done|done|]. intros [P1 P2 P3 P4 P5 P6]. by split.
Qed.

(** A block of the pool of which the aligned part is used. *)
Lemma align_block b s p size n k : fac_ok b s → mp_home p size → 0 < p → 1 <= k <= 6 → n + 2 ^ k <= size + 1 → 0 < n → 
  ∃ D Dp, GetNextAlignedAddress p (2 ^ k) = Ok D ∧ GetNextAlignedAddress (pa T p) (2 ^ k) = Ok Dp ∧ p <= D ∧ D + n <= p + size ∧ D mod 2 ^ k = 0 ∧
    (∀ o, 0 <= o < n → pa T (D + o) = Dp + o) ∧ 0 < Dp ∧ Dp + n <= 2 ^ 64 ∧ pa T p ≠ 0.
Proof.
  intros Hok Hp Hp0 Hk Hsz Hn. destruct (fo_home _ _ Hok _ _ Hp) as (_ & Hpage & Hlim).
  assert (0 < 2 ^ k) as H2 by lia. destruct (one_page_pa T p size HT) as (Hpa & Hpl & Hoff); [lia|lia|done|done|].
  destruct Hpage as (ch & Hr & Hc & _). destruct (proj1 HT _ _ Hr) as [_ (Hkn & Hst & Hs0 & Hse & _ & _)].
  assert (pa T p mod 2 ^ k = p mod 2 ^ k) as Hmod.
  { rewrite (pa_covers T ch p HT) by (done || (unfold in_range; lia)). pose proof (fo_frames _ _ Hok ch Hr) as Hfr.
    assert (∀ z, z mod 64 = 0 → z mod 2 ^ k = 0) as Hd.
    { intros z Hz. apply Z.mod_divide; [lia|]. apply Z.mod_divide in Hz; [|lia]. etrans; [|exact Hz]. exists (2 ^ (6 - k)). rewrite <- Z.pow_add_r by lia. by replace (6 - k + k) with 6 by lia. }
    assert (start_addr ch mod 64 = 0) as Hst64.
    { apply Z.mod_divide; [lia|]. apply Z.mod_divide in Hst; [|unfold GetChunkSize; pose proof (pagesize_pos _ Hkn); lia]. etrans; [|exact Hst].
      unfold GetChunkSize. destruct (pagesize_pow2 _ Hkn) as (e & He & ->). exists (2 ^ (e - 6)). replace 64 with (2 ^ 6) by done. rewrite <- Z.pow_add_r by lia. by replace (e - 6 + 6) with e by lia. }
    rewrite Z.add_mod, (Hd _ Hfr), Z.add_0_l, Z.mod_mod by lia. rewrite Zminus_mod, (Hd _ Hst64), Z.sub_0_r, Z.mod_mod by lia. done. }
  exists (align_up p (2 ^ k)), (align_up (pa T p) (2 ^ k)). rewrite !next_aligned by lia. destruct (align_up_spec p (2 ^ k) H2) as [Hal Hal0].
  rewrite (align_up_shift p (pa T p) _ H2) by done. split_and!; try done; try lia.
  intros o Ho. replace (align_up p (2 ^ k) + o) with (p + (align_up p (2 ^ k) - p + o)) by lia. rewrite Hoff by lia. lia.
Qed.
Lemma wp_on_pool {A} (m : ST M A) (P : A → M → Prop) (Q : A → fac → Prop) s : wp m P (f_pool s) → (∀ a t, P a t → Q a (s <| f_pool := t |>)) → wp (on_pool m) Q s.
Proof. unfold wp, on_pool. destruct (m (f_pool s)) as [[a t]|]; [|done]. eauto. Qed.
Lemma wp_on_am {A} (m : ST am A) (P : A → am → Prop) (Q : A → fac → Prop) s : wp m P (f_am s) → (∀ a t, P a t → Q a (s <| f_am := t |>)) → wp (on_am m) Q s.
Proof. unfold wp, on_am. destruct (m (f_am s)) as [[a t]|]; [|done]. eauto. Qed.
Ltac fac_simpl := cbn [f_am f_pool f_mem f_ctxs f_next op_len_sum upd] in *.

(** Giving back the blocks of an allocation that fails. *)
Lemma give_back_blocks b0 b s p q : mp_ok (f_pool s) b → (p = 0 ∨ is_Some (b !! p)) → (q = 0 ∨ is_Some (b !! q)) → p ≠ q ∨ p = 0 →
  delete q (delete p b) = b0 →
  wp (on_pool (mp_Deallocate p);; on_pool (mp_Deallocate q)) (λ _ s', ∃ t, mp_ok t b0 ∧ s' = s <| f_pool := t |>) s.
Proof.
  intros Hok Hp Hq Hne Hb. wp_step. eapply wp_on_pool; [by apply mp_deallocate_law|]. cbv beta. intros [] t1 H1.
  eapply wp_on_pool; [fac_simpl; apply (mp_deallocate_law _ _ q H1)|].
  - destruct Hq as [?|Hq]; [by left|]. destruct (decide (q = 0)); [by left|]. right. rewrite lookup_delete_ne; [done|]. destruct Hne as [? | -> ]; congruence.
  - cbv beta. intros [] t2 H2. rewrite Hb in H2. exists t2. split; [done|]. by destruct s.
Qed.
Lemma zero_free t b : mp_ok t b → b !! 0 = None.
Proof. intros Hok. destruct (b !! 0) as [k|] eqn:E; [|done]. apply (mp_block _ _ _ _ Hok) in E. lia. Qed.

(** The state without a new context. *)
Lemma fac_same b s s' : fac_ok b s → am_at T (f_am s') → mp_ok (f_pool s') b → f_mem s' = f_mem s → f_ctxs s' = f_ctxs s → f_next s <= f_next s' →
  op_len_sum s' = op_len_sum s → fac_ok b s'.
Proof.
  intros [H1 H2 H3 H4 H5 H6 H7 H8] Ha Hp Em Ec Hn Es. split; rewrite ?Em, ?Ec, ?Es; try done. intros c x Hx. destruct (H5 c x Hx). split; [lia|done].
Qed.
Lemma fac_add b s s' p q x : fac_ok b s → am_at T (f_am s') → mp_ok (f_pool s') (<[q := kRecordBlock]> (<[p := kDescBlock]> b)) → f_mem s' = f_mem s →
  f_ctxs s' = <[f_next s := x]> (f_ctxs s) → f_next s' = f_next s + 1 → op_len_sum s' = op_len_sum s →
  desc_memory_chunk x = p → completion_record_memory_chunk x = q → placed x → b !! p = None → (<[p := kDescBlock]> b) !! q = None →
  fac_ok (<[q := kRecordBlock]> (<[p := kDescBlock]> b)) s'.
Proof.
  intros [H1 H2 H3 H4 H5 H6 H7 H8] Ha Hp Em Ec En Es Ep Eq Hx Hpn Hqn. apply lookup_insert_None in Hqn as [Hqn Hpq].
  assert (∀ c y, f_ctxs s !! c = Some y → desc_memory_chunk y ≠ p ∧ completion_record_memory_chunk y ≠ q ∧ desc_memory_chunk y ≠ q ∧ completion_record_memory_chunk y ≠ p) as Hf.
  { intros c y Hy. destruct (H3 c y Hy). split_and!; congruence. }
  split; rewrite ?Em, ?Ec, ?Es, ?En; try done.
  - intros c y [[_ <-] | [_ Hy]]%lookup_insert_Some.
    + rewrite Ep, Eq, lookup_insert_ne, !lookup_insert_eq by congruence. done.
    + destruct (Hf c y Hy) as (? & ? & ? & ?). rewrite !lookup_insert_ne by congruence. by apply (H3 c).
  - intros c c' y y' [[<- <-] | [? Hy]]%lookup_insert_Some [[<- <-] | [? Hy']]%lookup_insert_Some Hne; [done| | |by apply (H4 c c')].
    + destruct (Hf _ _ Hy') as (? & ? & _). split; congruence.
    + destruct (Hf _ _ Hy) as (? & ? & _). split; congruence.
  - intros c y [[<- <-] | [_ Hy]]%lookup_insert_Some; [split; [lia|done]|]. destruct (H5 c y Hy). split; [lia|done].
Qed.
Lemma PreallocateCtx_ok b s : fac_ok b s →
  wp PreallocateCtx (λ '(st, c) s', if decide (st = kOk) then c = f_next s ∧ f_ctxs s !! c = None ∧
      ∃ x, f_ctxs s' = <[c := x]> (f_ctxs s) ∧ placed x ∧
        fac_ok (<[completion_record_memory_chunk x := kRecordBlock]> (<[desc_memory_chunk x := kDescBlock]> b)) s'
    else f_ctxs s' = f_ctxs s ∧ fac_ok b s') s.
Proof.
  intros Hok. assert (f_ctxs s !! f_next s = None) as Hfresh by (destruct (f_ctxs s !! f_next s) eqn:E; [|done]; apply (fo_ctx _ _ Hok) in E; lia).
  unfold PreallocateCtx. do 4 wp_step. wp_step. eapply wp_on_pool; [apply (mp_allocate_law _ b); [apply Hok|done]|]. cbv beta. intros p t1 Hp.
  assert (∃ b1, mp_ok t1 b1 ∧ (p = 0 ∧ b1 = b ∨ p ≠ 0 ∧ b !! p = None ∧ b1 = <[p := kDescBlock]> b)) as (b1 & Hb1 & Hc1).
  { destruct (Z.eqb_spec p 0); [exists b; auto|]. destruct Hp. eexists. split; [done|]. right. done. }
  wp_step. eapply wp_on_pool; [fac_simpl; apply (mp_allocate_law _ b1); [done|done]|]. cbv beta. intros q t2 Hq.
  assert (∃ b2, mp_ok t2 b2 ∧ (q = 0 ∧ b2 = b1 ∨ q ≠ 0 ∧ b1 !! q = None ∧ b2 = <[q := kRecordBlock]> b1)) as (b2 & Hb2 & Hc2).
  { destruct (Z.eqb_spec q 0); [exists b1; auto|]. destruct Hq. eexists. split; [done|]. right. done. }
  clear Hp Hq. fac_simpl. pose proof (zero_free _ _ (fo_pool _ _ Hok)) as Hz0. pose proof (zero_free _ _ Hb1) as Hz1.
  assert (delete q (delete p b2) = b ∧ (p = 0 ∨ is_Some (b2 !! p)) ∧ (q = 0 ∨ is_Some (b2 !! q)) ∧ (p ≠ q ∨ p = 0)) as (E1 & E2 & E3 & E4).
  { destruct Hc1 as [[-> ->]|(Hp0 & Hpn & ->)], Hc2 as [[-> ->]|(Hq0 & Hqn & ->)].
    - rewrite !delete_id by (rewrite ?lookup_delete_eq; done). auto.
    - rewrite (delete_id (<[q:=_]> b)) by (rewrite lookup_insert_ne; done). rewrite delete_insert_id by done. split_and!; auto. right. rewrite lookup_insert_eq. eauto.
    - rewrite delete_insert_id by done. rewrite delete_id by done. split_and!; auto. right. rewrite lookup_insert_eq. eauto.
    - apply lookup_insert_None in Hqn as [Hqn Hpq]. rewrite (delete_insert_ne _ p q) by congruence. rewrite (delete_insert_id b p) by done.
      rewrite (delete_insert_id b q) by done. split_and!; [done|right|right|left; congruence]; [rewrite lookup_insert_ne, lookup_insert_eq by congruence|rewrite lookup_insert_eq]; eauto. }
  destruct ((p =? 0) || (q =? 0)) eqn:Ez.
  { eapply (wp_bind_assoc' (on_pool (mp_Deallocate p))); [by apply (give_back_blocks b b2)|]. cbv beta. intros _ s' (t & Ht & ->). wp_step. rewrite decide_False by done.
    fac_simpl. split; [done|]. eapply fac_same; fac_simpl; [exact Hok|apply Hok|done|done|done|lia|done]. }
  apply orb_false_iff in Ez. rewrite !Z.eqb_neq in Ez. destruct Ez as [Hp0 Hq0].
  destruct Hc1 as [[? _]|(_ & Hpn & ->)]; [done|]. destruct Hc2 as [[? _]|(_ & Hqn & ->)]; [done|].
  destruct (mp_block _ _ p kDescBlock Hb2) as [Hp1 Hph]; [rewrite lookup_insert_ne, lookup_insert_eq by (intros ->; by rewrite lookup_insert_eq in Hqn); done|].
  destruct (mp_block _ _ q kRecordBlock Hb2) as [Hq1 Hqh]; [by rewrite lookup_insert_eq|].
  destruct (align_block b s p kDescBlock 65536 6 Hok Hph Hp1) as (D & Dp & A1 & A2 & A3 & A4 & A5 & A6 & A7 & A8 & A9); [lia|unfold kDescBlock; lia|lia|].
  destruct (align_block b s q kRecordBlock 32768 5 Hok Hqh Hq1) as (R & Rp & B1 & B2 & B3 & B4 & B5 & B6 & B7 & B8 & B9); [lia|unfold kRecordBlock; lia|lia|].
  destruct (fo_home _ _ Hok _ _ Hph) as (_ & _ & Hpl). destruct (fo_home _ _ Hok _ _ Hqh) as (_ & _ & Hql). unfold kDescBlock, kRecordBlock in Hpl, Hql.
  wp_step. eapply wp_on_am; [fac_simpl; apply (wp_LookUp T); [apply Hok|unfold in_range; lia]|]. cbv beta. intros p1 a1 [Ha1 ->]. fac_simpl.
  wp_step. eapply wp_on_am; [fac_simpl; apply (wp_LookUp T); [done|unfold in_range; lia]|]. cbv beta. intros p2 a2 [Ha2 ->]. fac_simpl.
  rewrite (proj2 (Z.eqb_neq _ _) A9), (proj2 (Z.eqb_neq _ _) B9). cbn [orb].
  change kDsaHwDescSize with (2 ^ 6). change kDsaCompletionRecordSize with (2 ^ 5). rewrite A1, A2, B1, B2. do 11 wp_step. fac_simpl.
  rewrite decide_True by done. split_and!; [done|done|]. eexists. split; [done|].
  assert (placed (MkCtx p D Dp q R Rp 0 (replicate kMaxSubmittedBatchSize 0) None)) as Hpl2.
  { split; cbn [desc_memory_chunk dsa_hw_descs dsa_hw_descs_phys completion_record_memory_chunk dsa_completion_records dsa_completion_records_phys crc_results]; try done. }
  split; [done|]. eapply fac_add; fac_simpl; try done. lia.
Qed.
Lemma ClearCtx_ok b s c x : fac_ok b s → f_ctxs s !! c = Some x →
  wp (ClearCtx c) (λ _ s', f_ctxs s' = delete c (f_ctxs s) ∧
    fac_ok (delete (completion_record_memory_chunk x) (delete (desc_memory_chunk x) b)) s') s.
Proof.
  intros Hok Hc. unfold ClearCtx, get_ctx. do 3 wp_step. eapply wp_need; [done|]. destruct (fo_blocks _ _ Hok c x Hc) as [Hd Hr].
  assert (kDescBlock ≠ kRecordBlock) as Hsz by done.
  eapply (wp_bind_assoc' (on_pool (mp_Deallocate (desc_memory_chunk x)))).
  { eapply (give_back_blocks _ b); [apply Hok|right; eauto|right; eauto|left; congruence|done]. }
  cbv beta. intros _ s' (t & Ht & ->). wp_step. fac_simpl. split; [done|]. destruct Hok as [H1 H2 H3 H4 H5 H6 H7 H8]. split; fac_simpl; try done.
  - intros c' x' [Hne Hx]%lookup_delete_Some. destruct (H3 c' x' Hx), (H4 c c' x x' Hc Hx Hne). rewrite !lookup_delete_ne by congruence. done.
  - intros c1 c2 x1 x2 [_ Hx1]%lookup_delete_Some [_ Hx2]%lookup_delete_Some. by apply H4.
  - intros c' x' [_ Hx]%lookup_delete_Some. by apply H5.
Qed.

(** ** What the device finds *)

Lemma total_bound lens srcs : Forall2 buffer_ok srcs lens → 0 <= total lens ∧ Forall (λ n, 0 < n <= total lens) lens.
Proof.
  induction 1 as [|a n srcs lens (_ & Hn & _) _ [IH1 IH2]]; [done|]. unfold total in *. cbn. split; [lia|]. constructor; [lia|].
  eapply Forall_impl; [exact IH2|]. cbn. lia.
Qed.
Lemma lens_small op : move_ok op → user_op op → in_range 32 (op_len op) ∧ Forall (in_range 32) (m_src_len op).
Proof.
  intros (_ & _ & _ & Hmax) [Hb (Hd0 & Hd1 & Hd2)]. change (foldr Z.add 0 (m_src_len op)) with (op_len op) in Hmax.
  destruct (total_bound _ _ Hb) as [H0 Hl]. fold (op_len op) in *. unfold kMaxTotalLength in *.
  assert (in_range 32 (op_len op)) as Hr.
  { rewrite wrap_small in Hmax by (unfold in_range; lia). unfold in_range. lia. }
  split; [done|]. eapply Forall_impl; [exact Hl|]. cbn. unfold in_range in *. lia.
Qed.
Lemma pa_range a n : 0 <= a → 0 < n → a + n <= 2 ^ 63 → one_page T a n → in_range 64 (pa T a).
Proof. intros H1 H2 H3 H. apply one_page_pa in H as (? & ? & _); [|done..]. unfold in_range. lia. Qed.
Lemma revise_range seed : in_range 32 (revise_seed seed).
Proof. by apply wrap_range. Qed.
Lemma seg_cmds_ok op : ∀ srcs lens off, Forall2 buffer_ok srcs lens → Forall2 (one_page T) srcs lens → Forall (in_range 32) lens → Forall cmd_ok (seg_cmds T op srcs lens off).
Proof.
  induction srcs as [|a srcs IH]; intros [|n lens] off Hb Hp Hl; try constructor.
  - apply Forall2_cons in Hb as [(? & ? & ?) _], Hp as [? _]. apply Forall_cons in Hl as [? _]. assert (in_range 64 (pa T a)) by (by apply (pa_range a n)).
    unfold seg_cmd. destruct (early op); cbn; split_and!; try done; try (by apply wrap_range); apply revise_range.
  - apply IH; [by apply Forall2_cons in Hb as [_ ?]|by apply Forall2_cons in Hp as [_ ?]|by apply Forall_cons in Hl as [_ ?]].
Qed.
Lemma op_cmds_ok op : move_ok op → user_op op → dma_op T op → Forall cmd_ok (op_cmds T op) ∧ cmd_ok (late_cmd T op).
Proof.
  intros Hm Hu Hd. destruct (lens_small op Hm Hu) as [Hl Hls], Hu as [Hb (? & ? & ?)], Hd as [Hp Hpd]. split; [by apply seg_cmds_ok|].
  cbn. split_and!; [by apply (pa_range _ (op_len op))|done|apply revise_range].
Qed.
Lemma body_ok ops : Forall move_ok ops → Forall user_op ops → Forall (dma_op T) ops → Forall cmd_ok (body T ops).
Proof.
  intros Hm Hu Hd. assert (∀ op, op ∈ ops → Forall cmd_ok (op_cmds T op) ∧ cmd_ok (late_cmd T op)) as Ho.
  { intros op Hop. rewrite Forall_forall in Hm, Hu, Hd. apply op_cmds_ok; auto. }
  unfold body. apply Forall_app. split.
  - apply Forall_concat, Forall_fmap, Forall_forall. intros op Hop. by apply Ho.
  - assert (Forall cmd_ok (late_cmds T ops)) as Hl.
    { unfold late_cmds. apply Forall_fmap, Forall_forall. intros op [_ Hop]%list_elem_of_filter. by apply Ho. }
    destruct (late_cmds T ops); [constructor|by constructor].
Qed.
Lemma move_plan_ok D ops num : moves_ok ops num → Forall user_op (take num ops) → Forall (dma_op T) (take num ops) →
  (length (move_plan T D ops num) ≤ 1024)%nat ∧ Forall cmd_ok (move_plan T D ops num).
Proof.
  intros (Hmax & Hm & Hroom) Hu Hd. unfold move_plan. destruct (one_copy ops num) as [[[op a] n]|] eqn:E.
  - assert (length (m_src op) = length (m_src_len op) ∧ take num ops = [op]) as [Hl Et].
    { assert (take num ops = [op]) as Et.
      { revert E. unfold one_copy. destruct num as [|[|num]]; try done. destruct ops as [|op' ops]; [done|]. destruct (m_src op') as [|? [|]]; try done.
        destruct (m_src_len op'); try done. destruct (_ || _); [|done]. by intros [= -> _ _]. }
      rewrite Et in Hm. apply Forall_singleton in Hm as (_ & ? & _). done. }
    rewrite Et, Forall_singleton in Hm, Hu, Hd. unfold op_cmds at 1. rewrite seg_cmds_length by done.
    split; [destruct Hm as [[_ ?] _]; unfold kMaxSrcSegmentNum in *; lia|by apply op_cmds_ok].
  - assert (Forall (λ op, length (m_src op) = length (m_src_len op)) (take num ops)) as Hlens by (eapply Forall_impl; [exact Hm|]; by intros op (_ & ? & _)).
    pose proof (body_length _ Hlens) as Hb. pose proof (late_count (take num ops)) as Hc. rewrite length_take in Hc. rewrite segments_nsegs in Hroom. unfold kMaxInternalBatchSize in Hroom.
    assert (length (body T (take num ops)) < 1024)%nat by (rewrite Hb; destruct (Nat.eqb _ 0); lia).
    split; [cbn; lia|]. constructor; [|by apply body_ok]. cbn. split; [unfold in_range; lia|by apply wrap_range].
Qed.
(** The device reads the commands of the plan, each with its own record. *)
Definition device_reads (x : DsaCtx) (m : gmap Z Z) (plan : list command) : Prop :=
  ∀ k cmd, plan !! k = Some cmd →
    bytes_at m (dsa_hw_descs x + 64 * Z.of_nat k) 64 = encode cmd (dsa_completion_records_phys x + 32 * Z.of_nat k) ∧
    decode (bytes_at m (dsa_hw_descs x + 64 * Z.of_nat k) 64) = Some (cmd, dsa_completion_records_phys x + 32 * Z.of_nat k).
Lemma building_reads c x s s' n cmds crcs : building T c x s s' n cmds crcs → placed x → Forall cmd_ok cmds → device_reads x (f_mem s') cmds.
Proof.
  intros Hb Hpl Hc k cmd Hk. pose proof (bu_mem _ _ _ _ _ _ _ _ Hb) as Hm. pose proof (bu_room _ _ _ _ _ _ _ _ Hb). pose proof (lo_room _ _ _ _ _ Hm) as Hr.
  rewrite encs_length in Hr. pose proof (lookup_lt_Some _ _ _ Hk). destruct (pl_range _ Hpl) as (_ & _ & ? & ?).
  assert (record_phys_at x k = dsa_completion_records_phys x + 32 * Z.of_nat k) as Er.
  { unfold record_phys_at, kDsaCompletionRecordSize. rewrite wrap_small by (unfold in_range; lia). lia. }
  assert (encs x cmds !! k = Some (encode cmd (dsa_completion_records_phys x + 32 * Z.of_nat k))) as Hek.
  { unfold encs. rewrite list_lookup_imap, Hk. cbn. by rewrite Er. }
  rewrite (lo_done _ _ _ _ _ Hm _ _ Hek). split; [done|]. apply decode_encode; [by eapply Forall_lookup_1|unfold in_range; lia].
Qed.
(** The memory of two contexts is apart. *)
Definition own (x : DsaCtx) (a : Z) : Prop :=
  dsa_hw_descs x <= a < dsa_hw_descs x + 65536 ∨ dsa_completion_records x <= a < dsa_completion_records x + 32768.
Lemma own_apart b s c c' x x' a : fac_ok b s → f_ctxs s !! c = Some x → f_ctxs s !! c' = Some x' → c ≠ c' → own x a → own x' a → False.
Proof.
  intros Hok Hc Hc' Hne Ho Ho'. destruct (fo_blocks _ _ Hok _ _ Hc) as [B1 B2], (fo_blocks _ _ Hok _ _ Hc') as [B3 B4], (fo_apart _ _ Hok _ _ _ _ Hc Hc' Hne) as [N1 N2].
  destruct (fo_ctx _ _ Hok _ _ Hc) as [_ [(? & ? & _) (? & ? & _) _ _ _ _]], (fo_ctx _ _ Hok _ _ Hc') as [_ [(? & ? & _) (? & ? & _) _ _ _ _]].
  assert (kDescBlock ≠ kRecordBlock) as Hsz by done. pose proof (fo_pool _ _ Hok) as Hp.
  pose proof (mp_apart _ _ _ _ _ _ Hp B1 B3 N1). pose proof (mp_apart _ _ _ _ _ _ Hp B2 B4 N2).
  pose proof (mp_apart _ _ _ _ _ _ Hp B1 B4 ltac:(congruence)). pose proof (mp_apart _ _ _ _ _ _ Hp B2 B3 ltac:(congruence)).
  unfold own, kDescBlock, kRecordBlock in *. lia.
Qed.
Lemma building_frame b c x s s' n cmds crcs : fac_ok b s → f_ctxs s !! c = Some x → building T c x s s' n cmds crcs →
  (∀ a, ¬ own x a → f_mem s' !! a = f_mem s !! a) ∧
  ∀ c' x', c' ≠ c → f_ctxs s !! c' = Some x' → f_ctxs s' !! c' = Some x' ∧ ∀ a, own x' a → f_mem s' !! a = f_mem s !! a.
Proof.
  intros Hok Hc Hb. pose proof (bu_room _ _ _ _ _ _ _ _ Hb).
  assert (∀ a, ¬ own x a → f_mem s' !! a = f_mem s !! a) as Hf.
  { intros a Ha. unfold own in Ha. apply (lo_frame _ _ _ _ _ (bu_mem _ _ _ _ _ _ _ _ Hb)); lia. }
  split; [done|]. intros c' x' Hne Hc'. split; [by rewrite (bu_ctx _ _ _ _ _ _ _ _ Hb), lookup_insert_ne|].
  intros a Ha. apply Hf. intros Ho. exact (own_apart b s c c' x x' a Hok Hc Hc' (not_eq_sym Hne) Ho Ha).
Qed.

Lemma BuildMove_ok c x s r ops : ctx_at c x s → engine_ctx r = c → moves_ok ops (r_num r) → (r_num r ≤ length ops)%nat → Forall user_op (take (r_num r) ops) →
  wp (BuildMoveCtx r ops) (built c x s (Forall (dma_op T) (take (r_num r) ops)) (move_plan T (dsa_hw_descs_phys x) ops (r_num r)) (slots x (take (r_num r) ops))) s.
Proof.
  intros Hat <- Hm Hn Hu. destruct (one_copy ops (r_num r)) as [[[op a] k]|] eqn:E; [|by apply BuildMove_batch].
  eapply BuildMove_one; try done. destruct Hm as (_ & Hm & _). assert (op ∈ take (r_num r) ops) as Hin.
  { revert E. unfold one_copy. destruct (r_num r) as [|[|]]; try done. destruct ops as [|op' ops]; [done|]. destruct (m_src op') as [|? [|]]; try done.
    destruct (m_src_len op'); try done. destruct (_ || _); [|done]. intros [= -> _ _]. by left. }
  rewrite Forall_forall in Hm. by destruct (Hm op Hin) as (_ & ? & _).
Qed.

(** C9: a batch of moves that passed the checks of the channel becomes descriptors for exactly
    the planned commands, in physical addresses: one copy, or a batch of the copies of every
    segment to its place in the destination, a fence, and the checksums that could not be
    computed with a copy. They fit into the context, the completion record says that the work
    is not done, and every checksum asked for will be found in the record of the command that
    computes it. Other contexts and all other memory are untouched. The answer is BAD_DATA
    exactly when some buffer is not inside one registered page. *)
Theorem build_move_descriptors b s x r ops :
  fac_ok b s → f_ctxs s !! engine_ctx r = Some x → moves_ok ops (r_num r) → (r_num r ≤ length ops)%nat → Forall user_op (take (r_num r) ops) →
  let plan := move_plan T (dsa_hw_descs_phys x) ops (r_num r) in
  wp (BuildMoveCtx r ops) (λ st s', fac_ok b s' ∧
    (∀ a, ¬ own x a → f_mem s' !! a = f_mem s !! a) ∧
    (∀ c' x', c' ≠ engine_ctx r → f_ctxs s !! c' = Some x' → f_ctxs s' !! c' = Some x' ∧ ∀ a, own x' a → f_mem s' !! a = f_mem s !! a) ∧
    (st = kBadData ∧ ¬ Forall (dma_op T) (take (r_num r) ops) ∨
     st = kOk ∧ Forall (dma_op T) (take (r_num r) ops) ∧ (length plan ≤ 1024)%nat ∧ device_reads x (f_mem s') plan ∧
     DsaCheckCompletion (bytes_at (f_mem s') (dsa_completion_records x) 32) = DSA_TASK_WIP ∧
     ∃ x', f_ctxs s' !! engine_ctx r = Some x' ∧ slots x (take (r_num r) ops) plan (crc_results x'))) s.
Proof.
  intros Hok Hc Hm Hn Hu plan. pose proof (fac_ctx_at _ _ _ _ Hok Hc) as Hat.
  eapply wp_mono; [by apply (BuildMove_ok (engine_ctx r) x)|]. cbv beta. intros st s' (n & cmds & crcs & Hb & Hans). destruct (building_frame _ _ _ _ _ _ _ _ Hok Hc Hb) as [F1 F2].
  split; [by eapply fac_building|]. split; [done|]. split; [done|]. destruct Hans as [[-> ?]|(-> & Hd & -> & -> & Hs)]; [by left|]. right.
  destruct (move_plan_ok (dsa_hw_descs_phys x) ops (r_num r) Hm Hu Hd) as [Hl Hco]. fold plan in Hl, Hco.
  split_and!; [done|done|done|eapply building_reads; [done|by apply (fo_ctx _ _ Hok _ _ Hc)|done]| |].
  - by rewrite (lo_record _ _ _ _ _ (bu_mem _ _ _ _ _ _ _ _ Hb)).
  - eexists. split; [rewrite (bu_ctx _ _ _ _ _ _ _ _ Hb); apply lookup_insert_eq|done].
Qed.
(** What the caller promises of a batch. *)
Definition batch_valid (op : op_array) (num : nat) : Prop :=
  (num ≤ array_size op)%nat ∧
  match op with
  | MoveOps ops => moves_ok ops num ∧ Forall user_op (take num ops)
  | CrcOps ops => crcs_ok ops num ∧ Forall user_crc (take num ops)
  end.
(** Every checksum the engine will read is in a record of the context. *)
Definition readable (x : DsaCtx) (num : nat) (crcs : list Z) : Prop :=
  ∀ i, (i < num)%nat → ∃ v, crcs !! i = Some v ∧ (v = 0 ∨ ∃ k, (k < 1024)%nat ∧ v = record_at x k).
Lemma BuildCtx_ok b s x r op : fac_ok b s → f_ctxs s !! engine_ctx r = Some x → r_op r = Some op → batch_valid op (r_num r) →
  wp (BuildCtx r) (λ st s', ∃ n cmds crcs, building T (engine_ctx r) x s s' n cmds crcs ∧
    (st = kBadData ∨ st = kOk ∧ readable x (r_num r) crcs)) s.
Proof.
  intros Hok Hc Hop [Hn Hv]. pose proof (fac_ctx_at _ _ _ _ Hok Hc) as Hat. unfold BuildCtx. wp_step. eapply wp_need; [done|]. destruct op as [ops|ops]; cbn [array_size] in Hn.
  - destruct Hv as [Hm Hu].
    assert (wp (BuildMoveCtx r ops) (built (engine_ctx r) x s (Forall (dma_op T) (take (r_num r) ops)) (move_plan T (dsa_hw_descs_phys x) ops (r_num r)) (slots x (take (r_num r) ops))) s) as H
      by (by apply BuildMove_ok).
    eapply wp_mono; [exact H|]. cbv beta. intros st s' (n & cmds & crcs & Hb & Hans). exists n, cmds, crcs. split; [done|].
    destruct Hans as [[-> _]|(-> & _ & _ & -> & Hs)]; [by left|]. right. split; [done|]. intros i Hi.
    destruct (lookup_lt_is_Some_2 (take (r_num r) ops) i) as [op Hop']; [rewrite length_take; lia|]. destruct (Hs i op Hop') as (v & Hv & Hslot). exists v. split; [done|].
    unfold slot in Hslot. destruct (enable_crc op); [|by left]. destruct Hslot as (k & Hk & ->). right. exists k. split; [|done].
    apply lookup_lt_Some in Hk. pose proof (bu_room _ _ _ _ _ _ _ _ Hb). pose proof (lo_room _ _ _ _ _ (bu_mem _ _ _ _ _ _ _ _ Hb)) as Hr. rewrite encs_length in Hr. lia.
  - destruct Hv as [[Hmax _] Hu]. eapply wp_mono; [by apply (BuildCrc_ok (engine_ctx r) x)|]. cbv beta. intros st s' (n & cmds & crcs & Hb & Hans). exists n, cmds, crcs. split; [done|].
    destruct Hans as [[-> _]|(-> & _ & _ & -> & Hs)]; [by left|]. right. split; [done|]. intros i Hi.
    destruct (lookup_lt_is_Some_2 (take (r_num r) ops) i) as [op Hop']; [rewrite length_take; lia|]. destruct (Hs i op Hop') as (k & Hk & Hv). eexists. split; [done|]. right. exists k. split; [|done].
    apply lookup_lt_Some in Hk. pose proof (bu_room _ _ _ _ _ _ _ _ Hb). pose proof (lo_room _ _ _ _ _ (bu_mem _ _ _ _ _ _ _ _ Hb)) as Hr. rewrite encs_length in Hr. lia.
Qed.
End moves.
End factory.
