(* ===== verification/DsaEngine.v ===== *)
(** * The DSA engine (src/src/data_flow/dsa/data_flow_dsa_engine.cc)

    The engine builds the descriptors of a request with the context factory, hands them to the
    dispatcher, and reads the completion record until the device has written it. It implements
    the interface [Engine] of the channel. The device, the user and other threads act between
    two calls: they write memory and change the counters of the work queues. *)

From Stdlib Require Import ZArith Lia.
From stdpp Require Import prelude gmap.
From S2P Require Import Prelude Status ByteMemory AddressManager DsaUio DsaDesc DataFlow DsaDispatch DsaCtx.
Open Scope Z_scope.

Section engine.
Context {M : Type} {MP : MemoryPool M}.
Abbreviation fac := (DsaCtxFactory (M := M)).

Record DsaEngine := MkDsa { dsa_desc_factory_ : fac; dsa_queues : queues; dsa_strategy : ScheduleStrategy }.
#[local] Instance eta_DsaEngine : Eta DsaEngine := λ e, MkDsa (dsa_desc_factory_ e) (dsa_queues e) (dsa_strategy e).
#[local] Instance eta_factory : Eta fac := λ f,
  MkFac (f_am f) (f_pool f) (f_mem f) (f_ctxs f) (f_next f) (op_len_sum f).
Definition on_factory {A} (m : ST fac A) : ST DsaEngine A := λ e,
  match m (dsa_desc_factory_ e) with Ok (a, f) => Ok (a, e <| dsa_desc_factory_ := f |>) | Err x => Err x end.
Definition on_queues {A} (m : ST queues A) : ST DsaEngine A := λ e,
  match m (dsa_queues e) with Ok (a, q) => Ok (a, e <| dsa_queues := q |>) | Err x => Err x end.

(** [DsaEngine::Submit]; the dispatcher stores the chosen queue in the context. *)
Definition dsa_Submit (r : DataFlowRequest) : ST DsaEngine StatusCode :=
  st ← on_factory (BuildCtx r);
  if negb (bool_decide (st = kOk)) then mret st
  else
    e ← get;
    x ← on_factory (get_ctx (engine_ctx r));
    '(st, w) ← on_queues (disp_Submit (dsa_strategy e) (r_hint r) (dsa_hw_descs x));
    match w with
    | Some w => on_factory (mod_ctx (engine_ctx r) (λ x, x <| work_queue := Some w |>))
    | None => mret ()
    end;;
    mret st.

(** The checksum in the record at [v]; [VESAL_CRC_REVISE] of a [uint32_t]. *)
Definition read_crc (m : gmap Z Z) (v : Z) : res Z :=
  if v =? 0 then Ok 0
  else
    match read_bytes m v GetDsaCompletionRecordSize with
    | Some cr => Ok (unot 32 (GetCrcInDsaCompletionRecord cr))
    | None => Err NullDeref
    end.
Fixpoint read_crcs (m : gmap Z Z) (crcs : list Z) (num : nat) {struct num} : res (list Z) :=
  match num with
  | O => Ok []
  | S num =>
      match crcs with
      | [] => Err OutOfBounds
      | v :: crcs => c ← read_crc m v; cs ← read_crcs m crcs num; Ok (c :: cs)
      end
  end.
Definition dsa_CheckCompletion (r : DataFlowRequest) (result : DataFlowResult) : ST DsaEngine (option DataFlowResult) :=
  x ← on_factory (get_ctx (engine_ctx r));
  e ← get;
  let m := f_mem (dsa_desc_factory_ e) in
  cr ← need NullDeref (read_bytes m (dsa_completion_records x) GetDsaCompletionRecordSize);
  let ret := DsaCheckCompletion cr in
  if ret =? DSA_TASK_WIP then mret None
  else
    crcs ← lift (read_crcs m (crc_results x) (r_num r));
    w ← need NullDeref (work_queue x);
    on_queues (NotifyCompletion w);;
    mret (Some (MkResult (if ret =? DSA_TASK_SUCCESS then kOk else kHardwareError) crcs (user_ctx r))).

(** ** What the strategy keeps to *)

Definition strategy_wf (s : ScheduleStrategy) (n : nat) : Prop :=
  match s with
  | DeviceAwareStrategy t => t ≠ [] ∧ ∀ k w, t !! k = Some (Some w) → (w < n)%nat
  | RoundRobinStrategy l => l ≠ [] ∧ ∀ w, w ∈ l → (w < n)%nat
  | NumaAwareStrategy t => length t = Z.to_nat kMaxNumaNum ∧ ∀ l w, l ∈ t → w ∈ l → (w < n)%nat
  end.
Definition tls_wf (t : tls) : Prop := length (tls_counter_by_numa_ t) = Z.to_nat kMaxNumaNum.

Lemma GetNext_wf s n hint t : strategy_wf s n → tls_wf t → wp (GetNext s hint) (λ r t', tls_wf t' ∧ ∀ w, r = Some w → (w < n)%nat) t.
Proof.
  intros Hs Ht. destruct s as [tbl|l|tbl]; cbn [GetNext].
  - destruct Hs as [Hne Hs]. destruct (Z.leb_spec (Z.of_nat (length tbl)) hint); [by wp_step|].
    destruct (lookup_lt_is_Some_2 tbl (Z.to_nat hint)) as [o Ho]; [destruct tbl; [done|cbn in *; lia]|]. eapply wp_need; [done|]. split; [done|].
    intros w ->. by apply (Hs (Z.to_nat hint)).
  - destruct Hs as [Hne Hs]. destruct l as [|w0 l']; [done|]. set (l := w0 :: l') in *. change (Nat.eqb (length l) 0) with false. cbn iota. do 4 wp_step.
    wp_step. destruct (lookup_mod l (tls_counter_ t)) as (w & Hw & Hin); [cbn; lia|]. eapply wp_need; [done|]. wp_step. split; [done|]. intros w' [= <-]. by apply Hs.
  - destruct Hs as [Hl Hs]. destruct (Z.leb_spec kMaxNumaNum hint); [by wp_step|].
    destruct (lookup_lt_is_Some_2 tbl (Z.to_nat hint)) as [l Hlk]; [rewrite Hl; unfold kMaxNumaNum in *; lia|]. wp_step. eapply wp_need; [done|].
    destruct (Nat.eqb_spec (length l) 0) as [|Hlen]; [by wp_step|]. do 2 wp_step.
    destruct (lookup_lt_is_Some_2 (tls_counter_by_numa_ t) (Z.to_nat hint)) as [k Hk]; [rewrite Ht; unfold kMaxNumaNum in *; lia|]. wp_step. eapply wp_need; [done|]. do 3 wp_step.
    destruct (lookup_mod l k) as (w & Hw & Hin); [lia|]. eapply wp_need; [done|]. wp_step. split.
    + unfold tls_wf. cbn. by rewrite length_alter.
    + intros w' [= <-]. eapply Hs; [|done]. by eapply list_elem_of_lookup_2.
Qed.
Record queues_ok (s : ScheduleStrategy) (n : nat) (q : queues) : Prop := { qo_len : length (wqs q) = n; qo_tls : tls_wf (my_tls q); qo_s : strategy_wf s n }.
Lemma wp_on_tls {A} (m : ST tls A) P (Q : A → queues → Prop) q : wp m P (my_tls q) → (∀ a t, P a t → Q a (q <| my_tls := t |>)) → wp (on_tls m) Q q.
Proof. unfold wp, on_tls. destruct (m (my_tls q)) as [[a t]|]; [|done]. eauto. Qed.
Lemma wp_on_wqs {A} (m : ST (list WorkQueueInfo) A) P (Q : A → queues → Prop) q : wp m P (wqs q) → (∀ a l, P a l → Q a (q <| wqs := l |>)) → wp (on_wqs m) Q q.
Proof. unfold wp, on_wqs. destruct (m (wqs q)) as [[a l]|]; [|done]. eauto. Qed.
Lemma wp_fetch_add w l : (w < length l)%nat → wp (fetch_add w) (λ _ l', length l' = length l) l.
Proof. intros Hw. destruct (lookup_lt_is_Some_2 l w Hw) as [x Hx]. unfold fetch_add. do 3 wp_step. eapply wp_need; [done|]. do 3 wp_step. apply length_alter. Qed.
Lemma wp_fetch_sub w l : (w < length l)%nat → wp (fetch_sub w) (λ _ l', length l' = length l) l.
Proof. intros Hw. destruct (lookup_lt_is_Some_2 l w Hw) as [x Hx]. unfold fetch_sub. do 3 wp_step. eapply wp_need; [done|]. do 3 wp_step. apply length_alter. Qed.
Lemma disp_Submit_wf s n hint descs q : queues_ok s n q →
  wp (disp_Submit s hint descs) (λ '(st, w) q', queues_ok s n q' ∧ (if decide (st = kOk) then ∃ v, w = Some v ∧ (v < n)%nat else w = None) ∧ st ∈ [kOk; kInvalidArgument; kResourceBusy]) q.
Proof.
  intros [Hl Ht Hs]. unfold disp_Submit. wp_step. eapply wp_on_tls; [by apply GetNext_wf|]. cbv beta. intros [w|] t' [Ht' Hw].
  2: { wp_step. split_and!; [by split|done|set_solver]. }
  specialize (Hw w eq_refl). do 2 wp_step. cbn [wqs upd]. destruct (lookup_lt_is_Some_2 (wqs q) w) as [x Hx]; [lia|]. wp_step. eapply wp_need; [exact Hx|]. wp_step.
  eapply wp_on_wqs; [apply wp_fetch_add; cbn [wqs upd]; lia|]. cbv beta. intros old l1 Hl1. cbn [wqs upd] in *. destruct (old <? capacity x).
  - do 3 wp_step. split_and!; [|rewrite decide_True by done; eauto|set_solver]. split; cbn [wqs my_tls upd]; [lia|done|done].
  - wp_step. eapply wp_on_wqs; [apply wp_fetch_sub; cbn [wqs upd]; lia|]. cbv beta. intros old' l2 Hl2. cbn [wqs upd] in *.
    wp_step. split_and!; [|done|set_solver]. split; cbn [wqs my_tls upd]; [lia|done|done].
Qed.
Lemma Notify_wf s n w q : queues_ok s n q → (w < n)%nat → wp (NotifyCompletion w) (λ _ q', queues_ok s n q') q.
Proof.
  intros [Hl Ht Hs] Hw. unfold NotifyCompletion. eapply wp_on_wqs; [apply wp_fetch_sub; lia|]. cbv beta. intros old l Hl'.
  split; cbn [wqs my_tls upd]; [lia|done|done].
Qed.

(** ** The engine keeps the interface of the channel *)

(** A running context has its queue, and its checksums are in its own records. *)
Definition running_ok (n : nat) (x : DsaCtx) (num : nat) : Prop :=
  (num ≤ kMaxSubmittedBatchSize)%nat ∧ readable x num (crc_results x) ∧ ∃ w, work_queue x = Some w ∧ (w < n)%nat.
Record dsa_ok (e : DsaEngine) (m : gmap Z work) : Prop := {
  do_factory : ∃ T b, wf_table T ∧ fac_ok T b (dsa_desc_factory_ e);
  do_queues : queues_ok (dsa_strategy e) (length (wqs (dsa_queues e))) (dsa_queues e);
  do_dom : ∀ c, is_Some (f_ctxs (dsa_desc_factory_ e) !! c) ↔ is_Some (m !! c);
  do_running : ∀ c num x, m !! c = Some (Running num) → f_ctxs (dsa_desc_factory_ e) !! c = Some x →
    running_ok (length (wqs (dsa_queues e))) x num }.
(** Between two calls memory is written (the mapping stays) and counters of queues change. *)
Definition dsa_env (e e' : DsaEngine) : Prop :=
  let f := dsa_desc_factory_ e in let f' := dsa_desc_factory_ e' in
  f_am f' = f_am f ∧ f_pool f' = f_pool f ∧ f_ctxs f' = f_ctxs f ∧ f_next f' = f_next f ∧ op_len_sum f' = op_len_sum f ∧
  (∀ a, is_Some (f_mem f !! a) → is_Some (f_mem f' !! a)) ∧
  dsa_strategy e' = dsa_strategy e ∧ length (wqs (dsa_queues e')) = length (wqs (dsa_queues e)) ∧ tls_wf (my_tls (dsa_queues e')).

Lemma wp_on_factory {A} (m : ST fac A) P (Q : A → DsaEngine → Prop) e :
  wp m P (dsa_desc_factory_ e) → (∀ a f, P a f → Q a (e <| dsa_desc_factory_ := f |>)) → wp (on_factory m) Q e.
Proof. unfold wp, on_factory. destruct (m (dsa_desc_factory_ e)) as [[a f]|]; [|done]. eauto. Qed.
Lemma wp_on_queues {A} (m : ST queues A) P (Q : A → DsaEngine → Prop) e :
  wp m P (dsa_queues e) → (∀ a q, P a q → Q a (e <| dsa_queues := q |>)) → wp (on_queues m) Q e.
Proof. unfold wp, on_queues. destruct (m (dsa_queues e)) as [[a q]|]; [|done]. eauto. Qed.
Lemma wp_get_ctx_of (f : fac) c x (Q : DsaCtx → fac → Prop) : f_ctxs f !! c = Some x → Q x f → wp (get_ctx c) Q f.
Proof. intros Hc HQ. unfold get_ctx. do 2 wp_step. by eapply wp_need. Qed.

Lemma readable_mapped m x num crcs v : area_ok x m → readable x num crcs → (∃ i, (i < num)%nat ∧ crcs !! i = Some v) →
  v = 0 ∨ mapped m v (Z.of_nat GetDsaCompletionRecordSize).
Proof.
  intros [_ (? & ? & Hm) _ _] Hr (i & Hi & Hv). destruct (Hr i Hi) as (v' & Hv' & [->|(k & Hk & ->)]); rewrite Hv in Hv'; injection Hv' as ->; [by left|]. right.
  unfold record_at, kDsaCompletionRecordSize, GetDsaCompletionRecordSize. rewrite wrap_small by (unfold in_range; lia). intros j Hj.
  rewrite <- Z.add_assoc. apply Hm. lia.
Qed.
Lemma read_crcs_lookup m num : ∀ crcs cs i v, read_crcs m crcs num = Ok cs → (i < num)%nat → crcs !! i = Some v →
  ∃ c, read_crc m v = Ok c ∧ cs !! i = Some c.
Proof.
  induction num as [|num IH]; intros crcs cs i v; cbn [read_crcs]; [lia|]. destruct crcs as [|v' crcs]; [done|].
  destruct (read_crc m v') as [c|] eqn:Ec; [|done]. cbn [mbind res_bind]. destruct (read_crcs m crcs num) as [cs'|] eqn:E; [|done]. intros [= <-] Hi.
  destruct i as [|i]; [intros [= ->]; by exists c|]. intros Hv. apply (IH crcs cs' i v); [done|lia|done].
Qed.
Lemma read_crcs_ok m num : ∀ crcs, (∀ i, (i < num)%nat → ∃ v, crcs !! i = Some v ∧ (v = 0 ∨ mapped m v (Z.of_nat GetDsaCompletionRecordSize))) →
  ∃ cs, read_crcs m crcs num = Ok cs ∧ length cs = num.
Proof.
  induction num as [|num IH]; intros crcs H; cbn [read_crcs]; [by exists []|].
  destruct (H 0%nat) as (v & Hv & Hm); [lia|]. destruct crcs as [|v' crcs]; [done|]. injection Hv as ->.
  assert (∃ c, read_crc m v = Ok c) as [c Hc].
  { unfold read_crc. destruct (Z.eqb_spec v 0); [by eexists|]. destruct Hm as [?|Hm]; [done|]. rewrite read_bytes_spec by done. by eexists. }
  destruct (IH crcs) as (cs & Hcs & Hl); [intros i Hi; apply (H (S i)); lia|]. exists (c :: cs). rewrite Hc. cbn. rewrite Hcs. cbn. by rewrite Hl.
Qed.

(** Between two calls. *)
Lemma dsa_env_ok e e' m : dsa_ok e m → dsa_env e e' → dsa_ok e' m.
Proof.
  intros [(T & b & HT & Hf) Hq Hd Hr] (E1 & E2 & E3 & E4 & E5 & Hm & E6 & E7 & Ht). split; rewrite ?E3, ?E6, ?E7.
  - exists T, b. split; [done|]. eapply fac_update; [exact Hf|by rewrite E1; apply Hf|done|done|by rewrite E5|done|].
    intros c x Hx. exists x. rewrite E3 in Hx. split; [done|by split_and!].
  - split; [done|done|apply Hq].
  - done.
  - done.
Qed.
(** Context [c] gets a queue, or stays free. *)
Lemma set_queue_ok T b (f : fac) c x w : fac_ok T b f → f_ctxs f !! c = Some x →
  wp (mod_ctx c (λ x, x <| work_queue := Some w |>)) (λ _ f', fac_ok T b f' ∧ f_ctxs f' = <[c := x <| work_queue := Some w |>]> (f_ctxs f) ∧ f_mem f' = f_mem f) f.
Proof.
  intros Hf Hc. unfold mod_ctx. wp_step. eapply wp_get_ctx_of; [exact Hc|]. wp_step.
  assert (alter (λ x : DsaCtx, x <| work_queue := Some w |>) c (f_ctxs f) = <[c := x <| work_queue := Some w |>]> (f_ctxs f)) as E.
  { rewrite <- (insert_id (f_ctxs f) c x Hc) at 1. by rewrite alter_insert_eq. }
  split; [|split; [exact E|done]]. eapply fac_update; [exact Hf|apply Hf|done|done|done|done|]. intros c' x' Hx'.
  assert (alter (λ x : DsaCtx, x <| work_queue := Some w |>) c (f_ctxs f) !! c' = Some x') as Hx2 by exact Hx'. rewrite E in Hx2.
  apply lookup_insert_Some in Hx2 as [[<- <-] | [_ Hx]]; [|exists x'; split; [done|by split_and!]].
  exists x. split; [done|]. split_and!; [done|done|]. intros [P1 P2 P3 P4 P5 P6]. by split.
Qed.
Lemma dsa_Submit_ok e m r op : dsa_ok e m → m !! engine_ctx r = Some Free → r_op r = Some op → batch_valid op (r_num r) →
  wp (dsa_Submit r) (λ st e', dsa_ok e' (if decide (st = kOk) then <[engine_ctx r := Running (r_num r)]> m else m)) e.
Proof.
  intros [(T & b & HT & Hf) Hq Hd Hr] Hm Hop Hv. destruct (proj2 (Hd (engine_ctx r))) as [x Hx]; [by eexists|].
  unfold dsa_Submit. wp_step. eapply wp_on_factory; [by apply (BuildCtx_ok T HT b _ x r op)|]. cbv beta. intros st f1 (n & cmds & crcs & Hb & Hst).
  pose proof (fac_building T b _ _ _ _ _ _ _ Hf Hx Hb) as Hf1. pose proof (bu_ctx _ _ _ _ _ _ _ _ Hb) as Hc1. set (x1 := upd crc_results _ _) in Hc1.
  assert (∀ f', fac_ok T b f' → (∃ x', f_ctxs f' = <[engine_ctx r := x']> (f_ctxs (dsa_desc_factory_ e))) →
    ∀ q', queues_ok (dsa_strategy e) (length (wqs (dsa_queues e))) q' → dsa_ok (MkDsa f' q' (dsa_strategy e)) m) as Hsame.
  { intros f' Hf' (x' & Ec) q' Hq'. split; cbn [dsa_desc_factory_ dsa_queues dsa_strategy].
    - exists T, b. done.
    - by rewrite (qo_len _ _ _ Hq').
    - intros c. rewrite Ec, lookup_insert_is_Some'. rewrite <- Hd. split; [intros [<- |?]; [by eexists|done]|by right].
    - intros c num y Hrun. rewrite Ec, (qo_len _ _ _ Hq'). intros [[<- _] | [_ Hy]]%lookup_insert_Some; [congruence|by apply (Hr c)]. }
  destruct e as [f q s]. cbn [dsa_desc_factory_ dsa_queues dsa_strategy upd] in *.
  destruct Hst as [->|[-> Hread]]; case_bool_decide as Hk; try done; cbn [negb].
  { wp_step. rewrite decide_False by done. apply Hsame; [done|by eexists|done]. }
  assert (f_ctxs f1 !! engine_ctx r = Some x1) as Hx1 by (rewrite Hc1; apply lookup_insert_eq).
  do 3 wp_step. eapply (wp_on_factory _ (λ y f', y = x1 ∧ f' = f1)); [by eapply wp_get_ctx_of|]. cbv beta. intros ? ? [-> ->].
  wp_step. eapply wp_on_queues; [by apply disp_Submit_wf|]. cbv beta. intros [st w] q' (Hq' & Hw & _). cbn [dsa_desc_factory_ dsa_queues dsa_strategy upd].
  destruct (decide (st = kOk)) as [->|Hne].
  - destruct Hw as (v & -> & Hvn). wp_step. eapply wp_on_factory; [cbn; by apply (set_queue_ok T b f1 (engine_ctx r) x1 v)|]. cbv beta. intros _ f2 (Hf2 & Hc2 & Hm2).
    wp_step. rewrite decide_True by done. cbn [dsa_desc_factory_ dsa_queues dsa_strategy upd]. rewrite Hc1, insert_insert_eq in Hc2. split; cbn [dsa_desc_factory_ dsa_queues dsa_strategy].
    + by exists T, b.
    + by rewrite (qo_len _ _ _ Hq').
    + intros c. rewrite Hc2, !lookup_insert_is_Some', Hd. done.
    + intros c num y. rewrite Hc2, (qo_len _ _ _ Hq'). intros [[<- [= <-]] | [Hne Hrun]]%lookup_insert_Some.
      * rewrite lookup_insert_eq. intros [= <-]. split_and!; [|exact Hread|by exists v]. destruct Hv as [_ Hv]. destruct op as [ops|ops]; [apply Hv|apply Hv].
      * rewrite lookup_insert_ne by done. by apply Hr.
  - subst w. do 3 wp_step. rewrite decide_False by done. apply Hsame; [done|by eexists|done].
Qed.
(** What a poll of a running request finds in its record, and what it reports. *)
Lemma dsa_check_ok e m r res : dsa_ok e m → m !! engine_ctx r = Some (Running (r_num r)) →
  wp (dsa_CheckCompletion r res) (λ o e', ∃ x, f_ctxs (dsa_desc_factory_ e) !! engine_ctx r = Some x ∧
    let ret := DsaCheckCompletion (bytes_at (f_mem (dsa_desc_factory_ e)) (dsa_completion_records x) 32) in
    match o with
    | None => ret = DSA_TASK_WIP ∧ e' = e
    | Some res' => ret ≠ DSA_TASK_WIP ∧ dsa_ok e' (<[engine_ctx r := Free]> m) ∧
        rs_status res' = (if ret =? DSA_TASK_SUCCESS then kOk else kHardwareError) ∧ rs_ctx res' = user_ctx r ∧ length (crc_output res') = r_num r ∧
        read_crcs (f_mem (dsa_desc_factory_ e)) (crc_results x) (r_num r) = Ok (crc_output res')
    end) e.
Proof.
  intros Hok Hm. pose proof Hok as [(T & b & HT & Hf) Hq Hd Hr]. destruct (proj2 (Hd (engine_ctx r))) as [x Hx]; [by eexists|].
  destruct (Hr _ _ _ Hm Hx) as (Hn & Hread & w & Hw & Hwn). pose proof (fac_area T b _ _ _ Hf Hx) as Har. pose proof Har as [_ (_ & _ & Hmr) _ _].
  unfold dsa_CheckCompletion. wp_step. eapply (wp_on_factory _ (λ y f', y = x ∧ f' = dsa_desc_factory_ e)); [by eapply wp_get_ctx_of|]. cbv beta. intros ? ? [-> ->].
  do 3 wp_step. cbn [dsa_desc_factory_ upd]. eapply wp_need; [apply read_bytes_spec; intros i Hi; apply Hmr; unfold GetDsaCompletionRecordSize in Hi; lia|].
  change (Z.of_nat GetDsaCompletionRecordSize) with 32. set (cr := bytes_at _ _ _). destruct (Z.eqb_spec (DsaCheckCompletion cr) DSA_TASK_WIP) as [Hwip|Hwip].
  { wp_step. exists x. split; [done|]. split; [done|]. by destruct e. }
  destruct (read_crcs_ok (f_mem (dsa_desc_factory_ e)) (r_num r) (crc_results x)) as (cs & Hcs & Hl).
  { intros i Hi. destruct (Hread i Hi) as (v & Hv & _). exists v. split; [done|]. eapply readable_mapped; [done|done|eauto]. }
  rewrite Hcs. do 3 wp_step. eapply wp_need; [done|]. wp_step. eapply wp_on_queues; [by eapply Notify_wf|]. cbv beta. intros old q' Hq'. wp_step.
  exists x. split; [done|]. cbn [rs_status rs_ctx crc_output]. split_and!; try done. destruct e as [f q s]. cbn [dsa_desc_factory_ dsa_queues dsa_strategy upd] in *.
  split; cbn [dsa_desc_factory_ dsa_queues dsa_strategy].
  - by exists T, b.
  - by rewrite (qo_len _ _ _ Hq').
  - intros c. rewrite Hd, lookup_insert_is_Some'. split; [by right|]. intros [<- |?]; [by eexists|done].
  - intros c num y [[_ ?] | [_ Hrun]]%lookup_insert_Some; [done|]. rewrite (qo_len _ _ _ Hq'). by apply Hr.
Qed.

#[refine] Definition dsa_engine : Engine DsaEngine := {|
  en_prealloc := on_factory PreallocateCtx; en_submit := dsa_Submit; en_check := dsa_CheckCompletion; en_clear := λ c, on_factory (ClearCtx c);
  en_ok := dsa_ok; en_valid := λ _ op num, batch_valid op num; en_env := dsa_env |}.
Proof.
  - intros e m [(T & b & HT & Hf) Hq Hd Hr]. eapply wp_on_factory; [by apply (PreallocateCtx_ok T HT b)|]. cbv beta. intros [st c] f' H.
    destruct e as [f q s]. cbn [dsa_desc_factory_ dsa_queues dsa_strategy upd] in *. destruct (decide (st = kOk)).
    + destruct H as (-> & Hn & x & Ec & Hpl & Hf'). split.
      { destruct (m !! f_next f) eqn:E; [|done]. destruct (proj2 (Hd (f_next f))) as [? ?]; [by eexists|congruence]. }
      split; cbn [dsa_desc_factory_ dsa_queues dsa_strategy]; [by eexists _, _|done| |].
      * intros c. rewrite Ec, !lookup_insert_is_Some', Hd. done.
      * intros c num y. rewrite Ec. intros [[_ ?] | [Hne Hrun]]%lookup_insert_Some; [done|]. rewrite lookup_insert_ne by done. by apply Hr.
    + destruct H as (Ec & Hf'). split; cbn [dsa_desc_factory_ dsa_queues dsa_strategy]; rewrite ?Ec; [by eexists _, _|done|done|done].
  - intros e m r op Hok Hm Hop Hv. by eapply dsa_Submit_ok.
  - intros e m r res Hok Hm. eapply wp_mono; [by eapply dsa_check_ok|]. cbv beta. intros [res'|] e' (x & _ & H).
    + by destruct H as (_ & ? & _ & ? & _).
    + destruct H as [_ ->]. done.
  - intros e m c [(T & b & HT & Hf) Hq Hd Hr] Hm. destruct (proj2 (Hd c)) as [x Hx]; [by eexists|]. eapply wp_on_factory; [by eapply (ClearCtx_ok T b)|]. cbv beta. intros [] f' [Ec Hf'].
    destruct e as [f q s]. cbn [dsa_desc_factory_ dsa_queues dsa_strategy upd] in *. split; cbn [dsa_desc_factory_ dsa_queues dsa_strategy]; [by eexists _, _|done| |].
    + intros c'. rewrite Ec, !lookup_delete_is_Some, Hd. done.
    + intros c' num y [Hne Hrun]%lookup_delete_Some. rewrite Ec, lookup_delete_ne by done. by apply Hr.
  - intros e e' m. apply dsa_env_ok.
Defined.

(** ** A batch of moves from submission to result *)

Lemma wp_and {S A} (m : ST S A) (P Q : A → S → Prop) s : wp m P s → wp m Q s → wp m (λ a s', P a s' ∧ Q a s') s.
Proof. unfold wp. by destruct (m s) as [[a s']|]. Qed.
(** Which portal is written, and what. *)
Definition portal_after (q : queues) (descs : Z) (w : option nat) (writes : list (Z * Z)) : Prop :=
  match w with
  | Some w => ∃ y, wqs q !! w = Some y ∧ writes = portal_writes q ++ [(portal (uio_info y), descs)]
  | None => writes = portal_writes q
  end.
Lemma disp_Submit_portal s n hint descs q : queues_ok s n q →
  wp (disp_Submit s hint descs) (λ '(st, w) q', (st = kOk ↔ is_Some w) ∧ portal_after q descs w (portal_writes q') ∧ st ∈ [kOk; kInvalidArgument; kResourceBusy]) q.
Proof.
  intros Hq. pose proof (disp_Submit_wf s n hint descs q Hq) as H. unfold wp in *. destruct q as [ws tl wr].
  destruct (disp_Submit s hint descs (MkQueues ws tl wr)) as [[[st w] q']|] eqn:E; [|done].
  destruct (submit_is_steps 1 s hint descs ws tl wr ∅ [] 0 (st, w) q') as (_ & Hiff & Hp); [lia|done|done|]. split; [done|]. destruct H as (_ & H & Hst). split; [|done].
  unfold portal_after. cbn [wqs portal_writes]. cbn in Hp. destruct w as [w|]; [|by rewrite app_nil_r in Hp]. cbn in Hp.
  destruct (decide (st = kOk)); [|done]. destruct H as (v & [= <-] & Hv). rewrite <- (qo_len _ _ _ Hq) in Hv. cbn [wqs] in Hv.
  destruct (lookup_lt_is_Some_2 ws w Hv) as [y Hy]. exists y. split; [done|]. by rewrite Hp, Hy.
Qed.

Section batch.
Context (T : gmap Z PhysChunk) (HT : wf_table T) (b : gmap Z Z) (e : DsaEngine) (m : gmap Z work) (r : DataFlowRequest) (ops : list DataFlowMoveOperation) (x : DsaCtx).
Context (Hok : dsa_ok e m) (Hf : fac_ok T b (dsa_desc_factory_ e)) (Hx : f_ctxs (dsa_desc_factory_ e) !! engine_ctx r = Some x) (Hfree : m !! engine_ctx r = Some Free).
Context (Hop : r_op r = Some (MoveOps ops)) (Hnum : (r_num r ≤ length ops)%nat) (Hm : moves_ok ops (r_num r)) (Hu : Forall user_op (take (r_num r) ops)).
Notation plan := (move_plan T (dsa_hw_descs_phys x) ops (r_num r)).

(** The state after a submission that succeeded. *)
Record batch_out (e1 : DsaEngine) : Prop := {
  bo_ok : dsa_ok e1 (<[engine_ctx r := Running (r_num r)]> m);
  bo_plan : device_reads x (f_mem (dsa_desc_factory_ e1)) plan;
  bo_portal : ∃ w y, wqs (dsa_queues e) !! w = Some y ∧ portal_writes (dsa_queues e1) = portal_writes (dsa_queues e) ++ [(portal (uio_info y), dsa_hw_descs x)];
  bo_ctx : ∃ x1, f_ctxs (dsa_desc_factory_ e1) !! engine_ctx r = Some x1 ∧ dsa_completion_records x1 = dsa_completion_records x ∧
    slots T x (take (r_num r) ops) plan (crc_results x1) }.
Lemma dsa_Submit_batch : wp (dsa_Submit r) (λ st e1,
  (st = kOk ∧ Forall (dma_op T) (take (r_num r) ops) ∧ batch_out e1) ∨
  (st ≠ kOk ∧ dsa_ok e1 m ∧ portal_writes (dsa_queues e1) = portal_writes (dsa_queues e) ∧ (st = kBadData ↔ ¬ Forall (dma_op T) (take (r_num r) ops)))) e.
Proof.
  assert (batch_valid (MoveOps ops) (r_num r)) as Hv by (split; [done|by split]).
  pose proof (dsa_Submit_ok e m r _ Hok Hfree Hop Hv) as H1. pose proof Hok as [_ Hq _ _].
  assert (wp (dsa_Submit r) (λ st e1, (st = kOk ∧ Forall (dma_op T) (take (r_num r) ops) ∧ device_reads x (f_mem (dsa_desc_factory_ e1)) plan ∧
      (∃ w y, wqs (dsa_queues e) !! w = Some y ∧ portal_writes (dsa_queues e1) = portal_writes (dsa_queues e) ++ [(portal (uio_info y), dsa_hw_descs x)]) ∧
      ∃ x1, f_ctxs (dsa_desc_factory_ e1) !! engine_ctx r = Some x1 ∧ dsa_completion_records x1 = dsa_completion_records x ∧ slots T x (take (r_num r) ops) plan (crc_results x1)) ∨
    (st ≠ kOk ∧ portal_writes (dsa_queues e1) = portal_writes (dsa_queues e) ∧ (st = kBadData ↔ ¬ Forall (dma_op T) (take (r_num r) ops)))) e) as H2.
  { unfold dsa_Submit. wp_step. unfold BuildCtx. eapply wp_on_factory.
    { wp_step. eapply wp_need; [done|]. apply (BuildMove_ok T HT (engine_ctx r) x); [by eapply fac_ctx_at|done..]. }
    cbv beta. intros st f1 (n & cmds & crcs & Hb & Hans). destruct Hans as [[-> Hno]|(-> & Hdma & -> & -> & Hs)].
    { rewrite bool_decide_eq_false_2 by done. cbn [negb]. wp_step. right. done. }
    rewrite bool_decide_eq_true_2 by done. cbn [negb]. destruct e as [f q s]. cbn [dsa_desc_factory_ dsa_queues dsa_strategy upd] in *.
    destruct (move_plan_ok T HT (dsa_hw_descs_phys x) ops (r_num r) Hm Hu Hdma) as [_ Hco].
    pose proof (building_reads T _ _ _ _ _ _ _ Hb (proj2 (fo_ctx _ _ _ Hf _ _ Hx)) Hco) as Hdr.
    set (x1 := x <| desc_num := Z.of_nat (length plan) |> <| crc_results := crcs |>).
    assert (f_ctxs f1 !! engine_ctx r = Some x1) as Hx1 by (rewrite (bu_ctx _ _ _ _ _ _ _ _ Hb); apply lookup_insert_eq).
    do 3 wp_step. eapply (wp_on_factory _ (λ y f', y = x1 ∧ f' = f1)); [by eapply wp_get_ctx_of|]. cbv beta. intros ? ? [-> ->].
    wp_step. eapply wp_on_queues; [cbn [dsa_queues dsa_strategy]; by apply (disp_Submit_portal s (length (wqs q)))|]. cbv beta. intros [st w] q' (Hst & Hp & Hin).
    cbn [dsa_desc_factory_ dsa_queues dsa_strategy upd]. change (dsa_hw_descs x1) with (dsa_hw_descs x) in Hp. destruct w as [w|].
    - wp_step. eapply wp_on_factory; [cbn; by apply (set_queue_ok T b f1 (engine_ctx r) x1 w); [eapply fac_building|]|]. cbv beta. intros _ f2 (Hf2 & Hc2 & Hm2).
      wp_step. left. split; [by apply Hst|]. split; [done|]. cbn [dsa_desc_factory_ dsa_queues upd]. rewrite Hm2. split_and!; [done|destruct Hp as (y & ? & ?); eauto|].
      exists (x1 <| work_queue := Some w |>). rewrite Hc2, lookup_insert_eq. done.
    - do 2 wp_step. right. split; [by intros ?%Hst%is_Some_None|]. split; [done|]. split; [|done]. intros ->. exfalso. clear -Hin. set_solver. }
  eapply wp_mono; [exact (wp_and _ _ _ _ H1 H2)|]. cbv beta. intros st e1 [Hk [(-> & Hdma & Hdr & Hp & Hc)|(Hne & Hp & Hst)]].
  - left. rewrite decide_True in Hk by done. split_and!; [done|done|]. by split.
  - right. rewrite decide_False in Hk by done. done.
Qed.

(** The answer to a poll when the device has marked the first record as successful. *)
Lemma dsa_check_batch e1 e2 res : batch_out e1 → dsa_env e1 e2 → Forall (dma_op T) (take (r_num r) ops) →
  let mem := f_mem (dsa_desc_factory_ e2) in
  DsaCheckCompletion (bytes_at mem (dsa_completion_records x) 32) = DSA_TASK_SUCCESS →
  wp (dsa_CheckCompletion r res) (λ o _, ∃ cs, o = Some (MkResult kOk cs (user_ctx r)) ∧ length cs = r_num r ∧
    ∀ i op, take (r_num r) ops !! i = Some op →
      if enable_crc op then ∃ k, plan !! k = Some (crc_cmd T op) ∧
        cs !! i = Some (unot 32 (GetCrcInDsaCompletionRecord (bytes_at mem (dsa_completion_records x + 32 * Z.of_nat k) 32)))
      else cs !! i = Some 0) e2.
Proof.
  intros [Hok1 Hdr Hp (x1 & Hx1 & Er & Hs)] Henv Hdma mem Hsucc.
  pose proof (dsa_env_ok _ _ _ Hok1 Henv) as Hok2. destruct Henv as (_ & _ & Ec & _).
  eapply wp_mono; [apply (dsa_check_ok e2 _ r res Hok2), lookup_insert_eq|]. cbv beta. intros o e3 (x2 & Hx2 & Ho). rewrite Ec, Hx1 in Hx2. injection Hx2 as <-.
  rewrite Er in Ho. fold mem in Ho. rewrite Hsucc in Ho. destruct o as [res'|]; [|by destruct Ho]. destruct Ho as (_ & _ & Hst & Hctx & Hlen & Hcs).
  exists (crc_output res'). split; [destruct res' as [rs co rc]; cbn in *; by subst|]. split; [done|]. intros i op Hi.
  assert (i < r_num r)%nat as Hir by (apply lookup_lt_Some in Hi; rewrite length_take in Hi; lia).
  destruct (Hs i op Hi) as (v & Hv & Hslot). destruct (read_crcs_lookup _ _ _ _ _ _ Hcs Hir Hv) as (c & Hc & Hci). fold mem in Hc. unfold slot in Hslot.
  destruct (enable_crc op); [|subst v; unfold read_crc in Hc; rewrite Z.eqb_refl in Hc; by injection Hc as <-].
  destruct Hslot as (k & Hk & ->). exists k. split; [done|]. rewrite Hci. f_equal.
  destruct (move_plan_ok T HT (dsa_hw_descs_phys x) ops (r_num r) Hm Hu Hdma) as [Hpl _]. apply lookup_lt_Some in Hk.
  destruct (fac_area T b _ _ _ Hf Hx) as [_ (? & ? & _) _ _]. destruct (fo_ctx _ _ _ Hf _ _ Hx) as [_ Hplaced].
  destruct (fo_blocks _ _ _ Hf _ _ Hx) as [_ Hblk]. destruct (mp_block _ _ _ _ (fo_pool _ _ _ Hf) Hblk) as [Hpos _]. destruct (pl_records _ _ Hplaced) as (? & _ & _).
  assert (record_at x k = dsa_completion_records x + 32 * Z.of_nat k) as Erk.
  { unfold record_at, kDsaCompletionRecordSize. rewrite wrap_small by (unfold in_range; lia). lia. }
  unfold read_crc in Hc. rewrite Erk, (proj2 (Z.eqb_neq _ _)) in Hc by lia. destruct (read_bytes mem _ _) as [cr|] eqn:Ecr; [|done].
  apply read_bytes_some in Ecr as ->. by injection Hc as <-.
Qed.

(** A batch of moves on the DSA engine from submission to result. The answer is BAD_DATA
    exactly when a buffer is not inside one registered page; an answer other than OK writes
    to no portal. With OK the address of the descriptors was written to the portal of one
    work queue, and the device reads the planned commands there. However memory and the
    queues change until then, once the device has marked the first record as successful the
    request is reported with OK and, for every operation, the complement of the checksum in
    the record of the command that computes it, or 0 where none was asked for. *)
Theorem dsa_batch_reported : wp (dsa_Submit r) (λ st e1,
  (st = kBadData ↔ ¬ Forall (dma_op T) (take (r_num r) ops)) ∧
  (st ≠ kOk → portal_writes (dsa_queues e1) = portal_writes (dsa_queues e)) ∧
  (st = kOk → device_reads x (f_mem (dsa_desc_factory_ e1)) plan ∧
    (∃ w y, wqs (dsa_queues e) !! w = Some y ∧ portal_writes (dsa_queues e1) = portal_writes (dsa_queues e) ++ [(portal (uio_info y), dsa_hw_descs x)]) ∧
    ∀ e2 res, dsa_env e1 e2 →
      let mem := f_mem (dsa_desc_factory_ e2) in
      DsaCheckCompletion (bytes_at mem (dsa_completion_records x) 32) = DSA_TASK_SUCCESS →
      wp (dsa_CheckCompletion r res) (λ o _, ∃ cs, o = Some (MkResult kOk cs (user_ctx r)) ∧ length cs = r_num r ∧
        ∀ i op, take (r_num r) ops !! i = Some op →
          if enable_crc op then ∃ k, plan !! k = Some (crc_cmd T op) ∧
            cs !! i = Some (unot 32 (GetCrcInDsaCompletionRecord (bytes_at mem (dsa_completion_records x + 32 * Z.of_nat k) 32)))
          else cs !! i = Some 0) e2)) e.
Proof.
  eapply wp_mono; [exact dsa_Submit_batch|]. cbv beta. intros st e1 [(-> & Hdma & Hout)|(Hne & Hok1 & Hp & Hst)]; [|by split_and!].
  split; [done|]. split; [done|]. intros _. pose proof Hout as [_ Hdr Hp _]. split; [done|]. split; [done|].
  intros e2 res Henv mem Hsucc. by eapply dsa_check_batch.
Qed.
End batch.
End engine.
