(* ===== verification/DsaDevice.v ===== *)
(** * What the device makes of the descriptors

    The DSA itself is hardware. Its documented behaviour is a relation on physical memory: the
    device reads the submitted descriptor and, when that is a batch, the list it points to; it
    may work on the commands in any order, but nothing after a fence starts before everything
    in front of it is done. The CRC unit is a parameter. The main theorem says that a batch of
    moves on the DSA engine then has the outcome the software engine gives. *)

From Stdlib Require Import ZArith Lia.
From stdpp Require Import prelude gmap.
From S2P Require Import Prelude Status ByteMemory Checksum AddressManager DsaUio DsaDesc DataFlow DataFlowSw DsaDispatch DsaCtx DsaEngine.
Open Scope Z_scope.

(** ** The device *)

Section device.
(** The checksum the CRC unit computes of some bytes, from a seed. *)
Context (dev_crc : Z → list Z → Z).

(** The commands at address [a], each with the address of its record: the descriptor is read
    through the portal, the list of a batch from physical memory. *)
Definition fetch (m pm : gmap Z Z) (a : Z) : option (list (command * Z)) :=
  match decode (bytes_at m a 64) with
  | Some (Batch n l, _) => mapM (λ k, decode (bytes_at pm (l + 64 * k) 64)) (seqZ 0 n)
  | Some c => Some [c]
  | None => None
  end.
Definition exec (c : command) (pm : gmap Z Z) : gmap Z Z :=
  match c with
  | Copy src len dst | CopyCrc src len dst _ => write_bytes dst (bytes_at pm src len) pm
  | _ => pm
  end.
Definition crc_out (c : command) (pm : gmap Z Z) : option Z :=
  match c with
  | CopyCrc src len _ seed | Crc src len seed => Some (dev_crc seed (bytes_at pm src len))
  | _ => None
  end.
(** A copy with checksum needs buffers that do not overlap. *)
Definition runnable (c : command) : Prop :=
  match c with CopyCrc src len dst _ => apart src len dst len | _ => True end.
Definition is_fence (l : list (command * Z)) (k : nat) : Prop := ∃ cr, l !! k = Some (Fence, cr).
(** [runs l pm0 done pm recs]: the commands in [done] have been executed, with memory [pm] and
    the checksums [recs] as the outcome. *)
Inductive runs (l : list (command * Z)) (pm0 : gmap Z Z) : gset nat → gmap Z Z → gmap Z Z → Prop :=
| runs_start : runs l pm0 ∅ pm0 ∅
| runs_cmd done pm recs k c cr : runs l pm0 done pm recs → l !! k = Some (c, cr) → k ∉ done → runnable c →
    (∀ j, (j < k)%nat → is_fence l j ∨ c = Fence → j ∈ done) →
    runs l pm0 ({[ k ]} ∪ done) (exec c pm) (match crc_out c pm with Some v => <[cr := v]> recs | None => recs end).
Definition completes (l : list (command * Z)) (pm0 pm : gmap Z Z) (recs : gmap Z Z) : Prop :=
  ∃ done, runs l pm0 done pm recs ∧ ∀ k, (k < length l)%nat → k ∈ done.

(** ** Any order gives the same *)

(** The copies of a list, [source, length, destination]. *)
Definition copy_of (c : command) : option (Z * Z * Z) :=
  match c with Copy s n d | CopyCrc s n d _ => Some (s, n, d) | _ => None end.
Definition copy_at (l : list (command * Z)) (k : nat) (s n d : Z) : Prop := ∃ c cr, l !! k = Some (c, cr) ∧ copy_of c = Some (s, n, d).
(** No copy writes what another one reads or writes; checksums of memory come after a fence,
    copies before it; records are apart. *)
Record orderly (l : list (command * Z)) : Prop := {
  or_apart : ∀ j k s n d s' n' d', copy_at l j s n d → copy_at l k s' n' d' → j ≠ k → apart d n d' n' ∧ apart d n s' n';
  or_crc : ∀ k s n seed cr, l !! k = Some (Crc s n seed, cr) → ∃ j, (j < k)%nat ∧ is_fence l j;
  or_fence : ∀ j k s n d, is_fence l j → copy_at l k s n d → (k < j)%nat;
  or_records : ∀ j k c c' cr, l !! j = Some (c, cr) → l !! k = Some (c', cr) → j = k }.

Section order.
Context (l : list (command * Z)) (pm0 : gmap Z Z) (Hl : orderly l).

Record progress (done : gset nat) (pm recs : gmap Z Z) : Prop := {
  pr_copied : ∀ k s n d, copy_at l k s n d → k ∈ done → ∀ i, 0 <= i < n → pm !! (d + i) = Some (default 0 (pm0 !! (s + i)));
  pr_rest : ∀ p, (∀ k s n d, copy_at l k s n d → k ∈ done → ¬ d <= p < d + n) → pm !! p = pm0 !! p;
  pr_fence : ∀ j i, is_fence l j → j ∈ done → (i < j)%nat → i ∈ done;
  pr_crc : ∀ k s n seed cr, l !! k = Some (Crc s n seed, cr) → k ∈ done →
    recs !! cr = Some (dev_crc seed (bytes_at pm s n)) ∧ ∀ j s' n' d', copy_at l j s' n' d' → j ∈ done;
  pr_copy_crc : ∀ k s n d seed cr, l !! k = Some (CopyCrc s n d seed, cr) → k ∈ done → recs !! cr = Some (dev_crc seed (bytes_at pm0 s n)) }.

(** What a copy reads has not been written yet. *)
Lemma fresh_source done pm recs k s n d : progress done pm recs → copy_at l k s n d → k ∉ done → bytes_at pm s n = bytes_at pm0 s n.
Proof.
  intros [_ Hr _ _ _] Hk Hnew. apply bytes_at_ext. intros i Hi. apply Hr. intros j s' n' d' Hj Hjd Hin.
  destruct (or_apart _ Hl j k s' n' d' s n d Hj Hk) as [_ Ha]; [by intros ->|]. unfold apart in Ha. lia.
Qed.
Lemma exec_lookup c pm p : exec c pm !! p =
  match copy_of c with
  | Some (s, n, d) => if decide (d <= p < d + Z.max 0 n) then Some (default 0 (pm !! (s + (p - d)))) else pm !! p
  | None => pm !! p
  end.
Proof.
  assert (∀ s n d, write_bytes d (bytes_at pm s n) pm !! p = if decide (d <= p < d + Z.max 0 n) then Some (default 0 (pm !! (s + (p - d)))) else pm !! p) as H.
  { intros s n d. rewrite write_bytes_lookup, bytes_at_length. replace (Z.of_nat (Z.to_nat n)) with (Z.max 0 n) by lia.
    case_decide; [|done]. rewrite bytes_at_lookup, decide_True by lia. by rewrite Z2Nat.id by lia. }
  destruct c; cbn [exec copy_of]; [apply H|apply H|done..].
Qed.
Lemma exec_no_copy c pm : copy_of c = None → exec c pm = pm.
Proof. by destruct c. Qed.
Lemma copy_at_eq k c cr s n d : l !! k = Some (c, cr) → copy_at l k s n d → copy_of c = Some (s, n, d).
Proof. intros Hk (c' & cr' & Hk' & Hc). rewrite Hk in Hk'. by injection Hk' as <- <-. Qed.
Lemma other_record (done : gset nat) (recs : gmap Z Z) k c cr pm k' c' cr' v : k ∉ done → k' ∈ done → l !! k = Some (c, cr) → l !! k' = Some (c', cr') →
  recs !! cr' = Some v → (match crc_out c pm with Some v => <[cr := v]> recs | None => recs end) !! cr' = Some v.
Proof.
  intros Hnew Hold Hk Hk' Hv. destruct (crc_out c pm); [|done]. rewrite lookup_insert_ne; [done|]. intros <-. by rewrite (or_records _ Hl k k' c c' cr Hk Hk') in Hnew.
Qed.
Lemma progress_copies done pm recs k c cr : progress done pm recs → l !! k = Some (c, cr) → k ∉ done →
  (∀ k' s n d, copy_at l k' s n d → k' ∈ {[k]} ∪ done → ∀ i, 0 <= i < n → exec c pm !! (d + i) = Some (default 0 (pm0 !! (s + i)))) ∧
  (∀ p, (∀ k' s n d, copy_at l k' s n d → k' ∈ {[k]} ∪ done → ¬ d <= p < d + n) → exec c pm !! p = pm0 !! p).
Proof.
  intros Hp Hk Hnew. pose proof Hp as [P1 P2 _ _ _]. split.
  - intros k' s n d Hk' Hin i Hi. rewrite exec_lookup. destruct (copy_of c) as [[[s0 n0] d0]|] eqn:Hc.
    + assert (copy_at l k s0 n0 d0) as Hk0 by (by exists c, cr). destruct (decide (k' = k)) as [->|Hne].
      * rewrite (copy_at_eq k c cr s n d Hk Hk') in Hc. injection Hc as <- <- <-. rewrite decide_True by lia. replace (d + i - d) with i by lia.
        pose proof (fresh_source done pm recs k s n d Hp Hk' Hnew) as E. apply (f_equal (λ b, b !! Z.to_nat i)) in E. rewrite !bytes_at_lookup, !decide_True, Z2Nat.id in E by lia.
        exact E.
      * destruct (or_apart _ Hl k k' _ _ _ _ _ _ Hk0 Hk' (not_eq_sym Hne)) as [Ha _]. unfold apart in Ha. rewrite decide_False by lia.
        apply (P1 k' s n d Hk'); [set_solver|done].
    + destruct (decide (k' = k)) as [->|Hne]; [by rewrite (copy_at_eq k c cr s n d Hk Hk') in Hc|]. apply (P1 k' s n d Hk'); [set_solver|done].
  - intros p Hno. rewrite exec_lookup. assert (pm !! p = pm0 !! p) as E by (apply P2; intros k' s n d H1 H2; apply (Hno k' s n d H1); set_solver).
    destruct (copy_of c) as [[[s0 n0] d0]|] eqn:Hc; [|done]. assert (¬ d0 <= p < d0 + n0) by (apply (Hno k s0 n0 d0); [by exists c, cr|set_solver]).
    rewrite decide_False by lia. done.
Qed.
Lemma runs_progress done pm recs : runs l pm0 done pm recs → progress done pm recs.
Proof.
  induction 1 as [|done pm recs k c cr _ IH Hk Hnew Hrun Hready].
  { split; [by intros ? ? ? ? _ ?%not_elem_of_empty|done|by intros ? ? _ ?%not_elem_of_empty|by intros ? ? ? ? ? _ ?%not_elem_of_empty|by intros ? ? ? ? ? ? _ ?%not_elem_of_empty]. }
  destruct (progress_copies done pm recs k c cr IH Hk Hnew) as [N1 N2]. pose proof IH as [_ _ P3 P4 P5].
  split; [exact N1|exact N2| | |].
  - intros j i Hj [->%elem_of_singleton|Hd]%elem_of_union Hij; [|apply elem_of_union_r; by apply (P3 j)].
    apply elem_of_union_r, Hready; [done|]. right. destruct Hj as [cr' Hj]. rewrite Hk in Hj. by injection Hj.
  - intros k' s n seed cr' Hk' [->%elem_of_singleton|Hd]%elem_of_union.
    + rewrite Hk in Hk'. injection Hk' as -> ->. cbn [crc_out exec]. split; [by rewrite lookup_insert_eq|]. intros j s' n' d' Hj. apply elem_of_union_r.
      destruct (or_crc _ Hl _ _ _ _ _ Hk) as (f & Hf & Hfence). apply (P3 f); [done|by apply Hready; [|left]|]. by eapply or_fence.
    + destruct (P4 k' s n seed cr' Hk' Hd) as [Hr Hall]. assert (exec c pm = pm) as ->.
      { apply exec_no_copy. destruct (copy_of c) as [[[s0 n0] d0]|] eqn:Hc; [|done]. destruct Hnew. apply (Hall k s0 n0 d0). by exists c, cr. }
      split; [by eapply other_record|]. intros j s' n' d' Hj. by apply elem_of_union_r, (Hall j s' n' d').
  - intros k' s n d seed cr' Hk' [->%elem_of_singleton|Hd]%elem_of_union; [|by eapply other_record; [..|by eapply P5]].
    rewrite Hk in Hk'. injection Hk' as -> ->. cbn [crc_out]. rewrite lookup_insert_eq. do 2 f_equal.
    apply (fresh_source done pm recs k s n d IH); [by eexists _, _|done].
Qed.
End order.

(** Working through the list from front to back is one way to complete it. *)
Fixpoint in_order (l : list (command * Z)) (pm recs : gmap Z Z) : gmap Z Z * gmap Z Z :=
  match l with
  | [] => (pm, recs)
  | (c, cr) :: l => in_order l (exec c pm) (match crc_out c pm with Some v => <[cr := v]> recs | None => recs end)
  end.
Lemma in_order_runs l2 : ∀ l1 pm0 pm recs, runs (l1 ++ l2) pm0 (set_seq 0 (length l1)) pm recs → Forall (runnable ∘ fst) l2 →
  completes (l1 ++ l2) pm0 (in_order l2 pm recs).1 (in_order l2 pm recs).2.
Proof.
  induction l2 as [|[c cr] l2 IH]; intros l1 pm0 pm recs Hr Hc.
  { rewrite app_nil_r in *. exists (set_seq 0 (length l1)). split; [done|]. intros k Hk. apply elem_of_set_seq. lia. }
  apply Forall_cons in Hc as [Hc Hcs]. cbn [in_order]. replace (l1 ++ (c, cr) :: l2) with ((l1 ++ [(c, cr)]) ++ l2) in * by by rewrite <- app_assoc.
  apply IH; [|done]. replace (set_seq 0 (length (l1 ++ [(c, cr)]))) with ({[ length l1 ]} ∪ set_seq (C := gset nat) 0 (length l1)).
  - apply runs_cmd; [done| |rewrite elem_of_set_seq; lia|done|intros j Hj _; apply elem_of_set_seq; lia].
    rewrite <- app_assoc. rewrite lookup_app_r, Nat.sub_diag by done. done.
  - rewrite length_app. cbn. apply leibniz_equiv. intros k. rewrite elem_of_union, elem_of_singleton, !elem_of_set_seq. lia.
Qed.
Lemma in_order_completes l pm0 : Forall (runnable ∘ fst) l → completes l pm0 (in_order l pm0 ∅).1 (in_order l pm0 ∅).2.
Proof. intros Hl. apply (in_order_runs l [] pm0 pm0 ∅); [apply runs_start|done]. Qed.
End device.

(** ** The commands of a batch of moves *)

Lemma elem_of_concat {A} (x : A) ls : x ∈ concat ls ↔ ∃ l, x ∈ l ∧ l ∈ ls.
Proof. rewrite list_elem_of_In, in_concat. setoid_rewrite list_elem_of_In. naive_solver. Qed.

(** Two commands that may be worked on in any order. *)
Definition compatible (c c' : command) : Prop :=
  match copy_of c, copy_of c' with
  | Some (s, n, d), Some (s', n', d') => apart d n d' n' ∧ apart d n s' n' ∧ apart d' n' s n
  | _, _ => True
  end.
Fixpoint pairwise (l : list command) : Prop :=
  match l with [] => True | c :: l => Forall (compatible c) l ∧ pairwise l end.
Lemma compatible_sym c c' : compatible c c' → compatible c' c.
Proof. unfold compatible, apart. destruct (copy_of c) as [[[s n] d]|], (copy_of c') as [[[s' n'] d']|]; try done. intros (? & ? & ?). split_and!; lia. Qed.
Lemma pairwise_app l l' : pairwise (l ++ l') ↔ pairwise l ∧ pairwise l' ∧ Forall (λ c, Forall (compatible c) l') l.
Proof.
  induction l as [|c l IH]; cbn; [split; [by intros|tauto]|]. rewrite IH, Forall_app, Forall_cons. tauto.
Qed.
Lemma pairwise_no_copy l : Forall (λ c, copy_of c = None) l → pairwise l.
Proof.
  induction 1 as [|c l Hc _ IH]; [done|]. split; [|done]. apply Forall_forall. intros c' _. unfold compatible. by rewrite Hc.
Qed.
Lemma pairwise_lookup l : ∀ j k c c', pairwise l → l !! j = Some c → l !! k = Some c' → j ≠ k → compatible c c'.
Proof.
  induction l as [|c0 l IH]; intros j k c c' Hp Hj Hk Hne; [done|]. destruct Hp as [H0 Hp]. rewrite Forall_forall in H0. destruct j as [|j], k as [|k]; [done| | |].
  - injection Hj as ->. by eapply H0, list_elem_of_lookup_2.
  - injection Hk as ->. by eapply compatible_sym, H0, list_elem_of_lookup_2.
  - apply (IH j k); [done|done|done|lia].
Qed.

Section moves.
Context (T : gmap Z PhysChunk) (HT : wf_table T).
Definition phys_apart (a n b k : Z) : Prop := apart (pa T a) n (pa T b) k.
Definition sources_apart (op : DataFlowMoveOperation) (b k : Z) : Prop := Forall2 (λ a n, phys_apart b k a n) (m_src op) (m_src_len op).
(** In physical memory no operation writes what another one reads or writes. An operation with
    one source may move it onto itself; one with several sources may not. *)
Definition dma_independent (ops : list DataFlowMoveOperation) : Prop :=
  ∀ j k o1 o2, ops !! j = Some o1 → ops !! k = Some o2 →
    (j ≠ k ∨ (1 < length (m_src o1))%nat → sources_apart o2 (m_dst o1) (op_len o1)) ∧
    (j ≠ k → phys_apart (m_dst o1) (op_len o1) (m_dst o2) (op_len o2)).
(** The physical addresses of the buffers of an operation do not wrap. *)
Definition placed_op (op : DataFlowMoveOperation) : Prop :=
  Forall (λ n, 0 < n) (m_src_len op) ∧ length (m_src op) = length (m_src_len op) ∧ 0 < pa T (m_dst op) ∧ pa T (m_dst op) + op_len op <= 2 ^ 64.

Lemma total_cons n lens : total (n :: lens) = n + total lens.
Proof. done. Qed.
Lemma total_pos lens : Forall (λ n, 0 < n) lens → 0 <= total lens.
Proof. induction 1 as [|n lens Hn _ IH]; [done|]. cbn in *. unfold total in IH. lia. Qed.
Lemma op_placed op : user_op op → dma_op T op → placed_op op.
Proof.
  intros [Hs (D1 & D2 & D3)] [_ Hd]. assert (Forall (λ n, 0 < n) (m_src_len op)) as Hl by (clear -Hs; induction Hs as [|a n srcs lens (? & ? & ?)]; by constructor).
  split; [done|]. split; [by eapply Forall2_length|]. destruct (one_page_pa T (m_dst op) (op_len op) HT D1 D2 D3 Hd) as (? & ? & _). done.
Qed.
Lemma seg_copy op c : ∀ srcs lens off, Forall (λ n, 0 < n) lens → 0 <= off → 0 < pa T (m_dst op) → pa T (m_dst op) + off + total lens <= 2 ^ 64 →
  c ∈ seg_cmds T op srcs lens off → ∃ i a n o, srcs !! i = Some a ∧ lens !! i = Some n ∧ 0 < n ∧ copy_of c = Some (pa T a, n, pa T (m_dst op) + o) ∧ off <= o ∧ o + n <= off + total lens.
Proof.
  induction srcs as [|a srcs IH]; intros [|n lens] off Hl Ho Hp Hb Hc; try by apply not_elem_of_nil in Hc.
  apply Forall_cons in Hl as [Hn Hl]. pose proof (total_pos _ Hl). rewrite total_cons in Hb. apply elem_of_cons in Hc as [->|Hc].
  - exists 0%nat, a, n, off. split_and!; [done|done|done| |lia|rewrite total_cons; lia]. unfold seg_cmd. rewrite wrap_small by (unfold in_range; lia). by destruct (early op).
  - destruct (IH lens (off + n) Hl) as (i & a' & n' & o & H1 & H2 & H3 & H4 & H5 & H6); [lia|done|lia|done|]. exists (S i), a', n', o.
    split_and!; [done|done|done|done|lia|rewrite total_cons; lia].
Qed.
Lemma seg_pairwise op : ∀ srcs lens off, Forall (λ n, 0 < n) lens → 0 <= off → 0 < pa T (m_dst op) → off + total lens <= op_len op → pa T (m_dst op) + op_len op <= 2 ^ 64 →
  (length srcs ≤ 1)%nat ∨ Forall2 (λ a n, phys_apart (m_dst op) (op_len op) a n) srcs lens → pairwise (seg_cmds T op srcs lens off).
Proof.
  induction srcs as [|a srcs IH]; intros [|n lens] off Hl Ho Hp Hb Hw Ha; try done. apply Forall_cons in Hl as [Hn Hl]. rewrite total_cons in Hb.
  destruct Ha as [Hlen|[Ha Has]%Forall2_cons]; [by destruct srcs; [|cbn in Hlen; lia]|]. split; [|apply IH; auto; lia].
  apply Forall_forall. intros c Hc. destruct (seg_copy op c srcs lens (off + n) Hl) as (i & a' & n' & o & H1 & H2 & H3 & H4 & H5 & H6); [lia|done|lia|done|].
  destruct (Forall2_lookup_lr _ _ _ _ _ _ Has H1 H2) as [?|?]; destruct Ha as [?|?].
  all: unfold compatible, seg_cmd; rewrite H4, wrap_small by (unfold in_range; pose proof (total_pos _ Hl); lia); destruct (early op); cbn [copy_of]; unfold apart; split_and!; lia.
Qed.
Lemma op_copy op c : placed_op op → c ∈ op_cmds T op →
  ∃ i a n o, m_src op !! i = Some a ∧ m_src_len op !! i = Some n ∧ 0 < n ∧ copy_of c = Some (pa T a, n, pa T (m_dst op) + o) ∧ 0 <= o ∧ o + n <= op_len op.
Proof. intros (Hl & _ & Hp & Hw) Hc. apply (seg_copy op c (m_src op) (m_src_len op) 0 Hl); [lia|done|unfold op_len in Hw; lia|done]. Qed.
Lemma ops_pairwise ops : Forall placed_op ops → dma_independent ops → pairwise (concat (op_cmds T <$> ops)).
Proof.
  induction ops as [|op ops IH]; intros Hp Hi; [done|]. apply Forall_cons in Hp as [Hp Hps]. cbn. apply pairwise_app. pose proof Hp as (Hl & Hlen & Hpos & Hw). split_and!.
  - apply seg_pairwise; [done|lia|done|unfold op_len; lia|done|]. destruct (decide (length (m_src op) ≤ 1)%nat); [by left|right]. apply (Hi 0%nat 0%nat op op); [done|done|right; lia].
  - apply IH; [done|]. intros j k o1 o2 H1 H2. destruct (Hi (S j) (S k) o1 o2 H1 H2) as [A1 A2]. split; intros H; [apply A1; destruct H; [left; lia|by right]|apply A2; lia].
  - apply Forall_forall. intros c Hc. apply Forall_forall. intros c' (l & Hc' & (op' & -> & Hop')%list_elem_of_fmap)%elem_of_concat.
    pose proof (proj1 (Forall_forall _ _) Hps op' Hop') as Hp'. apply list_elem_of_lookup_1 in Hop' as [j Hj].
    destruct (op_copy op c Hp Hc) as (i & a & n & o & S1 & S2 & S3 & Ec & S5 & S6), (op_copy op' c' Hp' Hc') as (i' & a' & n' & o' & S1' & S2' & S3' & Ec' & S5' & S6').
    destruct (Hi 0%nat (S j) op op' eq_refl Hj) as [A1 A2], (Hi (S j) 0%nat op' op Hj eq_refl) as [A3 _].
    specialize (A1 (or_introl (Nat.neq_0_succ j))). specialize (A2 (Nat.neq_0_succ j)). specialize (A3 (or_introl (Nat.neq_succ_0 j))).
    pose proof (Forall2_lookup_lr _ _ _ _ _ _ A1 S1' S2') as B1. pose proof (Forall2_lookup_lr _ _ _ _ _ _ A3 S1 S2) as B2.
    unfold compatible. rewrite Ec, Ec'. unfold phys_apart, apart in *. split_and!; lia.
Qed.

(** The work of a list of commands whose first record is at [R]. *)
Definition with_records (R : Z) (cmds : list command) : list (command * Z) := imap (λ k c, (c, R + 32 * Z.of_nat k)) cmds.
Lemma with_records_lookup R cmds k c cr : with_records R cmds !! k = Some (c, cr) ↔ cmds !! k = Some c ∧ cr = R + 32 * Z.of_nat k.
Proof. unfold with_records. rewrite list_lookup_imap. destruct (cmds !! k); cbn; naive_solver. Qed.
Lemma copy_at_records R cmds k s n d : copy_at (with_records R cmds) k s n d ↔ ∃ c, cmds !! k = Some c ∧ copy_of c = Some (s, n, d).
Proof. unfold copy_at. setoid_rewrite with_records_lookup. naive_solver. Qed.
Lemma fence_at_records R cmds k : is_fence (with_records R cmds) k ↔ cmds !! k = Some Fence.
Proof. unfold is_fence. setoid_rewrite with_records_lookup. naive_solver. Qed.

Lemma late_no_copy ops : Forall (λ c, copy_of c = None ∧ c ≠ Fence) (late_cmds T ops).
Proof. unfold late_cmds. apply Forall_fmap, Forall_forall. done. Qed.
Lemma ops_copies ops c : Forall placed_op ops → c ∈ concat (op_cmds T <$> ops) → is_Some (copy_of c).
Proof.
  intros Hp (l & Hc & (op & -> & Hop)%list_elem_of_fmap)%elem_of_concat.
  destruct (op_copy op c (proj1 (Forall_forall _ _) Hp op Hop) Hc) as (? & ? & ? & ? & _ & _ & _ & -> & _). by eexists.
Qed.
(** Where the copies, the fence and the checksums of memory are. *)
Lemma body_shape ops k c : Forall placed_op ops → body T ops !! k = Some c →
  let n := length (concat (op_cmds T <$> ops)) in
  ((k < n)%nat ∧ is_Some (copy_of c)) ∨ (k = n ∧ c = Fence) ∨ ((n < k)%nat ∧ copy_of c = None ∧ c ≠ Fence ∧ body T ops !! n = Some Fence).
Proof.
  intros Hp Hk n. unfold body in *. apply lookup_app_Some in Hk as [Hk|[Hk Hc]].
  - left. split; [by apply lookup_lt_Some in Hk|]. eapply ops_copies; [done|by eapply list_elem_of_lookup_2].
  - fold n in Hk, Hc. pose proof (late_no_copy ops) as Hl. destruct (late_cmds T ops) as [|c0 l]; [done|]. right. destruct (k - n)%nat as [|i] eqn:E.
    + left. injection Hc as <-. split; [lia|done].
    + right. split; [lia|]. destruct (Forall_lookup_1 _ _ _ _ Hl Hc). split_and!; [done|done|]. unfold n. rewrite lookup_app_r, Nat.sub_diag by done. done.
Qed.
Lemma body_pairwise ops : Forall placed_op ops → dma_independent ops → pairwise (body T ops).
Proof.
  intros Hp Hi. unfold body. apply pairwise_app.
  assert (Forall (λ c, copy_of c = None) (match late_cmds T ops with [] => [] | l => Fence :: l end)) as Hn.
  { pose proof (late_no_copy ops) as Hl. destruct (late_cmds T ops) as [|c l]; [done|]. constructor; [done|]. eapply Forall_impl; [done|]. by intros ? []. }
  split_and!; [by apply ops_pairwise|by apply pairwise_no_copy|]. apply Forall_forall. intros c _. eapply Forall_impl; [done|]. intros c' Hc'. unfold compatible. rewrite Hc'. by destruct (copy_of c) as [[[]]|].
Qed.
Lemma body_orderly R ops : Forall placed_op ops → dma_independent ops → orderly (with_records R (body T ops)).
Proof.
  intros Hp Hi. pose proof (body_pairwise ops Hp Hi) as Hpw. split.
  - intros j k s n d s' n' d' (c & Hj & Hc)%copy_at_records (c' & Hk & Hc')%copy_at_records Hne.
    pose proof (pairwise_lookup _ _ _ _ _ Hpw Hj Hk Hne) as H. unfold compatible in H. rewrite Hc, Hc' in H. destruct H as (? & ? & _). done.
  - intros k s n seed cr [Hk _]%with_records_lookup. destruct (body_shape ops k _ Hp Hk) as [[_ [? ?]]|[[_ ?]|(Hlt & _ & _ & Hf)]]; [done|done|].
    eexists. split; [exact Hlt|]. by apply fence_at_records.
  - intros j k s n d Hj%fence_at_records (c & Hk & Hc)%copy_at_records. destruct (body_shape ops j _ Hp Hj) as [[_ [? ?]]|[[-> _]|(_ & _ & ? & _)]]; [done| |done].
    destruct (body_shape ops k _ Hp Hk) as [[? _]|[[_ ->]|(_ & E & _)]]; [done|done|congruence].
  - intros j k c c' cr [_ ->]%with_records_lookup [_ E]%with_records_lookup. lia.
Qed.
(** The source of an operation whose checksum is computed with the copy is apart from its
    destination also in physical memory. *)
Definition crc_apart (op : DataFlowMoveOperation) : Prop := early op = true → sources_apart op (m_dst op) (op_len op).
Lemma seg_crc op srcs : ∀ lens off s n d seed, CopyCrc s n d seed ∈ seg_cmds T op srcs lens off → early op = true.
Proof.
  induction srcs as [|a srcs IH]; intros [|k lens] off s n d seed; try by intros ?%not_elem_of_nil. intros [H|H]%elem_of_cons; [|by eapply IH].
  unfold seg_cmd in H. by destruct (early op).
Qed.
Lemma body_runnable R ops : Forall placed_op ops → Forall crc_apart ops → Forall (runnable ∘ fst) (with_records R (body T ops)).
Proof.
  intros Hp Ha. apply Forall_lookup. intros k [c cr] [Hk _]%with_records_lookup. cbn. destruct c as [|s n d seed| | |]; try done. cbn [runnable].
  unfold body in Hk. apply lookup_app_Some in Hk as [Hk|[_ Hk]].
  - apply list_elem_of_lookup_2, elem_of_concat in Hk as (l & Hc & (op & -> & Hop)%list_elem_of_fmap). rewrite Forall_forall in Hp, Ha.
    pose proof (Ha op Hop (seg_crc _ _ _ _ _ _ _ _ Hc)) as Hap. destruct (op_copy op _ (Hp op Hop) Hc) as (i & a & n' & o & S1 & S2 & S3 & [= -> -> ->] & S5 & S6).
    pose proof (Forall2_lookup_lr _ _ _ _ _ _ Hap S1 S2) as H. unfold phys_apart, apart in *. lia.
  - pose proof (late_no_copy ops) as Hl. destruct (late_cmds T ops) as [|c0 l]; [done|]. destruct (k - _)%nat as [|j]; [done|]. by destruct (Forall_lookup_1 _ _ _ _ Hl Hk).
Qed.

(** ** What a completed batch leaves behind *)

Lemma unot_involutive w z : unot w (unot w z) = z.
Proof. unfold unot. lia. Qed.
Lemma revise_seed_spec seed : revise_seed seed = unot 32 (u32 seed).
Proof.
  unfold revise_seed, unot, wrap. replace (2 ^ 64 - 1 - seed) with (2 ^ 32 - 1 - seed mod 2 ^ 32 + (2 ^ 32 - 1 - seed / 2 ^ 32) * 2 ^ 32) by (pose proof (Z.div_mod seed (2 ^ 32)); lia).
  rewrite Z_mod_plus_full. apply Z.mod_small. pose proof (Z.mod_pos_bound seed (2 ^ 32)). lia.
Qed.
(** The bytes an operation gathers, in physical memory. *)
Definition phys_gather (pm : gmap Z Z) (op : DataFlowMoveOperation) : list Z := gather pm (pa T <$> m_src op) (m_src_len op).
Lemma seg_moved op (pm1 pm2 : gmap Z Z) : ∀ srcs lens off, length srcs = length lens → Forall (λ n, 0 < n) lens → 0 <= off → 0 < pa T (m_dst op) → pa T (m_dst op) + off + total lens <= 2 ^ 64 →
  (∀ c s n d, c ∈ seg_cmds T op srcs lens off → copy_of c = Some (s, n, d) → ∀ i, 0 <= i < n → pm2 !! (d + i) = Some (default 0 (pm1 !! (s + i)))) →
  bytes_at pm2 (pa T (m_dst op) + off) (total lens) = gather pm1 (pa T <$> srcs) lens.
Proof.
  induction srcs as [|a srcs IH]; intros [|n lens] off Hlen Hl Ho Hp Hb Hc; try done.
  apply Forall_cons in Hl as [Hn Hl]. pose proof (total_pos _ Hl). rewrite total_cons in *. rewrite bytes_at_app by lia. unfold gather. rewrite fmap_cons. cbn [zip_with concat]. f_equal.
  - apply list_eq. intros j. rewrite !bytes_at_lookup. case_decide; [|done]. f_equal.
    rewrite (Hc (seg_cmd T op a n off) (pa T a) n (pa T (m_dst op) + off) (list_elem_of_here _ _)); [done| |lia].
    unfold seg_cmd. rewrite wrap_small by (unfold in_range; lia). by destruct (early op).
  - rewrite <- Z.add_assoc. apply IH; [by injection Hlen|done|lia|done|lia|]. intros c s' n' d' Hin. apply Hc. by apply list_elem_of_further.
Qed.
Section completed.
Context (dev_crc : Z → list Z → Z) (R : Z) (ops : list DataFlowMoveOperation) (Hp : Forall placed_op ops) (Hi : dma_independent ops).
Context (pm1 pm2 recs : gmap Z Z) (Hc : completes dev_crc (with_records R (body T ops)) pm1 pm2 recs).
Lemma completed_progress : ∃ done, progress dev_crc (with_records R (body T ops)) pm1 done pm2 recs ∧ ∀ k c, body T ops !! k = Some c → k ∈ done.
Proof.
  destruct Hc as (done & Hr & Hall). exists done. split; [by apply runs_progress; [apply body_orderly|]|].
  intros k c Hk. apply Hall. unfold with_records. rewrite length_imap. by eapply lookup_lt_Some.
Qed.
Lemma completed_moved op : op ∈ ops → bytes_at pm2 (pa T (m_dst op)) (op_len op) = phys_gather pm1 op.
Proof.
  intros Hop. destruct completed_progress as (done & [P1 _ _ _ _] & Hd). destruct (proj1 (Forall_forall _ _) Hp op Hop) as (Hl & Hlen & Hpos & Hw).
  rewrite <- (Z.add_0_r (pa T (m_dst op))). apply seg_moved; [done|done|lia|done|unfold op_len in Hw; lia|]. intros c s n d Hin Hcp.
  assert (c ∈ body T ops) as [k Hk]%list_elem_of_lookup_1.
  { unfold body. apply elem_of_app. left. apply elem_of_concat. exists (op_cmds T op). split; [done|]. by apply list_elem_of_fmap_2. }
  apply (P1 k); [apply copy_at_records; by exists c|by eapply Hd].
Qed.
Lemma completed_crc op k : op ∈ ops → enable_crc op = true → body T ops !! k = Some (crc_cmd T op) →
  recs !! (R + 32 * Z.of_nat k) = Some (dev_crc (revise_seed (m_seed op)) (phys_gather pm1 op)).
Proof.
  intros Hop Hen Hk. pose proof (completed_moved op Hop) as Hmv. destruct completed_progress as (done & [_ _ _ P4 P5] & Hd). pose proof (Hd _ _ Hk) as Hin.
  unfold crc_cmd in Hk. destruct (early op) eqn:He.
  - unfold seg_cmd in Hk. rewrite He in Hk. unfold early, IsCopyWithCrcOk in He. destruct (proj1 (Forall_forall _ _) Hp op Hop) as (_ & Hlen & _).
    unfold phys_gather. destruct (m_src op) as [|a [|]]; [by rewrite andb_false_r in He| |by rewrite andb_false_r in He]. destruct (m_src_len op) as [|n [|]]; [done| |done].
    cbn in Hk |- *. rewrite app_nil_r. eapply (P5 k); [by apply with_records_lookup|done].
  - rewrite <- Hmv. eapply (P4 k); [by apply with_records_lookup|done].
Qed.
End completed.

(** ** What the device fetches *)

(** The bytes of a buffer as the process and as the device see them. *)
Definition seen (m pm : gmap Z Z) (a n : Z) : Prop := ∀ o, 0 <= o < n → m !! (a + o) = pm !! pa T (a + o).
Lemma bytes_seen m pm a n p o k : seen m pm a n → (∀ i, 0 <= i < n → pa T (a + i) = p + i) → 0 <= o → o + k <= n → bytes_at m (a + o) k = bytes_at pm (p + o) k.
Proof.
  intros Hs Hp Ho Hk. unfold bytes_at. apply list_fmap_ext. intros j i Hi. apply list_elem_of_lookup_2, elem_of_seqZ in Hi.
  rewrite <- !Z.add_assoc, Hs, Hp by lia. done.
Qed.
Lemma bytes_seen_page m pm a n : buffer_ok a n → one_page T a n → seen m pm a n → bytes_at m a n = bytes_at pm (pa T a) n.
Proof.
  intros (H1 & H2 & H3) Hpg Hs. destruct (one_page_pa T a n HT H1 H2 H3 Hpg) as (_ & _ & Hp).
  rewrite <- (Z.add_0_r a), <- (Z.add_0_r (pa T (a + 0))). rewrite Z.add_0_r at 2. apply (bytes_seen m pm a n); [done|done|lia|lia].
Qed.
Lemma gather_seen m pm op : user_op op → dma_op T op → Forall2 (seen m pm) (m_src op) (m_src_len op) → op_gather m op = phys_gather pm op.
Proof.
  intros [Hu _] [Hd _]. unfold op_gather, phys_gather, gather. revert Hd. induction Hu as [|a n srcs lens Ha _ IH]; [done|].
  intros [Hd Hds]%Forall2_cons [Hs Hss]%Forall2_cons. rewrite fmap_cons. cbn [zip_with concat]. rewrite (IH Hds Hss). f_equal. by apply bytes_seen_page.
Qed.
Lemma plan_body D ops num : Forall placed_op (take num ops) → move_plan T D ops num =
  (match one_copy ops num with Some _ => [] | None => [Batch (Z.of_nat (length (body T (take num ops)))) (u64 (D + kDsaHwDescSize))] end) ++ body T (take num ops) ∧
  (is_Some (one_copy ops num) → ∃ op a n, body T (take num ops) = [seg_cmd T op a n 0]).
Proof.
  intros Hp. unfold move_plan. destruct (one_copy ops num) as [[[op a] n]|] eqn:E; [|split; [done|by intros []]].
  unfold one_copy in E. destruct num as [|[|]]; try done. destruct ops as [|op' ops]; [done|]. change (take 1 (op' :: ops)) with [op'] in *. destruct (m_src op') as [|a' [|]] eqn:Es; try done.
  destruct (m_src_len op') as [|n' lens] eqn:El; [done|]. destruct (_ || _) eqn:Ho; [|done]. injection E as -> -> ->.
  apply Forall_cons in Hp as [(_ & Hlen & _) _]. rewrite Es, El in Hlen. destruct lens; [|done].
  assert (late op = false) as Hl. { unfold late, IsCopyWithCrcOk. rewrite Es, El. by destruct (enable_crc op), (IsNoOverlap a (m_dst op) n). }
  assert (body T [op] = op_cmds T op) as Eb. { unfold body. cbn [fmap list_fmap concat]. rewrite late_cmds_cons, Hl. cbn. by rewrite !app_nil_r. }
  rewrite Eb. split; [done|]. intros _. exists op, a, n. unfold op_cmds. by rewrite Es, El.
Qed.
Lemma fetch_plan x m pm ops num : Forall placed_op (take num ops) → placed T x → (length (move_plan T (dsa_hw_descs_phys x) ops num) ≤ 1024)%nat →
  device_reads x m (move_plan T (dsa_hw_descs_phys x) ops num) → seen m pm (dsa_hw_descs x) 65536 →
  fetch m pm (dsa_hw_descs x) = Some (with_records (dsa_completion_records_phys x + 32 * (match one_copy ops num with Some _ => 0 | None => 1 end)) (body T (take num ops))).
Proof.
  intros Hp Hx Hlen Hr Hs. destruct (plan_body (dsa_hw_descs_phys x) ops num Hp) as [E Eb]. rewrite E in Hr, Hlen. unfold fetch. pose proof (pl_range _ _ Hx) as Hrg.
  destruct (one_copy ops num) as [[[op a] n]|].
  - destruct Eb as (op' & a' & n' & Eb); [by eexists|]. rewrite Eb in *. destruct (Hr 0%nat _ eq_refl) as [_ Hd]. rewrite !Z.mul_0_r, !Z.add_0_r in *. rewrite Hd.
    assert (∀ n l, seg_cmd T op' a' n' 0 ≠ Batch n l) as Hne by (intros ? ?; unfold seg_cmd; by destruct (early op')).
    unfold with_records. cbn [imap Nat.add]. rewrite Z.mul_0_r, Z.add_0_r. destruct (seg_cmd T op' a' n' 0); try done. by destruct (Hne count list_addr).
  - destruct (Hr 0%nat _ eq_refl) as [_ Hd]. rewrite !Z.mul_0_r, !Z.add_0_r in Hd. rewrite Hd. clear Hd Eb E. set (bd := body T (take num ops)) in *. unfold kDsaHwDescSize. rewrite wrap_small by (unfold in_range; lia).
    apply mapM_Some, Forall2_same_length_lookup_2.
    { unfold with_records. rewrite length_seqZ, length_imap. lia. }
    intros k i [c cr] [-> Hk]%lookup_seqZ [Hc ->]%with_records_lookup. destruct (Hr (S k) c Hc) as [_ Hd].
    replace (dsa_hw_descs_phys x + 64 + 64 * (0 + Z.of_nat k)) with (dsa_hw_descs_phys x + 64 * Z.of_nat (S k)) by lia.
    rewrite <- (bytes_seen m pm (dsa_hw_descs x) 65536 (dsa_hw_descs_phys x)); [|done|apply Hx|lia|cbn in Hlen; lia].
    rewrite Hd. do 2 f_equal. lia.
Qed.
End moves.

(** ** The outcome of a batch of moves *)

Section outcome.
Context {M : Type} {MP : MemoryPool M}.
Context (T : gmap Z PhysChunk) (HT : wf_table T) (b : gmap Z Z) (e : DsaEngine (M := M)) (m : gmap Z work) (r : DataFlowRequest) (ops : list DataFlowMoveOperation) (x : DsaCtx).
Context (Hok : dsa_ok e m) (Hf : fac_ok T b (dsa_desc_factory_ e)) (Hx : f_ctxs (dsa_desc_factory_ e) !! engine_ctx r = Some x) (Hfree : m !! engine_ctx r = Some Free).
Context (Hop : r_op r = Some (MoveOps ops)) (Hnum : (r_num r ≤ length ops)%nat) (Hm : moves_ok ops (r_num r)) (Hu : Forall user_op (take (r_num r) ops)).
(** The processor has the CRC instruction. *)
Context (ecx : Z) (Hecx : Z.testbit ecx 20 = true).
(** The CRC unit inverts the seed before and the result after the computation. *)
Context (dev_crc : Z → list Z → Z) (Hcrc : ∀ seed bs, in_range 32 seed → dev_crc seed bs = unot 32 (crc_bytes (unot 32 seed) bs)).
Notation batch := (take (r_num r) ops).
Notation mem e := (f_mem (dsa_desc_factory_ e)).

(** The process finds in its memory what the device has stored: [pm2] and [recs] are the outcome
    of the commands, [pm3] is physical memory at the time of the poll. *)
Record stored (pm2 recs pm3 m2 : gmap Z Z) : Prop := {
  st_records : seen T m2 pm3 (dsa_completion_records x) 32768;
  st_seen : ∀ op, op ∈ batch → seen T m2 pm3 (m_dst op) (op_len op);
  st_kept : ∀ op, op ∈ batch → bytes_at pm3 (pa T (m_dst op)) (op_len op) = bytes_at pm2 (pa T (m_dst op)) (op_len op);
  st_crc : ∀ cr v, recs !! cr = Some v → GetCrcInDsaCompletionRecord (bytes_at pm3 cr 32) = v;
  st_success : DsaCheckCompletion (bytes_at pm3 (dsa_completion_records_phys x) 32) = DSA_TASK_SUCCESS }.

Lemma record_seen pm3 m2 k : placed T x → seen T m2 pm3 (dsa_completion_records x) 32768 → (k < 1024)%nat →
  bytes_at m2 (dsa_completion_records x + 32 * Z.of_nat k) 32 = bytes_at pm3 (dsa_completion_records_phys x + 32 * Z.of_nat k) 32.
Proof. intros Hp Hs Hk. apply (bytes_seen T m2 pm3 _ 32768); [done|apply Hp|lia|lia]. Qed.

(** Buffers that are apart in physical memory are apart in the process. *)
Lemma virt_apart a n a' k : buffer_ok a n → buffer_ok a' k → one_page T a n → one_page T a' k → phys_apart T a n a' k → apart a n a' k.
Proof.
  intros (A1 & A2 & A3) (B1 & B2 & B3) Pa Pb Hp. destruct (one_page_pa T a n HT A1 A2 A3 Pa) as (_ & _ & Ea). destruct (one_page_pa T a' k HT B1 B2 B3 Pb) as (_ & _ & Eb).
  unfold apart. destruct (decide (a + n <= a')); [by left|]. destruct (decide (a' + k <= a)); [by right|]. exfalso. set (c := Z.max a a').
  pose proof (Ea (c - a) ltac:(lia)) as E1. pose proof (Eb (c - a') ltac:(lia)) as E2. replace (a + (c - a)) with c in E1 by lia. replace (a' + (c - a')) with c in E2 by lia.
  unfold phys_apart, apart in Hp. lia.
Qed.
Lemma sources_virt_apart op d n : user_op op → dma_op T op → buffer_ok d n → one_page T d n → sources_apart T op d n → op_apart op d n.
Proof.
  intros [Hs _] [Hd _] Hb Hp Ha. unfold sources_apart in Ha. unfold op_apart. rewrite Forall2_lookup in *. intros i. specialize (Hs i). specialize (Hd i). specialize (Ha i).
  destruct (m_src op !! i) as [a|], (m_src_len op !! i) as [k|]; inversion Hs as [? ? Hs'|]; subst; [|by constructor]. inversion Hd; inversion Ha; subst. constructor.
  destruct (virt_apart d n a k) as [?|?]; try done; [right|left]; lia.
Qed.
Lemma apart_reads_first d n srcs lens : Forall2 buffer_ok srcs lens → Forall2 (λ a k, apart a k d n) srcs lens → ∀ w, 0 <= w → w + total lens <= n → reads_first d w srcs lens.
Proof.
  intros Hb. induction Hb as [|a k srcs lens (? & ? & ?) Hb IH]; intros Ha w Hw Hn; [done|]. apply Forall2_cons in Ha as [Ha Has]. change (total (k :: lens)) with (k + total lens) in Hn.
  assert (0 <= total lens). { clear -Hb. induction Hb as [|? ? ? ? (? & ? & ?) _ IH]; [done|]. cbn. unfold total in IH. lia. }
  cbn [reads_first]. split; [right; destruct Ha; [left|right]; lia|]. apply IH; [done|lia|lia].
Qed.
(** What the device may do in any order the software engine can do in this one. *)
Lemma dma_sw_independent ops' : Forall user_op ops' → Forall (dma_op T) ops' → dma_independent T ops' → independent ops'.
Proof.
  intros Hus Hds Hi. split.
  - apply Forall_lookup. intros j op Hj. pose proof (Forall_lookup_1 _ _ _ _ Hus Hj) as Huo. pose proof (Forall_lookup_1 _ _ _ _ Hds Hj) as Hdo. destruct (decide (1 < length (m_src op))%nat) as [Hl|Hl].
    + apply (apart_reads_first _ (op_len op)); [apply Huo| |lia|unfold op_len; lia]. apply sources_virt_apart; [done|done|apply Huo|apply Hdo|]. apply (proj1 (Hi j j op op Hj Hj)). by right.
    + unfold op_reads_first. destruct (m_src op) as [|a [|? ?]], (m_src_len op) as [|n lens]; try done; [|cbn in Hl; lia]. split; [by left|done].
  - intros j k o1 o2 H1 H2 Hjk. pose proof (Forall_lookup_1 _ _ _ _ Hus H1) as U1. pose proof (Forall_lookup_1 _ _ _ _ Hds H1) as D1. pose proof (Forall_lookup_1 _ _ _ _ Hus H2) as U2. pose proof (Forall_lookup_1 _ _ _ _ Hds H2) as D2.
    destruct (Hi j k o1 o2 H1 H2) as [Hs Hd]. split.
    + apply sources_virt_apart; [done|done|apply U1|apply D1|]. apply Hs. left. lia.
    + apply virt_apart; [apply U1|apply U2|apply D1|apply D2|]. apply Hd. lia.
Qed.
(** A software engine with the same sources in memory, that can run the request. *)
Definition same_request (e1 : DsaEngine (M := M)) (esw : SwEngine) : Prop :=
  (∃ msw, sw_ok esw msw ∧ is_Some (msw !! engine_ctx r)) ∧ sw_valid esw (MoveOps ops) (r_num r) ∧ ∀ op, op ∈ batch → op_gather (sw_mem esw) op = op_gather (mem e1) op.

End outcome.
