(* ===== verification/DsaDemo.v ===== *)
(** * A DSA engine at work

    A small memory pool that implements the interface of DsaCtx.v, an engine with one device on
    top of it, and concrete instances of the theorems on contexts and on the engine. *)

From Stdlib Require Import ZArith Lia.
From stdpp Require Import prelude gmap.
From S2P Require Import Prelude Status ByteMemory Checksum AddressManager DsaUio DsaDesc DataFlow DataFlowSw DsaDispatch DsaCtx DsaEngine DsaDevice.
Open Scope Z_scope.

(** ** A memory pool

    Blocks are taken one after the other from a quarter of a megabyte and not used again. *)

Definition pool_base : Z := 0x200000.
Definition pool_end : Z := 0x240000.
Definition bump_allocate (n : Z) : ST Z Z :=
  next ← get; if next + n <=? pool_end then modify (λ _, next + n);; mret next else mret 0.
Definition bump_deallocate (p : Z) : ST Z unit := mret ().
Definition bump_home (p n : Z) : Prop := pool_base <= p ∧ 0 < n ∧ p + n <= pool_end.
Record bump_ok (next : Z) (b : gmap Z Z) : Prop := {
  bk_next : pool_base <= next <= pool_end;
  bk_block : ∀ p n, b !! p = Some n → bump_home p n ∧ p + n <= next;
  bk_apart : ∀ p q n k, b !! p = Some n → b !! q = Some k → p ≠ q → p + n <= q ∨ q + k <= p }.

Lemma bump_allocate_law s b n : bump_ok s b → 0 < n →
  wp (bump_allocate n) (λ p s', if p =? 0 then bump_ok s' b else b !! p = None ∧ bump_ok s' (<[p := n]> b)) s.
Proof.
  intros [H1 H2 H3] Hn. unfold bump_allocate. do 2 wp_step. destruct (Z.leb_spec (s + n) pool_end) as [Hle|Hgt]; [|by wp_step].
  do 3 wp_step. unfold pool_base in H1. rewrite (proj2 (Z.eqb_neq s 0)) by lia. split.
  - destruct (b !! s) as [k|] eqn:E; [|done]. destruct (H2 s k E) as [[_ [? _]] ?]. lia.
  - split; [unfold pool_base; lia|..].
    + intros p k [[<- <-] | [_ Hp]]%lookup_insert_Some; [unfold bump_home, pool_base; lia|]. destruct (H2 p k Hp). split; [done|lia].
    + intros p q k j [[<- <-] | [? Hp]]%lookup_insert_Some [[<- <-] | [? Hq]]%lookup_insert_Some Hne; [done| | |by apply (H3 p q)].
      * destruct (H2 q j Hq). right. lia.
      * destruct (H2 p k Hp). left. lia.
Qed.
Lemma bump_deallocate_law s b p : bump_ok s b → p = 0 ∨ is_Some (b !! p) → wp (bump_deallocate p) (λ _ s', bump_ok s' (delete p b)) s.
Proof.
  intros [H1 H2 H3] _. unfold bump_deallocate. wp_step. split; [done|..].
  - intros q k [_ Hq]%lookup_delete_Some. by apply H2.
  - intros q q' k k' [_ Hq]%lookup_delete_Some [_ Hq']%lookup_delete_Some. by apply H3.
Qed.
Lemma bump_block s b p n : bump_ok s b → b !! p = Some n → 0 < p ∧ bump_home p n.
Proof. intros Hok Hp. destruct (bk_block _ _ Hok p n Hp) as [Hh _]. split; [|done]. destruct Hh. unfold pool_base in *. lia. Qed.
#[export] Instance bump_pool : MemoryPool Z := {|
  mp_Allocate := bump_allocate; mp_Deallocate := bump_deallocate; mp_ok := bump_ok; mp_home := bump_home;
  mp_allocate_law := bump_allocate_law; mp_deallocate_law := bump_deallocate_law; mp_block := bump_block;
  mp_apart := λ s b p q n k Hok, bk_apart s b Hok p q n k |}.

(** ** The engine *)

Definition demo_mem : gmap Z Z := list_to_map ((λ i, (pool_base + i, 0)) <$> seqZ 0 0x40000).
Definition demo_ctx : DsaCtx :=
  MkCtx pool_base pool_base 0x40000000 0x210040 0x210040 0x40010040 0 (replicate kMaxSubmittedBatchSize 0) None.
Definition demo_blocks : gmap Z Z := {[ pool_base := kDescBlock; 0x210040 := kRecordBlock ]}.
(** A context factory with one context, and the engine. *)
Definition demo_factory : DsaCtxFactory := MkFac demo_am 0x218060 demo_mem {[ 1 := demo_ctx ]} 2 (replicate kMaxSubmittedBatchSize 0).
Definition demo_wq : WorkQueueInfo := MkWq (MkUioWqInfo None 0 0x7000) 0 16 0.
Definition demo_dsa : DsaEngine := MkDsa demo_factory (MkQueues [demo_wq] tls_init []) (RoundRobinStrategy [0%nat]).
(** Two segments that are put together, with the checksum of the result. *)
Definition demo_move : DataFlowMoveOperation := MkMove [0x300000; 0x304000] [0x1000; 0x800] 0x310000 0 true.
Definition demo_req : DataFlowRequest := MkReq (Some (MoveOps [demo_move])) 1 0 false false 0 1 77 0 0.

Lemma demo_mem_mapped p n : bump_home p n → mapped demo_mem p n.
Proof.
  intros (H1 & H2 & H3) i Hi. unfold demo_mem. exists 0. apply elem_of_list_to_map_1.
  - rewrite <- list_fmap_compose. apply NoDup_fmap_2; [intros x y; cbn; lia|apply NoDup_seqZ].
  - apply list_elem_of_fmap. exists (p + i - pool_base). split; [f_equal; lia|]. apply elem_of_seqZ. unfold pool_end, pool_base in *. lia.
Qed.
Lemma demo_one_page a n : 0x200000 <= a → 0 < n → a + n <= 0x400000 → one_page demo_table a n.
Proof.
  intros H1 H2 H3. exists (MkPhysChunk 0x200000 0x40000000 kPage2Mb). split; [done|]. unfold covers, GetChunkSize. cbn. change (VESAL_PAGESIZE PAGE_BIT_NUM_2MB) with 0x200000. lia.
Qed.
Lemma demo_pa a : 0x200000 <= a < 0x400000 → pa demo_table a = 0x40000000 + (a - 0x200000).
Proof.
  intros Ha. apply (pa_covers demo_table (MkPhysChunk 0x200000 0x40000000 kPage2Mb)); [apply demo_am_ok|unfold in_range; lia|done|].
  unfold covers, GetChunkSize. cbn. change (VESAL_PAGESIZE PAGE_BIT_NUM_2MB) with 0x200000. lia.
Qed.
Lemma demo_placed : placed demo_table demo_ctx.
Proof.
  split; cbn [desc_memory_chunk dsa_hw_descs dsa_hw_descs_phys completion_record_memory_chunk dsa_completion_records dsa_completion_records_phys crc_results demo_ctx];
    unfold pool_base, kDescBlock, kRecordBlock; [done|done| | |lia|apply length_replicate].
  - intros o Ho. rewrite demo_pa; lia.
  - intros o Ho. rewrite demo_pa; lia.
Qed.
Lemma demo_blocks_lookup p n : demo_blocks !! p = Some n → p = pool_base ∧ n = kDescBlock ∨ p = 0x210040 ∧ n = kRecordBlock.
Proof.
  unfold demo_blocks. rewrite lookup_insert_Some, lookup_singleton_Some. intros [[<- <-] | [_ [<- <-]]]; [by left|by right].
Qed.
Lemma demo_fac_ok : fac_ok demo_table demo_blocks demo_factory.
Proof.
  assert (∀ c x, f_ctxs demo_factory !! c = Some x → c = 1 ∧ x = demo_ctx) as Hctx by (intros c x Hc; change (({[ 1 := demo_ctx ]} : gmap Z DsaCtx) !! c = Some x) in Hc; apply lookup_singleton_Some in Hc as [<- <-]; done).
  split.
  - split; [apply demo_am_ok|done].
  - split; [done| |].
    + by intros p n [[-> ->] | [-> ->]]%demo_blocks_lookup.
    + intros p q n k [[-> ->] | [-> ->]]%demo_blocks_lookup [[-> ->] | [-> ->]]%demo_blocks_lookup; unfold pool_base, kDescBlock, kRecordBlock; lia.
  - by intros c x [_ ->]%Hctx.
  - intros c c' x x' [-> _]%Hctx [-> _]%Hctx. done.
  - intros c x [-> ->]%Hctx. split; [done|apply demo_placed].
  - intros p n Hh. pose proof Hh as (H1 & H2 & H3). unfold pool_base, pool_end in *. split_and!; [by apply demo_mem_mapped|apply demo_one_page; lia|lia].
  - intros ch Hch. unfold reg, demo_table in Hch. rewrite lookup_insert_Some, lookup_singleton_Some in Hch. by destruct Hch as [[_ <-]|[_ [_ <-]]].
  - apply length_replicate.
Qed.
Lemma demo_dsa_ok : dsa_ok demo_dsa {[ 1 := Free ]}.
Proof.
  split.
  - exists demo_table, demo_blocks. split; [apply demo_am_ok|apply demo_fac_ok].
  - split; [done|done|]. split; [done|]. intros w ->%list_elem_of_singleton. cbn. lia.
  - intros c. change (is_Some (({[ 1 := demo_ctx ]} : gmap Z DsaCtx) !! c) ↔ is_Some (({[ 1 := Free ]} : gmap Z work) !! c)). split; intros [y [<- _]%lookup_singleton_Some]; by eexists.
  - intros c num x [_ ?]%lookup_singleton_Some. done.
Qed.
Lemma demo_moves_ok : moves_ok [demo_move] 1.
Proof.
  split; [unfold kMaxSubmittedBatchSize; lia|]. split; [|done]. cbn [take]. rewrite list.Forall_singleton. split; [cbn; unfold kMaxSrcSegmentNum; lia|]. by repeat constructor.
Qed.
Lemma demo_user_op : Forall user_op [demo_move].
Proof. rewrite list.Forall_singleton. unfold user_op, buffer_ok. cbn. repeat constructor; lia. Qed.
Lemma demo_dma_op : Forall (dma_op demo_table) [demo_move].
Proof. rewrite list.Forall_singleton. split; [|apply demo_one_page; done]. repeat constructor; apply demo_one_page; done. Qed.
(** The batch, the two copies, the fence and the checksum. *)
Definition demo_plan : list command :=
  [Batch 4 0x40000040; Copy 0x40100000 0x1000 0x40110000; Copy 0x40104000 0x800 0x40111000; Fence; Crc 0x40110000 0x1800 0xFFFFFFFF].
Lemma demo_plan_ok : move_plan demo_table 0x40000000 [demo_move] 1 = demo_plan.
Proof. vm_compute. reflexivity. Qed.

(** The context is what [PreallocateCtx] makes in an engine without one. *)
Example demo_preallocate mem sums :
  match PreallocateCtx (MkFac demo_am pool_base mem ∅ 1 sums) with
  | Ok (r, f) => r = (kOk, 1) ∧ f_pool f = 0x218060 ∧ f_mem f = mem ∧ f_ctxs f = {[ 1 := demo_ctx ]} ∧ f_next f = 2
  | Err _ => False
  end.
Proof. vm_compute. by split_and!. Qed.

(** ** Instances of the theorems *)

Lemma decode_encode_witness : decode (encode (CopyCrc 0x40100000 0x1000 0x40110000 0xFFFFFFFF) 0x40010040) = Some (CopyCrc 0x40100000 0x1000 0x40110000 0xFFFFFFFF, 0x40010040).
Proof. apply decode_encode; [unfold cmd_ok, in_range; lia|unfold in_range; lia]. Defined.

Lemma build_move_descriptors_witness :
  wp (BuildMoveCtx demo_req [demo_move]) (λ st s', st = kOk ∧ device_reads demo_ctx (f_mem s') demo_plan) demo_factory.
Proof.
  refine (wp_mono _ _ _ _ (build_move_descriptors demo_table (proj1 demo_am_ok) demo_blocks demo_factory demo_ctx demo_req [demo_move]
    demo_fac_ok eq_refl demo_moves_ok (le_n 1) demo_user_op) _).
  intros st s' (_ & _ & _ & [(_ & []) | (-> & _ & _ & Hd & _)]); [exact demo_dma_op|]. split; [done|]. rewrite <- demo_plan_ok. exact Hd.
Defined.

Lemma dsa_batch_reported_witness :
  wp (dsa_Submit demo_req) (λ st e1, st ≠ kBadData ∧ (st = kOk → device_reads demo_ctx (f_mem (dsa_desc_factory_ e1)) demo_plan ∧
    ∀ e2 res, dsa_env e1 e2 →
      DsaCheckCompletion (bytes_at (f_mem (dsa_desc_factory_ e2)) 0x210040 32) = DSA_TASK_SUCCESS →
      wp (dsa_CheckCompletion demo_req res) (λ o _, ∃ cs, o = Some (MkResult kOk cs 77) ∧ length cs = 1%nat) e2)) demo_dsa.
Proof.
  refine (wp_mono _ _ _ _ (dsa_batch_reported demo_table (proj1 demo_am_ok) demo_blocks demo_dsa {[ 1 := Free ]} demo_req [demo_move] demo_ctx
    demo_dsa_ok demo_fac_ok eq_refl eq_refl eq_refl (le_n 1) demo_moves_ok demo_user_op) _).
  intros st e1 (Hbad & _ & Hok). split; [intros ->; by apply (proj1 Hbad eq_refl), demo_dma_op|]. intros ->. destruct (Hok eq_refl) as (Hd & _ & Hc).
  split; [rewrite <- demo_plan_ok; exact Hd|]. intros e2 res He Hs. eapply wp_mono; [exact (Hc e2 res He Hs)|].
  cbv beta. intros o e3 (cs & -> & Hl & _). by exists cs.
Defined.

(** A CRC unit that inverts the seed and the result. *)
Definition demo_dev_crc (seed : Z) (bs : list Z) : Z := unot 32 (crc_bytes (unot 32 seed) bs).
Lemma demo_independent : dma_independent demo_table [demo_move].
Proof.
  intros [|j] [|k] o1 o2 H1 H2; try done. injection H1 as <-. injection H2 as <-. split; [|done]. intros _.
  assert (Forall2 (λ a n, phys_apart demo_table 0x310000 0x1800 a n) [0x300000; 0x304000] [0x1000; 0x800]) as H; [|exact H].
  repeat constructor; unfold phys_apart, apart; rewrite !demo_pa by lia; lia.
Qed.
Lemma demo_crc_apart : Forall (crc_apart demo_table) [demo_move].
Proof. rewrite list.Forall_singleton. intros H. by vm_compute in H. Qed.
