(* ===== verification/QatHa.v ===== *)
(** * When a QAT engine falls back (src/src/codec/qat/qat_ha.h, qat_ha.cc, qat_error_handling.h)

    The status of the driver is mapped to a status code, a status code has a level, and errors
    of the middle level are counted in a sliding time window. Times are clock values; [to_us]
    converts a difference of two to microseconds. *)

From Stdlib Require Import ZArith Lia Sorted.
From stdpp Require Import prelude.
From S2P Require Import Prelude Status.
Open Scope Z_scope.

(** ** Errors of the driver *)

Inductive CpaDcReqStatus :=
| CPA_DC_OK | CPA_DC_INVALID_BLOCK_TYPE | CPA_DC_BAD_STORED_BLOCK_LEN | CPA_DC_TOO_MANY_CODES
| CPA_DC_INCOMPLETE_CODE_LENS | CPA_DC_REPEATED_LENS | CPA_DC_MORE_REPEAT | CPA_DC_BAD_LITLEN_CODES
| CPA_DC_BAD_DIST_CODES | CPA_DC_INVALID_CODE | CPA_DC_INVALID_DIST | CPA_DC_OVERFLOW | CPA_DC_SOFTERR
| CPA_DC_FATALERR | CPA_DC_MAX_RESUBITERR | CPA_DC_INCOMPLETE_FILE_ERR | CPA_DC_WDOG_TIMER_ERR
| CPA_DC_VERIFY_ERROR | CPA_DC_LZ4_MAX_BLOCK_SIZE_EXCEEDED | CPA_DC_LZ4_BLOCK_OVERFLOW_ERR
| CPA_DC_LZ4_TOKEN_IS_ZERO_ERR | CPA_DC_LZ4_DISTANCE_OUT_OF_RANGE_ERR | CPA_DC_OTHER.
Inductive CpaStatus :=
| CPA_STATUS_SUCCESS | CPA_STATUS_FAIL | CPA_STATUS_RETRY | CPA_STATUS_RESOURCE | CPA_STATUS_INVALID_PARAM
| CPA_STATUS_FATAL | CPA_STATUS_UNSUPPORTED | CPA_STATUS_RESTARTING | CPA_STATUS_OTHER.
#[export] Instance CpaDcReqStatus_eq_dec : EqDecision CpaDcReqStatus.
Proof. solve_decision. Defined.
#[export] Instance CpaStatus_eq_dec : EqDecision CpaStatus.
Proof. solve_decision. Defined.

Definition CpaDcReqStatusToVesalStatusCode (s : CpaDcReqStatus) : StatusCode :=
  match s with
  | CPA_DC_OK => kOk
  | CPA_DC_SOFTERR | CPA_DC_MAX_RESUBITERR | CPA_DC_LZ4_MAX_BLOCK_SIZE_EXCEEDED => kResourceBusy
  | CPA_DC_OVERFLOW => kOverflow
  | CPA_DC_VERIFY_ERROR => kChannelError
  | CPA_DC_INVALID_BLOCK_TYPE | CPA_DC_BAD_STORED_BLOCK_LEN | CPA_DC_TOO_MANY_CODES | CPA_DC_INCOMPLETE_CODE_LENS
  | CPA_DC_REPEATED_LENS | CPA_DC_MORE_REPEAT | CPA_DC_BAD_LITLEN_CODES | CPA_DC_BAD_DIST_CODES | CPA_DC_INVALID_CODE
  | CPA_DC_INVALID_DIST | CPA_DC_LZ4_BLOCK_OVERFLOW_ERR | CPA_DC_LZ4_TOKEN_IS_ZERO_ERR
  | CPA_DC_LZ4_DISTANCE_OUT_OF_RANGE_ERR => kBadData
  | CPA_DC_FATALERR => kHardwareError
  | CPA_DC_INCOMPLETE_FILE_ERR => kInvalidArgument
  | CPA_DC_WDOG_TIMER_ERR => kTimeout
  | CPA_DC_OTHER => kUnknown
  end.
Definition CpaStatusToVesalStatusCode (s : CpaStatus) : StatusCode :=
  match s with
  | CPA_STATUS_SUCCESS => kOk
  | CPA_STATUS_RESOURCE => kResourceBusy
  | CPA_STATUS_RESTARTING | CPA_STATUS_RETRY => kShouldRetry
  | CPA_STATUS_INVALID_PARAM => kInvalidArgument
  | CPA_STATUS_UNSUPPORTED => kNotSupported
  | CPA_STATUS_FAIL => kChannelError
  | CPA_STATUS_FATAL => kHardwareError
  | CPA_STATUS_OTHER => kUnknown
  end.
(** The status of the request is preferred, since it says more. *)
Definition CpaStatusToCode (s : CpaStatus) (q : CpaDcReqStatus) : StatusCode :=
  if bool_decide (q = CPA_DC_OK) then CpaStatusToVesalStatusCode s else CpaDcReqStatusToVesalStatusCode q.

Lemma failed_code s q : s ≠ CPA_STATUS_SUCCESS ∨ q ≠ CPA_DC_OK → CpaStatusToCode s q ≠ kOk.
Proof. unfold CpaStatusToCode. case_bool_decide as H; [subst|]; [intros [?|?]; [|done]; by destruct s|intros _; by destruct q]. Qed.

(** ** Levels *)

Inductive QatHaErrorLevel := kNotHandle | kAccumulate | kImmediately.
#[export] Instance QatHaErrorLevel_eq_dec : EqDecision QatHaErrorLevel.
Proof. solve_decision. Defined.
Definition JudgeHaErrorLevel (c : StatusCode) : QatHaErrorLevel :=
  match c with
  | kOk | kDropped | kInvalidArgument | kNotSupported | kOverflow | kBadData | kPermanentError => kNotHandle
  | kResourceBusy | kTimeout | kSliceHang | kShouldRetry => kAccumulate
  | kHardwareError | kChannelError | kUnknown => kImmediately
  end.

(** ** The sliding window *)

Lemma filter_true {A} (P : A → Prop) `{∀ x, Decision (P x)} (l : list A) : Forall P l → filter P l = l.
Proof. induction 1 as [|x l Hx _ IH]; [done|]. rewrite filter_cons, decide_True by done. by rewrite IH. Qed.
Section window.
Context (to_us : Z → Z).
(** [FLAGS_vesal_qat_ha_trigger_error_num] when it is read. It can be changed at run time, so
    that two calls may see different values. *)
Context (trigger : nat).

Record SlidingTimeWindow := MkWindow { min_counting_time_window_us_ : Z; sliding_window_us_ : Z; error_ts_ : list Z }.
#[local] Instance eta_SlidingTimeWindow : Eta SlidingTimeWindow := λ w,
  MkWindow (min_counting_time_window_us_ w) (sliding_window_us_ w) (error_ts_ w).
Definition NeedRecord (now : Z) (w : SlidingTimeWindow) : bool :=
  match last (error_ts_ w) with
  | None => true
  | Some t => min_counting_time_window_us_ w <? to_us (now - t)
  end.
Fixpoint drop_expired (now win : Z) (l : list Z) : list Z :=
  match l with
  | t :: l' => if win <? to_us (now - t) then drop_expired now win l' else l
  | [] => []
  end.
Definition ClearExpiredErrors (now : Z) (w : SlidingTimeWindow) : SlidingTimeWindow :=
  w <| error_ts_ ::= drop_expired now (sliding_window_us_ w) |>.
(** Returns true when there is no need for a fallback. *)
Definition RecordErrorAndCheckIsSafe (now : Z) (w : SlidingTimeWindow) : bool * SlidingTimeWindow :=
  let w := if NeedRecord now w then ClearExpiredErrors now (w <| error_ts_ ::= λ l, l ++ [now] |>) else w in
  (Nat.ltb (length (error_ts_ w)) trigger, w).
Definition ShouldFallback (now : Z) (c : StatusCode) (w : SlidingTimeWindow) : bool * SlidingTimeWindow :=
  match JudgeHaErrorLevel c with
  | kNotHandle => (false, w)
  | kImmediately => (true, w <| error_ts_ := [] |>)
  | kAccumulate =>
      let '(safe, w) := RecordErrorAndCheckIsSafe now w in
      if safe then (false, w) else (true, w <| error_ts_ := [] |>)
  end.

(** Errors are in order, and each further from the one before than the counting window. *)
Record window_ok (now : Z) (w : SlidingTimeWindow) : Prop := {
  wo_sorted : Sorted Z.le (error_ts_ w);
  wo_past : Forall (λ t, t <= now) (error_ts_ w);
  wo_gap : ∀ i t t', error_ts_ w !! i = Some t → error_ts_ w !! S i = Some t' → min_counting_time_window_us_ w < to_us (t' - t) }.
(** The errors that are counted at [now]: those of the last [sliding_window_us_], and the new one
    unless it follows the last one too closely. *)
Definition counted (now : Z) (w : SlidingTimeWindow) : list Z :=
  if NeedRecord now w then filter (λ t, to_us (now - t) <= sliding_window_us_ w) (error_ts_ w ++ [now]) else error_ts_ w.

Hypothesis to_us_mono : ∀ a b, a <= b → to_us a <= to_us b.
Lemma drop_expired_filter now win l : Sorted Z.le l → drop_expired now win l = filter (λ t, to_us (now - t) <= win) l.
Proof.
  intros Hs. apply Sorted_StronglySorted in Hs; [|intros a b c; lia]. induction Hs as [|t l Hs IH Ht]; [done|]. cbn [drop_expired]. rewrite filter_cons.
  destruct (Z.ltb_spec win (to_us (now - t))) as [H|H]; [rewrite decide_False by lia; exact IH|]. rewrite decide_True by lia. f_equal. symmetry. apply filter_true.
  apply Forall_forall. intros u Hu. rewrite Forall_forall in Ht. specialize (Ht u Hu). pose proof (to_us_mono (now - u) (now - t)). lia.
Qed.
Lemma drop_expired_suffix now win l : ∃ k, drop_expired now win l = drop k l.
Proof. induction l as [|t l [k IH]]; [by exists 0%nat|]. cbn [drop_expired]. destruct (win <? _); [by exists (S k)|by exists 0%nat]. Qed.
Lemma window_app now w : window_ok now w → NeedRecord now w = true → Sorted Z.le (error_ts_ w ++ [now]) ∧ Forall (λ t, t <= now) (error_ts_ w ++ [now]) ∧
  ∀ i t t', (error_ts_ w ++ [now]) !! i = Some t → (error_ts_ w ++ [now]) !! S i = Some t' → min_counting_time_window_us_ w < to_us (t' - t).
Proof.
  intros [W1 W2 W3] Hn. split_and!.
  - clear W3 Hn. induction W1 as [|t l W1 IH Hd]; [by repeat constructor|]. apply Forall_cons in W2 as [Ht W2]. cbn. constructor; [by apply IH|]. destruct Hd; cbn; constructor; lia.
  - apply Forall_app. split; [done|]. rewrite list.Forall_singleton. lia.
  - intros i t t' Hi HSi. destruct (decide (S i < length (error_ts_ w))%nat).
    + rewrite lookup_app_l in Hi, HSi by lia. by apply (W3 i).
    + apply lookup_lt_Some in HSi as Hlt. rewrite length_app in Hlt. cbn in Hlt. assert (length (error_ts_ w) = S i) as El by lia.
      rewrite lookup_app_r in HSi by lia. rewrite El, Nat.sub_diag in HSi. injection HSi as <-. rewrite lookup_app_l in Hi by lia.
      unfold NeedRecord in Hn. rewrite last_lookup, El in Hn. cbn in Hn. rewrite Hi in Hn. by apply Z.ltb_lt in Hn.
Qed.
Lemma empty_ok now w : window_ok now (w <| error_ts_ := [] |>).
Proof. split; cbn; [constructor|constructor|done]. Qed.
Lemma window_later now now' w : window_ok now w → now <= now' → window_ok now' w.
Proof. intros [W1 W2 W3] Hn. split; [done| |done]. eapply Forall_impl; [done|]. intros t Ht. cbn in Ht. lia. Qed.
Lemma sorted_drop k l : Sorted Z.le l → Sorted Z.le (drop k l).
Proof. revert l. induction k as [|k IH]; intros [|t l] H; cbn; try done. apply IH. by inversion H. Qed.

(** What an error of the middle level does to the window. *)
Lemma record_counts now w : window_ok now w →
  let '(safe, w1) := RecordErrorAndCheckIsSafe now w in
  error_ts_ w1 = counted now w ∧ (safe = true ↔ (length (counted now w) < trigger)%nat) ∧ window_ok now w1.
Proof.
  intros Hw. unfold RecordErrorAndCheckIsSafe. set (w1 := if NeedRecord now w then _ else w).
  assert (error_ts_ w1 = counted now w ∧ window_ok now w1) as [E Hok]; [|rewrite <- E; split; [done|]; split; [apply Nat.ltb_lt|done]].
  unfold w1, counted. destruct (NeedRecord now w) eqn:Hn; [|done]. destruct (window_app now w Hw Hn) as (A1 & A2 & A3).
  destruct w as [mn sl l]. unfold ClearExpiredErrors. cbn [error_ts_ min_counting_time_window_us_ sliding_window_us_ upd] in *.
  split; [by apply drop_expired_filter|]. destruct (drop_expired_suffix now sl (l ++ [now])) as [k Ek]. rewrite Ek in *. split; cbn [error_ts_ min_counting_time_window_us_ sliding_window_us_].
  - by apply sorted_drop.
  - by apply Forall_drop.
  - intros i t t'. rewrite !lookup_drop. intros H1 H2. apply (A3 (k + i)%nat); [done|]. by rewrite <- Nat.add_succ_r.
Qed.

(** C33: when a fallback is triggered, by a call at [now] after one at [before], whatever the
    value of the trigger is at each of them. The codes that do not concern the device never
    trigger one and change nothing; a hardware, channel or unknown error always does. A busy
    device, a timeout, a hung slice and a retry do exactly when at least [trigger] of these
    errors are counted: those of the sliding window, where an error right after another one is
    not counted. After a fallback counting starts again. The recorded errors stay in order and
    apart. *)
Theorem fallback_triggers before now c w : window_ok before w → before <= now →
  let '(b, w') := ShouldFallback now c w in
  window_ok now w' ∧
  match c with
  | kOk | kDropped | kInvalidArgument | kNotSupported | kOverflow | kBadData | kPermanentError => b = false ∧ w' = w
  | kHardwareError | kChannelError | kUnknown => b = true ∧ error_ts_ w' = []
  | kResourceBusy | kTimeout | kSliceHang | kShouldRetry =>
      (b = true ↔ (trigger ≤ length (counted now w))%nat) ∧ error_ts_ w' = if b then [] else counted now w
  end.
Proof.
  intros Hw Hnow. apply (window_later before now) in Hw; [|done]. pose proof (record_counts now w Hw) as H. unfold ShouldFallback.
  destruct c; cbn [JudgeHaErrorLevel]; try done; try (split; [apply empty_ok|done]);
    destruct (RecordErrorAndCheckIsSafe now w) as [[] w1], H as (E & Hb & Hok).
  all: split; [done || apply empty_ok|]; split; [|done]; destruct Hb as [H1 H2]; split; intros H; try done.
  all: first [specialize (H1 eq_refl); lia | destruct (decide (length (counted now w) < trigger)%nat) as [Hl|]; [by specialize (H2 Hl)|lia]].
Qed.
End window.

(** Five errors within a minute, ten milliseconds apart. *)
Definition demo_window : SlidingTimeWindow := MkWindow 50 60000000 [10000; 20000; 30000; 40000].
Lemma demo_window_ok : window_ok (λ d, d) 40000 demo_window.
Proof.
  split; cbn; [repeat constructor; lia|repeat constructor; lia|].
  intros [|[|[|[|i]]]] t t' H1 H2; try done; injection H1 as <-; injection H2 as <-; lia.
Qed.
Lemma fallback_triggers_witness : ShouldFallback (λ d, d) 5 50000 kTimeout demo_window = (true, MkWindow 50 60000000 []) ∧
  (5 ≤ length (counted (λ d, d) 50000 demo_window))%nat.
Proof.
  assert (ShouldFallback (λ d, d) 5 50000 kTimeout demo_window = (true, MkWindow 50 60000000 [])) as E by (vm_compute; reflexivity). split; [exact E|].
  pose proof (fallback_triggers (λ d, d) 5 (λ a b H, H) 40000 50000 kTimeout demo_window demo_window_ok ltac:(lia)) as H. rewrite E in H. destruct H as [_ [H _]]. by apply H.
Defined.
