(* ===== verification/QatCrc.v ===== *)
(** * Checksums of a QAT request (src/src/codec/qat/qat_codec_engine.h, qat_codec_engine.cc)

    The device computes the checksum of what it reads and writes; header and footer of the
    frame are added by the engine, so the checksum of the compressed data is put together from
    three parts. A context holds the segments of the source and the bytes of the destination,
    as they are when the callback runs. *)

From Stdlib Require Import ZArith Lia.
From stdpp Require Import prelude.
From S2P Require Import Prelude Checksum ChecksumCombine DcFormat.
Open Scope Z_scope.

Definition kZlibHeaderSize : Z := 2.
Definition kZlibFooterSize : Z := 4.

Inductive CodecDataDirection := kInput | kOutput.

(** [src_data] with [src_len] is the list of segments; [offloaded] is [integrityCrcCheck] and
    [iCrc] and [oCrc] are the checksums of the device. *)
Record RequestCbContext := MkCb {
  src_data : list (list Z); dst_data : list Z; cpa_consumed : Z; cpa_produced : Z; offloaded : bool; iCrc : Z; oCrc : Z;
  vesal_consumed : Z; vesal_produced : Z }.

Definition IsCRC32CalcOffloaded (c : RequestCbContext) : bool := offloaded c.
Definition GetOffloadedCRC32 (c : RequestCbContext) (d : CodecDataDirection) : Z := match d with kInput => iCrc c | kOutput => oCrc c end.
Definition GetQatProcessedDataSize (c : RequestCbContext) (d : CodecDataDirection) : Z := match d with kInput => cpa_consumed c | kOutput => cpa_produced c end.

(** The segments from the one on that holds the offset, and the offset in it. *)
Fixpoint skip_segments (segs : list (list Z)) (off : nat) : res (list (list Z) * nat) :=
  match segs with
  | [] => Err OutOfBounds
  | s :: r => if Nat.leb (length s) off then skip_segments r (off - length s) else Ok (segs, off)
  end.
(** The second loop: every [memcpy] goes to [buf], which is not advanced. [n] bytes are left. *)
Fixpoint copy_segments (segs : list (list Z)) (off n : nat) (buf : list Z) : res (list Z) :=
  match n with
  | O => Ok buf
  | _ =>
      match segs with
      | [] => Err OutOfBounds
      | s :: r =>
          let copy_len := Nat.min n (length s - off) in
          buf ← memcpy buf (take copy_len (drop off s));
          copy_segments r 0 (n - copy_len) buf
      end
  end.
Definition CopySrcData (c : RequestCbContext) (buf : list Z) (len offset : Z) : res (list Z) :=
  '(segs, off) ← skip_segments (src_data c) (Z.to_nat offset);
  copy_segments segs off (Z.to_nat len) buf.
Definition CopyDstData (c : RequestCbContext) (buf : list Z) (len offset : Z) : res (list Z) :=
  if Z.of_nat (length (dst_data c)) <? offset + len then Err OutOfBounds
  else memcpy buf (take (Z.to_nat len) (drop (Z.to_nat offset) (dst_data c))).

Section crc.
(** The feature bits of the processor, and whether it multiplies without carries. *)
Context (ecx : Z) (cpu : bool).

(** [ComputeCRC32(init, data, len)] of data that begins with [bs]. *)
Definition crc_prefix (bs : list Z) (len : Z) : res Z :=
  if Z.of_nat (length bs) <? len then Err OutOfBounds else ComputeCRC32 ecx kCrc32cInitialValue (take (Z.to_nat len) bs).
Definition SwCalcCRC32 (c : RequestCbContext) (d : CodecDataDirection) : res Z :=
  match d with
  | kInput =>
      match src_data c with
      | [s] => crc_prefix s (vesal_consumed c)
      | _ =>
          buf ← CopySrcData c (replicate (Z.to_nat (vesal_consumed c)) 0) (vesal_consumed c) 0;
          crc_prefix buf (vesal_consumed c)
      end
  | kOutput => crc_prefix (dst_data c) (vesal_produced c)
  end.

Definition UncompressedCRC32 (c : RequestCbContext) (comp : bool) : res Z :=
  let data_dir := if comp then kInput else kOutput in
  if IsCRC32CalcOffloaded c then Ok (GetOffloadedCRC32 c data_dir) else SwCalcCRC32 c data_dir.
(** [zlib_header] and [zlib_footer] are the arrays that belong to the thread, with what is in
    them from an earlier call; [sd] is the static data of LZ4 frames. *)
Definition CompressedCRC32 (sd : Lz4StaticData) (zlib_header zlib_footer : list Z) (compressed_checksum : bool) (c : RequestCbContext) (comp : bool) (algo : CodecAlgorithm) : res Z :=
  if negb compressed_checksum then Ok 0
  else
    let data_dir := if comp then kOutput else kInput in
    if negb (IsCRC32CalcOffloaded c) then SwCalcCRC32 c data_dir
    else
      let n := GetQatProcessedDataSize c data_dir in
      match algo with
      | kLz4 => CombineThreeCRC32 cpu kCrc32cInitialValue (header_crc sd) (GetOffloadedCRC32 c data_dir) (footer_crc sd) n kLz4FrameFooterSize
      | kDeflate => Ok (GetOffloadedCRC32 c data_dir)
      | kZlib =>
          '(h, f) ← (if comp then
                       h ← CopyDstData c zlib_header kZlibHeaderSize 0;
                       f ← CopyDstData c zlib_footer kZlibFooterSize (kZlibHeaderSize + n);
                       Ok (h, f)
                     else
                       h ← CopySrcData c zlib_header kZlibHeaderSize 0;
                       f ← CopySrcData c zlib_footer kZlibFooterSize (kZlibHeaderSize + n);
                       Ok (h, f));
          hc ← crc_prefix h kZlibHeaderSize;
          fc ← crc_prefix f kZlibFooterSize;
          CombineThreeCRC32 cpu kCrc32cInitialValue hc (GetOffloadedCRC32 c data_dir) fc n kZlibFooterSize
      | _ => Ok 0
      end.
End crc.

(** ** Whole frames *)

(** The bytes from [n] on, [k] of them, are in one segment. *)
Definition in_one_segment (segs : list (list Z)) (n k : nat) : Prop :=
  ∃ s r o, skip_segments segs n = Ok (s :: r, o) ∧ (o + k ≤ length s)%nat.
Lemma skip_concat segs : ∀ n s r o, skip_segments segs n = Ok (s :: r, o) → drop n (concat segs) = drop o s ++ concat r ∧ (o < length s)%nat.
Proof.
  induction segs as [|s0 segs IH]; intros n s r o; cbn [skip_segments]; [done|]. destruct (Nat.leb_spec (length s0) n) as [Hle|Hlt].
  - intros E. destruct (IH _ _ _ _ E) as [<- Ho]. split; [|done]. cbn. by rewrite drop_app_ge by done.
  - intros [= <- <- <-]. split; [|done]. cbn. by rewrite drop_app_le by lia.
Qed.
Lemma CopySrcData_ok c buf k n : in_one_segment (src_data c) n k → length buf = k →
  CopySrcData c buf (Z.of_nat k) (Z.of_nat n) = Ok (take k (drop n (concat (src_data c)))).
Proof.
  intros (s & r & o & E & Hk) Hb. unfold CopySrcData. rewrite !Nat2Z.id, E, bind_Ok. destruct (skip_concat _ _ _ _ _ E) as [-> Ho].
  destruct k as [|k]; [destruct buf; [done|discriminate Hb]|]. cbn [copy_segments]. replace (Nat.min (S k) (length s - o)) with (S k) by lia.
  rewrite memcpy_ok by (rewrite length_take, length_drop; lia). rewrite bind_Ok, Nat.sub_diag, length_take, length_drop. rewrite (drop_ge buf) by lia.
  rewrite app_nil_r, take_app_le by (rewrite length_drop; lia). by destruct r.
Qed.
Lemma CopyDstData_ok c buf k n : (n + k ≤ length (dst_data c))%nat → length buf = k →
  CopyDstData c buf (Z.of_nat k) (Z.of_nat n) = Ok (take k (drop n (dst_data c))).
Proof.
  intros Hn Hb. unfold CopyDstData. rewrite (proj2 (Z.ltb_ge _ _)), !Nat2Z.id by lia. rewrite memcpy_ok by (rewrite length_take, length_drop; lia).
  rewrite length_take, length_drop, (drop_ge buf) by lia. by rewrite app_nil_r.
Qed.

Section frames.
Context (ecx : Z) (cpu : bool).
Context (Hcpu : Z.testbit ecx 20 = true).

Lemma crc_prefix_ok bs k : bytes_ok bs → (k ≤ length bs)%nat → crc_prefix ecx bs (Z.of_nat k) = Ok (ComputeCRC32_Accelerate kCrc32cInitialValue (take k bs)).
Proof.
  intros Hb Hk. unfold crc_prefix. rewrite (proj2 (Z.ltb_ge _ _)), Nat2Z.id by lia. unfold ComputeCRC32, Get_ComputeCRC32_Impl. by rewrite Hcpu.
Qed.
(** The header and footer an algorithm puts around its data. *)
Definition framed (algo : CodecAlgorithm) (h f : list Z) : Prop :=
  match algo with
  | kLz4 => h = lz4_header_image ∧ f = lz4_footer_image
  | kZlib => length h = 2%nat ∧ length f = 4%nat
  | kDeflate => h = [] ∧ f = []
  | _ => False
  end.
(** The compressed side of a request holds the frame [h ++ body ++ f], and the device processed
    [body] and computed its checksum. *)
Record offload (c : RequestCbContext) (comp : bool) (h body f rest : list Z) : Prop := {
  of_on : offloaded c = true;
  of_data : (if comp then dst_data c else concat (src_data c)) = h ++ body ++ f ++ rest;
  of_bytes : bytes_ok (h ++ body ++ f);
  of_size : GetQatProcessedDataSize c (if comp then kOutput else kInput) = Z.of_nat (length body);
  of_fits : Z.of_nat (length body) < 2 ^ 64;
  of_crc : GetOffloadedCRC32 c (if comp then kOutput else kInput) = ComputeCRC32_Accelerate kCrc32cInitialValue body }.

Lemma combine_frame h body f : bytes_ok h → bytes_ok body → bytes_ok f → Z.of_nat (length body) < 2 ^ 64 → (length f ≤ 4)%nat →
  CombineThreeCRC32 cpu kCrc32cInitialValue (ComputeCRC32_Accelerate kCrc32cInitialValue h) (ComputeCRC32_Accelerate kCrc32cInitialValue body)
    (ComputeCRC32_Accelerate kCrc32cInitialValue f) (Z.of_nat (length body)) (Z.of_nat (length f)) = Ok (crc_bytes kCrc32cInitialValue (h ++ body ++ f)).
Proof.
  intros H1 H2 H3 Hb Hf. rewrite combine_three_correct by (done || lia). rewrite accelerate_spec; [done|done|]. by repeat (apply Forall_app; split).
Qed.
(** The two parts of a zlib frame are found. *)
Lemma zlib_parts c comp zh zf h body f rest : offload c comp h body f rest → length h = 2%nat → length f = 4%nat → length zh = 2%nat → length zf = 4%nat →
  (comp = false → in_one_segment (src_data c) 0 2 ∧ in_one_segment (src_data c) (2 + length body) 4) →
  (if comp then
     a ← CopyDstData c zh kZlibHeaderSize 0; b ← CopyDstData c zf kZlibFooterSize (kZlibHeaderSize + Z.of_nat (length body)); Ok (a, b)
   else
     a ← CopySrcData c zh kZlibHeaderSize 0; b ← CopySrcData c zf kZlibFooterSize (kZlibHeaderSize + Z.of_nat (length body)); Ok (a, b)) = Ok (h, f).
Proof.
  intros [O1 O2 O3 O4 O5 O6] Hh Hf Hzh Hzf Hseg. change kZlibHeaderSize with (Z.of_nat 2). change kZlibFooterSize with (Z.of_nat 4).
  change 0 with (Z.of_nat 0). rewrite <- Nat2Z.inj_add.
  assert (∀ l, l = h ++ body ++ f ++ rest → take 2 (drop 0 l) = h ∧ take 4 (drop (2 + length body) l) = f) as Hpart.
  { intros l ->. rewrite drop_0. split; [by apply take_app_length'|]. rewrite (app_assoc h), drop_app_length' by (rewrite length_app; lia). by apply take_app_length'. }
  destruct (Hpart _ O2) as [P1 P2]. destruct comp.
  - assert (length (dst_data c) = 2 + length body + 4 + length rest)%nat as Hlen by (rewrite O2, !length_app; lia).
    rewrite (CopyDstData_ok c zh 2 0) by lia. rewrite bind_Ok. rewrite (CopyDstData_ok c zf 4) by lia. rewrite bind_Ok. by rewrite P1, P2.
  - destruct (Hseg eq_refl) as [S1 S2]. rewrite (CopySrcData_ok c zh 2 0 S1 Hzh), bind_Ok, (CopySrcData_ok c zf 4 _ S2 Hzf), bind_Ok. by rewrite P1, P2.
Qed.

(** C18: when the device offloads the checksum, the checksum reported for the compressed data is
    the CRC of the whole frame, although the device only sees the data inside: the checksums of
    header and footer are combined with the one of the device. For LZ4 the header and footer are
    those of vesal's own static frame; for zlib they are read back from the user's buffers,
    which needs, when decompressing scattered input, that the header and the footer are each
    inside one segment ([split_header_crc] shows the other case). *)
Theorem compressed_crc_correct K cs stack zh zf c comp algo h body f rest :
  lz4f_documented K → (32 <= length stack)%nat → framed algo h f → offload c comp h body f rest → length zh = 2%nat → length zf = 4%nat →
  (comp = false → algo = kZlib → in_one_segment (src_data c) 0 2 ∧ in_one_segment (src_data c) (2 + length body) 4) →
  ∃ sd, GetLz4StaticData K cs ecx stack = Ok sd ∧
    CompressedCRC32 ecx cpu sd zh zf true c comp algo = Ok (crc_bytes kCrc32cInitialValue (h ++ body ++ f)).
Proof.
  intros HK Hs Hfr Hof Hzh Hzf Hseg. pose proof Hof as [O1 O2 O3 O4 O5 O6]. apply Forall_app in O3 as [B1 [B2 B3]%Forall_app].
  destruct (lz4_frame_crc K cs cpu ecx stack body HK Hs Hcpu B2 O5) as (sd & Esd & Ec). exists sd. split; [done|]. unfold CompressedCRC32, IsCRC32CalcOffloaded. rewrite O1. cbn [negb].
  rewrite O4, O6. destruct algo; try done; cbn in Hfr.
  - destruct Hfr as [-> ->]. exact Ec.
  - destruct Hfr as [-> ->]. cbn. rewrite app_nil_r. by rewrite accelerate_spec.
  - destruct Hfr as [Hh Hf]. rewrite (zlib_parts c comp zh zf h body f rest) by (done || by auto). rewrite bind_Ok.
    replace kZlibHeaderSize with (Z.of_nat (length h)) by (by rewrite Hh). replace kZlibFooterSize with (Z.of_nat (length f)) by (by rewrite Hf).
    rewrite !crc_prefix_ok, !bind_Ok, !take_ge by (done || lia). apply combine_frame; done || lia.
Qed.

(** C38: a zlib header that is split between two segments is not put together: both bytes are
    copied to the start of the buffer, so the checksum is the one of a frame that begins with
    the second byte and with what an earlier call left in the buffer. *)
Theorem split_header_crc sd z1 z2 zf c b1 b2 body f rest :
  offload c false [b1; b2] body f rest → src_data c = [[b1]; b2 :: body ++ f ++ rest] → in_range 8 z2 → length f = 4%nat → length zf = 4%nat →
  CompressedCRC32 ecx cpu sd [z1; z2] zf true c false kZlib = Ok (crc_bytes kCrc32cInitialValue ([b2; z2] ++ body ++ f)).
Proof.
  intros [O1 O2 O3 O4 O5 O6] Hsrc Hz Hf Hzf. cbn [app] in O3. apply Forall_cons in O3 as [B1 [B2 [B3 B4]%Forall_app]%Forall_cons].
  unfold CompressedCRC32, IsCRC32CalcOffloaded. rewrite O1. cbn [negb]. rewrite O4, O6.
  assert (CopySrcData c [z1; z2] kZlibHeaderSize 0 = Ok [b2; z2]) as E1 by (unfold CopySrcData; by rewrite Hsrc).
  assert (CopySrcData c zf kZlibFooterSize (kZlibHeaderSize + Z.of_nat (length body)) = Ok f) as E2.
  { change kZlibFooterSize with (Z.of_nat 4). replace (kZlibHeaderSize + Z.of_nat (length body)) with (Z.of_nat (2 + length body)) by (change kZlibHeaderSize with 2; lia).
    rewrite CopySrcData_ok; [|rewrite Hsrc|done].
    - f_equal. rewrite O2, app_assoc. change (2 + length body)%nat with (length [b1; b2] + length body)%nat. rewrite drop_app_length' by (by rewrite length_app). by apply take_app_length'.
    - exists (b2 :: body ++ f ++ rest), [], (1 + length body)%nat. split; [|cbn; rewrite !length_app; lia]. cbn [skip_segments length]. rewrite (proj2 (Nat.leb_le _ _)) by lia.
      rewrite (proj2 (Nat.leb_gt _ _)) by (rewrite !length_app; lia). do 2 f_equal. }
  rewrite E1, bind_Ok, E2, !bind_Ok. change kZlibHeaderSize with (Z.of_nat (length [b2; z2])). replace kZlibFooterSize with (Z.of_nat (length f)) by (by rewrite Hf).
  assert (bytes_ok [b2; z2]) by (apply Forall_cons; split; [done|by apply Forall_singleton]). rewrite !crc_prefix_ok, !bind_Ok, !take_ge by (done || lia). apply combine_frame; done || lia.
Qed.
End frames.

(** ** A request *)

Definition demo_body : list Z := [0x4B; 0x04; 0x00].
Definition demo_footer : list Z := [0x00; 0x62; 0x00; 0x62].
Definition demo_cb (segs : list (list Z)) : RequestCbContext :=
  MkCb segs [] 3 1 true (ComputeCRC32_Accelerate kCrc32cInitialValue demo_body) 0 9 1.
Lemma demo_offload segs : concat segs = [0x78; 0x9C] ++ demo_body ++ demo_footer → offload (demo_cb segs) false [0x78; 0x9C] demo_body demo_footer [].
Proof. intros E. split; [done|by rewrite app_nil_r|by repeat constructor|done|done|done]. Qed.

Lemma compressed_crc_correct_witness : ∃ sd, GetLz4StaticData (MkLz4fConsts 4 1 0 0) false (2 ^ 20) (replicate 32 0) = Ok sd ∧
  CompressedCRC32 (2 ^ 20) true sd [0; 0] [0; 0; 0; 0] true (demo_cb [[0x78; 0x9C; 0x4B]; [0x04; 0x00; 0x00; 0x62; 0x00; 0x62]]) false kZlib
  = Ok (crc_bytes kCrc32cInitialValue ([0x78; 0x9C] ++ demo_body ++ demo_footer)).
Proof.
  apply (compressed_crc_correct (2 ^ 20) true eq_refl (MkLz4fConsts 4 1 0 0) false (replicate 32 0) [0; 0] [0; 0; 0; 0] _ false kZlib [0x78; 0x9C] demo_body demo_footer []);
    [done|by vm_compute|done|by apply demo_offload|done|done|].
  intros _ _. split; [by eexists _, _, 0%nat; split; [reflexivity|cbn; lia]|by eexists _, _, 2%nat; split; [reflexivity|cbn; lia]].
Defined.
(** Both bytes of the header are lost. *)
Lemma split_header_crc_witness :
  CompressedCRC32 (2 ^ 20) true (MkLz4StaticData [] [] 0 0) [0; 7] [0; 0; 0; 0] true (demo_cb [[0x78]; [0x9C; 0x4B; 0x04; 0x00; 0x00; 0x62; 0x00; 0x62]]) false kZlib
  = Ok (crc_bytes kCrc32cInitialValue ([0x9C; 7] ++ demo_body ++ demo_footer)) ∧
  crc_bytes kCrc32cInitialValue ([0x9C; 7] ++ demo_body ++ demo_footer) ≠ crc_bytes kCrc32cInitialValue ([0x78; 0x9C] ++ demo_body ++ demo_footer).
Proof.
  split; [|by vm_compute].
  apply (split_header_crc (2 ^ 20) true eq_refl _ 0 7 [0; 0; 0; 0] _ 0x78 0x9C demo_body demo_footer []); [by apply demo_offload|done..].
Defined.
