(* ===== verification/QatEngine.v ===== *)
(** * The QAT codec engine (src/src/codec/qat/qat_codec_engine.h, qat_codec_engine.cc, codec_common.h)

    Requests get increasing numbers and a slot in a pool each; the device answers them in
    order, a timer turns a late one into a result of its own, and when the device fails another
    one can take over. The device with its buffers is the interface [QatDevice], timers are
    those of the data flow channel with one operation more. The results a user has not polled
    yet are a list, the nodes of [CodecResultList] from [head] on. Request numbers are 64 bits
    wide and taken to be unbounded. Metrics, error simulation and the delayed release of
    buffers of timed out requests are not modelled. *)

From Stdlib Require Import ZArith Lia.
From stdpp Require Import prelude gmap.
From S2P Require Import Prelude Status DcFormat DataFlow QatHa QatCrc.
Open Scope Z_scope.

(** ** Results *)

Record CodecResult := MkCodecResult { consumed : Z; produced : Z; in_checksum : Z; out_checksum : Z; cr_status : StatusCode; cr_ctx : Z }.
#[export] Instance eta_CodecResult : Eta CodecResult := λ r,
  MkCodecResult (consumed r) (produced r) (in_checksum r) (out_checksum r) (cr_status r) (cr_ctx r).
Definition failed_result (ctx : Z) (c : StatusCode) : CodecResult := MkCodecResult 0 0 0 0 c ctx.
(** [Pop(results, max_num)]: what is stored in [results], and the rest. *)
Definition results_Pop (max_num : nat) (l : list CodecResult) : list CodecResult * list CodecResult := (take max_num l, drop max_num l).
Definition ModifyAll (change_to : StatusCode) (l : list CodecResult) : list CodecResult := (λ r, r <| cr_status := change_to |>) <$> l.

(** The bytes of the enumeration. *)
Definition algorithm_value (a : CodecAlgorithm) : Z := match a with kLz4 => 1 | kZstd => 2 | kDeflate => 3 | kZlib => 4 | kAlgNum => 5 end.
#[export] Instance CodecAlgorithm_eq_dec : EqDecision CodecAlgorithm.
Proof. solve_decision. Defined.

(** ** Pools *)

Definition is_power_of_two (n : Z) : bool := negb (n =? 0) && (Z.land n (n - 1) =? 0).
(** [__builtin_clzl] is not defined for 0. *)
Definition clzl (n : Z) : option Z := if n =? 0 then None else Some (63 - Z.log2 n).
(** No value where the shift count or [__builtin_clzl] is undefined. *)
Definition next_power_of_two (n : Z) : option Z :=
  if is_power_of_two n then Some n
  else c ← clzl n; if c - 1 <? 0 then None else Some (Z.shiftr 0x8000000000000000 (c - 1)).

Lemma land_pred k n : 0 <= k → 2 ^ k < n < 2 ^ (k + 1) → Z.land n (n - 1) ≠ 0.
Proof.
  intros Hk Hn E. assert (∀ x, 2 ^ k <= x < 2 ^ (k + 1) → Z.testbit x k = true) as Hbit.
  { intros x Hx. apply Z.testbit_true; [done|]. replace (x / 2 ^ k) with 1; [done|]. apply (Z.div_unique x (2 ^ k) 1 (x - 2 ^ k)); rewrite Z.pow_add_r in Hx by lia; lia. }
  apply (f_equal (λ z, Z.testbit z k)) in E. rewrite Z.land_spec, !Hbit, Z.bits_0 in E by lia. done.
Qed.
Lemma is_power_of_two_spec n : 0 <= n → is_power_of_two n = true ↔ ∃ k, 0 <= k ∧ n = 2 ^ k.
Proof.
  intros Hn. unfold is_power_of_two. rewrite andb_true_iff, negb_true_iff, Z.eqb_neq, Z.eqb_eq. split.
  - intros [H0 E]. exists (Z.log2 n). pose proof (Z.log2_nonneg n). split; [done|]. destruct (Z.log2_spec n) as [L1 L2]; [lia|].
    destruct (decide (n = 2 ^ Z.log2 n)); [done|]. exfalso. apply (land_pred (Z.log2 n) n); [done|unfold Z.succ in L2; lia|done].
  - intros (k & Hk & ->). split; [lia|]. replace (2 ^ k - 1) with (Z.ones k) by (rewrite Z.ones_equiv; lia). rewrite Z.land_ones by done. apply Z.mod_same. lia.
Qed.
Lemma next_power_ok n : 0 < n < 2 ^ 63 → ∃ k, 0 <= k ∧ next_power_of_two n = Some (2 ^ k) ∧ n <= 2 ^ k < 2 * n.
Proof.
  intros Hn. unfold next_power_of_two. destruct (is_power_of_two n) eqn:E.
  - apply is_power_of_two_spec in E as (k & Hk & ->); [|lia]. exists k. split_and!; [done|done|lia|lia].
  - pose proof (Z.log2_nonneg n) as H0. destruct (Z.log2_spec n) as [L1 L2]; [lia|]. unfold Z.succ in L2. assert (Z.log2 n < 63) as Hl by (apply Z.log2_lt_pow2; lia).
    assert (n ≠ 2 ^ Z.log2 n) as Hne. { intros En. rewrite (proj2 (is_power_of_two_spec n ltac:(lia))) in E; [done|]. by exists (Z.log2 n). }
    exists (Z.log2 n + 1). split; [lia|]. unfold clzl. rewrite (proj2 (Z.eqb_neq n 0)) by lia. cbn [mbind option_bind].
    rewrite (proj2 (Z.ltb_ge _ _)) by lia. split; [|rewrite Z.pow_add_r in * by lia; lia]. f_equal. rewrite Z.shiftr_div_pow2 by lia.
    change 0x8000000000000000 with (2 ^ 63). replace 63 with ((Z.log2 n + 1) + (63 - Z.log2 n - 1)) at 1 by lia. rewrite Z.pow_add_r by lia. apply Z.div_mul. lia.
Qed.

(** ** The device *)

(** What a callback finds: the request and, when it succeeded, sizes and checksums. *)
Record Answer := MkAnswer {
  an_req_id : Z; an_status : CpaStatus; an_req_status : CpaDcReqStatus; an_consumed : Z; an_produced : Z; an_in : Z; an_out : Z }.
(** [qd_ok h l]: the requests [l] are in the device, in this order. The device answers in the
    order of submission; a device that took over is empty. [qd_buffers] obtains the two buffers
    of a request and [qd_fill comp header footer] fills them, leaving room for the frame. *)
Class QatDevice (H : Type) := {
  qd_buffers : ST H bool;
  qd_fill : bool → Z → Z → ST H bool;
  qd_submit : Z → ST H StatusCode;
  qd_poll : ST H (StatusCode * list Answer);
  qd_reinit : ST H StatusCode;
  qd_ok : H → list Z → Prop;
  qd_buffers_law h l : qd_ok h l → wp qd_buffers (λ _ h', qd_ok h' l) h;
  qd_fill_law h l comp hs fs : qd_ok h l → wp (qd_fill comp hs fs) (λ _ h', qd_ok h' l) h;
  qd_submit_law h l id : qd_ok h l → wp (qd_submit id) (λ st h', qd_ok h' (if decide (st = kOk) then l ++ [id] else l)) h;
  qd_poll_law h l : qd_ok h l → wp qd_poll (λ '(_, ans) h', ∃ l', l = (an_req_id <$> ans) ++ l' ∧ qd_ok h' l') h;
  qd_reinit_law h l : qd_ok h l → wp qd_reinit (λ st h', st = kOk → qd_ok h' []) h }.
(** [ClearAndGetUserArg] of the timers. *)
Class TimerClear (Tm : Type) {TI : TimerService Tm} := {
  ts_clear : ST Tm (list Z);
  ts_clear_law t l : ts_ok t l → wp ts_clear (λ args t', args = tv_arg <$> l ∧ ts_ok t' []) t }.

Section engine.
Context {H : Type} {QD : QatDevice H} {Tm : Type} {TI : TimerService Tm} {TC : TimerClear Tm}.
(** The conversion of clock values, and the number of errors that trigger a fallback. *)
Context (to_us : Z → Z) (trigger : nat).

(** ** State *)

Record RequestMeta := MkMeta {
  rm_req_id : Z; rm_user_ctx : Z; rm_timer_ctx : Z; rm_comp : bool; rm_valid : bool; header_size : Z; footer_size : Z; codec_algo : CodecAlgorithm; rm_level : CodecCompLevel }.
#[local] Instance eta_RequestMeta : Eta RequestMeta := λ m,
  MkMeta (rm_req_id m) (rm_user_ctx m) (rm_timer_ctx m) (rm_comp m) (rm_valid m) (header_size m) (footer_size m) (codec_algo m) (rm_level m).
(** [metas] is [request_meta_pool_], from slots to metas; [ha_enabled] is [IsHaEnabled()]. *)
Record QatCodecEngine := MkQat {
  q_dev : H; q_timers : Tm; next_req_id_ : Z; next_recv_req_id_ : Z; in_qat_num_ : Z; callback_called_times_ : Z; is_fatal_ : bool;
  metas : gmap Z RequestMeta; slot_num_ : Z; max_in_qat_size_ : Z; codec_results_ : list CodecResult; ha_enabled : bool; ha_window : SlidingTimeWindow }.
#[local] Instance eta_QatCodecEngine : Eta QatCodecEngine := λ e,
  MkQat (q_dev e) (q_timers e) (next_req_id_ e) (next_recv_req_id_ e) (in_qat_num_ e) (callback_called_times_ e) (is_fatal_ e)
    (metas e) (slot_num_ e) (max_in_qat_size_ e) (codec_results_ e) (ha_enabled e) (ha_window e).
Abbreviation qat := QatCodecEngine.
Definition on_dev {A} (m : ST H A) : ST qat A := λ e,
  match m (q_dev e) with Ok (a, h) => Ok (a, e <| q_dev := h |>) | Err x => Err x end.
Definition on_qtimers {A} (m : ST Tm A) : ST qat A := λ e,
  match m (q_timers e) with Ok (a, t) => Ok (a, e <| q_timers := t |>) | Err x => Err x end.

(** The constructor, with the pool of requests, and the parts that [Init] creates. *)
Definition new_meta : RequestMeta := MkMeta 0 0 0 false false 0 0 kAlgNum kLevelNum.
Definition new_engine (dev : H) (timers : Tm) (max_in_qat_size : Z) (ha : bool) (w : SlidingTimeWindow) : option qat :=
  n ← next_power_of_two max_in_qat_size;
  if (0 <? n) && (Z.land n (n - 1) =? 0) then
    Some (MkQat dev timers 1 1 0 0 false (list_to_map ((λ k, (k, new_meta)) <$> seqZ 0 n)) n max_in_qat_size [] ha w)
  else None.

(** ** Requests *)

(** [pool_[key & slot_mask_]] *)
Definition slot (e : qat) (id : Z) : Z := Z.land id (slot_num_ e - 1).
Definition get_meta (k : Z) : ST qat RequestMeta := e ← get; need NullDeref (metas e !! k).
Definition set_meta (k : Z) (f : RequestMeta → RequestMeta) : ST qat unit := get_meta k;; modify (λ e, e <| metas ::= alter f k |>).
Definition push_result (r : CodecResult) : ST qat unit := modify (λ e, e <| codec_results_ ::= λ l, l ++ [r] |>).

Definition sizes (algo : CodecAlgorithm) : Z * Z :=
  match algo with
  | kLz4 => (kLz4FrameHeaderSize, kLz4FrameFooterSize)
  | kZlib => (kZlibHeaderSize, kZlibFooterSize)
  | _ => (0, 0)
  end.
(** Returns the slot of the request. *)
Definition PrepareCommonReqData (comp : bool) (algo : CodecAlgorithm) (level : CodecCompLevel) (ctx : Z) : ST qat (StatusCode * Z) :=
  e ← get;
  let id := next_req_id_ e in
  let k := slot e id in
  set_meta k (λ m, m <| rm_req_id := id |> <| rm_user_ctx := ctx |> <| rm_comp := comp |>);;
  got ← on_dev qd_buffers;
  if negb got then mret (kResourceBusy, k)
  else
    let '(h, f) := sizes algo in
    set_meta k (λ m, m <| header_size := h |> <| footer_size := f |> <| codec_algo := algo |> <| rm_level := level |>);;
    filled ← on_dev (qd_fill comp h f);
    mret (match filled with true => kOk | false => kResourceBusy end, k).
Definition CleanUpReqData (k : Z) : ST qat unit :=
  m ← get_meta k;
  when (rm_valid m) (set_meta k (λ m, m <| rm_valid := false |>);; on_qtimers (ts_remove (rm_timer_ctx m))).
Definition TagInFlight (now k : Z) : ST qat unit :=
  t ← on_qtimers (ts_add now k);
  set_meta k (λ m, m <| rm_timer_ctx := t |> <| rm_valid := true |>).
(** [MatchAndInvalidateFlightReq] and a result for the user. *)
Definition InterceptInflightReq (k : Z) (dummy_code : StatusCode) : ST qat unit :=
  m ← get_meta k;
  e ← get;
  let k' := slot e (rm_req_id m) in
  m' ← get_meta k';
  when (rm_valid m') (set_meta k' (λ m, m <| rm_valid := false |>));;
  push_result (failed_result (rm_user_ctx m) dummy_code).
Fixpoint intercept_all (ks : list Z) (dummy_code : StatusCode) : ST qat unit :=
  match ks with
  | [] => mret ()
  | k :: ks => InterceptInflightReq k dummy_code;; intercept_all ks dummy_code
  end.

(** ** Falling back *)

(** The argument for the requests in flight is not used: they get kDropped. *)
Definition DropInflightReqsAndGenDummyResults : ST qat Z :=
  ks ← on_qtimers ts_clear;
  intercept_all ks kDropped;;
  mret (Z.of_nat (length ks)).
Definition ClearRetiredQat (results_change_to : StatusCode) : ST qat Z :=
  e ← get;
  let n := Z.of_nat (length (codec_results_ e)) in
  modify (λ e, e <| codec_results_ ::= ModifyAll results_change_to |>);;
  d ← DropInflightReqsAndGenDummyResults;
  modify (λ e, e <| next_recv_req_id_ := next_req_id_ e |> <| callback_called_times_ := 0 |> <| in_qat_num_ := 0 |>);;
  mret (n + d).
Definition DoHa : ST qat Z :=
  n ← ClearRetiredQat kDropped;
  st ← on_dev qd_reinit;
  mret (if bool_decide (st = kOk) then n else -1).
Definition HandleHa (now : Z) (error : StatusCode) : ST qat bool :=
  e ← get;
  let '(fall, w) := ShouldFallback to_us trigger now error (ha_window e) in
  modify (λ e, e <| ha_window := w |>);;
  if negb fall then mret false
  else
    n ← DoHa;
    if n <? 0 then modify (λ e, e <| is_fatal_ := true |>);; mret false else mret true.

(** ** Operations *)

Definition supported (algo : CodecAlgorithm) (level : CodecCompLevel) : bool :=
  let algo_u8 := algorithm_value algo in
  let level_u8 := level_value level in
  negb ((algo_u8 =? 0) || (algorithm_value kAlgNum <=? algo_u8) || (level_u8 =? 0) || (level_value kLevelNum <=? level_u8)) &&
  negb (negb (bool_decide (algo = kLz4)) && negb (bool_decide (algo = kDeflate)) && negb (bool_decide (algo = kZlib))).
Definition SubmitAsyncRequest (now : Z) (comp : bool) (algo : CodecAlgorithm) (level : CodecCompLevel) (ctx : Z) : ST qat StatusCode :=
  if negb (supported algo level) then mret kInvalidArgument
  else
    e ← get;
    if is_fatal_ e then mret kPermanentError
    else if max_in_qat_size_ e <=? in_qat_num_ e then mret kResourceBusy
    else
      '(r, k) ← PrepareCommonReqData comp algo level ctx;
      if negb (bool_decide (r = kOk)) then CleanUpReqData k;; mret r
      else
        r ← on_dev (qd_submit (next_req_id_ e));
        if negb (bool_decide (r = kOk)) then
          (if ha_enabled e then HandleHa now r;; mret ()
           else when (bool_decide (r = kChannelError) || bool_decide (r = kHardwareError)) (modify (λ e, e <| is_fatal_ := true |>)));;
          CleanUpReqData k;;
          mret r
        else
          modify (λ e, e <| in_qat_num_ ::= Z.add 1 |>);;
          modify (λ e, e <| next_req_id_ ::= Z.add 1 |>);;
          TagInFlight now k;;
          mret r.

(** The result of a request the device has processed. *)
Definition success_result (m : RequestMeta) (a : Answer) : CodecResult :=
  let extra := header_size m + footer_size m in
  MkCodecResult (if rm_comp m then an_consumed a else an_consumed a + extra) (if rm_comp m then an_produced a + extra else an_produced a)
    (an_in a) (an_out a) kOk (rm_user_ctx m).
Definition Callback (a : Answer) : ST qat unit :=
  modify (λ e, e <| callback_called_times_ ::= Z.add 1 |>);;
  e ← get;
  let k := slot e (an_req_id a) in
  m ← get_meta k;
  modify (λ e, e <| next_recv_req_id_ ::= Z.add 1 |>);;
  when (rm_valid m)
    ((if bool_decide (an_status a = CPA_STATUS_SUCCESS) && bool_decide (an_req_status a = CPA_DC_OK) then push_result (success_result m a)
      else push_result (failed_result (rm_user_ctx m) (CpaStatusToCode (an_status a) (an_req_status a))));;
     CleanUpReqData k).
Fixpoint callbacks (l : list Answer) : ST qat unit :=
  match l with
  | [] => mret ()
  | a :: l => Callback a;; callbacks l
  end.
Definition PopBufferedResults (max_num : nat) : ST qat (list CodecResult) :=
  e ← get;
  let '(rs, rest) := results_Pop max_num (codec_results_ e) in
  modify (λ e, e <| codec_results_ := rest |>);;
  mret rs.
(** The loop over the popped results that looks for failed ones. *)
Fixpoint check_results (now : Z) (rs : list CodecResult) : ST qat unit :=
  match rs with
  | [] => mret ()
  | r :: rs =>
      if bool_decide (cr_status r = kOk) then check_results now rs
      else
        ha ← HandleHa now (cr_status r);
        e ← get;
        if ha || is_fatal_ e then mret () else check_results now rs
  end.
(** Callbacks, timeouts and the count of requests in the device. *)
Definition poll_device (now : Z) : ST qat StatusCode :=
  modify (λ e, e <| callback_called_times_ := 0 |>);;
  '(poll_r, ans) ← on_dev qd_poll;
  callbacks ans;;
  (ks ← on_qtimers (ts_handle now); intercept_all ks kTimeout);;
  modify (λ e, e <| in_qat_num_ ::= λ n, n - callback_called_times_ e |>);;
  mret poll_r.
(** [None] is -1. *)
Definition Poll (now : Z) (max_num : nat) : ST qat (option (list CodecResult)) :=
  e ← get;
  if is_fatal_ e then
    rs ← PopBufferedResults max_num;
    mret (match rs with [] => None | _ => Some rs end)
  else
    poll_r ← poll_device now;
    rs ← PopBufferedResults max_num;
    let bad := negb (bool_decide (poll_r = kShouldRetry)) && negb (bool_decide (poll_r = kOk)) in
    if negb (ha_enabled e) then
      if bool_decide (rs = []) && bad then modify (λ e, e <| is_fatal_ := true |>);; mret None else mret (Some rs)
    else if bad then HandleHa now poll_r;; mret (Some rs)
    else check_results now rs;; mret (Some rs).

(** ** The invariant

    The requests from [p] on have no result yet. They are the last ones of those in the device,
    which are the ones from [next_recv_req_id_] on; [c] callbacks are not yet subtracted from
    [in_qat_num_]. *)

Definition ctx_at (e : qat) (id : Z) : Z := match metas e !! slot e id with Some m => rm_user_ctx m | None => 0 end.
Definition timer_at (e : qat) (id : Z) : timer_view :=
  MkTV (match metas e !! slot e id with Some m => rm_timer_ctx m | None => 0 end) (slot e id).
Definition live (e : qat) (p : Z) : list Z := seqZ p (next_req_id_ e - p).
(** The user contexts of the requests whose result has not been polled. *)
Definition pending (e : qat) (p : Z) : list Z := (cr_ctx <$> codec_results_ e) ++ (ctx_at e <$> live e p).
Record core (e : qat) (p c : Z) : Prop := {
  co_order : 1 <= next_recv_req_id_ e <= p ∧ p <= next_req_id_ e;
  co_slots : ∃ j, 0 <= j ∧ slot_num_ e = 2 ^ j;
  co_num : in_qat_num_ e = next_req_id_ e - next_recv_req_id_ e + c ∧ 0 <= c ∧ in_qat_num_ e <= max_in_qat_size_ e <= slot_num_ e;
  co_all : ∀ k, 0 <= k < slot_num_ e → is_Some (metas e !! k);
  co_live : ∀ id, p <= id < next_req_id_ e → ∃ m, metas e !! slot e id = Some m ∧ rm_req_id m = id ∧ rm_valid m = true;
  co_valid : ∀ k m, metas e !! k = Some m → rm_valid m = true → p <= rm_req_id m < next_req_id_ e ∧ k = slot e (rm_req_id m) }.
Definition timers_from (e : qat) (p : Z) : Prop := ts_ok (q_timers e) (timer_at e <$> live e p).
Definition device_from (e : qat) : Prop := qd_ok (q_dev e) (seqZ (next_recv_req_id_ e) (next_req_id_ e - next_recv_req_id_ e)).
Definition qat_ok (e : qat) (p : Z) : Prop := core e p 0 ∧ timers_from e p ∧ (is_fatal_ e = false → device_from e).

Lemma slot_mod e j id : 0 <= j → slot_num_ e = 2 ^ j → slot e id = id mod 2 ^ j.
Proof. intros Hj E. unfold slot. rewrite E. replace (2 ^ j - 1) with (Z.ones j) by (rewrite Z.ones_equiv; lia). by apply Z.land_ones. Qed.
Lemma slot_range e p c id : core e p c → 0 <= slot e id < slot_num_ e.
Proof. intros Hc. destruct (co_slots _ _ _ Hc) as (j & Hj & E). rewrite (slot_mod e j id Hj E), E. apply Z.mod_pos_bound. lia. Qed.
Lemma qslot_inj e p c a b : core e p c → slot e a = slot e b → - slot_num_ e < a - b < slot_num_ e → a = b.
Proof.
  intros Hc. destruct (co_slots _ _ _ Hc) as (j & Hj & E). rewrite !(slot_mod e j _ Hj E), E. intros Hm Hab. assert (0 < 2 ^ j) by lia.
  pose proof (Z.div_mod a (2 ^ j) ltac:(lia)) as Ea. pose proof (Z.div_mod b (2 ^ j) ltac:(lia)) as Eb. rewrite Hm in Ea. assert (a - b = 2 ^ j * (a / 2 ^ j - b / 2 ^ j)) by lia.
  assert (a / 2 ^ j - b / 2 ^ j = 0) by nia. lia.
Qed.
Lemma wp_get_meta k m (e : qat) (Q : RequestMeta → qat → Prop) : metas e !! k = Some m → Q m e → wp (get_meta k) Q e.
Proof. intros Hk HQ. unfold get_meta. do 2 wp_step. by eapply wp_need. Qed.
Lemma wp_set_meta k m f (e : qat) (Q : unit → qat → Prop) : metas e !! k = Some m → Q () (e <| metas ::= <[k := f m]> |>) → wp (set_meta k f) Q e.
Proof.
  intros Hk HQ. unfold set_meta. wp_step. eapply wp_get_meta; [done|]. wp_step.
  assert (alter f k (metas e) = <[k := f m]> (metas e)) as E by (rewrite <- (insert_id (metas e) k m Hk) at 1; by rewrite alter_insert_eq). cbn. by rewrite E.
Qed.
(** The first request without a result gets one. *)
Definition answered (e : qat) (p : Z) (r : CodecResult) (m : RequestMeta) : qat :=
  e <| metas ::= <[slot e p := m <| rm_valid := false |>]> |> <| codec_results_ ::= λ l, l ++ [r] |>.
Lemma live_cons e p : p < next_req_id_ e → live e p = p :: live e (p + 1).
Proof. intros Hp. unfold live. rewrite seqZ_cons by lia. f_equal. f_equal; lia. Qed.
Lemma answered_ok e p c r m : core e p c → p < next_req_id_ e → metas e !! slot e p = Some m → cr_ctx r = rm_user_ctx m →
  core (answered e p r m) (p + 1) c ∧ pending (answered e p r m) (p + 1) = pending e p ∧
  (timer_at (answered e p r m) <$> live e (p + 1)) = (timer_at e <$> live e (p + 1)).
Proof.
  intros Hc Hp Hm Hr. pose proof Hc as [C1 C2 C3 C4 C5 C6].
  assert (∀ id, p + 1 <= id < next_req_id_ e → slot e id ≠ slot e p) as Hne.
  { intros id Hid E. apply (qslot_inj e p c id p Hc) in E; [lia|]. lia. }
  assert (∀ id, p + 1 <= id < next_req_id_ e → metas (answered e p r m) !! slot e id = metas e !! slot e id) as Hlk.
  { intros id Hid. unfold answered. cbn. apply lookup_insert_ne. by apply not_eq_sym, Hne. }
  split; [|split].
  - split; try done; [cbn; lia| | |].
    + intros k Hk. cbn. rewrite lookup_insert_is_Some'. right. by apply C4.
    + intros id Hid. cbn in Hid. destruct (C5 id) as (m' & H1 & H2 & H3); [lia|]. exists m'. rewrite <- H1. split_and!; [by apply Hlk|done|done].
    + intros k m' Hk Hv. cbn in Hk. apply lookup_insert_Some in Hk as [[<- <-] | [Hk0 Hk]]; [done|]. destruct (C6 k m' Hk Hv) as [H1 H2]. split; [|done].
      cbn. destruct (decide (rm_req_id m' = p)) as [E|]; [|lia]. rewrite E in H2. congruence.
  - unfold pending. rewrite (live_cons e p Hp). unfold answered at 1. cbn [codec_results_ upd]. rewrite fmap_app, <- app_assoc. f_equal. cbn. f_equal.
    + rewrite Hr. unfold ctx_at. by rewrite Hm.
    + change (live (answered e p r m) (p + 1)) with (live e (p + 1)). apply list_fmap_ext. intros j id Hid%list_elem_of_lookup_2. unfold live in Hid. apply elem_of_seqZ in Hid.
      unfold ctx_at. change (slot (answered e p r m) id) with (slot e id). rewrite Hlk by lia. done.
  - apply list_fmap_ext. intros j id Hid%list_elem_of_lookup_2. unfold live in Hid. apply elem_of_seqZ in Hid.
    unfold timer_at. change (slot (answered e p r m) id) with (slot e id). rewrite Hlk by lia. done.
Qed.
(** Only the requests and the results change. *)
Definition same_rest (e e' : qat) : Prop := ∃ ms rs, e' = e <| metas := ms |> <| codec_results_ := rs |>.
Lemma intercept_ok e p c code : core e p c → p < next_req_id_ e →
  wp (InterceptInflightReq (slot e p) code) (λ _ e', core e' (p + 1) c ∧ pending e' (p + 1) = pending e p ∧ same_rest e e' ∧
    (timer_at e' <$> live e (p + 1)) = (timer_at e <$> live e (p + 1))) e.
Proof.
  intros Hc Hp. destruct (co_live _ _ _ Hc p) as (m & Hm & Hid & Hv); [pose proof (co_order _ _ _ Hc); lia|]. unfold InterceptInflightReq. wp_step. eapply wp_get_meta; [done|].
  do 2 wp_step. rewrite Hid. wp_step. eapply wp_get_meta; [done|]. rewrite Hv. cbn [when]. wp_step. eapply wp_set_meta; [done|]. unfold push_result. wp_step.
  destruct (answered_ok e p c (failed_result (rm_user_ctx m) code) m Hc Hp Hm eq_refl) as (A1 & A2 & A3). split_and!; [exact A1|exact A2|by eexists _, _|exact A3].
Qed.
Lemma same_rest_trans e e1 e2 : same_rest e e1 → same_rest e1 e2 → same_rest e e2.
Proof. intros (m1 & r1 & ->) (m2 & r2 & ->). by exists m2, r2. Qed.
Lemma live_of_rest e e' p : same_rest e e' → live e' p = live e p.
Proof. by intros (? & ? & ->). Qed.
Lemma intercept_all_ok n : ∀ e p c code, core e p c → p + Z.of_nat n <= next_req_id_ e →
  wp (intercept_all (slot e <$> seqZ p (Z.of_nat n)) code) (λ _ e', core e' (p + Z.of_nat n) c ∧ pending e' (p + Z.of_nat n) = pending e p ∧ same_rest e e' ∧
    (timer_at e' <$> live e (p + Z.of_nat n)) = (timer_at e <$> live e (p + Z.of_nat n))) e.
Proof.
  induction n as [|n IH]; intros e p c code Hc Hn.
  { rewrite seqZ_nil by lia. cbn [fmap list_fmap intercept_all]. wp_step. change (Z.of_nat 0) with 0. rewrite Z.add_0_r. split_and!; [done|done|by exists (metas e), (codec_results_ e); destruct e|done]. }
  rewrite seqZ_cons by lia. rewrite fmap_cons. cbn [intercept_all]. wp_step. eapply wp_mono; [apply intercept_ok; [exact Hc|lia]|]. cbv beta. intros _ e1 (C1 & P1 & R1 & T1).
  assert (∀ id, slot e id = slot e1 id) as Hs by (destruct R1 as (? & ? & ->); done). assert (next_req_id_ e1 = next_req_id_ e) as Hr by (destruct R1 as (? & ? & ->); done).
  replace (Z.succ p) with (p + 1) by lia. replace (Z.pred (Z.of_nat (S n))) with (Z.of_nat n) by lia. rewrite (list_fmap_ext (slot e) (slot e1) (seqZ (p + 1) (Z.of_nat n)) (λ _ id _, Hs id)).
  eapply wp_mono; [apply (IH e1 (p + 1) c); [done|lia]|]. cbv beta. intros _ e2 (C2 & P2 & R2 & T2). replace (p + Z.of_nat (S n)) with (p + 1 + Z.of_nat n) by lia.
  split_and!; [done|congruence|by eapply same_rest_trans|]. rewrite (live_of_rest e e1) in T2 by done. rewrite T2.
  apply (f_equal (drop n)) in T1. rewrite <- !fmap_drop in T1. assert (drop n (live e (p + 1)) = live e (p + 1 + Z.of_nat n)) as Ed; [|by rewrite Ed in T1].
  unfold live. apply list_eq. intros j. rewrite lookup_drop. destruct (decide (Z.of_nat j < next_req_id_ e - (p + 1 + Z.of_nat n))).
  + rewrite !lookup_seqZ_lt by lia. f_equal. lia.
  + rewrite !lookup_seqZ_ge by lia. done.
Qed.

(** ** Callbacks *)

Lemma wp_on_dev {A} (m : ST H A) P (Q : A → qat → Prop) e : wp m P (q_dev e) → (∀ a h, P a h → Q a (e <| q_dev := h |>)) → wp (on_dev m) Q e.
Proof. unfold wp, on_dev. destruct (m (q_dev e)) as [[a h]|]; [|done]. eauto. Qed.
Lemma wp_on_qtimers {A} (m : ST Tm A) P (Q : A → qat → Prop) e : wp m P (q_timers e) → (∀ a t, P a t → Q a (e <| q_timers := t |>)) → wp (on_qtimers m) Q e.
Proof. unfold wp, on_qtimers. destruct (m (q_timers e)) as [[a t]|]; [|done]. eauto. Qed.
(** What callbacks and timers leave alone. *)
Definition keeps (e e' : qat) : Prop :=
  q_dev e' = q_dev e ∧ next_req_id_ e' = next_req_id_ e ∧ in_qat_num_ e' = in_qat_num_ e ∧ is_fatal_ e' = is_fatal_ e ∧ slot_num_ e' = slot_num_ e ∧
  max_in_qat_size_ e' = max_in_qat_size_ e ∧ ha_enabled e' = ha_enabled e ∧ ha_window e' = ha_window e.
Lemma keeps_trans e e1 e2 : keeps e e1 → keeps e1 e2 → keeps e e2.
Proof. unfold keeps. intuition congruence. Qed.
Lemma same_keeps e e' : same_rest e e' → keeps e e'.
Proof. by intros (? & ? & ->). Qed.
(** The counters of a callback. *)
Definition counted_cb (e : qat) : qat := e <| callback_called_times_ ::= Z.add 1 |> <| next_recv_req_id_ ::= Z.add 1 |>.
Lemma core_counted e p c t : core e p c → next_recv_req_id_ e < p → core (counted_cb (e <| q_timers := t |>)) p (c + 1).
Proof. intros [C1 C2 C3 C4 C5 C6] Hlt. split; try done; cbn; lia. Qed.
Definition answer_result (m : RequestMeta) (a : Answer) : CodecResult :=
  if bool_decide (an_status a = CPA_STATUS_SUCCESS) && bool_decide (an_req_status a = CPA_DC_OK) then success_result m a
  else failed_result (rm_user_ctx m) (CpaStatusToCode (an_status a) (an_req_status a)).
Lemma callback_ok e p c a : core e p c → timers_from e p → an_req_id a = next_recv_req_id_ e → next_recv_req_id_ e < next_req_id_ e →
  wp (Callback a) (λ _ e', ∃ p', core e' p' (c + 1) ∧ timers_from e' p' ∧ pending e' p' = pending e p ∧ next_recv_req_id_ e' = next_recv_req_id_ e + 1 ∧
    callback_called_times_ e' = callback_called_times_ e + 1 ∧ keeps e e') e.
Proof.
  intros Hc Ht Hid Hlt. pose proof (co_order _ _ _ Hc) as Ho. destruct (co_all _ _ _ Hc (slot e (an_req_id a))) as [m Hm]; [by eapply slot_range|].
  unfold Callback. do 5 wp_step. eapply wp_get_meta; [exact Hm|]. do 2 wp_step. destruct (decide (next_recv_req_id_ e = p)) as [E|Hne].
  - rewrite Hid, E in Hm. assert (p < next_req_id_ e) as Hp by lia. destruct (co_live _ _ _ Hc p) as (m' & Hm' & Hm2 & Hv); [lia|]. rewrite Hm in Hm'. injection Hm' as <-. rewrite Hv. cbn [when].
    destruct (answered_ok e p c (answer_result m a) m Hc Hp Hm) as (A1 & A2 & A3); [unfold answer_result; by destruct (_ && _)|].
    assert (∀ Q : unit → qat → Prop, Q () (counted_cb e <| codec_results_ ::= λ l, l ++ [answer_result m a] |>) →
      wp (if bool_decide (an_status a = CPA_STATUS_SUCCESS) && bool_decide (an_req_status a = CPA_DC_OK) then push_result (success_result m a)
          else push_result (failed_result (rm_user_ctx m) (CpaStatusToCode (an_status a) (an_req_status a)))) Q (counted_cb e)) as Hpush.
    { intros Q HQ. unfold answer_result in HQ. unfold push_result. destruct (_ && _); by wp_step. }
    wp_step. apply Hpush. unfold CleanUpReqData. rewrite Hid, E. wp_step. eapply wp_get_meta; [exact Hm|]. rewrite Hv. cbn [when]. wp_step. eapply wp_set_meta; [exact Hm|].
    unfold timers_from in Ht. rewrite (live_cons e p Hp) in Ht. cbn [fmap list_fmap] in Ht. eapply wp_on_qtimers.
    { replace (rm_timer_ctx m) with (tv_ctx (timer_at e p)) by (unfold timer_at; by rewrite Hm). exact (ts_remove_law _ [] _ _ Ht). }
    cbv beta. intros _ t Ht'. cbn [app] in Ht'. exists (p + 1). pose proof (core_counted _ _ _ t A1) as A4. cbn in A4. specialize (A4 ltac:(lia)).
    split; [exact A4|]. split; [unfold timers_from; change (ts_ok t (timer_at (answered e p (answer_result m a) m) <$> live e (p + 1))); by rewrite A3|].
    split; [exact A2|]. cbn. split_and!; [lia|lia|done].
  - assert (rm_valid m = false) as Hv.
    { destruct (rm_valid m) eqn:Hv; [|done]. destruct (co_valid _ _ _ Hc _ _ Hm Hv) as [Hr Hk]. apply (qslot_inj e p c) in Hk; [lia|done|]. pose proof (co_num _ _ _ Hc). lia. }
    rewrite Hv. cbn [when]. wp_step. exists p. pose proof (core_counted e p c (q_timers e) Hc ltac:(lia)) as A. destruct e. split; [exact A|]. split; [exact Ht|]. split; [done|]. cbn. split_and!; [lia|lia|done].
Qed.
Lemma callbacks_ok ans : ∀ e p c, core e p c → timers_from e p → an_req_id <$> ans = seqZ (next_recv_req_id_ e) (Z.of_nat (length ans)) →
  next_recv_req_id_ e + Z.of_nat (length ans) <= next_req_id_ e →
  wp (callbacks ans) (λ _ e', ∃ p', core e' p' (c + Z.of_nat (length ans)) ∧ timers_from e' p' ∧ pending e' p' = pending e p ∧
    next_recv_req_id_ e' = next_recv_req_id_ e + Z.of_nat (length ans) ∧ callback_called_times_ e' = callback_called_times_ e + Z.of_nat (length ans) ∧ keeps e e') e.
Proof.
  induction ans as [|a ans IH]; intros e p c Hc Ht Hids Hle.
  { cbn [callbacks length]. wp_step. exists p. change (Z.of_nat 0) with 0. rewrite !Z.add_0_r. split_and!; try done. }
  cbn [length] in *. rewrite seqZ_cons in Hids by lia. injection Hids as Ha Hids. cbn [callbacks]. wp_step.
  eapply wp_mono; [apply callback_ok; [exact Hc|exact Ht|done|lia]|]. cbv beta. intros _ e1 (p1 & C1 & T1 & P1 & R1 & B1 & K1).
  replace (Z.pred (Z.of_nat (S (length ans)))) with (Z.of_nat (length ans)) in Hids by lia. replace (Z.succ (next_recv_req_id_ e)) with (next_recv_req_id_ e1) in Hids by lia.
  eapply wp_mono; [apply (IH e1 p1 (c + 1) C1 T1 Hids)|]. { destruct K1 as (_ & E & _). rewrite E. lia. }
  cbv beta. intros _ e2 (p2 & C2 & T2 & P2 & R2 & B2 & K2). exists p2. replace (c + Z.of_nat (S (length ans))) with (c + 1 + Z.of_nat (length ans)) by lia.
  split_and!; [done|done|congruence|lia|lia|by eapply keeps_trans].
Qed.

(** ** Timeouts *)

Lemma live_split e p l1 l2 : p <= next_req_id_ e → timer_at e <$> live e p = l1 ++ l2 →
  let n := Z.of_nat (length l1) in p + n <= next_req_id_ e ∧ tv_arg <$> l1 = slot e <$> seqZ p n ∧ l2 = timer_at e <$> live e (p + n).
Proof.
  intros Hp E n. assert (length l1 ≤ length (live e p))%nat as Hl by (apply (f_equal length) in E; rewrite length_fmap, length_app in E; lia).
  unfold live in *. rewrite length_seqZ in Hl. replace (next_req_id_ e - p) with (n + (next_req_id_ e - (p + n))) in E by lia.
  rewrite seqZ_app, fmap_app in E by lia. assert (length (timer_at e <$> seqZ p n) = length l1) as El by (rewrite length_fmap, length_seqZ; lia).
  apply app_inj_1 in E as [E1 E2]; [|done]. split; [lia|]. split; [|done]. rewrite <- E1, <- list_fmap_compose. by apply list_fmap_ext.
Qed.
Lemma timeouts_ok e p c now : core e p c → timers_from e p →
  wp (ks ← on_qtimers (ts_handle now); intercept_all ks kTimeout) (λ _ e', ∃ p', core e' p' c ∧ timers_from e' p' ∧ pending e' p' = pending e p ∧
    next_recv_req_id_ e' = next_recv_req_id_ e ∧ callback_called_times_ e' = callback_called_times_ e ∧ keeps e e') e.
Proof.
  intros Hc Ht. wp_step. eapply wp_on_qtimers; [exact (ts_handle_law _ _ now Ht)|]. cbv beta. intros ks t (l1 & l2 & E & -> & Ht').
  destruct (live_split e p l1 l2) as (Hn & -> & ->); [apply (co_order _ _ _ Hc)|done|]. set (n := Z.of_nat (length l1)) in *. set (e1 := e <| q_timers := t |>).
  assert (core e1 p c) as Hc1 by (destruct Hc; by split). change (slot e) with (slot e1). unfold n in *.
  eapply wp_mono; [apply intercept_all_ok; [exact Hc1|done]|]. cbv beta. intros _ e2 (C2 & P2 & R2 & T2). exists (p + Z.of_nat (length l1)).
  split; [done|]. split; [|split; [exact P2|]].
  - unfold timers_from. rewrite (live_of_rest e1 e2) by done. rewrite T2. destruct R2 as (ms & rs & ->). exact Ht'.
  - destruct R2 as (ms & rs & ->). done.
Qed.

(** ** Falling back *)

Lemma do_ha_ok e p : qat_ok e p → is_fatal_ e = false →
  wp DoHa (λ n e', core e' (next_req_id_ e) 0 ∧ timers_from e' (next_req_id_ e) ∧ pending e' (next_req_id_ e) = pending e p ∧ next_req_id_ e' = next_req_id_ e ∧
    slot_num_ e' = slot_num_ e ∧ is_fatal_ e' = false ∧ (0 <= n → device_from e') ∧ ha_enabled e' = ha_enabled e) e.
Proof.
  intros (Hc & Ht & Hd) Hf. pose proof (co_order _ _ _ Hc) as Ho. unfold DoHa, ClearRetiredQat, DropInflightReqsAndGenDummyResults. do 7 wp_step. set (e1 := e <| codec_results_ ::= ModifyAll kDropped |>).
  assert (core e1 p 0) as Hc1 by (destruct Hc; by split). assert (pending e1 p = pending e p) as Hp1.
  { unfold pending, e1. cbn [codec_results_ upd]. f_equal. unfold ModifyAll. rewrite <- list_fmap_compose. by apply list_fmap_ext. }
  eapply wp_on_qtimers; [exact (ts_clear_law _ _ Ht)|]. cbv beta. intros ks t [-> Ht'].
  assert (tv_arg <$> (timer_at e <$> live e p) = slot e <$> seqZ p (Z.of_nat (Z.to_nat (next_req_id_ e - p)))) as ->.
  { rewrite <- list_fmap_compose, Z2Nat.id by lia. by apply list_fmap_ext. }
  set (e2 := e1 <| q_timers := t |>). change (slot e) with (slot e2). wp_step. eapply wp_mono; [apply (intercept_all_ok _ e2 p 0); [destruct Hc1; by split|cbn; lia]|].
  cbv beta. intros _ e3 (C3 & P3 & R3 & _). rewrite Z2Nat.id in C3, P3 by lia. replace (p + (next_req_id_ e - p)) with (next_req_id_ e) in C3, P3 by lia.
  do 4 wp_step. destruct R3 as (ms & rs & ->). pose proof C3 as [D1 D2 D3 D4 D5 D6].
  match goal with |- wp _ _ ?s => set (e4 := s) end. assert (core e4 (next_req_id_ e) 0) as C4 by (split; try done; cbn; cbn in D1, D3; lia).
  wp_step. eapply wp_on_dev; [exact (qd_reinit_law _ _ (Hd Hf))|]. cbv beta. intros st h Hst. wp_step.
  split; [destruct C4; by split|]. split; [unfold timers_from, live; cbn; rewrite Z.sub_diag; exact Ht'|]. split; [exact (eq_trans P3 Hp1)|].
  split; [done|]. split; [done|]. split; [done|]. split; [|done]. intros Hn. case_bool_decide as Hk; [|lia]. unfold device_from. cbn. rewrite Z.sub_diag. by apply Hst.
Qed.

(** Whatever an error leads to, the pending requests stay the same. *)
Definition carries_on (e : qat) (p : Z) (e' : qat) : Prop :=
  ∃ p', qat_ok e' p' ∧ pending e' p' = pending e p ∧ p <= p' ∧ next_req_id_ e' = next_req_id_ e ∧ slot_num_ e' = slot_num_ e.
Lemma carries_refl e p : qat_ok e p → carries_on e p e.
Proof. intros Hok. exists p. split_and!; done || lia. Qed.
Lemma HandleHa_ok e p now err : qat_ok e p → is_fatal_ e = false → wp (HandleHa now err) (λ _ e', carries_on e p e') e.
Proof.
  intros Hok Hf. unfold HandleHa. do 2 wp_step. destruct (ShouldFallback to_us trigger now err (ha_window e)) as [fall w]. do 2 wp_step. set (e1 := e <| ha_window := w |>).
  assert (qat_ok e1 p) as Hok1 by (destruct Hok as ([C1 C2 C3 C4 C5 C6] & Ht & Hd); split; [by split|by split]).
  destruct fall; cbn [negb]; [|wp_step; by apply (carries_refl e1)]. wp_step. eapply wp_mono; [by apply (do_ha_ok e1 p)|]. cbv beta.
  intros n e2 (C2 & T2 & P2 & N2 & S2 & F2 & D2 & _). pose proof (co_order _ _ _ (proj1 Hok)) as Ho. destruct (Z.ltb_spec n 0).
  - do 3 wp_step. exists (next_req_id_ e). split; [|cbn; split_and!; [exact P2|lia|done|done]]. split; [destruct C2; by split|]. split; [exact T2|done].
  - wp_step. exists (next_req_id_ e). split; [|split_and!; [exact P2|lia|done|done]]. split; [exact C2|]. split; [exact T2|]. intros _. by apply D2.
Qed.

(** ** Submission *)

Lemma free_slot e p c m : core e p c → next_req_id_ e - p < slot_num_ e → metas e !! slot e (next_req_id_ e) = Some m → rm_valid m = false.
Proof.
  intros Hc Hlt Hm. destruct (rm_valid m) eqn:Hv; [|done]. destruct (co_valid _ _ _ Hc _ _ Hm Hv) as [Hr Hk]. apply (qslot_inj e p c) in Hk; [lia|done|lia].
Qed.
Lemma cleanup_free e k m : metas e !! k = Some m → rm_valid m = false → wp (CleanUpReqData k) (λ _ e', e' = e) e.
Proof. intros Hk Hv. unfold CleanUpReqData. wp_step. eapply wp_get_meta; [done|]. rewrite Hv. cbn [when]. by wp_step. Qed.
(** A slot that is not in use can be written. *)
Lemma write_free e p c m m' : core e p c → next_req_id_ e - p < slot_num_ e → metas e !! slot e (next_req_id_ e) = Some m → rm_valid m' = false →
  let e' := e <| metas ::= <[slot e (next_req_id_ e) := m']> |> in
  core e' p c ∧ pending e' p = pending e p ∧ (timer_at e' <$> live e p) = (timer_at e <$> live e p).
Proof.
  intros Hc Hlt Hm Hv e'. pose proof Hc as [C1 C2 C3 C4 C5 C6].
  assert (∀ id, p <= id < next_req_id_ e → metas e' !! slot e id = metas e !! slot e id) as Hlk.
  { intros id Hid. cbn. apply lookup_insert_ne. intros E. apply (qslot_inj e p c) in E; [lia|done|lia]. }
  split; [split; try done|split].
  - intros k Hk. cbn. rewrite lookup_insert_is_Some'. right. by apply C4.
  - intros id Hid. destruct (C5 id Hid) as (m0 & H1 & H2). exists m0. split; [|done]. rewrite <- H1. by apply Hlk.
  - intros k m0 Hk Hv0. cbn in Hk. apply lookup_insert_Some in Hk as [[<- <-] | [_ Hk]]; [congruence|]. by apply C6.
  - unfold pending. f_equal. apply list_fmap_ext. intros j id Hid%list_elem_of_lookup_2. unfold live in Hid. apply elem_of_seqZ in Hid. cbn in Hid.
    unfold ctx_at. change (slot e' id) with (slot e id). rewrite Hlk by lia. done.
  - apply list_fmap_ext. intros j id Hid%list_elem_of_lookup_2. unfold live in Hid. apply elem_of_seqZ in Hid. unfold timer_at. change (slot e' id) with (slot e id). rewrite Hlk by lia. done.
Qed.
(** The slot of the next request is being filled. *)
Definition prepared (e : qat) (p ctx : Z) (e' : qat) : Prop :=
  qat_ok e' p ∧ pending e' p = pending e p ∧
  (∃ m, metas e' !! slot e (next_req_id_ e) = Some m ∧ rm_req_id m = next_req_id_ e ∧ rm_user_ctx m = ctx ∧ rm_valid m = false) ∧
  keeps (e <| q_dev := q_dev e' |>) e' ∧ next_recv_req_id_ e' = next_recv_req_id_ e ∧ q_timers e' = q_timers e.
Lemma write_keeps_ok e p m m' : qat_ok e p → in_qat_num_ e < max_in_qat_size_ e → metas e !! slot e (next_req_id_ e) = Some m → rm_valid m' = false →
  let e' := e <| metas ::= <[slot e (next_req_id_ e) := m']> |> in qat_ok e' p ∧ pending e' p = pending e p.
Proof.
  intros (Hc & Ht & Hd) Hroom Hm Hv e'. assert (next_req_id_ e - p < slot_num_ e) as Hlt by (pose proof (co_num _ _ _ Hc); pose proof (co_order _ _ _ Hc); lia).
  destruct (write_free e p 0 m m' Hc Hlt Hm Hv) as (C1 & P1 & T1). split; [|exact P1]. split; [exact C1|]. split; [|exact Hd].
  unfold timers_from. change (ts_ok (q_timers e) (timer_at (e <| metas ::= <[slot e (next_req_id_ e) := m']> |>) <$> live e p)). by rewrite T1.
Qed.
Lemma prepared_write e p ctx e' m f : in_qat_num_ e < max_in_qat_size_ e → prepared e p ctx e' → metas e' !! slot e (next_req_id_ e) = Some m →
  (∀ m, rm_req_id (f m) = rm_req_id m ∧ rm_user_ctx (f m) = rm_user_ctx m ∧ rm_valid (f m) = rm_valid m) →
  prepared e p ctx (e' <| metas ::= <[slot e (next_req_id_ e) := f m]> |>).
Proof.
  intros Hroom (Hok & P & (m0 & Hm0 & H1 & H2 & H3) & K & R & T) Hm Hf. rewrite Hm in Hm0. injection Hm0 as <-. pose proof K as (_ & N & Q & _ & S & M & _). cbn in N, Q, S, M.
  destruct (Hf m) as (F1 & F2 & F3). assert (slot e' (next_req_id_ e') = slot e (next_req_id_ e)) as Es by (unfold slot; congruence).
  destruct (write_keeps_ok e' p m (f m)) as [Hok' P']; [done|lia|by rewrite Es|congruence|]. rewrite Es in Hok', P'.
  split; [done|]. split; [congruence|]. split; [exists (f m); split; [cbn; apply lookup_insert_eq|split_and!; congruence]|]. by split_and!.
Qed.
Lemma prepared_dev e p ctx e' h : prepared e p ctx e' → (is_fatal_ e' = false → qd_ok h (seqZ (next_recv_req_id_ e') (next_req_id_ e' - next_recv_req_id_ e'))) → prepared e p ctx (e' <| q_dev := h |>).
Proof. intros ((C & T0 & _) & P & Hm & K & R & T) Hh. split; [split; [destruct C; by split|by split]|]. split; [exact P|]. split; [exact Hm|]. destruct K as [_ K]. by split_and!. Qed.
Lemma prepare_ok e p comp algo level ctx : qat_ok e p → is_fatal_ e = false → in_qat_num_ e < max_in_qat_size_ e →
  wp (PrepareCommonReqData comp algo level ctx) (λ '(r, k) e', k = slot e (next_req_id_ e) ∧ prepared e p ctx e') e.
Proof.
  intros Hok Hf Hroom. pose proof Hok as (Hc & _ & _). destruct (co_all _ _ _ Hc (slot e (next_req_id_ e))) as [m Hm]; [by eapply slot_range|].
  assert (next_req_id_ e - p < slot_num_ e) as Hlt by (pose proof (co_num _ _ _ Hc); pose proof (co_order _ _ _ Hc); lia). pose proof (free_slot e p 0 m Hc Hlt Hm) as Hv.
  unfold PrepareCommonReqData. do 3 wp_step. eapply wp_set_meta; [exact Hm|]. set (m1 := m <| rm_req_id := next_req_id_ e |> <| rm_user_ctx := ctx |> <| rm_comp := comp |>).
  match goal with |- wp _ _ ?s => set (e1 := s) end. assert (prepared e p ctx e1) as H1.
  { destruct (write_keeps_ok e p m m1 Hok Hroom Hm Hv) as [A B]. split; [exact A|]. split; [exact B|]. split; [exists m1; split; [cbn; apply lookup_insert_eq|by split_and!]|by split_and!]. }
  pose proof (proj2 (proj2 (proj1 H1)) Hf) as Hd1. wp_step. eapply wp_on_dev; [exact (qd_buffers_law _ _ Hd1)|]. cbv beta. intros got h1 Hh1. pose proof (prepared_dev _ _ _ _ h1 H1 (λ _, Hh1)) as H2.
  destruct got; cbn [negb]; [|wp_step; by split]. destruct (sizes algo) as [hs fs]. wp_step. eapply wp_set_meta; [cbn; apply lookup_insert_eq|].
  eapply (prepared_write _ _ _ _ _ (λ m, m <| header_size := hs |> <| footer_size := fs |> <| codec_algo := algo |> <| rm_level := level |>)) in H2; [|done|cbn; apply lookup_insert_eq|done].
  wp_step. eapply wp_on_dev; [exact (qd_fill_law _ _ comp hs fs (proj2 (proj2 (proj1 H2)) Hf))|]. cbv beta. intros ok h2 Hh2. wp_step. split; [done|]. by apply prepared_dev.
Qed.

(** The request is in the device and gets its number, its timer and its place. *)
Lemma tag_ok e p m now ctx : core e p 0 → timers_from e p → in_qat_num_ e < max_in_qat_size_ e → ts_room (q_timers e) →
  metas e !! slot e (next_req_id_ e) = Some m → rm_req_id m = next_req_id_ e → rm_user_ctx m = ctx →
  qd_ok (q_dev e) (seqZ (next_recv_req_id_ e) (next_req_id_ e - next_recv_req_id_ e) ++ [next_req_id_ e]) →
  wp (TagInFlight now (slot e (next_req_id_ e))) (λ _ e', qat_ok e' p ∧ pending e' p = pending e p ++ [ctx])
    (e <| in_qat_num_ ::= Z.add 1 |> <| next_req_id_ ::= Z.add 1 |>).
Proof.
  intros Hc Ht Hroom Hts Hm Hid Hctx Hdev. pose proof Hc as [C1 C2 C3 C4 C5 C6]. set (k := slot e (next_req_id_ e)) in *. unfold TagInFlight. wp_step.
  eapply wp_on_qtimers; [exact (ts_add_law _ _ now k Ht Hts)|]. cbv beta. intros t t' Ht'. eapply wp_set_meta; [exact Hm|].
  match goal with |- qat_ok ?s _ ∧ _ => set (e' := s) end. set (m' := m <| rm_timer_ctx := t |> <| rm_valid := true |>).
  assert (metas e' !! k = Some m') as Hk by (cbn; apply lookup_insert_eq).
  assert (∀ id, p <= id < next_req_id_ e → metas e' !! slot e id = metas e !! slot e id) as Hlk.
  { intros id Hlt. cbn. apply lookup_insert_ne. unfold k. intros E. apply (qslot_inj e p 0) in E; [lia|done|lia]. }
  assert (live e' p = live e p ++ [next_req_id_ e]) as El.
  { unfold live. cbn. replace (1 + next_req_id_ e - p) with (next_req_id_ e - p + 1) by lia. rewrite seqZ_app by lia. f_equal. replace (p + (next_req_id_ e - p)) with (next_req_id_ e) by lia. done. }
  split; [split; [split|split]|].
  - cbn. lia.
  - done.
  - cbn. lia.
  - intros j Hj. cbn. rewrite lookup_insert_is_Some'. right. by apply C4.
  - intros id Hlt. cbn in Hlt. change (slot e' id) with (slot e id). destruct (decide (id = next_req_id_ e)) as [->|Hne]; [by exists m'|].
    rewrite Hlk by lia. apply C5. lia.
  - intros j m0 Hj Hv. change (slot e' (rm_req_id m0)) with (slot e (rm_req_id m0)). cbn in Hj. apply lookup_insert_Some in Hj as [[<- <-] | [_ Hj]]; [cbn; rewrite Hid; split; [lia|done]|].
    destruct (C6 j m0 Hj Hv). cbn. split; [lia|done].
  - unfold timers_from. rewrite El, fmap_app. assert ((timer_at e' <$> live e p) = (timer_at e <$> live e p)) as ->.
    { apply list_fmap_ext. intros j id Hj%list_elem_of_lookup_2. unfold live in Hj. apply elem_of_seqZ in Hj. unfold timer_at. change (slot e' id) with (slot e id). rewrite Hlk by lia. done. }
    assert (timer_at e' <$> [next_req_id_ e] = [MkTV t k]) as ->; [|exact Ht'].
    cbn. unfold timer_at. change (slot e' (next_req_id_ e)) with k. by rewrite Hk.
  - intros _. unfold device_from. cbn. replace (1 + next_req_id_ e - next_recv_req_id_ e) with (next_req_id_ e - next_recv_req_id_ e + 1) by lia. rewrite seqZ_app by lia.
    replace (next_recv_req_id_ e + (next_req_id_ e - next_recv_req_id_ e)) with (next_req_id_ e) by lia. exact Hdev.
  - unfold pending. rewrite El, fmap_app, app_assoc. f_equal.
    + f_equal. apply list_fmap_ext. intros j id Hj%list_elem_of_lookup_2. unfold live in Hj. apply elem_of_seqZ in Hj. unfold ctx_at. change (slot e' id) with (slot e id). rewrite Hlk by lia. done.
    + cbn. unfold ctx_at. change (slot e' (next_req_id_ e)) with k. by rewrite Hk, <- Hctx.
Qed.
Lemma Submit_ok e p now comp algo level ctx : qat_ok e p → ts_room (q_timers e) →
  wp (SubmitAsyncRequest now comp algo level ctx) (λ st e', ∃ p', qat_ok e' p' ∧ pending e' p' = pending e p ++ (if decide (st = kOk) then [ctx] else [])) e.
Proof.
  intros Hok Hts. assert (∀ st e', st ≠ kOk → carries_on e p e' → ∃ p', qat_ok e' p' ∧ pending e' p' = pending e p ++ (if decide (st = kOk) then [ctx] else [])) as Hfail.
  { intros st e' Hst (p' & H1 & H2 & _). exists p'. rewrite decide_False by done. by rewrite app_nil_r. }
  unfold SubmitAsyncRequest. destruct (supported algo level); cbn [negb]; [|wp_step; apply Hfail; [done|by apply carries_refl]].
  do 2 wp_step. destruct (is_fatal_ e) eqn:Hf; [wp_step; apply Hfail; [done|by apply carries_refl]|].
  destruct (Z.leb_spec (max_in_qat_size_ e) (in_qat_num_ e)) as [|Hroom]; [wp_step; apply Hfail; [done|by apply carries_refl]|].
  wp_step. eapply wp_mono; [by apply prepare_ok|]. cbv beta. intros [r k] e1 (-> & Hok1 & P1 & (m & Hm & Hid & Hctx & Hv) & K1 & R1 & T1).
  assert (carries_on e p e1) as Hcar by (destruct K1 as (_ & ? & _ & _ & ? & _); exists p; split_and!; done || lia).
  case_bool_decide as Hr; cbn [negb]; [|wp_step; eapply wp_mono; [by eapply cleanup_free|]; cbv beta; intros _ ? ->; wp_step; by apply Hfail].
  destruct K1 as (_ & N1 & Q1 & F1 & S1 & M1 & _). cbn in N1, Q1, F1, S1, M1. rewrite Hf in F1. pose proof Hok1 as (C1 & TT1 & D1).
  wp_step. eapply wp_on_dev; [exact (qd_submit_law _ _ (next_req_id_ e) (D1 F1))|]. cbv beta. intros r' h Hh. set (e2 := e1 <| q_dev := h |>).
  case_bool_decide as Hr'; cbn [negb].
  - rewrite decide_True in Hh by done. do 4 wp_step. change (slot e (next_req_id_ e)) with (Z.land (next_req_id_ e) (slot_num_ e - 1)).
    replace (Z.land (next_req_id_ e) (slot_num_ e - 1)) with (slot e2 (next_req_id_ e2)) by (unfold slot, e2; cbn; by rewrite S1, N1).
    wp_step. eapply wp_mono; [apply (tag_ok e2 p m now ctx); [destruct C1; by split|exact TT1|cbn; lia|cbn; by rewrite T1| |cbn; congruence|done|]|].
    + cbn. replace (slot e2 (next_req_id_ e1)) with (slot e (next_req_id_ e)); [done|]. unfold slot, e2. cbn. by rewrite S1, N1.
    + rewrite <- N1 in Hh. exact Hh.
    + cbv beta. intros _ e3 (Hok3 & P3). wp_step. exists p. split; [done|]. rewrite decide_True by done. rewrite P3. f_equal. exact P1.
  - rewrite decide_False in Hh by done. assert (qat_ok e2 p) as Hok2 by (split; [destruct C1; by split|split; [exact TT1|intros _; exact Hh]]). wp_step.
    eapply (wp_mono _ (λ _ e', carries_on e2 p e')).
    { destruct (ha_enabled e); [wp_step; eapply wp_mono; [apply (HandleHa_ok e2 p now r' Hok2 F1)|]; cbv beta; intros b e3 Hc3; by wp_step|].
      destruct (_ || _); cbn [when]; wp_step; [|by apply carries_refl]. exists p. destruct Hok2 as (C & T & D). split; [|by split_and!]. split; [destruct C; by split|by split]. }
    cbv beta. intros _ e3 (p3 & Hok3 & P3 & L3 & N3 & S3). cbn in N3, S3. pose proof (co_num _ _ _ (proj1 Hok)). pose proof (co_order _ _ _ (proj1 Hok)).
    assert (slot e (next_req_id_ e) = slot e3 (next_req_id_ e3)) as Es by (unfold slot; congruence).
    destruct (co_all _ _ _ (proj1 Hok3) (slot e (next_req_id_ e))) as [m3 Hm3]; [rewrite Es; by eapply slot_range; apply Hok3|].
    wp_step. eapply wp_mono; [eapply cleanup_free; [exact Hm3|]|].
    { rewrite Es in Hm3. eapply free_slot; [exact (proj1 Hok3)| |exact Hm3]. rewrite S3, N3, N1, S1. lia. }
    cbv beta. intros _ ? ->. wp_step. apply Hfail; [done|]. exists p3. split; [done|]. split; [rewrite P3; exact P1|]. split; [done|]. split; congruence.
Qed.

(** ** Polling *)

(** The results in [rs] have been taken from the pending ones. *)
Definition took (e : qat) (p : Z) (rs : list CodecResult) (e' : qat) : Prop :=
  ∃ p', qat_ok e' p' ∧ pending e p = (cr_ctx <$> rs) ++ pending e' p'.
Lemma qpop_ok e p n : qat_ok e p → wp (PopBufferedResults n) (λ rs e', qat_ok e' p ∧ pending e p = (cr_ctx <$> rs) ++ pending e' p ∧ (length rs ≤ n)%nat ∧
  rs = take n (codec_results_ e) ∧ is_fatal_ e' = is_fatal_ e ∧ ha_enabled e' = ha_enabled e) e.
Proof.
  intros (Hc & Ht & Hd). unfold PopBufferedResults, results_Pop. do 5 wp_step. split; [split; [destruct Hc; by split|by split]|]. split; [|split; [rewrite length_take; lia|done]].
  unfold pending. cbn [codec_results_ upd]. rewrite app_assoc, <- fmap_app, take_drop. done.
Qed.
Lemma check_results_ok now rs : ∀ e p, qat_ok e p → is_fatal_ e = false → wp (check_results now rs) (λ _ e', carries_on e p e') e.
Proof.
  induction rs as [|r rs IH]; intros e p Hok Hf; cbn [check_results]; [wp_step; by apply carries_refl|]. case_bool_decide; [by apply IH|].
  wp_step. eapply wp_mono; [by apply HandleHa_ok|]. cbv beta. intros b e1 (p1 & Hok1 & P1 & L1 & N1 & S1). do 2 wp_step. destruct b; cbn [orb]; [wp_step; by exists p1|].
  destruct (is_fatal_ e1) eqn:Hf1; [wp_step; by exists p1|]. eapply wp_mono; [by apply IH|]. cbv beta. intros _ e2 (p2 & Hok2 & P2 & L2 & N2 & S2).
  exists p2. split_and!; [done|congruence|lia|congruence|congruence].
Qed.
Lemma poll_device_ok e p now : qat_ok e p → is_fatal_ e = false → wp (poll_device now) (λ _ e', (∃ p', qat_ok e' p' ∧ pending e' p' = pending e p) ∧ is_fatal_ e' = false ∧ ha_enabled e' = ha_enabled e) e.
Proof.
  intros (Hc & Ht & Hd) Hf. unfold poll_device. do 3 wp_step. set (e0 := e <| callback_called_times_ := 0 |>). eapply wp_on_dev; [exact (qd_poll_law _ _ (Hd Hf))|]. cbv beta.
  intros [poll_r ans] h (l' & El & Hl'). set (e1 := e0 <| q_dev := h |>). pose proof (co_order _ _ _ Hc) as Ho.
  assert (length ans ≤ Z.to_nat (next_req_id_ e - next_recv_req_id_ e))%nat as Hlen by (apply (f_equal length) in El; rewrite length_seqZ, length_app, length_fmap in El; lia).
  set (n := Z.of_nat (length ans)). assert (an_req_id <$> ans = seqZ (next_recv_req_id_ e) n ∧ l' = seqZ (next_recv_req_id_ e + n) (next_req_id_ e - next_recv_req_id_ e - n)) as [Eids ->].
  { replace (next_req_id_ e - next_recv_req_id_ e) with (n + (next_req_id_ e - next_recv_req_id_ e - n)) in El by lia. rewrite seqZ_app in El by lia.
    symmetry in El. apply app_inj_1 in El; [done|]. rewrite length_fmap, length_seqZ. lia. }
  wp_step. eapply wp_mono; [apply (callbacks_ok ans e1 p 0); [destruct Hc; by split|exact Ht|exact Eids|cbn; lia]|]. cbv beta. fold n.
  intros _ e2 (p2 & C2 & T2 & P2 & R2 & B2 & K2). wp_step. eapply wp_mono; [by apply (timeouts_ok e2 p2 (0 + n) now)|]. cbv beta. intros _ e3 (p3 & C3 & T3 & P3 & R3 & B3 & K3).
  pose proof (keeps_trans _ _ _ K2 K3) as (D & N & Q & F & S & M & A & W). do 3 wp_step. cbn in B2, D, N, Q, F, S, M, A, W. split; [|split; cbn; congruence].
  exists p3. split; [|cbn; change (pending e3 p3 = pending e p); rewrite P3, P2; done]. split; [|split; [exact T3|]].
  - destruct C3 as [X1 X2 X3 X4 X5 X6]. split; try done. cbn. lia.
  - intros _. unfold device_from. cbn. rewrite D, N, R3, R2. cbn. replace (next_req_id_ e - (next_recv_req_id_ e + n)) with (next_req_id_ e - next_recv_req_id_ e - n) by lia. exact Hl'.
Qed.
Lemma qpoll_ok e p now n : qat_ok e p → wp (Poll now n) (λ o e', took e p (default [] o) e' ∧ (length (default [] o) ≤ n)%nat) e.
Proof.
  intros Hok. unfold Poll. do 2 wp_step. destruct (is_fatal_ e) eqn:Hf.
  - wp_step. eapply wp_mono; [by apply qpop_ok|]. cbv beta. intros rs e' (Hok' & P & Hl & _). wp_step. assert (default [] (match rs with [] => None | _ => Some rs end) = rs) as -> by (by destruct rs).
    split; [by exists p|done].
  - wp_step. eapply wp_mono; [by apply (poll_device_ok e p)|]. cbv beta. intros poll_r e1 ((p1 & Hok1 & P1) & F1 & A1). wp_step.
    eapply wp_mono; [by apply (qpop_ok e1 p1)|]. cbv beta. intros rs e2 (Hok2 & P2 & Hl & _ & F2 & A2). rewrite F1 in F2. cbv zeta. set (bad := negb _ && _).
    assert (∀ e', carries_on e2 p1 e' → took e p rs e') as Hdone by (intros e' (p' & Hok' & P' & _); exists p'; split; [done|congruence]).
    destruct (ha_enabled e); cbn [negb].
    + destruct bad; wp_step; [eapply wp_mono; [by apply (HandleHa_ok e2 p1)|]|eapply wp_mono; [by apply (check_results_ok now rs e2 p1)|]]; cbv beta; intros; wp_step; (split; [by apply Hdone|done]).
    + destruct (bool_decide (rs = []) && bad) eqn:E; [|wp_step; split; [by apply Hdone, carries_refl|done]]. apply andb_true_iff in E as [E _]. apply bool_decide_eq_true in E. subst rs.
      do 3 wp_step. split; [|cbn; lia]. apply Hdone. exists p1. destruct Hok2 as (C & T & _). split; [split; [destruct C; by split|by split]|]. split_and!; done || lia.
Qed.

(** ** Runs *)

Lemma new_engine_ok dev timers max ha w : 0 < max < 2 ^ 63 → qd_ok dev [] → ts_ok timers [] →
  ∃ e, new_engine dev timers max ha w = Some e ∧ qat_ok e 1 ∧ pending e 1 = [] ∧ max_in_qat_size_ e = max.
Proof.
  intros Hm Hd Ht. destruct (next_power_ok max Hm) as (k & Hk & E & Hle). unfold new_engine. rewrite E. cbn [mbind option_bind].
  pose proof (proj2 (is_power_of_two_spec (2 ^ k) ltac:(lia))) as Hp. unfold is_power_of_two in Hp. rewrite andb_true_iff in Hp. destruct Hp as [_ Hp]; [by exists k|].
  rewrite Hp, (proj2 (Z.ltb_lt _ _)) by lia. cbn [andb]. eexists. split; [reflexivity|]. split; [|split; [done|done]].
  assert (∀ i m, (list_to_map ((λ k, (k, new_meta)) <$> seqZ 0 (2 ^ k)) : gmap Z RequestMeta) !! i = Some m → m = new_meta) as Hnew.
  { intros i m Hi%elem_of_list_to_map_2. apply list_elem_of_fmap in Hi as (j & [= -> ->] & _). done. }
  split; [split; cbn; try lia|split; [exact Ht|intros _; exact Hd]].
  - by exists k.
  - intros i Hi. exists new_meta. apply elem_of_list_to_map_1.
    + rewrite <- list_fmap_compose. apply NoDup_fmap_2; [by intros x y|apply NoDup_seqZ].
    + apply list_elem_of_fmap. exists i. split; [done|]. apply elem_of_seqZ. lia.
  - intros i m Hi Hv. rewrite (Hnew i m Hi) in Hv. done.
Qed.

(** [qat_run e acc del]: the requests with contexts [acc] were accepted and results with the
    contexts [del] were handed out, in these orders. *)
Inductive qat_run : qat → list Z → list Z → Prop :=
| qrun_start dev timers max ha w e : 0 < max < 2 ^ 63 → qd_ok dev [] → ts_ok timers [] → new_engine dev timers max ha w = Some e → qat_run e [] []
| qrun_submit e acc del now comp algo level ctx st e' : qat_run e acc del → ts_room (q_timers e) → SubmitAsyncRequest now comp algo level ctx e = Ok (st, e') →
    qat_run e' (acc ++ if decide (st = kOk) then [ctx] else []) del
| qrun_poll e acc del now n o e' : qat_run e acc del → Poll now n e = Ok (o, e') → qat_run e' acc (del ++ (cr_ctx <$> default [] o)).

Lemma qat_run_ok e acc del : qat_run e acc del → ∃ p, qat_ok e p ∧ acc = del ++ pending e p.
Proof.
  induction 1 as [dev timers max ha w e Hm Hd Ht E|e acc del now comp algo level ctx st e' _ (p & Hok & ->) Hts E|e acc del now n o e' _ (p & Hok & ->) E].
  - destruct (new_engine_ok dev timers max ha w Hm Hd Ht) as (e' & E' & Hok & Hp & _). rewrite E in E'. injection E' as <-. exists 1. split; [done|]. by rewrite Hp.
  - destruct (wp_run _ _ _ _ _ E (Submit_ok e p now comp algo level ctx Hok Hts)) as (p' & Hok' & P'). exists p'. split; [done|]. rewrite P'. by rewrite app_assoc.
  - destruct (wp_run _ _ _ _ _ E (qpoll_ok e p now n Hok)) as [(p' & Hok' & P') _]. exists p'. split; [done|]. rewrite P'. by rewrite app_assoc.
Qed.

(** C11: results come in the order of submission, one for each accepted request, whether the
    device answered in time, a timer expired, an answer came late, or another device took
    over and dropped what was in flight. What was handed out is always a prefix of what was
    accepted, and the rest is still pending: buffered results and requests in flight. There are
    never more requests in the device than allowed, and no operation faults. *)
Theorem qat_results_in_order e acc del : qat_run e acc del →
  (∃ p, acc = del ++ pending e p ∧ qat_ok e p) ∧ in_qat_num_ e <= max_in_qat_size_ e ∧
  (∀ now n, wp (Poll now n) (λ o _, (length (default [] o) ≤ n)%nat) e) ∧
  (∀ now comp algo level ctx, ts_room (q_timers e) → wp (SubmitAsyncRequest now comp algo level ctx) (λ _ _, True) e).
Proof.
  intros (p & Hok & E)%qat_run_ok. split; [by exists p|]. split; [pose proof (co_num _ _ _ (proj1 Hok)); lia|]. split.
  - intros now n. eapply wp_mono; [by apply (qpoll_ok e p)|]. cbv beta. by intros o e' [_ ?].
  - intros now comp algo level ctx Hts. eapply wp_mono; [by apply (Submit_ok e p)|]. done.
Qed.

(** ** A dead engine *)

(** Without fallback a fatal error strands the requests in flight. Once the engine is fatal
    and its buffered results are polled, every poll answers -1 and leaves the engine as it is,
    so no timer is looked at any more and the requests stay pending for ever; new ones are
    refused. *)
Lemma fatal_stuck e : is_fatal_ e = true → codec_results_ e = [] →
  (∀ now n, Poll now n e = Ok (None, e)) ∧
  (∀ now comp algo level ctx, supported algo level = true → SubmitAsyncRequest now comp algo level ctx e = Ok (kPermanentError, e)).
Proof.
  intros Hf Hr. split.
  - intros now n. unfold Poll, PopBufferedResults, results_Pop, mbind, ST_bind, get, modify, mret, ST_ret. rewrite Hf, Hr, take_nil, drop_nil. cbn. destruct e. cbn in *. by rewrite Hr.
  - intros now comp algo level ctx Hs. unfold SubmitAsyncRequest, mbind, ST_bind, get, mret, ST_ret. rewrite Hs. cbn. by rewrite Hf.
Qed.
End engine.
