(* ===== verification/QatDemo.v ===== *)
(** * A QAT engine at work

    The timer manager as the timers of the engine, a small device, and concrete instances of
    the theorems on the engine. *)

From Stdlib Require Import ZArith Lia.
From stdpp Require Import prelude gmap.
From S2P Require Import Prelude Status DcFormat ObjectPool TimerManager DataFlow DataFlowSw QatHa QatEngine.
Open Scope Z_scope.

(** ** Timers *)

Section timers.
Context {St : Type} {OA : ObjectAllocator St TimeoutContext}.
Context (clean_unlinked : ∀ t, oa_clean t ↔ unlinked t).
#[refine] Definition timer_clear : TimerClear (TI := timer_service clean_unlinked) (TimerManager (St := St)) := {| ts_clear := ClearAndGetUserArg |}.
Proof.
  intros t l (tl & others & Hok & ->). eapply wp_mono; [by apply (Clear_ok no_callback clean_unlinked no_callback_frame)|]. cbv beta. intros args s' (-> & Hok' & _).
  split; [by rewrite <- list_fmap_compose|]. by exists [], others.
Defined.
End timers.

(** ** A device

    It takes two requests at a time, answers them all in one poll, and breaks after [life]
    submissions. *)

Record Device := MkDevice { inside : list Z; life : nat }.
Definition device_submit (id : Z) : ST Device StatusCode :=
  d ← get;
  match life d with
  | 0%nat => mret kHardwareError
  | S n => if Nat.ltb (length (inside d)) 2 then modify (λ _, MkDevice (inside d ++ [id]) n);; mret kOk else mret kResourceBusy
  end.
Definition device_answer (id : Z) : Answer := MkAnswer id CPA_STATUS_SUCCESS CPA_DC_OK 100 40 7 9.
Definition device_poll : ST Device (StatusCode * list Answer) :=
  d ← get;
  match life d with
  | 0%nat => mret (kHardwareError, [])
  | _ => modify (λ _, MkDevice [] (life d));; mret (match inside d with [] => kShouldRetry | _ => kOk end, device_answer <$> inside d)
  end.
Definition device_reinit : ST Device StatusCode := modify (λ _, MkDevice [] 3);; mret kOk.
#[refine] Definition demo_device : QatDevice Device := {|
  qd_buffers := mret true; qd_fill _ _ _ := mret true; qd_submit := device_submit; qd_poll := device_poll; qd_reinit := device_reinit;
  qd_ok d l := inside d = l |}.
Proof.
  - intros h l Hok. by wp_step.
  - intros h l comp hs fs Hok. by wp_step.
  - intros h l id <-. unfold device_submit. do 2 wp_step. destruct (life h); [by wp_step|]. destruct (Nat.ltb _ _); [|by wp_step]. by do 3 wp_step.
  - intros h l <-. unfold device_poll. do 2 wp_step. destruct (life h); [wp_step; by exists (inside h)|]. do 3 wp_step. exists []. split; [|done].
    rewrite app_nil_r, <- list_fmap_compose. symmetry. rewrite <- (list_fmap_id (inside h)) at 2. by apply list_fmap_ext.
  - intros h l _. unfold device_reinit. by do 3 wp_step.
Defined.
#[local] Existing Instance demo_device.
#[local] Instance demo_allocator : ObjectAllocator (TlsObjectPool (T := TimeoutContext)) TimeoutContext :=
  tls_allocator demo_ctx 32 demo_memalign unlinked 7 demo_size demo_memalign_ok (conj eq_refl eq_refl).
#[local] Instance demo_service : TimerService TimerManager := timer_service (λ _, iff_refl _).
#[local] Instance demo_clear : TimerClear TimerManager := timer_clear (λ _, iff_refl _).

(** ** The engine *)

Definition demo_engine (n : nat) (ha : bool) : option QatCodecEngine := new_engine (MkDevice [] n) demo_tm 2 ha (MkWindow 50 60000000 []).
(** Two requests are accepted, a third is refused; both results come, in order. *)
Definition compress (now ctx : Z) : ST QatCodecEngine StatusCode := SubmitAsyncRequest (λ t, t) 5 now true kZlib kLevel1 ctx.
Definition poll (now : Z) : ST QatCodecEngine (option (list CodecResult)) := Poll (λ t, t) 5 now 4.
Definition summary (o : option (list CodecResult)) : list (Z * StatusCode * Z) := (λ r, (cr_ctx r, cr_status r, produced r)) <$> default [] o.

Example demo_results_come : match demo_engine 3 true with
  | Some e => match (a ← compress 100 11; b ← compress 101 12; c ← compress 102 13; o ← poll 103; mret (a, b, c, summary o)) e with
              | Ok (r, _) => r = (kOk, kOk, kResourceBusy, [(11, kOk, 46); (12, kOk, 46)])
              | Err _ => False
              end
  | None => False
  end.
Proof. vm_compute. reflexivity. Qed.
(** The device breaks: the second request is answered as dropped by the device that takes over. *)
Example demo_falls_back : match demo_engine 1 true with
  | Some e => match (a ← compress 100 11; b ← compress 101 12; o ← poll 103; c ← compress 104 13; o' ← poll 105; mret (a, b, c, summary o, summary o')) e with
              | Ok (r, _) => r = (kOk, kHardwareError, kOk, [(11, kDropped, 0)], [(13, kOk, 46)])
              | Err _ => False
              end
  | None => False
  end.
Proof. vm_compute. reflexivity. Qed.

Definition demo_new : QatCodecEngine := match demo_engine 1 false with Some e => e | None => MkQat (MkDevice [] 0) demo_tm 0 0 0 0 true ∅ 0 0 [] false (MkWindow 0 0 []) end.
Definition demo_one : QatCodecEngine := final (compress 100 11) demo_new.
Definition demo_dead : QatCodecEngine := final (poll 103) demo_one.
Lemma demo_new_run : qat_run (λ t, t) 5 demo_new [] [].
Proof.
  apply (qrun_start (λ t, t) 5 (MkDevice [] 1) demo_tm 2 false (MkWindow 50 60000000 [])); [lia|done| |vm_compute; reflexivity].
  exists [], ∅. split; [apply demo_tm_ok|done].
Qed.
Lemma demo_sent_run : qat_run (λ t, t) 5 demo_one [11] [].
Proof.
  change [11] with ([] ++ if decide (kOk = kOk) then [11] else []).
  eapply (qrun_submit (λ t, t) 5 demo_new [] [] 100 true kZlib kLevel1 11 kOk); [apply demo_new_run|vm_compute; discriminate|].
  refine (final_run (compress 100 11) demo_new kOk _). vm_compute. reflexivity.
Qed.
Lemma demo_dead_run : qat_run (λ t, t) 5 demo_dead [11] [].
Proof.
  change [] with ([] ++ (cr_ctx <$> default [] (None : option (list CodecResult)))).
  eapply (qrun_poll (λ t, t) 5 demo_one [11] [] 103 4 None); [apply demo_sent_run|]. refine (final_run (poll 103) demo_one None _). vm_compute. reflexivity.
Qed.

Lemma qat_results_in_order_witness : in_qat_num_ demo_one <= max_in_qat_size_ demo_one ∧ ∃ p, [11] = [] ++ pending demo_one p.
Proof.
  destruct (qat_results_in_order (λ t, t) 5 demo_one [11] [] demo_sent_run) as ((p & E & _) & Hle & _). split; [exact Hle|]. by exists p.
Defined.
Lemma demo_strands : in_qat_num_ demo_dead = 1 ∧ ∀ now n, Poll (λ t, t) 5 now n demo_dead = Ok (None, demo_dead).
Proof.
  split; [vm_compute; reflexivity|]. destruct (fatal_stuck (λ t, t) 5 demo_dead) as [Hp _]; [vm_compute; reflexivity..|]. exact Hp.
Qed.
