(* ===== verification/QatWorker.v ===== *)
(** * A worker of a shared QAT channel (src/src/codec/qat/qat_poller_worker.h, qat_poller_worker.cc)

    User threads queue tasks; the thread of the poller submits them to the engine, polls and
    calls back. The engine refuses some tasks: they wait in a queue of their own until their
    turn comes, so that users are called back in the order of their tasks. The engine is the
    interface [CodecEngine], which the QAT engine implements; the queue of tasks is a list, what
    the MPSC queue refines. A push during a loop counts as one before or after the loop.
    Metrics are not modelled. *)

From Stdlib Require Import ZArith Lia.
From stdpp Require Import prelude gmap.
From S2P Require Import Prelude Status DcFormat DataFlow QatEngine.
Open Scope Z_scope.

(** [ce_ok e l]: the engine owes results for the contexts [l], in this order. *)
Class CodecEngine (E : Type) := {
  ce_submit : Z → bool → Z → ST E StatusCode;
  ce_poll : Z → nat → ST E (option (list CodecResult));
  ce_ok : E → list Z → Prop;
  ce_submit_law e l now comp ctx : ce_ok e l →
    wp (ce_submit now comp ctx) (λ st e', ce_ok e' (l ++ if decide (st = kOk) then [ctx] else [])) e;
  ce_poll_law e l now n : ce_ok e l →
    wp (ce_poll now n) (λ o e', ∃ l', l = (cr_ctx <$> default [] o) ++ l' ∧ ce_ok e' l') e }.

Definition kMaxSubmitNum : nat := 128.
Definition kMaxPollingNum : nat := 128.

(** [user_cb] is 0 for no callback. *)
Record WorkerTask := MkTask { user_ctx : Z; user_cb : Z; direction : bool; submit_r : StatusCode; wt_req_id : Z }.
#[export] Instance eta_WorkerTask : Eta WorkerTask := λ t, MkTask (user_ctx t) (user_cb t) (direction t) (submit_r t) (wt_req_id t).

Section worker.
Context {E : Type} {CE : CodecEngine E}.

(** ** State *)

(** [tasks] is the memory of the tasks and [next_task] the address the next [new] returns;
    [calls] records the callbacks with the result each got. *)
Record QatPollerWorker := MkWorker {
  worker_ : E; worker_tasks_ : list Z; submit_failed_tasks_ : list Z; req_id_ : Z; expected_req_id_ : Z; inflight_num_ : Z; running_ : bool;
  tasks : gmap Z WorkerTask; next_task : Z; calls : list (Z * CodecResult) }.
#[local] Instance eta_QatPollerWorker : Eta QatPollerWorker := λ w,
  MkWorker (worker_ w) (worker_tasks_ w) (submit_failed_tasks_ w) (req_id_ w) (expected_req_id_ w) (inflight_num_ w) (running_ w)
    (tasks w) (next_task w) (calls w).
Abbreviation wk := QatPollerWorker.
Definition on_engine {A} (m : ST E A) : ST wk A := λ w,
  match m (worker_ w) with Ok (a, e) => Ok (a, w <| worker_ := e |>) | Err x => Err x end.
Definition get_task (p : Z) : ST wk WorkerTask := w ← get; need NullDeref (tasks w !! p).
Definition set_task (p : Z) (f : WorkerTask → WorkerTask) : ST wk unit := get_task p;; modify (λ w, w <| tasks ::= alter f p |>).
Definition delete_task (p : Z) : ST wk unit := get_task p;; modify (λ w, w <| tasks ::= delete p |>).
(** [Init], after the engine was created. *)
Definition new_worker (e : E) : wk := MkWorker e [] [] 1 1 0 true ∅ 1 [].

(** ** Operations *)

Definition Schedule (ctx cb : Z) (comp : bool) : ST wk StatusCode :=
  w ← get;
  if negb (running_ w) then mret kResourceBusy
  else
    let p := next_task w in
    modify (λ w, w <| tasks ::= <[p := MkTask ctx cb comp kOk 0]> |> <| next_task ::= Z.add 1 |>);;
    modify (λ w, w <| worker_tasks_ ::= λ q, q ++ [p] |>);;
    mret kOk.
(** The tasks taken out of the queue, at most as many as the buffer holds. *)
Definition DrainTasks (task_num : nat) : ST wk (list Z) :=
  w ← get;
  let n := Nat.min task_num kMaxSubmitNum in
  modify (λ w, w <| worker_tasks_ ::= drop n |>);;
  mret (take n (worker_tasks_ w)).
Definition GetNextReqId : ST wk Z := w ← get; modify (λ w, w <| req_id_ ::= Z.add 1 |>);; mret (req_id_ w).
Definition MatchedExpReqId (id : Z) : ST wk bool :=
  w ← get;
  if negb (id =? expected_req_id_ w) then mret false
  else modify (λ w, w <| expected_req_id_ ::= Z.add 1 |>);; mret true.
Definition HandleUserCallback (cb : Z) (r : CodecResult) : ST wk bool :=
  if cb =? 0 then mret false else modify (λ w, w <| calls ::= λ l, l ++ [(cb, r)] |>);; mret true.
Definition TryProcessOneFailedTask : ST wk bool :=
  w ← get;
  match submit_failed_tasks_ w with
  | [] => mret false
  | p :: _ =>
      t ← get_task p;
      matched ← MatchedExpReqId (wt_req_id t);
      if negb matched then mret false
      else
        modify (λ w, w <| submit_failed_tasks_ ::= tail |>);;
        HandleUserCallback (user_cb t) (failed_result (user_ctx t) (submit_r t));;
        delete_task p;;
        mret true
  end.
(** [while (TryProcessOneFailedTask()) ++submit_failed_handled_num;] *)
Fixpoint process_failed (fuel : nat) : ST wk Z :=
  match fuel with
  | O => raise OutOfFuel
  | S fuel => b ← TryProcessOneFailedTask; if (b : bool) then n ← process_failed fuel; mret (1 + n) else mret 0
  end.
Definition drain_failed : ST wk Z := w ← get; process_failed (S (length (submit_failed_tasks_ w))).
(** One iteration of the loop over the results; [r.ctx] is the task. *)
Definition merge_result (r : CodecResult) : ST wk Z :=
  n ← drain_failed;
  let p := cr_ctx r in
  t ← get_task p;
  HandleUserCallback (user_cb t) (r <| cr_ctx := user_ctx t |>);;
  MatchedExpReqId (wt_req_id t);;
  modify (λ w, w <| inflight_num_ ::= λ n, n - 1 |>);;
  delete_task p;;
  mret n.
Fixpoint merge_results (rs : list CodecResult) : ST wk Z :=
  match rs with
  | [] => mret 0
  | r :: rs => n ← merge_result r; m ← merge_results rs; mret (n + m)
  end.
Definition PollingAndMerge (now : Z) (polling_num : nat) : ST wk Z :=
  o ← on_engine (ce_poll now kMaxSubmitNum);
  match o with
  | None => n ← drain_failed; mret (if n =? 0 then -1 else n)
  | Some [] => drain_failed
  | Some rs => n ← merge_results rs; mret (Z.of_nat (length rs) + n)
  end.
Fixpoint submit_loop (now : Z) (ps : list Z) : ST wk unit :=
  match ps with
  | [] => mret ()
  | p :: ps =>
      id ← GetNextReqId;
      set_task p (λ t, t <| wt_req_id := id |>);;
      t ← get_task p;
      st ← on_engine (ce_submit now (direction t) p);
      (if negb (bool_decide (st = kOk)) then
         set_task p (λ t, t <| submit_r := st |>);;
         modify (λ w, w <| submit_failed_tasks_ ::= λ q, q ++ [p] |>)
       else modify (λ w, w <| inflight_num_ ::= Z.add 1 |>));;
      submit_loop now ps
  end.
Definition LoopOnce (now : Z) (submit_num polling_num : nat) : ST wk Z :=
  ps ← DrainTasks submit_num;
  submit_loop now ps;;
  PollingAndMerge now polling_num.
Definition HasUnFinishedReqs (w : wk) : bool :=
  (0 <? inflight_num_ w) || negb (bool_decide (submit_failed_tasks_ w = [])) || negb (bool_decide (worker_tasks_ w = [])).
(** [Uninit] up to the closing of the engine; [clock] gives the times of the iterations. *)
Fixpoint uninit_loop (fuel : nat) (clock : nat → Z) : ST wk unit :=
  match fuel with
  | O => raise OutOfFuel
  | S fuel =>
      w ← get;
      if HasUnFinishedReqs w then LoopOnce (clock fuel) kMaxSubmitNum kMaxPollingNum;; uninit_loop fuel clock else mret ()
  end.
Definition Uninit (fuel : nat) (clock : nat → Z) : ST wk unit := modify (λ w, w <| running_ := false |>);; uninit_loop fuel clock.

(** ** The invariant *)

(** [inter a b c]: [c] is an interleaving of [a] and [b]. *)
Inductive inter {A} : list A → list A → list A → Prop :=
| inter_nil : inter [] [] []
| inter_l x a b c : inter a b c → inter (x :: a) b (x :: c)
| inter_r x a b c : inter a b c → inter a (x :: b) (x :: c).
#[local] Hint Constructors inter : core.
Lemma inter_snoc_l {A} (x : A) a b c : inter a b c → inter (a ++ [x]) b (c ++ [x]).
Proof. induction 1; cbn; auto. Qed.
Lemma inter_snoc_r {A} (x : A) a b c : inter a b c → inter a (b ++ [x]) (c ++ [x]).
Proof. induction 1; cbn; auto. Qed.
Lemma inter_elem {A} (a b c : list A) x : inter a b c → x ∈ b → x ∈ c.
Proof. induction 1 as [|y a b c _ IH|y a b c _ IH]; intros Hx; [done|right; by apply IH|]. apply elem_of_cons in Hx as [->|Hx]; [by left|right; by apply IH]. Qed.

(** [eng] are the tasks in the engine, [ins] all tasks that have a number, in their order. *)
Record wcore (w : wk) (eng ins : list Z) : Prop := {
  wo_inter : inter eng (submit_failed_tasks_ w) ins;
  wo_ids : ∀ i p, ins !! i = Some p → ∃ t, tasks w !! p = Some t ∧ wt_req_id t = expected_req_id_ w + Z.of_nat i;
  wo_next : req_id_ w = expected_req_id_ w + Z.of_nat (length ins);
  wo_inflight : inflight_num_ w = Z.of_nat (length eng);
  wo_queued : ∀ p, p ∈ worker_tasks_ w → is_Some (tasks w !! p);
  wo_nodup : NoDup (ins ++ worker_tasks_ w);
  wo_below : ∀ p, is_Some (tasks w !! p) → p < next_task w }.
Definition worker_ok (w : wk) (eng ins : list Z) : Prop := wcore w eng ins ∧ ce_ok (worker_ w) eng.

(** Whom a task wants to be called, with what; whom the worker called; and both together. *)
Definition wants (w : wk) (p : Z) : list (Z * Z) :=
  match tasks w !! p with Some t => if user_cb t =? 0 then [] else [(user_cb t, user_ctx t)] | None => [] end.
Definition called (w : wk) : list (Z * Z) := (λ c, (c.1, cr_ctx c.2)) <$> calls w.
Definition owed (w : wk) (ins : list Z) : list (Z * Z) := (ins ++ worker_tasks_ w) ≫= wants w.
Definition story (w : wk) (ins : list Z) : list (Z * Z) := called w ++ owed w ins.

Lemma wp_on_engine {A} (m : ST E A) P (Q : A → wk → Prop) w : wp m P (worker_ w) → (∀ a e, P a e → Q a (w <| worker_ := e |>)) → wp (on_engine m) Q w.
Proof. unfold wp, on_engine. destruct (m (worker_ w)) as [[a e]|]; [|done]. eauto. Qed.
Lemma wp_get_task p t (w : wk) (Q : WorkerTask → wk → Prop) : tasks w !! p = Some t → Q t w → wp (get_task p) Q w.
Proof. intros Hp HQ. unfold get_task. do 2 wp_step. by eapply wp_need. Qed.
Lemma wp_set_task p t f (w : wk) (Q : unit → wk → Prop) : tasks w !! p = Some t → Q () (w <| tasks ::= <[p := f t]> |>) → wp (set_task p f) Q w.
Proof.
  intros Hp HQ. unfold set_task. wp_step. eapply wp_get_task; [done|]. wp_step.
  assert (alter f p (tasks w) = <[p := f t]> (tasks w)) as Ea by (rewrite <- (insert_id (tasks w) p t Hp) at 1; by rewrite alter_insert_eq). cbn. by rewrite Ea.
Qed.
Lemma wp_delete_task p t (w : wk) (Q : unit → wk → Prop) : tasks w !! p = Some t → Q () (w <| tasks ::= delete p |>) → wp (delete_task p) Q w.
Proof. intros Hp HQ. unfold delete_task. wp_step. eapply wp_get_task; [done|]. by wp_step. Qed.
Lemma wp_user_callback cb r (w : wk) (Q : bool → wk → Prop) :
  (∀ b, Q b (w <| calls ::= λ l, l ++ (if cb =? 0 then [] else [(cb, r)]) |>)) → wp (HandleUserCallback cb r) Q w.
Proof.
  intros HQ. unfold HandleUserCallback. destruct (cb =? 0); [|by do 3 wp_step]. wp_step. specialize (HQ false). destruct w. cbn in HQ. unfold upd, eta in HQ. cbn in HQ. by rewrite app_nil_r in HQ.
Qed.

(** The next task in order is done and gone. *)
Lemma finish_ok w w' eng eng' p t ins r :
  wcore w eng (p :: ins) → tasks w !! p = Some t → cr_ctx r = user_ctx t →
  inter eng' (submit_failed_tasks_ w') ins → inflight_num_ w' = Z.of_nat (length eng') →
  expected_req_id_ w' = 1 + expected_req_id_ w → req_id_ w' = req_id_ w → worker_tasks_ w' = worker_tasks_ w → next_task w' = next_task w →
  tasks w' = delete p (tasks w) → calls w' = calls w ++ (if user_cb t =? 0 then [] else [(user_cb t, r)]) →
  wcore w' eng' ins ∧ story w' ins = story w (p :: ins).
Proof.
  intros [C1 C2 C3 C4 C5 C6 C7] Ht Hr Hi Hn He Hq Hw Hx Hm Hc. cbn in C6. apply NoDup_cons in C6 as [Hp C6].
  assert (∀ q, q ∈ ins ++ worker_tasks_ w → tasks w' !! q = tasks w !! q) as Hlk by (intros q Hin; rewrite Hm; apply lookup_delete_ne; by intros ->).
  split; [split; try done|].
  - intros i q Hq'. destruct (C2 (S i) q Hq') as (t' & Ht' & Hid). exists t'. split; [rewrite <- Ht'; apply Hlk, elem_of_app; left; by eapply list_elem_of_lookup_2|lia].
  - rewrite Hq, C3, He. cbn. lia.
  - rewrite Hw. intros q Hin. rewrite Hlk by (apply elem_of_app; by right). by apply C5.
  - by rewrite Hw.
  - rewrite Hm, Hx. intros q [t' Hq']. apply C7. apply lookup_delete_Some in Hq' as [_ Hq']. by exists t'.
  - unfold story, called, owed. rewrite Hc, Hw, fmap_app, <- app_assoc. f_equal. cbn [app mbind list_bind]. f_equal.
    + unfold wants. rewrite Ht. destruct (user_cb t =? 0); [done|]. cbn. by rewrite Hr.
    + clear -Hlk. induction (ins ++ worker_tasks_ w) as [|q l IH]; [done|]. cbn. rewrite IH by (intros x Hx; apply Hlk; by right). unfold wants. by rewrite Hlk by left.
Qed.

(** What does not change while failed tasks are handled. *)
Definition still (w w' : wk) : Prop := worker_ w' = worker_ w ∧ running_ w' = running_ w ∧ worker_tasks_ w' = worker_tasks_ w.
Lemma try_failed_ok w eng ins : wcore w eng ins →
  wp TryProcessOneFailedTask (λ b w', still w w' ∧
    if b then ∃ p ins', ins = p :: ins' ∧ wcore w' eng ins' ∧ story w' ins' = story w ins ∧ submit_failed_tasks_ w = p :: submit_failed_tasks_ w'
    else w' = w ∧ (∀ p, head (submit_failed_tasks_ w) = Some p → head ins ≠ Some p)) w.
Proof.
  intros Hc. pose proof (wo_inter _ _ _ Hc) as Hi. unfold TryProcessOneFailedTask. do 2 wp_step. destruct (submit_failed_tasks_ w) as [|p fs] eqn:Ef; [wp_step; by split|].
  assert (p ∈ ins) as [i Hp]%list_elem_of_lookup by (eapply inter_elem; [exact Hi|by left]). destruct (wo_ids _ _ _ Hc i p Hp) as (t & Ht & Hid).
  wp_step. eapply wp_get_task; [done|]. unfold MatchedExpReqId. do 3 wp_step. destruct (Z.eqb_spec (wt_req_id t) (expected_req_id_ w)) as [Eid|Hne]; cbn [negb].
  - assert (i = 0%nat) as -> by lia. destruct ins as [|p' ins]; [done|]. cbn in Hp. injection Hp as ->. do 3 wp_step. cbn [negb]. do 3 wp_step. apply wp_user_callback. intros b. wp_step. eapply wp_delete_task; [exact Ht|]. wp_step.
    split; [done|]. exists p, ins. assert (inter eng fs ins) as Hi'.
    { inversion Hi as [|x a b' c H0 E1 E2 E3|x a b' c H0 E1 E2 E3]; subst; [|done]. exfalso. pose proof (wo_nodup _ _ _ Hc) as Hnd. cbn in Hnd. apply NoDup_cons in Hnd as [Hnd _].
      apply Hnd, elem_of_app. left. eapply inter_elem; [exact H0|by left]. }
    match goal with |- _ ∧ wcore ?s _ _ ∧ _ => destruct (finish_ok w s eng eng p t ins (failed_result (user_ctx t) (submit_r t)) Hc Ht) as [A B] end; try done; [by cbn; rewrite Ef|exact (wo_inflight _ _ _ Hc)|].
    split_and!; [done|exact A|exact B|cbn; by rewrite Ef].
  - wp_step. cbn [negb]. wp_step. split; [done|]. split; [done|]. intros q [= <-] Hh. destruct ins as [|p' ins]; [done|]. cbn in Hh. injection Hh as ->.
    destruct (wo_ids _ _ _ Hc 0%nat p eq_refl) as (t' & Ht' & Hid'). rewrite Ht in Ht'. injection Ht' as <-. lia.
Qed.
Lemma process_failed_ok fuel : ∀ w eng ins, wcore w eng ins → (length (submit_failed_tasks_ w) < fuel)%nat →
  wp (process_failed fuel) (λ n w', still w w' ∧ 0 <= n ∧ ∃ ins', wcore w' eng ins' ∧ story w' ins' = story w ins ∧ (length ins' ≤ length ins)%nat ∧
    ∀ p, head (submit_failed_tasks_ w') = Some p → head ins' ≠ Some p) w.
Proof.
  induction fuel as [|fuel IH]; intros w eng ins Hc Hf; [lia|]. cbn [process_failed]. wp_step. eapply wp_mono; [by apply try_failed_ok|]. cbv beta.
  intros [] w1 [(S1 & S2 & S3) H1]; [|wp_step; destruct H1 as [-> H1]; split; [done|]; split; [lia|]; by exists ins].
  destruct H1 as (p & ins1 & -> & C1 & E1 & F1). rewrite F1 in Hf. cbn in Hf. wp_step. eapply wp_mono; [apply (IH w1 eng ins1 C1); lia|]. cbv beta.
  intros n w2 ((T1 & T2 & T3) & Hn & ins2 & C2 & E2 & L2 & H2). wp_step. split; [split_and!; congruence|]. split; [lia|]. exists ins2. cbn. split_and!; [done|congruence|lia|done].
Qed.
Lemma drain_failed_ok w eng ins : wcore w eng ins →
  wp drain_failed (λ n w', still w w' ∧ 0 <= n ∧ ∃ ins', wcore w' eng ins' ∧ story w' ins' = story w ins ∧ (length ins' ≤ length ins)%nat ∧ ∀ p, head (submit_failed_tasks_ w') = Some p → head ins' ≠ Some p) w.
Proof. intros Hc. unfold drain_failed. do 2 wp_step. apply process_failed_ok; [done|lia]. Qed.
Lemma merge_result_ok w r eng ins : wcore w (cr_ctx r :: eng) ins →
  wp (merge_result r) (λ n w', still w w' ∧ 0 <= n ∧ ∃ ins', wcore w' eng ins' ∧ story w' ins' = story w ins ∧ (length ins' < length ins)%nat) w.
Proof.
  intros Hc. unfold merge_result. wp_step. eapply wp_mono; [by apply drain_failed_ok|]. cbv beta. intros n w1 (S1 & Hn & ins1 & C1 & E1 & L1 & H1). set (p := cr_ctx r) in *.
  assert (∃ ins2, ins1 = p :: ins2 ∧ inter eng (submit_failed_tasks_ w1) ins2) as (ins2 & -> & Hi).
  { pose proof (wo_inter _ _ _ C1) as Hi. inversion Hi as [|x a b c H0 Ea Eb Ec|x a b c H0 Ea Eb Ec]; [by exists c|]. exfalso. apply (H1 x); [by rewrite <- Eb|by rewrite <- Ec]. }
  destruct (wo_ids _ _ _ C1 0%nat p eq_refl) as (t & Ht & Hid). wp_step. eapply wp_get_task; [exact Ht|]. wp_step. apply wp_user_callback. intros _. unfold MatchedExpReqId. do 3 wp_step.
  cbn [expected_req_id_ upd]. rewrite (proj2 (Z.eqb_eq (wt_req_id t) _)) by (cbn; lia). cbn [negb]. do 6 wp_step. eapply wp_delete_task; [exact Ht|]. wp_step.
  split; [exact S1|]. split; [done|]. exists ins2. rewrite <- E1.
  match goal with |- wcore ?s _ _ ∧ _ => destruct (finish_ok w1 s (p :: eng) eng p t ins2 (r <| cr_ctx := user_ctx t |>) C1 Ht) as [A B] end; try done.
  cbn. rewrite (wo_inflight _ _ _ C1). cbn [length]. lia.
Qed.
Lemma merge_results_ok rs : ∀ w eng ins, wcore w ((cr_ctx <$> rs) ++ eng) ins →
  wp (merge_results rs) (λ n w', still w w' ∧ 0 <= n ∧ ∃ ins', wcore w' eng ins' ∧ story w' ins' = story w ins ∧ (length ins' + length rs ≤ length ins)%nat) w.
Proof.
  induction rs as [|r rs IH]; intros w eng ins Hc; cbn [merge_results]; [wp_step; split; [done|]; split; [lia|]; exists ins; cbn; split_and!; done || lia|].
  wp_step. eapply wp_mono; [apply (merge_result_ok w r _ _ Hc)|]. cbv beta. intros n w1 ((S1 & S2 & S3) & Hn & ins1 & C1 & E1 & L1). wp_step.
  eapply wp_mono; [apply (IH w1 eng ins1 C1)|]. cbv beta. intros m w2 ((T1 & T2 & T3) & Hm & ins2 & C2 & E2 & L2). wp_step. split; [split_and!; congruence|]. split; [lia|]. exists ins2. cbn. split_and!; [done|congruence|lia].
Qed.
(** Nothing is lost or done twice by [w]'s way to [w']. *)
Definition goes_on (w : wk) (ins : list Z) (w' : wk) (ins' : list Z) : Prop := (∃ eng', worker_ok w' eng' ins') ∧ story w' ins' = story w ins ∧ running_ w' = running_ w.
Lemma wcore_engine w eng ins e : wcore w eng ins → wcore (w <| worker_ := e |>) eng ins.
Proof. intros []. by split. Qed.
(** Every poll of an engine that owes results brings one. *)
Definition prompt : Prop := ∀ e l now n, ce_ok e l → l ≠ [] → wp (ce_poll now (S n)) (λ o _, default [] o ≠ []) e.
Lemma inter_ends {A} (a b c : list A) : inter a b c → a = [] → (∀ x, head b = Some x → head c ≠ Some x) → c = [].
Proof. intros [|x a' b' c' _|x a' b' c' _] Ha Hh; [done|done|]. exfalso. by apply (Hh x). Qed.
Lemma polling_ok w eng ins now n : worker_ok w eng ins →
  wp (PollingAndMerge now n) (λ _ w', ∃ ins', goes_on w ins w' ins' ∧ worker_tasks_ w' = worker_tasks_ w ∧ (length ins' ≤ length ins)%nat ∧ (prompt → ins ≠ [] → length ins' < length ins)%nat) w.
Proof.
  intros (Hc & He). unfold PollingAndMerge. wp_step.
  eapply (wp_on_engine _ (λ o e, (∃ l', eng = (cr_ctx <$> default [] o) ++ l' ∧ ce_ok e l') ∧ (prompt → eng ≠ [] → default [] o ≠ []))).
  { pose proof (ce_poll_law _ _ now kMaxSubmitNum He) as H1. unfold wp in *. destruct (ce_poll now kMaxSubmitNum (worker_ w)) as [[o e]|x] eqn:Ep; [|done]. split; [done|].
    intros Hp Hne. specialize (Hp (worker_ w) eng now 127%nat He Hne). unfold wp in Hp. change 128%nat with kMaxSubmitNum in Hp. by rewrite Ep in Hp. }
  cbv beta. intros o e ((l' & -> & He') & Hp). apply (wcore_engine _ _ _ e) in Hc. set (w1 := w <| worker_ := e |>) in *.
  assert (∀ w' ins', still w1 w' → wcore w' l' ins' → story w' ins' = story w1 ins → (length ins' ≤ length ins)%nat → (prompt → ins ≠ [] → length ins' < length ins)%nat →
    ∃ ins', goes_on w ins w' ins' ∧ worker_tasks_ w' = worker_tasks_ w ∧ (length ins' ≤ length ins)%nat ∧ (prompt → ins ≠ [] → length ins' < length ins)%nat) as Hdone.
  { intros w' ins' (S1 & S2 & S3) C' E' L' P'. exists ins'. split; [|done]. split; [|done]. exists l'. split; [done|]. by rewrite S1. }
  assert (default [] o = [] → wp drain_failed (λ _ w', ∃ ins', goes_on w ins w' ins' ∧ worker_tasks_ w' = worker_tasks_ w ∧ (length ins' ≤ length ins)%nat ∧ (prompt → ins ≠ [] → length ins' < length ins)%nat) w1) as Hdrain.
  { intros Eo. rewrite Eo in Hc, Hp. cbn in Hc, Hp. eapply wp_mono; [by apply (drain_failed_ok w1)|]. cbv beta. intros k w' (S' & _ & ins' & C' & E' & L' & H'). eapply Hdone; [done|done|done|done|].
    intros Hpr Hne. assert (l' = []) as El by (destruct l'; [done|by destruct (Hp Hpr)]). rewrite (inter_ends _ _ _ (wo_inter _ _ _ C') El H'). destruct ins; [done|]. cbn. lia. }
  destruct o as [[|r rs]|].
  - by apply Hdrain.
  - wp_step. eapply wp_mono; [by apply (merge_results_ok (r :: rs) w1)|]. cbv beta. intros k w' (S' & _ & ins' & C' & E' & L'). wp_step. cbn in L'. eapply Hdone; [done|done|done|lia|lia].
  - wp_step. eapply wp_mono; [by apply Hdrain|]. cbv beta. intros k w' H'. by wp_step.
Qed.

(** ** Submitting *)

Lemma bind_wants (w w' : wk) l : (∀ q, q ∈ l → wants w' q = wants w q) → l ≫= wants w' = l ≫= wants w.
Proof. induction l as [|q l IH]; intros H; [done|]. cbn. rewrite H, IH; [done| |by left]. intros x Hx. apply H. by right. Qed.
(** The first queued task gets a number and goes to the engine or to the failed tasks. *)
Lemma number_ok w w' eng eng' ins p qs t t' :
  wcore w eng ins → worker_tasks_ w = p :: qs → tasks w !! p = Some t →
  wt_req_id t' = req_id_ w → user_cb t' = user_cb t → user_ctx t' = user_ctx t →
  inter eng' (submit_failed_tasks_ w') (ins ++ [p]) → inflight_num_ w' = Z.of_nat (length eng') →
  expected_req_id_ w' = expected_req_id_ w → req_id_ w' = 1 + req_id_ w → worker_tasks_ w' = qs → next_task w' = next_task w →
  tasks w' = <[p := t']> (tasks w) → calls w' = calls w →
  wcore w' eng' (ins ++ [p]) ∧ story w' (ins ++ [p]) = story w ins.
Proof.
  intros [C1 C2 C3 C4 C5 C6 C7] Hq Ht Hid Hcb Hctx Hi Hn He Hr Hw Hx Hm Hc. rewrite Hq in C5, C6.
  assert (p ∉ ins) as Hp. { intros Hin. apply NoDup_app in C6 as (_ & Hd & _). apply (Hd p Hin). by left. }
  assert (tasks w' !! p = Some t') as Hp' by (rewrite Hm; apply lookup_insert_eq).
  assert (∀ q, q ≠ p → tasks w' !! q = tasks w !! q) as Hlk by (intros q Hne; rewrite Hm; by apply lookup_insert_ne).
  split; [split; try done|].
  - intros i q Hiq. apply lookup_app_Some in Hiq as [Hiq|[Hle Hiq]].
    + destruct (C2 i q Hiq) as (t0 & Ht0 & Hid0). exists t0. rewrite He. split; [rewrite <- Ht0; apply Hlk; intros ->; apply Hp; by eapply list_elem_of_lookup_2|done].
    + apply list_lookup_singleton_Some in Hiq as [Hi0 <-]. exists t'. split; [done|]. rewrite Hid, C3, He. lia.
  - rewrite Hr, C3, He, length_app. cbn. lia.
  - rewrite Hw. intros q Hin. rewrite Hm, lookup_insert_is_Some'. right. apply C5. by right.
  - rewrite Hw, <- app_assoc. done.
  - rewrite Hx. intros q Hs. apply C7. destruct (decide (q = p)) as [->|Hne]; [by exists t|by rewrite Hlk in Hs].
  - unfold story, called, owed. rewrite Hc, Hw, Hq, <- app_assoc. f_equal. apply bind_wants. intros q _. unfold wants.
    destruct (decide (q = p)) as [->|Hne]; [by rewrite Hp', Ht, Hcb, Hctx|by rewrite Hlk].
Qed.
(** The tasks in the buffer are still first in the queue, so to say. *)
Definition requeue (ps : list Z) (w : wk) : wk := w <| worker_tasks_ ::= app ps |>.
Lemma submit_loop_ok now ps : ∀ w eng ins, worker_ok (requeue ps w) eng ins →
  wp (submit_loop now ps) (λ _ w', goes_on (requeue ps w) ins w' (ins ++ ps) ∧ worker_tasks_ w' = worker_tasks_ w) w.
Proof.
  induction ps as [|p ps IH]; intros w eng ins Hok; cbn [submit_loop]; [wp_step; rewrite app_nil_r; split; [|done]; split; [exists eng; by destruct w|]; by destruct w|].
  pose proof Hok as (Hc & He). assert (worker_tasks_ (requeue (p :: ps) w) = p :: ps ++ worker_tasks_ w) as Hq by done.
  destruct (wo_queued _ _ _ Hc p) as [t Ht]; [rewrite Hq; by left|]. cbn in Ht. unfold GetNextReqId. do 7 wp_step. eapply wp_set_task; [exact Ht|].
  wp_step. eapply wp_get_task; [cbn; apply lookup_insert_eq|]. wp_step. eapply wp_on_engine; [exact (ce_submit_law _ _ now _ p He)|]. cbv beta. intros st e He'.
  assert (∀ w1 eng1, wcore (requeue ps w1) eng1 (ins ++ [p]) → story (requeue ps w1) (ins ++ [p]) = story (requeue (p :: ps) w) ins → worker_ w1 = e → ce_ok e eng1 → running_ w1 = running_ w → worker_tasks_ w1 = worker_tasks_ w →
    wp (submit_loop now ps) (λ _ w', goes_on (requeue (p :: ps) w) ins w' (ins ++ p :: ps) ∧ worker_tasks_ w' = worker_tasks_ w) w1) as Hnext.
  { intros w1 eng1 C1 E1 We Hce R1 Q1. eapply wp_mono; [apply (IH w1 eng1 (ins ++ [p])); split; [done|]; cbn; by rewrite We|]. cbv beta.
    intros _ w2 ((Hok2 & E2 & R2) & Q2). rewrite <- app_assoc in Hok2, E2. split; [|congruence]. split; [done|]. split; [exact (eq_trans E2 E1)|]. rewrite R2. exact R1. }
  case_bool_decide as Hst; cbn [negb].
  - rewrite decide_True in He' by done. do 2 wp_step.
    match goal with |- wp _ _ ?s => destruct (number_ok (requeue (p :: ps) w) (requeue ps s) eng (eng ++ [p]) ins p (ps ++ worker_tasks_ w) t (t <| wt_req_id := req_id_ w |>)) as [A B] end; try done.
    { apply inter_snoc_l. exact (wo_inter _ _ _ Hc). }
    { cbn. rewrite (wo_inflight _ _ _ Hc : inflight_num_ w = _), length_app. cbn. lia. }
    by apply (Hnext _ (eng ++ [p])).
  - rewrite decide_False, app_nil_r in He' by done. do 2 wp_step. eapply wp_set_task; [cbn; apply lookup_insert_eq|]. wp_step.
    match goal with |- wp _ _ ?s => destruct (number_ok (requeue (p :: ps) w) (requeue ps s) eng eng ins p (ps ++ worker_tasks_ w) t (t <| wt_req_id := req_id_ w |> <| submit_r := st |>)) as [A B] end; try done.
    { apply inter_snoc_r. exact (wo_inter _ _ _ Hc). }
    { exact (wo_inflight _ _ _ Hc). }
    { cbn. by rewrite insert_insert_eq. }
    by apply (Hnext _ eng).
Qed.
(** The tasks that are not finished. *)
Definition load (w : wk) (ins : list Z) : nat := length ins + length (worker_tasks_ w).
Lemma LoopOnce_ok w eng ins now a b : worker_ok w eng ins →
  wp (LoopOnce now (S a) b) (λ _ w', ∃ ins', goes_on w ins w' ins' ∧ (load w' ins' ≤ load w ins)%nat ∧ (prompt → load w ins ≠ 0 → load w' ins' < load w ins)%nat) w.
Proof.
  intros Hok. unfold LoopOnce, DrainTasks. do 6 wp_step. set (n := Nat.min (S a) kMaxSubmitNum). set (w1 := w <| worker_tasks_ ::= drop n |>). set (ps := take n (worker_tasks_ w)).
  assert (requeue ps w1 = w) as Ew by (unfold requeue, w1, ps; destruct w; unfold upd, eta; cbn; by rewrite take_drop).
  rewrite <- Ew in Hok. wp_step. eapply wp_mono; [exact (submit_loop_ok now _ w1 eng ins Hok)|]. rewrite Ew. cbv beta. intros _ w2 (((eng2 & Hok2) & E2 & R2) & Q2).
  eapply wp_mono; [exact (polling_ok w2 eng2 _ now b Hok2)|]. cbv beta. intros _ w3 (ins3 & (Hok3 & E3 & R3) & Q3 & L3 & P3). exists ins3. split; [split; [done|]; split; congruence|].
  assert (load w ins = length (ins ++ ps) + length (worker_tasks_ w3))%nat as El.
  { unfold load. rewrite Q3, Q2, length_app, <- (take_drop n (worker_tasks_ w)) at 1. rewrite length_app. fold ps. cbn. lia. }
  rewrite El. unfold load. split; [lia|]. intros Hp Hne. assert (ins ++ ps ≠ []) as Hnn; [|specialize (P3 Hp Hnn); lia].
  intros [-> Hps]%app_nil. unfold load in El. rewrite Hps in El. unfold ps, n in Hps. destruct (worker_tasks_ w) as [|q qs]; [cbn in *; lia|]. cbn in Hps. by destruct a.
Qed.
(** A new task is the last one. *)
Lemma Schedule_ok w eng ins ctx cb comp : worker_ok w eng ins →
  wp (Schedule ctx cb comp) (λ st w', worker_ok w' eng ins ∧ st = (if running_ w then kOk else kResourceBusy) ∧
    story w' ins = story w ins ++ (if running_ w then if cb =? 0 then [] else [(cb, ctx)] else []) ∧ running_ w' = running_ w) w.
Proof.
  intros (Hc & He). pose proof Hc as [C1 C2 C3 C4 C5 C6 C7]. unfold Schedule. do 2 wp_step. destruct (running_ w) eqn:Hr; cbn [negb]; [|wp_step; split; [done|]; by rewrite app_nil_r].
  do 5 wp_step. match goal with |- worker_ok ?s _ _ ∧ _ => set (w' := s) end. set (p := next_task w) in *.
  assert (∀ q, is_Some (tasks w !! q) → tasks w' !! q = tasks w !! q) as Hlk by (intros q Hq; cbn; apply lookup_insert_ne; intros <-; apply C7 in Hq; unfold p in Hq; lia).
  assert (∀ q, q ∈ ins ++ worker_tasks_ w → is_Some (tasks w !! q)) as Hin.
  { intros q [[i Hi]%list_elem_of_lookup|Hq]%elem_of_app; [|by apply C5]. destruct (C2 i q Hi) as (t & Ht & _). by exists t. }
  split; [split; [split; try done|done]|split; [done|split; [|done]]].
  - intros i q Hi. destruct (C2 i q Hi) as (t & Ht & Hid). exists t. split; [|done]. rewrite Hlk by (by exists t). done.
  - intros q Hq. cbn in Hq. cbn. rewrite lookup_insert_is_Some'. apply elem_of_app in Hq as [Hq|Hq%list_elem_of_singleton]; [right; by apply C5|by left].
  - cbn. rewrite app_assoc. apply NoDup_app. split; [done|]. split; [|apply NoDup_singleton]. intros q Hq%Hin%C7 ->%list_elem_of_singleton. unfold p in Hq. lia.
  - intros q Hq. cbn in Hq. apply lookup_insert_is_Some' in Hq as [<-|Hq%C7]; cbn; unfold p; lia.
  - unfold story, owed. change (called w') with (called w). cbn [worker_tasks_ w' upd]. change (worker_tasks_ w') with (worker_tasks_ w ++ [p]). rewrite app_assoc, bind_app, <- app_assoc. f_equal. f_equal.
    + apply bind_wants. intros q Hq. unfold wants. by rewrite Hlk by (by apply Hin).
    + cbn. rewrite app_nil_r. unfold wants. cbn. by rewrite lookup_insert_eq.
Qed.

(** ** Runs *)

(** [worker_run w acc]: the tasks accepted so far with a callback, as callback and context. *)
Inductive worker_run : wk → list (Z * Z) → Prop :=
| wrun_start e : ce_ok e [] → worker_run (new_worker e) []
| wrun_schedule w acc ctx cb comp st w' : worker_run w acc → Schedule ctx cb comp w = Ok (st, w') →
    worker_run w' (acc ++ if decide (st = kOk ∧ cb ≠ 0) then [(cb, ctx)] else [])
| wrun_loop w acc now a b n w' : worker_run w acc → LoopOnce now (S a) b w = Ok (n, w') → worker_run w' acc
| wrun_stop w acc : worker_run w acc → worker_run (w <| running_ := false |>) acc.
Lemma worker_run_ok w acc : worker_run w acc → ∃ eng ins, worker_ok w eng ins ∧ story w ins = acc.
Proof.
  induction 1 as [e He|w acc ctx cb comp st w' _ (eng & ins & Hok & <-) Er|w acc now a b n w' _ (eng & ins & Hok & <-) Er|w acc _ (eng & ins & Hok & <-)].
  - exists [], []. split; [split; [split; cbn; try done; try apply inter_nil; try apply NoDup_nil_2; try (by intros ? [? ?]); intros p Hp; by apply elem_of_nil in Hp|done]|done].
  - destruct (wp_run _ _ _ _ _ Er (Schedule_ok w eng ins ctx cb comp Hok)) as (Hok' & Hst & Hs & _). exists eng, ins. split; [done|]. rewrite Hs. f_equal.
    destruct (running_ w); subst st; destruct (Z.eqb_spec cb 0); case_decide; naive_solver.
  - destruct (wp_run _ _ _ _ _ Er (LoopOnce_ok w eng ins now a b Hok)) as (ins' & ((eng' & Hok') & Hs & _) & _). by exists eng', ins'.
  - exists eng, ins. split; [|done]. destruct Hok as [[] ?]. by split.
Qed.

(** C12: users are called back in the order in which their tasks were accepted, once each, also
    those whose task the engine refused; the tasks not yet called for are exactly the rest. When
    the worker has no unfinished requests everybody has been called, and no loop faults. *)
Theorem callbacks_in_order w acc : worker_run w acc →
  (∃ eng ins, acc = called w ++ owed w ins ∧ worker_ok w eng ins) ∧
  (HasUnFinishedReqs w = false → called w = acc) ∧
  (∀ now a b, wp (LoopOnce now (S a) b) (λ _ _, True) w) ∧ (∀ ctx cb comp, wp (Schedule ctx cb comp) (λ _ _, True) w).
Proof.
  intros (eng & ins & Hok & <-)%worker_run_ok. split; [by exists eng, ins|]. split; [|split].
  - unfold HasUnFinishedReqs. rewrite !orb_false_iff, !negb_false_iff, !bool_decide_eq_true, Z.ltb_ge. intros [[Hn Hf] Hq]. destruct Hok as [Hc _].
    pose proof (wo_inflight _ _ _ Hc) as Hi. pose proof (wo_inter _ _ _ Hc) as Hx. destruct eng; [|cbn in Hi; lia]. rewrite Hf in Hx. inversion Hx; subst.
    unfold story, owed. rewrite Hq. cbn. by rewrite app_nil_r.
  - intros now a b. eapply wp_mono; [exact (LoopOnce_ok w eng ins now a b Hok)|]. done.
  - intros ctx cb comp. eapply wp_mono; [by apply (Schedule_ok w eng ins)|]. done.
Qed.

(** ** Leaving *)

Lemma unfinished_load w eng ins : worker_ok w eng ins → HasUnFinishedReqs w = false ↔ load w ins = 0%nat.
Proof.
  intros [Hc _]. pose proof (wo_inflight _ _ _ Hc) as Hi. pose proof (wo_inter _ _ _ Hc) as Hx. unfold HasUnFinishedReqs, load.
  rewrite !orb_false_iff, !negb_false_iff, !bool_decide_eq_true, Z.ltb_ge. split.
  - intros [[Hn Hf] Hq]. destruct eng; [|cbn in Hi; lia]. rewrite Hf in Hx. inversion Hx; subst. by rewrite Hq.
  - intros E0. destruct ins; [|cbn in E0; lia]. destruct (worker_tasks_ w); [|cbn in E0; lia]. assert (eng = [] ∧ submit_failed_tasks_ w = []) as [-> Ef] by (by inversion Hx). rewrite Ef, Hi. cbn. split_and!; done || lia.
Qed.
Lemma uninit_loop_ok clock fuel : ∀ w eng ins, worker_ok w eng ins → prompt → (load w ins < fuel)%nat →
  wp (uninit_loop fuel clock) (λ _ w', HasUnFinishedReqs w' = false ∧ called w' = story w ins) w.
Proof.
  induction fuel as [|fuel IH]; intros w eng ins Hok Hp Hl; [lia|]. cbn [uninit_loop]. do 2 wp_step. pose proof (unfinished_load w eng ins Hok) as Hu. destruct (HasUnFinishedReqs w) eqn:Hh.
  - wp_step. eapply wp_mono; [exact (LoopOnce_ok w eng ins (clock fuel) 127 _ Hok)|]. cbv beta. intros _ w1 (ins1 & ((eng1 & Hok1) & E1 & R1) & _ & P1).
    assert (load w ins ≠ 0)%nat as Hne by (intros E0; apply Hu in E0; done). specialize (P1 Hp Hne). rewrite <- E1. apply (IH w1 eng1 ins1 Hok1 Hp). lia.
  - wp_step. split; [done|]. assert (load w ins = 0)%nat as E0 by (by apply Hu). unfold load in E0. unfold story, owed. destruct ins; [|cbn in E0; lia].
    destruct (worker_tasks_ w); [|cbn in E0; lia]. cbn. by rewrite app_nil_r.
Qed.

(** Tasks that were given a number and are not yet called back, and tasks in the queue. *)
Definition unfinished (w : wk) : nat := Z.to_nat (req_id_ w - expected_req_id_ w) + length (worker_tasks_ w).
(** C13: when every poll of the engine that owes results brings one, the worker can be left:
    the loop ends, after no more iterations than there are unfinished tasks, and everybody has
    been called back, in order. *)
Theorem uninit_joins w acc : worker_run w acc → prompt →
  ∀ fuel clock, (unfinished w < fuel)%nat → wp (Uninit fuel clock) (λ _ w', HasUnFinishedReqs w' = false ∧ called w' = acc) w.
Proof.
  intros (eng & ins & Hok & <-)%worker_run_ok Hp fuel clock Hf. unfold Uninit. do 2 wp_step.
  assert (load w ins < fuel)%nat as Hl by (unfold load; unfold unfinished in Hf; rewrite (wo_next _ _ _ (proj1 Hok)) in Hf; lia).
  assert (worker_ok (w <| running_ := false |>) eng ins) as Hok' by (destruct Hok as [[] ?]; by split). exact (uninit_loop_ok clock fuel _ eng ins Hok' Hp Hl).
Qed.

(** An engine that answers nothing and takes nothing. *)
Definition dead (e : E) : Prop :=
  (∀ now n, ce_poll now n e = Ok (None, e)) ∧ (∀ now comp ctx, ∃ st, st ≠ kOk ∧ ce_submit now comp ctx e = Ok (st, e)).
(** [w'] has the requests in flight of [w]. *)
Definition holds (w : wk) (eng : list Z) (w' : wk) : Prop := ∃ ins, wcore w' eng ins ∧ worker_ w' = worker_ w.
Lemma dead_submit now ps : ∀ w eng ins, worker_ok (requeue ps w) eng ins → dead (worker_ w) →
  wp (submit_loop now ps) (λ _ w', holds w eng w') w.
Proof.
  induction ps as [|p ps IH]; intros w eng ins Hok Hd; cbn [submit_loop]; [wp_step; exists ins; split; [|done]; by destruct w, Hok|].
  pose proof Hok as (Hc & He). destruct (wo_queued _ _ _ Hc p) as [t Ht]; [by left|]. cbn in Ht. unfold GetNextReqId. do 7 wp_step. eapply wp_set_task; [exact Ht|].
  wp_step. eapply wp_get_task; [cbn; apply lookup_insert_eq|]. wp_step. destruct (proj2 Hd now (direction (t <| wt_req_id := req_id_ w |>)) p) as (st & Hst & Es).
  eapply (wp_on_engine _ (λ s e, s = st ∧ e = worker_ w)); [unfold wp; cbn [worker_ upd]; cbn; cbn in Es; by rewrite Es|]. cbv beta. intros ? ? [-> ->].
  rewrite bool_decide_eq_false_2 by done. cbn [negb]. do 2 wp_step. eapply wp_set_task; [cbn; apply lookup_insert_eq|]. wp_step.
  match goal with |- wp _ _ ?s => set (w1 := s) end.
  destruct (number_ok (requeue (p :: ps) w) (requeue ps w1) eng eng ins p (ps ++ worker_tasks_ w) t (t <| wt_req_id := req_id_ w |> <| submit_r := st |>)) as [A B]; try done.
  { apply inter_snoc_r. exact (wo_inter _ _ _ Hc). }
  { exact (wo_inflight _ _ _ Hc). }
  { cbn. by rewrite insert_insert_eq. }
  apply (IH w1 eng (ins ++ [p])); [|done]. split; [exact A|exact He].
Qed.
Lemma dead_loop w eng ins now a b : worker_ok w eng ins → dead (worker_ w) → wp (LoopOnce now a b) (λ _ w', holds w eng w') w.
Proof.
  intros Hok Hd. unfold LoopOnce, DrainTasks. do 6 wp_step. set (n := Nat.min a kMaxSubmitNum). set (w1 := w <| worker_tasks_ ::= drop n |>). set (ps := take n (worker_tasks_ w)).
  assert (requeue ps w1 = w) as Ew by (unfold requeue, w1, ps; destruct w; unfold upd, eta; cbn; by rewrite take_drop).
  rewrite <- Ew in Hok. wp_step. eapply wp_mono; [exact (dead_submit now ps w1 eng ins Hok Hd)|]. cbv beta. intros _ w2 (ins2 & C2 & E2). cbn in E2.
  unfold PollingAndMerge. wp_step. rewrite <- E2 in Hd. eapply (wp_on_engine _ (λ o e, o = None ∧ e = worker_ w2)); [unfold wp; by rewrite (proj1 Hd)|]. cbv beta. intros ? ? [-> ->].
  apply (wcore_engine _ _ _ (worker_ w2)) in C2. wp_step. eapply wp_mono; [by apply (drain_failed_ok _ _ _ C2)|]. cbv beta. intros k w3 ((S1 & _) & _ & ins3 & C3 & _). wp_step.
  exists ins3. split; [done|]. rewrite S1. exact E2.
Qed.
Lemma dead_uninit_loop clock fuel : ∀ w eng ins, worker_ok w eng ins → dead (worker_ w) → eng ≠ [] → uninit_loop fuel clock w = Err OutOfFuel.
Proof.
  induction fuel as [|fuel IH]; intros w eng ins Hok Hd Hne; [done|]. cbn [uninit_loop]. unfold mbind at 1, ST_bind at 1, get at 1.
  assert (HasUnFinishedReqs w = true) as ->.
  { destruct (HasUnFinishedReqs w) eqn:Hh; [done|]. exfalso. apply (unfinished_load w eng ins Hok) in Hh. unfold load in Hh. pose proof (wo_inter _ _ _ (proj1 Hok)) as Hx.
    destruct ins; [|cbn in Hh; lia]. inversion Hx; subst. done. }
  pose proof (dead_loop w eng ins (clock fuel) kMaxSubmitNum kMaxPollingNum Hok Hd) as Hl. unfold wp in Hl. unfold mbind, ST_bind.
  destruct (LoopOnce (clock fuel) kMaxSubmitNum kMaxPollingNum w) as [[k w']|]; [|done]. destruct Hl as (ins' & C' & E'). apply (IH w' eng ins'); [|by rewrite E'|done].
  split; [done|]. rewrite E'. by apply Hok.
Qed.

(** C34: a worker whose engine has died with requests in flight cannot be left: the loop that
    waits for them never ends, whatever the time, and neither does the thread of the poller. *)
Theorem uninit_hangs w acc : worker_run w acc → dead (worker_ w) → 0 < inflight_num_ w → ∀ fuel clock, Uninit fuel clock w = Err OutOfFuel.
Proof.
  intros (eng & ins & Hok & _)%worker_run_ok Hd Hn fuel clock. unfold Uninit, mbind, ST_bind, modify. cbn.
  apply (dead_uninit_loop clock fuel _ eng ins); [destruct Hok as [[] ?]; by split|exact Hd|]. intros ->. pose proof (wo_inflight _ _ _ (proj1 Hok)) as Hi. cbn in Hi. lia.
Qed.
End worker.

(** ** The QAT engine *)

(** The engine of QatEngine.v does what a worker needs, as long as memory for timers does not
    run out. *)
Section qat.
Context {H : Type} {QD : QatDevice H} {Tm : Type} {TI : TimerService Tm} {TC : TimerClear Tm}.
Context (to_us : Z → Z) (trigger : nat) (algo : CodecAlgorithm) (level : CodecCompLevel).
Context (room : ∀ t l, ts_ok t l → ts_room t).
#[refine] Definition qat_codec_engine : CodecEngine QatCodecEngine := {|
  ce_submit now comp ctx := SubmitAsyncRequest to_us trigger now comp algo level ctx;
  ce_poll now n := Poll to_us trigger now n;
  ce_ok e l := ∃ p, qat_ok e p ∧ pending e p = l |}.
Proof.
  - intros e l now comp ctx (p & Hok & <-). eapply wp_mono; [apply (Submit_ok to_us trigger e p); [done|]|].
    + eapply room. exact (proj1 (proj2 Hok)).
    + cbv beta. intros st e' (p' & Hok' & P'). by exists p'.
  - intros e l now n (p & Hok & <-). eapply wp_mono; [by apply (qpoll_ok to_us trigger e p)|]. cbv beta. intros o e' [(p' & Hok' & P') _].
    exists (pending e' p'). split; [done|]. by exists p'.
Defined.

(** A fatal engine without buffered results is dead. *)
Lemma fatal_dead e : supported algo level = true → is_fatal_ e = true → codec_results_ e = [] → dead (CE := qat_codec_engine) e.
Proof.
  intros Hs Hf Hr. destruct (fatal_stuck to_us trigger e Hf Hr) as [Hp Hq]. split; [exact Hp|]. intros now comp ctx. exists kPermanentError. split; [done|]. by apply Hq.
Qed.
End qat.

(** ** A worker at work *)

(** An engine that holds two requests at a time and answers all of them in the next poll; a
    mortal one breaks after [lives] submissions. *)
Record toy := MkToy { owing : list Z; lives : nat }.
Definition broken (mortal : bool) (e : toy) : bool := mortal && Nat.eqb (lives e) 0.
Definition toy_submit (mortal : bool) (ctx : Z) : ST toy StatusCode :=
  e ← get;
  if broken mortal e then mret kPermanentError
  else if Nat.ltb (length (owing e)) 2 then modify (λ e, MkToy (owing e ++ [ctx]) (pred (lives e)));; mret kOk else mret kResourceBusy.
Definition toy_poll (mortal : bool) (n : nat) : ST toy (option (list CodecResult)) :=
  e ← get;
  if broken mortal e then mret None
  else modify (λ e, MkToy (drop n (owing e)) (lives e));; mret (Some ((λ c, MkCodecResult 10 5 0 0 kOk c) <$> take n (owing e))).
#[refine] Definition toy_engine (mortal : bool) : CodecEngine toy := {|
  ce_submit _ _ := toy_submit mortal; ce_poll _ := toy_poll mortal; ce_ok e l := owing e = l |}.
Proof.
  - intros e l _ _ ctx <-. unfold toy_submit. do 2 wp_step. destruct (broken mortal e); [wp_step; by rewrite app_nil_r|]. destruct (Nat.ltb _ _); [by do 3 wp_step|wp_step; by rewrite app_nil_r].
  - intros e l _ n <-. unfold toy_poll. do 2 wp_step. destruct (broken mortal e); [wp_step; by exists (owing e)|]. do 3 wp_step. exists (drop n (owing e)). split; [|done].
    cbn. rewrite <- list_fmap_compose. cbn. rewrite list_fmap_id. symmetry. apply take_drop.
Defined.
Lemma toy_prompt : prompt (CE := toy_engine false).
Proof. intros e l now n <- Hne. cbn. unfold toy_poll. do 2 wp_step. cbn. do 3 wp_step. destruct (owing e); done. Qed.

Definition result {S A} (m : ST S A) (s : S) : S := match m s with Ok (_, s') => s' | Err _ => s end.
Lemma result_run {S A} (m : ST S A) s a : match m s with Ok (a', _) => a' = a | Err _ => False end → m s = Ok (a, result m s).
Proof. unfold result. by destruct (m s) as [[a' s']|]; [intros ->|]. Qed.
Section demo.
Context (mortal : bool).
#[local] Instance demo_engine : CodecEngine toy := toy_engine mortal.
Definition demo_start : QatPollerWorker := new_worker (MkToy [] 1).
Definition demo_queued : QatPollerWorker := result (Schedule 7 70 true) demo_start.
Definition demo_both : QatPollerWorker := result (Schedule 8 80 false) demo_queued.
Definition demo_looped : QatPollerWorker := result (LoopOnce 5 kMaxSubmitNum kMaxPollingNum) demo_both.
Lemma demo_both_run : worker_run demo_both [(70, 7); (80, 8)].
Proof.
  assert (worker_run demo_queued [(70, 7)]) as Hq.
  { change [(70, 7)] with ([] ++ if decide (kOk = kOk ∧ 70 ≠ 0) then [(70, 7)] else []). eapply (wrun_schedule demo_start [] 7 70 true); [by apply wrun_start|]. apply result_run. vm_compute. reflexivity. }
  change [(70, 7); (80, 8)] with ([(70, 7)] ++ if decide (kOk = kOk ∧ 80 ≠ 0) then [(80, 8)] else []).
  eapply (wrun_schedule demo_queued [(70, 7)] 8 80 false); [exact Hq|]. apply result_run. vm_compute. reflexivity.
Qed.
End demo.
Lemma demo_looped_run : worker_run (CE := toy_engine true) (demo_looped true) [(70, 7); (80, 8)].
Proof.
  eapply (wrun_loop (CE := toy_engine true) demo_both [(70, 7); (80, 8)] 5 127 kMaxPollingNum (-1)); [apply demo_both_run|]. refine (result_run (LoopOnce (CE := toy_engine true) 5 kMaxSubmitNum kMaxPollingNum) demo_both (-1) _). vm_compute. reflexivity.
Qed.

(** Three tasks, of which the engine refuses the third for now. *)
Example demo_three : let w := result (Schedule 7 70 true;; Schedule 8 80 true;; Schedule 9 90 true) demo_start in
  let w1 := result (LoopOnce (CE := toy_engine false) 5 128 128) w in let w2 := result (LoopOnce (CE := toy_engine false) 6 128 128) w1 in
  called w1 = [(70, 7); (80, 8)] ∧ called w2 = [(70, 7); (80, 8); (90, 9)] ∧ ((λ c, cr_status c.2) <$> calls w2) = [kOk; kOk; kResourceBusy].
Proof. vm_compute. auto. Qed.

Lemma callbacks_in_order_witness : ∃ eng ins, [(70, 7); (80, 8)] = called demo_both ++ owed demo_both ins ∧ worker_ok (CE := toy_engine true) demo_both eng ins.
Proof. exact (proj1 (callbacks_in_order (CE := toy_engine true) demo_both _ (demo_both_run true))). Defined.
Lemma uninit_joins_witness : unfinished demo_both = 2%nat ∧ ∀ clock,
  wp (Uninit (CE := toy_engine false) 3 clock) (λ _ w', HasUnFinishedReqs w' = false ∧ called w' = [(70, 7); (80, 8)]) demo_both.
Proof.
  split; [vm_compute; reflexivity|]. intros clock. apply (uninit_joins (CE := toy_engine false) demo_both _ (demo_both_run false) toy_prompt).
  replace (unfinished demo_both) with 2%nat by (vm_compute; reflexivity). lia.
Defined.
Lemma uninit_hangs_witness : called (demo_looped true) = [] ∧ ∀ fuel clock, Uninit (CE := toy_engine true) fuel clock (demo_looped true) = Err OutOfFuel.
Proof.
  split; [vm_compute; reflexivity|]. apply (uninit_hangs (CE := toy_engine true) (demo_looped true) _ demo_looped_run); [|vm_compute; reflexivity].
  split; [intros now n; vm_compute; reflexivity|]. intros now comp ctx. exists kPermanentError. split; [done|]. vm_compute. reflexivity.
Defined.
