(* ===== verification/KaeChannel.v ===== *)
(** * The KAE codec channel (src/src/codec/kae/kae_codec_channel.h, kae_codec_channel.cc, kae_util.h)

    Requests go to one of two sessions of the Kunpeng accelerator with a context from a pool;
    polling a session calls back for the requests that are done, in any order, and a ring puts
    the results in the order of submission. The sessions are the interface [KaeDevice]. The
    header of the driver is not part of the repository; its success code is zero. Metrics and
    the translation of addresses are not modelled. *)

From Stdlib Require Import ZArith Lia.
From stdpp Require Import prelude gmap.
From S2P Require Import Prelude Status Checksum ChecksumCombine ReqRingQueue QatEngine.
Open Scope Z_scope.

(** ** The driver *)

Inductive KaeStatus :=
| KAE_ZLIB_SUCC | KAE_ZLIB_INVAL_PARA | KAE_ZLIB_INIT_FAIL | KAE_ZLIB_ALLOC_FAIL | KAE_ZLIB_HW_TIMEOUT_FAIL | KAE_ZLIB_DST_BUF_OVERFLOW
| KAE_ZLIB_COMP_FAIL | KAE_ZLIB_SET_FAIL | KAE_ZLIB_RELEASE_FAIL | KAE_OTHER.
#[export] Instance KaeStatus_eq_dec : EqDecision KaeStatus.
Proof. solve_decision. Defined.
Definition KaeStatusToStatusCode (s : KaeStatus) : StatusCode :=
  match s with
  | KAE_ZLIB_SUCC => kOk
  | KAE_ZLIB_INVAL_PARA => kInvalidArgument
  | KAE_ZLIB_INIT_FAIL => kChannelError
  | KAE_ZLIB_ALLOC_FAIL => kResourceBusy
  | KAE_ZLIB_HW_TIMEOUT_FAIL => kTimeout
  | KAE_ZLIB_DST_BUF_OVERFLOW => kOverflow
  | _ => kUnknown
  end.

(** What a callback gets; [kr_user_data] is the context, by its place in the pool. *)
Record kaezip_result := MkKr { kr_user_data : Z; kr_status : KaeStatus; src_size : Z; kr_dst_len : Z }.
(** [kd_ok h l]: the contexts [l] are in the sessions. Polling calls back for some of them. *)
Class KaeDevice (H : Type) := {
  kd_submit : bool → Z → ST H KaeStatus;
  kd_poll : bool → Z → ST H (list kaezip_result);
  kd_ok : H → list Z → Prop;
  kd_perm h l l' : kd_ok h l → l ≡ₚ l' → kd_ok h l';
  kd_submit_law h l comp k : kd_ok h l → wp (kd_submit comp k) (λ r h', kd_ok h' (if decide (r = KAE_ZLIB_SUCC) then k :: l else l)) h;
  kd_poll_law h l comp n : kd_ok h l → wp (kd_poll comp n) (λ rs h', ∃ l', l ≡ₚ (kr_user_data <$> rs) ++ l' ∧ kd_ok h' l') h }.

(** ** State *)

Definition MAX_KAE_CONCURRENCY : Z := 1024.
Definition VESAL_MAX_SGL_NUM : nat := 32.

(** [src_bufs] is the array of [src_buffer_list], as address and length, and [buf_num] how many of
    its entries are used. *)
Record ReqContext := MkCtx {
  kc_req_id : Z; req_ring_id : Z; src_bufs : list (Z * Z); buf_num : nat; dst_bufs : list (Z * Z); usr_ctx : Z; is_compress : bool }.
#[export] Instance eta_ReqContext : Eta ReqContext := λ c,
  MkCtx (kc_req_id c) (req_ring_id c) (src_bufs c) (buf_num c) (dst_bufs c) (usr_ctx c) (is_compress c).

Section channel.
Context {H : Type} {KD : KaeDevice H}.
(** The bytes at an address, and the feature bits of the processor. *)
Context (read : Z → Z → list Z) (ecx : Z).

(** [crc32] says whether the channel computes checksums, [user_cb] whether it has a callback,
    whose calls are recorded. *)
Record KaeCodecChannel := MkKae {
  sess_ : H; kae_req_id_ : Z; kae_inflight_num_ : Z; inflight_req_queue_ : InflightReqRingQueue (Result := CodecResult);
  req_context_pool_ : gmap Z ReqContext; closed_ : bool; crc32 : bool; user_cb : bool; cb_calls : list CodecResult }.
#[local] Instance eta_KaeCodecChannel : Eta KaeCodecChannel := λ s,
  MkKae (sess_ s) (kae_req_id_ s) (kae_inflight_num_ s) (inflight_req_queue_ s) (req_context_pool_ s) (closed_ s) (crc32 s) (user_cb s) (cb_calls s).
Abbreviation chan := KaeCodecChannel.
Definition on_sess {A} (m : ST H A) : ST chan A := λ s,
  match m (sess_ s) with Ok (a, h) => Ok (a, s <| sess_ := h |>) | Err x => Err x end.
Definition on_ring {A} (m : ST (InflightReqRingQueue (Result := CodecResult)) A) : ST chan A := λ s,
  match m (inflight_req_queue_ s) with Ok (a, q) => Ok (a, s <| inflight_req_queue_ := q |>) | Err x => Err x end.

Definition no_result : CodecResult := MkCodecResult 0 0 0 0 kUnknown 0.
Definition new_ctx : ReqContext := MkCtx 0 0 (replicate VESAL_MAX_SGL_NUM (0, 0)) 0 [(0, 0)] 0 false.
(** The constructor and [Init], when the sessions could be created. *)
Definition new_channel (h : H) (crc cb : bool) : chan :=
  MkKae h 0 0 (new_ring no_result MAX_KAE_CONCURRENCY) (list_to_map ((λ k, (k, new_ctx)) <$> seqZ 0 MAX_KAE_CONCURRENCY)) false crc cb [].

(** ** Submission *)

(** [std::accumulate] with an [int] as the initial value. *)
Definition accumulate (l : list Z) : Z := foldl (λ acc x, s32 (u32 (u32 acc + x))) 0 l.
Definition ArgsCheck (src src_len : list Z) (dst dst_len : Z) : StatusCode :=
  if bool_decide (src = []) || bool_decide (src_len = []) || (dst =? 0) || (dst_len =? 0) then kInvalidArgument
  else if negb (Nat.eqb (length src) (length src_len)) then kInvalidArgument
  else if Nat.ltb 255 (length src) || (Z.shiftl 8 20 <? accumulate src_len) then kInvalidArgument
  else kOk.
(** [buf[i] = x] for all entries. *)
Fixpoint fill_bufs (i : nat) (xs : list (Z * Z)) (buf : list (Z * Z)) : res (list (Z * Z)) :=
  match xs with
  | [] => Ok buf
  | x :: xs => if Nat.ltb i (length buf) then fill_bufs (S i) xs (<[i := x]> buf) else Err OutOfBounds
  end.
Definition kae_slot (id : Z) : Z := Z.land id (MAX_KAE_CONCURRENCY - 1).
Definition get_ctx (k : Z) : ST chan ReqContext := s ← get; need NullDeref (req_context_pool_ s !! k).
Definition put_ctx (k : Z) (c : ReqContext) : ST chan unit := modify (λ s, s <| req_context_pool_ ::= <[k := c]> |>).
Definition PrepareCtx (k : Z) (src src_len : list Z) (dst dst_len ctx : Z) : ST chan unit :=
  s ← get;
  c ← get_ctx k;
  bufs ← lift (fill_bufs 0 (zip src src_len) (src_bufs c));
  dbufs ← lift (fill_bufs 0 [(dst, dst_len)] (dst_bufs c));
  put_ctx k (c <| usr_ctx := ctx |> <| kc_req_id := kae_req_id_ s |> <| src_bufs := bufs |> <| buf_num := length src |> <| dst_bufs := dbufs |>).
(** [CompressSGLAsync] and [DecompressSGLAsync], which differ in the session and the flag. *)
Definition SGLAsync (comp : bool) (src src_len : list Z) (dst dst_len ctx : Z) : ST chan StatusCode :=
  let ret := ArgsCheck src src_len dst dst_len in
  if negb (bool_decide (ret = kOk)) then mret ret
  else
    s ← get;
    if kae_inflight_num_ s =? MAX_KAE_CONCURRENCY then mret kResourceBusy
    else
      let k := kae_slot (kae_req_id_ s) in
      PrepareCtx k src src_len dst dst_len ctx;;
      c ← get_ctx k;
      put_ctx k (c <| is_compress := comp |>);;
      r ← on_sess (kd_submit comp k);
      if negb (bool_decide (r = KAE_ZLIB_SUCC)) then mret (KaeStatusToStatusCode r)
      else
        modify (λ s, s <| kae_req_id_ := u64 (kae_req_id_ s + 1) |>);;
        modify (λ s, s <| kae_inflight_num_ := u32 (kae_inflight_num_ s + 1) |>);;
        id ← on_ring NewReq;
        c ← get_ctx k;
        put_ctx k (c <| req_ring_id := id |>);;
        mret kOk.
Definition CompressSGLAsync := SGLAsync true.
Definition DecompressSGLAsync := SGLAsync false.

(** ** Completion *)

(** The copies of the segments to the buffer of [len] bytes, from [offset] on. *)
Fixpoint gather (bufs : list (Z * Z)) (len : Z) (acc : list Z) : res (list Z) :=
  match bufs with
  | [] => Ok acc
  | (a, n) :: bufs => if len <? Z.of_nat (length acc) + n then Err OutOfBounds else gather bufs len (acc ++ read a n)
  end.
Definition SwCalcCRC32 (bufs : list (Z * Z)) (len : Z) : res Z :=
  match bufs with
  | [(a, _)] => ComputeCRC32 ecx kCrc32cInitialValue (read a len)
  | _ =>
      data ← gather bufs len [];
      ComputeCRC32 ecx kCrc32cInitialValue (take (Z.to_nat len) (data ++ replicate (Z.to_nat len - length data) 0))
  end.
Definition KaeCallback (x : kaezip_result) : ST chan unit :=
  c ← get_ctx (kr_user_data x);
  s ← get;
  let st := KaeStatusToStatusCode (kr_status x) in
  let r := MkCodecResult (u32 (src_size x)) (u32 (kr_dst_len x)) 0 0 st (usr_ctx c) in
  r ← (if crc32 s && bool_decide (st = kOk) then
         i ← lift (SwCalcCRC32 (take (buf_num c) (src_bufs c)) (consumed r));
         o ← lift (SwCalcCRC32 (dst_bufs c) (produced r));
         mret (r <| in_checksum := i |> <| out_checksum := o |>)
       else mret r);
  on_ring (PushResult r (req_ring_id c));;
  modify (λ s, s <| kae_inflight_num_ := u32 (kae_inflight_num_ s - 1) |>).
Fixpoint kae_callbacks (xs : list kaezip_result) : ST chan unit :=
  match xs with
  | [] => mret ()
  | x :: xs => KaeCallback x;; kae_callbacks xs
  end.
(** [PopResults] takes an [int]. The histogram that gets the time of the callbacks is never
    created. *)
Definition Poll (max_num : Z) : ST chan (list CodecResult) :=
  s ← get;
  xs ← on_sess (kd_poll true (kae_inflight_num_ s));
  kae_callbacks xs;;
  s ← get;
  xs ← on_sess (kd_poll false (kae_inflight_num_ s));
  kae_callbacks xs;;
  rs ← on_ring (PopResults (s32 max_num));
  s ← get;
  (if user_cb s && negb (bool_decide (rs = [])) then modify (λ s, s <| cb_calls ::= λ l, l ++ rs |>);; raise NullDeref else mret ());;
  mret rs.
(** [while (Poll(&res, 1, -1) == 0);] *)
Fixpoint wait_one (fuel : nat) : ST chan CodecResult :=
  match fuel with
  | O => raise OutOfFuel
  | S fuel => rs ← Poll 1; match rs with [] => wait_one fuel | r :: _ => mret r end
  end.
(** [CompressSGL] and [DecompressSGL]. *)
Definition SGLSync (fuel : nat) (comp : bool) (src src_len : list Z) (dst dst_len : Z) : ST chan CodecResult :=
  submit_r ← SGLAsync comp src src_len dst dst_len 0;
  if negb (bool_decide (submit_r = kOk)) then mret (no_result <| cr_status := submit_r |>) else wait_one fuel.
(** The arrays of the contexts are freed; nothing may be written to them any more. *)
Definition Close : ST chan Status :=
  s ← get;
  if closed_ s then mret OkStatus
  else
    modify (λ s, s <| req_context_pool_ ::= fmap (λ c, c <| src_bufs := [] |> <| dst_bufs := [] |>) |> <| closed_ := true |>);;
    mret OkStatus.

(** ** The invariant

    [p] are the requests without a delivered result, with their results once there are some;
    [cs] are their contexts and [l] the places of those the device still has. *)

Definition ring_of (s : chan) := inflight_req_queue_ s.
Definition place (s : chan) (i : nat) : Z := (head_id (ring_of s) + Z.of_nat i) mod MAX_KAE_CONCURRENCY.
Record kae_core (s : chan) (p : list (option CodecResult)) (cs l : list Z) : Prop := {
  kk_ring : holds (ring_of s) p;
  kk_size : size_ (ring_of s) = MAX_KAE_CONCURRENCY;
  kk_next : kae_req_id_ s = tail_id (ring_of s);
  kk_len : length cs = length p;
  kk_done : ∀ i r, p !! i = Some (Some r) → cs !! i = Some (cr_ctx r);
  kk_nodup : NoDup l;
  kk_flight : ∀ k, k ∈ l ↔ ∃ i, p !! i = Some None ∧ k = place s i;
  kk_num : kae_inflight_num_ s = Z.of_nat (length l);
  kk_ctx : ∀ i, p !! i = Some None → ∃ c, req_context_pool_ s !! place s i = Some c ∧ req_ring_id c = head_id (ring_of s) + Z.of_nat i ∧ cs !! i = Some (usr_ctx c) ∧
    (crc32 s = true → buf_num c = 1%nat);
  kk_pool : ∀ k, 0 <= k < MAX_KAE_CONCURRENCY → ∃ c, req_context_pool_ s !! k = Some c ∧ length (src_bufs c) = VESAL_MAX_SGL_NUM ∧ length (dst_bufs c) = 1%nat;
  kk_silent : user_cb s = false }.
Definition kae_ok (s : chan) (p : list (option CodecResult)) (cs l : list Z) : Prop := kae_core s p cs l ∧ kd_ok (sess_ s) l.

Lemma kae_slot_mod id : kae_slot id = id mod MAX_KAE_CONCURRENCY.
Proof. unfold kae_slot, MAX_KAE_CONCURRENCY. change (1024 - 1) with (Z.ones 10). by rewrite Z.land_ones. Qed.
Lemma place_range s i : 0 <= place s i < MAX_KAE_CONCURRENCY.
Proof. apply Z.mod_pos_bound. done. Qed.
Lemma place_inj s p cs l i j : kae_core s p cs l → (i < length p)%nat → (j < length p)%nat → place s i = place s j → i = j.
Proof.
  intros Hc Hi Hj E. pose proof (h_room _ _ (kk_ring _ _ _ _ Hc)) as Hr. rewrite (kk_size _ _ _ _ Hc) in Hr. unfold place in E.
  assert (head_id (ring_of s) + Z.of_nat i = head_id (ring_of s) + Z.of_nat j) as Ee; [|lia].
  eapply (ring_slot_inj MAX_KAE_CONCURRENCY (head_id (ring_of s))); [done|lia|lia|by rewrite E].
Qed.
Lemma wp_on_sess {A} (m : ST H A) P (Q : A → chan → Prop) s : wp m P (sess_ s) → (∀ a h, P a h → Q a (s <| sess_ := h |>)) → wp (on_sess m) Q s.
Proof. unfold wp, on_sess. destruct (m (sess_ s)) as [[a h]|]; [|done]. eauto. Qed.
Lemma wp_on_ring {A} (m : ST _ A) P (Q : A → chan → Prop) s : wp m P (ring_of s) → (∀ a q, P a q → Q a (s <| inflight_req_queue_ := q |>)) → wp (on_ring m) Q s.
Proof. unfold wp, on_ring, ring_of. destruct (m (inflight_req_queue_ s)) as [[a q]|]; [|done]. eauto. Qed.
Lemma wp_get_kctx k c (s : chan) (Q : ReqContext → chan → Prop) : req_context_pool_ s !! k = Some c → Q c s → wp (get_ctx k) Q s.
Proof. intros Hk HQ. unfold get_ctx. do 2 wp_step. by eapply wp_need. Qed.
Lemma fill_bufs_ok xs : ∀ i buf, (i + length xs ≤ length buf)%nat → ∃ buf', fill_bufs i xs buf = Ok buf' ∧ length buf' = length buf.
Proof.
  induction xs as [|x xs IH]; intros i buf Hi; cbn [fill_bufs]; [by exists buf|]. cbn in Hi. rewrite (proj2 (Nat.ltb_lt _ _)) by lia.
  destruct (IH (S i) (<[i:=x]> buf)) as (b & Hb & Hl); [rewrite length_insert; lia|]. exists b. split; [done|]. by rewrite length_insert in Hl.
Qed.
(** A context that is not in use is prepared. *)
Lemma PrepareCtx_ok s k c src src_len dst dst_len ctx :
  req_context_pool_ s !! k = Some c → length (src_bufs c) = VESAL_MAX_SGL_NUM → length (dst_bufs c) = 1%nat → (length src ≤ VESAL_MAX_SGL_NUM)%nat →
  wp (PrepareCtx k src src_len dst dst_len ctx) (λ _ s', ∃ c', s' = s <| req_context_pool_ ::= <[k := c']> |> ∧ usr_ctx c' = ctx ∧ buf_num c' = length src ∧
    length (src_bufs c') = VESAL_MAX_SGL_NUM ∧ length (dst_bufs c') = 1%nat) s.
Proof.
  intros Hk Hs Hd Hn. unfold PrepareCtx. do 3 wp_step. eapply wp_get_kctx; [exact Hk|].
  destruct (fill_bufs_ok (zip src src_len) 0 (src_bufs c)) as (b & -> & Hb); [rewrite length_zip; lia|]. destruct (fill_bufs_ok [(dst, dst_len)] 0 (dst_bufs c)) as (b' & -> & Hb'); [cbn; lia|].
  do 4 wp_step. unfold put_ctx. wp_step. eexists. split; [reflexivity|]. cbn. split_and!; [done|done|congruence|congruence].
Qed.
(** The next request's context is not in use. *)
Lemma free_write s p cs l c : kae_core s p cs l → Z.of_nat (length p) < MAX_KAE_CONCURRENCY → length (src_bufs c) = VESAL_MAX_SGL_NUM → length (dst_bufs c) = 1%nat →
  kae_core (s <| req_context_pool_ ::= <[kae_slot (kae_req_id_ s) := c]> |>) p cs l.
Proof.
  intros Hc Hlt Hb Hd. pose proof Hc as [K1 K2 K3 K4 K5 K6 K7 K8 K9 K10 K11]. split; try done; cbn.
  - intros i Hi. destruct (K9 i Hi) as (c0 & Hc0 & Hrest). exists c0. split; [|exact Hrest]. rewrite lookup_insert_ne; [exact Hc0|].
    rewrite kae_slot_mod, K3, (h_tail _ _ K1). intros E. change (place (s <| req_context_pool_ ::= <[kae_slot (kae_req_id_ s) := c]> |>) i) with (place s i) in E. unfold place in E.
    pose proof (lookup_lt_Some _ _ _ Hi). assert (head_id (ring_of s) + Z.of_nat (length p) = head_id (ring_of s) + Z.of_nat i) as Ee; [|lia].
    eapply (ring_slot_inj MAX_KAE_CONCURRENCY (head_id (ring_of s))); [done|lia|lia|by rewrite E].
  - intros k Hk. destruct (decide (k = kae_slot (kae_req_id_ s))) as [->|Hne]; [exists c; by rewrite lookup_insert_eq|]. rewrite lookup_insert_ne by done. by apply K10.
Qed.
Lemma flight_length s p cs l : kae_core s p cs l → (length l ≤ length p)%nat.
Proof.
  intros Hc. assert (length p = length (place s <$> seq 0 (length p))) as -> by (by rewrite length_fmap, length_seq). apply submseteq_length, NoDup_submseteq; [apply (kk_nodup _ _ _ _ Hc)|].
  intros k (i & Hi & ->)%(kk_flight _ _ _ _ Hc). apply list_elem_of_fmap. exists i. split; [done|]. apply elem_of_seq. apply lookup_lt_Some in Hi. lia.
Qed.
(** The request is in the ring and its context knows its number. *)
Lemma enter_ok s p cs l c q ctx : kae_core s p cs l → Z.of_nat (length p) < MAX_KAE_CONCURRENCY → 1 + kae_req_id_ s < 2 ^ 64 →
  holds q (p ++ [None]) → head_id q = head_id (ring_of s) → size_ q = size_ (ring_of s) →
  length (src_bufs c) = VESAL_MAX_SGL_NUM → length (dst_bufs c) = 1%nat → usr_ctx c = ctx → req_ring_id c = tail_id (ring_of s) → (crc32 s = true → buf_num c = 1%nat) →
  kae_core (s <| kae_req_id_ := u64 (kae_req_id_ s + 1) |> <| kae_inflight_num_ := u32 (kae_inflight_num_ s + 1) |> <| inflight_req_queue_ := q |>
      <| req_context_pool_ ::= <[kae_slot (kae_req_id_ s) := c]> |>) (p ++ [None]) (cs ++ [ctx]) (kae_slot (kae_req_id_ s) :: l).
Proof.
  intros Hc Hlt Hid Hq Hh Hs Hb Hd Hctx Hr Hcrc. pose proof (flight_length _ _ _ _ Hc) as Hfl. pose proof Hc as [K1 K2 K3 K4 K5 K6 K7 K8 K9 K10 K11].
  match goal with |- kae_core ?x _ _ _ => set (s' := x) end. assert (∀ i, place s' i = place s i) as Hpl by (intros i; unfold place, s', ring_of; cbn; by rewrite Hh).
  assert (kae_slot (kae_req_id_ s) = place s (length p)) as Hk by (rewrite kae_slot_mod, K3, (h_tail _ _ K1); done). set (k := kae_slot (kae_req_id_ s)) in *.
  assert (∀ i, (i < length p)%nat → place s i ≠ k) as Hfree.
  { intros i Hi E. rewrite Hk in E. unfold place in E. assert (head_id (ring_of s) + Z.of_nat i = head_id (ring_of s) + Z.of_nat (length p)) as Ee; [|lia].
    eapply (ring_slot_inj MAX_KAE_CONCURRENCY (head_id (ring_of s))); [done|lia|lia|by rewrite E]. }
  assert (0 <= kae_req_id_ s) as H0 by (rewrite K3, (h_tail _ _ K1); pose proof (h_head _ _ K1); lia).
  assert (∀ i, (p ++ [None]) !! i = Some None → p !! i = Some None ∨ i = length p) as Hsplit.
  { intros i [Hi|[Hle Hi]]%lookup_app_Some; [by left|]. right. apply list_lookup_singleton_Some in Hi as [? _]. lia. }
  split.
  - exact Hq.
  - unfold ring_of, s'. cbn. congruence.
  - unfold ring_of, s'. cbn. rewrite (h_tail _ _ Hq), Hh, length_app. unfold wrap. rewrite Z.mod_small by lia. rewrite K3, (h_tail _ _ K1). cbn. lia.
  - rewrite !length_app. cbn. lia.
  - intros i r [Hi|[Hle Hi]]%lookup_app_Some; [|by apply list_lookup_singleton_Some in Hi as [_ ?]]. rewrite lookup_app_l by (apply lookup_lt_Some in Hi; lia). by apply K5.
  - apply NoDup_cons. split; [|done]. intros (i & Hi & E)%K7. apply (Hfree i); [by apply lookup_lt_Some in Hi|done].
  - intros j. rewrite elem_of_cons, K7. setoid_rewrite Hpl. split.
    + intros [->|(i & Hi & ->)]; [exists (length p)|exists i]; (split; [|done]); [by rewrite lookup_app_r, Nat.sub_diag by lia|by apply lookup_app_l_Some].
    + intros (i & [Hi| ->]%Hsplit & ->); [right; by exists i|left; by rewrite Hk].
  - unfold s'. cbn. rewrite K8. unfold wrap. rewrite Z.mod_small by (unfold MAX_KAE_CONCURRENCY in *; lia). lia.
  - intros i Hi. rewrite Hpl. unfold s' at 1. cbn. apply Hsplit in Hi as [Hi| ->].
    + pose proof (lookup_lt_Some _ _ _ Hi). destruct (K9 i Hi) as (c0 & Hc0 & R0 & U0 & B0). exists c0. rewrite lookup_insert_ne by (by apply not_eq_sym, Hfree).
      unfold ring_of, s'. cbn. rewrite Hh, lookup_app_l by lia. by split_and!.
    + exists c. rewrite <- Hk, lookup_insert_eq. unfold ring_of, s'. cbn. rewrite Hh, Hr, (h_tail _ _ K1), <- K4, lookup_app_r, Nat.sub_diag by lia. split_and!; try done. cbn. congruence.
  - intros j Hj. unfold s'. cbn. destruct (decide (j = k)) as [->|Hne]; [exists c; by rewrite lookup_insert_eq|]. rewrite lookup_insert_ne by done. by apply K10.
  - exact K11.
Qed.

(** What a submission may assume of the caller: a free place among the undelivered results, at
    most 32 segments, and one only when checksums are computed. *)
Definition careful (s : chan) (src : list Z) (undelivered : nat) : Prop :=
  Z.of_nat undelivered < MAX_KAE_CONCURRENCY ∧ (length src ≤ VESAL_MAX_SGL_NUM)%nat ∧ (crc32 s = true → length src = 1%nat) ∧ kae_req_id_ s < 2 ^ 63 - 1.
Lemma core_sess s p cs l h : kae_core s p cs l → kae_core (s <| sess_ := h |>) p cs l.
Proof. intros []. by split. Qed.
Lemma SGLAsync_ok s p cs l comp src src_len dst dst_len ctx : kae_ok s p cs l → careful s src (length p) →
  wp (SGLAsync comp src src_len dst dst_len ctx) (λ st s', ∃ p' l', kae_ok s' p' (cs ++ if decide (st = kOk) then [ctx] else []) l' ∧ crc32 s' = crc32 s) s.
Proof.
  intros (Hc & Hd) (Hlt & Hn & Hcrc & Hid). assert (∀ st, st ≠ kOk → ∃ p' l', kae_ok s p' (cs ++ if decide (st = kOk) then [ctx] else []) l' ∧ crc32 s = crc32 s) as Hsame.
  { intros st Hst. exists p, l. rewrite decide_False, app_nil_r by done. split; [by split|done]. }
  unfold SGLAsync. case_bool_decide as Ha; cbn [negb]; [|wp_step; by apply Hsame]. do 2 wp_step. destruct (Z.eqb_spec (kae_inflight_num_ s) MAX_KAE_CONCURRENCY); [wp_step; by apply Hsame|].
  destruct (kk_pool _ _ _ _ Hc (kae_slot (kae_req_id_ s))) as (c & Hk & Hb & Hdst); [rewrite kae_slot_mod; by apply Z.mod_pos_bound|].
  wp_step. eapply wp_mono; [by apply (PrepareCtx_ok s _ c)|]. cbv beta. intros _ s1 (c1 & -> & U1 & N1 & B1 & D1). wp_step. eapply wp_get_kctx; [cbn; apply lookup_insert_eq|]. unfold put_ctx. do 2 wp_step.
  set (c2 := c1 <| is_compress := comp |>). set (k := kae_slot (kae_req_id_ s)) in *. wp_step.
  assert (s <| req_context_pool_ ::= <[k := c1]> |> <| req_context_pool_ ::= <[k := c2]> |> = s <| req_context_pool_ ::= <[k := c2]> |>) as Es by (destruct s; unfold upd, eta; cbn; by rewrite insert_insert_eq).
  rewrite Es. pose proof (free_write s p cs l c2 Hc Hlt B1 D1) as Hc2. eapply wp_on_sess; [exact (kd_submit_law _ _ comp k Hd)|]. cbv beta. intros r h Hh. case_bool_decide as Hr; cbn [negb].
  - rewrite decide_True in Hh by done. do 5 wp_step.
    assert (IsFull (ring_of s) = false) as Hf by (unfold IsFull; apply Z.eqb_neq; rewrite (kk_size _ _ _ _ Hc), (h_tail _ _ (kk_ring _ _ _ _ Hc)); lia).
    eapply (wp_on_ring _ (λ id q, id = tail_id (ring_of s) ∧ holds q (p ++ [None]) ∧ head_id q = head_id (ring_of s) ∧ size_ q = size_ (ring_of s))).
    { eapply wp_mono; [apply (NewReq_ok (ring_of s) p); [exact (kk_ring _ _ _ _ Hc)|rewrite <- (kk_next _ _ _ _ Hc); exact Hid]|]. cbv beta. rewrite Hf. intros id q (-> & Hq & _ & Hh' & Hs'). done. }
    cbv beta. intros id q (-> & Hq & Hh' & Hs'). wp_step. eapply wp_get_kctx; [cbn; apply lookup_insert_eq|]. do 2 wp_step.
    wp_step. exists (p ++ [None]), (k :: l). rewrite decide_True by done. split; [|done]. split; [|exact Hh].
    set (c3 := c2 <| req_ring_id := tail_id (ring_of s) |>). pose proof (enter_ok s p cs l c3 q ctx Hc Hlt ltac:(pose proof (Z.pow_lt_mono_r 2 63 64); lia) Hq Hh' Hs' B1 D1 U1 eq_refl ltac:(cbn; rewrite N1; exact Hcrc)) as He.
    apply (core_sess _ _ _ _ h) in He. match goal with |- kae_core ?x _ _ _ => match type of He with kae_core ?y _ _ _ => assert (x = y) as ->; [|exact He] end end.
    destruct s; unfold upd, eta; cbn. by rewrite insert_insert_eq.
  - rewrite decide_False in Hh by done. wp_step. exists p, l. rewrite decide_False by (by destruct r). rewrite app_nil_r. split; [|done]. split; [by apply core_sess|done].
Qed.

(** ** Completions *)

Context (Hcpu : Z.testbit ecx 20 = true).

Lemma core_perm s p cs l l' : kae_core s p cs l → l ≡ₚ l' → kae_core s p cs l'.
Proof.
  intros [] Hp. split; try done; [by rewrite <- Hp| |].
  - intros k. by rewrite <- Hp.
  - rewrite kk_num0. by rewrite Hp.
Qed.
Lemma single_crc a n len : ∃ v, SwCalcCRC32 [(a, n)] len = Ok v.
Proof. cbn. unfold ComputeCRC32, Get_ComputeCRC32_Impl. rewrite Hcpu. by eexists. Qed.
Lemma answered_core s p cs l k i q r c : kae_core s p cs (k :: l) → p !! i = Some None → k = place s i → cs !! i = Some (usr_ctx c) → cr_ctx r = usr_ctx c →
  holds q (<[i := Some r]> p) → head_id q = head_id (ring_of s) → size_ q = size_ (ring_of s) →
  kae_core (s <| inflight_req_queue_ := q |> <| kae_inflight_num_ := u32 (kae_inflight_num_ s - 1) |>) (<[i := Some r]> p) cs l.
Proof.
  intros Hc Hi -> Hcs Hr Hq Hh Hs. pose proof (flight_length _ _ _ _ Hc) as Hfl. pose proof Hc as [K1 K2 K3 K4 K5 K6 K7 K8 K9 K10 K11]. apply NoDup_cons in K6 as [Hnk K6].
  match goal with |- kae_core ?x _ _ _ => set (s' := x) end. assert (∀ j, place s' j = place s j) as Hpl by (intros j; unfold place, s', ring_of; cbn; by rewrite Hh).
  assert (∀ j, (<[i := Some r]> p) !! j = Some None ↔ p !! j = Some None ∧ j ≠ i) as Hnone.
  { intros j. destruct (decide (j = i)) as [->|Hne]; [|rewrite list_lookup_insert_ne by done; naive_solver]. rewrite list_lookup_insert_eq by (by eapply lookup_lt_Some). naive_solver. }
  split; try done.
  - unfold ring_of, s'. cbn. congruence.
  - unfold ring_of, s'. cbn. rewrite (h_tail _ _ Hq), Hh, length_insert. rewrite K3. apply (h_tail _ _ K1).
  - by rewrite length_insert.
  - intros j r' Hj. destruct (decide (j = i)) as [->|Hne]; [|rewrite list_lookup_insert_ne in Hj by done; by apply K5].
    rewrite list_lookup_insert_eq in Hj by (by eapply lookup_lt_Some). injection Hj as <-. congruence.
  - intros j. setoid_rewrite Hpl. split.
    + intros Hj. destruct (proj1 (K7 j)) as (i' & Hi' & ->); [by right|]. exists i'. split; [|done]. apply Hnone. split; [done|]. by intros ->.
    + intros (i' & [Hi' Hne]%Hnone & ->). assert (place s i' ∈ place s i :: l) as [E|]%elem_of_cons; [apply K7; by exists i'| |done].
      exfalso. apply Hne. eapply (place_inj s p); [exact Hc|by eapply lookup_lt_Some|by eapply lookup_lt_Some|done].
  - unfold s'. cbn. rewrite K8. unfold wrap. cbn [length]. rewrite Z.mod_small; [lia|]. pose proof (h_room _ _ K1) as Hro. rewrite K2 in Hro. unfold MAX_KAE_CONCURRENCY in *. cbn [length] in Hfl. lia.
  - intros j [Hj Hne]%Hnone. rewrite Hpl. unfold ring_of, s'. cbn. rewrite Hh. by apply K9.
Qed.
Lemma KaeCallback_ok s p cs l x : kae_core s p cs (kr_user_data x :: l) →
  wp (KaeCallback x) (λ _ s', ∃ p', kae_core s' p' cs l ∧ sess_ s' = sess_ s ∧ crc32 s' = crc32 s) s.
Proof.
  intros Hc. pose proof Hc as [K1 K2 K3 K4 K5 K6 K7 K8 K9 K10 K11]. destruct (proj1 (K7 (kr_user_data x))) as (i & Hi & Hk); [by left|].
  destruct (K9 i Hi) as (c & Hcx & Hrid & Hcs & Hb). rewrite <- Hk in Hcx. unfold KaeCallback. wp_step. eapply wp_get_kctx; [exact Hcx|]. do 2 wp_step.
  destruct (K10 (kr_user_data x)) as (c' & Hc' & Hsb & Hdb); [rewrite Hk; apply place_range|]. rewrite Hcx in Hc'. injection Hc' as <-.
  wp_step. eapply (wp_mono _ (λ r s', s' = s ∧ cr_ctx r = usr_ctx c)).
  { destruct (crc32 s && _) eqn:Ecrc; [|by wp_step]. apply andb_true_iff in Ecrc as [Ecrc _]. rewrite (Hb Ecrc).
    destruct (src_bufs c) as [|[a n] bs]; [done|]. destruct (dst_bufs c) as [|[a' n'] [|? ?]]; [done| |done]. change (take 1 ((a, n) :: bs)) with [(a, n)].
    match goal with |- context [lift (SwCalcCRC32 [(a, n)] ?z)] => destruct (single_crc a n z) as [v1 ->] end.
    match goal with |- context [lift (SwCalcCRC32 [(a', n')] ?z)] => destruct (single_crc a' n' z) as [v2 ->] end. do 5 wp_step. done. }
  cbv beta. intros r s1 [-> Hr]. pose proof (lookup_lt_Some _ _ _ Hi) as Hlt. wp_step.
  eapply wp_on_ring; [apply (PushResult_ok (ring_of s) p r (req_ring_id c) K1); rewrite Hrid, (h_tail _ _ K1); lia|]. cbv beta. intros _ q (Hq & Hh & Hs). wp_step.
  replace (Z.to_nat (req_ring_id c - head_id (ring_of s))) with i in Hq by lia. exists (<[i := Some r]> p). split; [|done].
  by apply (answered_core s p cs l (kr_user_data x) i q r c).
Qed.
Lemma kae_callbacks_ok xs : ∀ s p cs l, kae_core s p cs ((kr_user_data <$> xs) ++ l) →
  wp (kae_callbacks xs) (λ _ s', ∃ p', kae_core s' p' cs l ∧ sess_ s' = sess_ s ∧ crc32 s' = crc32 s) s.
Proof.
  induction xs as [|x xs IH]; intros s p cs l Hc; cbn [kae_callbacks]; [wp_step; by exists p|]. wp_step. eapply wp_mono; [exact (KaeCallback_ok s p cs (fmap (M := list) kr_user_data xs ++ l) x Hc)|].
  cbv beta. intros _ s1 (p1 & C1 & S1 & R1). eapply wp_mono; [by apply (IH s1 p1 cs l)|]. cbv beta. intros _ s2 (p2 & C2 & S2 & R2). exists p2. split; [done|]. split; congruence.
Qed.
(** One session is polled. *)
Lemma session_ok s p cs l comp n : kae_ok s p cs l → wp (xs ← on_sess (kd_poll comp n); kae_callbacks xs) (λ _ s', ∃ p' l', kae_ok s' p' cs l' ∧ crc32 s' = crc32 s) s.
Proof.
  intros (Hc & Hd). wp_step. eapply wp_on_sess; [exact (kd_poll_law _ _ comp n Hd)|]. cbv beta. intros xs h (l' & Hl & Hh). apply (core_sess _ _ _ _ h) in Hc.
  eapply wp_mono; [apply (kae_callbacks_ok xs _ p cs l'); by eapply core_perm|]. cbv beta. intros _ s' (p' & C' & S' & R'). exists p', l'. split; [split; [done|by rewrite S']|exact R'].
Qed.
Lemma wp_assoc {S A B C} (m : ST S A) (f : A → ST S B) (g : B → ST S C) (Q : C → S → Prop) s : wp (b ← (a ← m; f a); g b) Q s → wp (a ← m; b ← f a; g b) Q s.
Proof. unfold wp, mbind, ST_bind. by destruct (m s) as [[a s']|]. Qed.
Lemma ready_lookup i : ∀ p : list (option CodecResult), (i < length (ready p))%nat → ∃ r, p !! i = Some (Some r) ∧ ready p !! i = Some r.
Proof. induction i as [|i IH]; intros [|[r|] p] Hlt; cbn in Hlt; try lia; [by exists r|]. cbn. apply IH. lia. Qed.
(** Delivered results leave the ring and the list of contexts together. *)
Lemma popped_core s p cs l q n : kae_core s p cs l → (n ≤ length (ready p))%nat → holds q (drop n p) → head_id q = head_id (ring_of s) + Z.of_nat n → size_ q = size_ (ring_of s) →
  kae_core (s <| inflight_req_queue_ := q |>) (drop n p) (drop n cs) l ∧ take n cs = cr_ctx <$> take n (ready p).
Proof.
  intros Hc Hn Hq Hh Hs. pose proof Hc as [K1 K2 K3 K4 K5 K6 K7 K8 K9 K10 K11].
  assert (∀ i, (i < n)%nat → ∃ r, p !! i = Some (Some r) ∧ ready p !! i = Some r) as Hready.
  { intros i Hi. apply ready_lookup. lia. }
  match goal with |- kae_core ?x _ _ _ ∧ _ => set (s' := x) end. assert (∀ j, place s' j = place s (n + j)) as Hpl by (intros j; unfold place, s', ring_of; cbn; rewrite Hh; unfold ring_of; f_equal; lia).
  assert (∀ j, p !! j = Some None → (n ≤ j)%nat) as Hge by (intros j Hj; destruct (decide (j < n)%nat) as [Hlt|]; [destruct (Hready j Hlt) as (r & Hr & _); congruence|lia]).
  split; [split; try done|].
  - unfold ring_of, s'. cbn. congruence.
  - unfold ring_of, s'. cbn. rewrite K3, (h_tail _ _ K1), (h_tail _ _ Hq), Hh, length_drop. assert (n ≤ length p)%nat; [|lia].
    destruct n as [|m]; [lia|]. destruct (Hready m) as (r & Hr & _); [lia|]. apply lookup_lt_Some in Hr. lia.
  - rewrite !length_drop. lia.
  - intros j r Hj. rewrite lookup_drop in Hj. rewrite lookup_drop. by apply K5.
  - intros k. rewrite K7. setoid_rewrite Hpl. setoid_rewrite lookup_drop. split; [|naive_solver]. intros (j & Hj & ->). exists (j - n)%nat. pose proof (Hge j Hj).
    by replace (n + (j - n))%nat with j by lia.
  - intros j Hj. rewrite lookup_drop in Hj. rewrite Hpl. destruct (K9 _ Hj) as (c & A & B & C & D). exists c. unfold ring_of, s'. cbn. rewrite Hh, lookup_drop. split_and!; [done|lia|done|done].
  - apply list_eq. intros j. rewrite list_lookup_fmap. destruct (decide (j < n)%nat) as [Hlt|Hge']; [|by rewrite !lookup_take_ge by lia].
    rewrite !lookup_take_lt by done. destruct (Hready j Hlt) as (r & Hr & ->). by rewrite (K5 j r Hr).
Qed.
(** When the device has nothing left, there is a result for every request. *)
Lemma idle_ready s p cs l : kae_core s p cs l → kae_inflight_num_ s = 0 → length (ready p) = length cs.
Proof.
  intros Hc Hn. rewrite (kk_num _ _ _ _ Hc) in Hn. destruct l as [|k l]; [|cbn in Hn; lia]. rewrite (kk_len _ _ _ _ Hc). assert (∀ i, p !! i ≠ Some None) as Hno.
  { intros i Hi. assert (place s i ∈ []) as Hk by (apply (kk_flight _ _ _ _ Hc); by exists i). by apply elem_of_nil in Hk. }
  clear -Hno. induction p as [|[r|] p IH]; [done| |by destruct (Hno 0%nat)]. cbn. f_equal. apply IH. intros i. apply (Hno (S i)).
Qed.
Lemma KaePoll_ok s p cs l n : kae_ok s p cs l → wp (Poll n) (λ rs s', ∃ p' cs' l', kae_ok s' p' cs' l' ∧ cs = (cr_ctx <$> rs) ++ cs' ∧ crc32 s' = crc32 s ∧
  (length rs ≤ Z.to_nat (s32 n))%nat ∧ (kae_inflight_num_ s' = 0 → cr_ctx <$> rs = take (Z.to_nat (s32 n)) cs)) s.
Proof.
  intros Hok. unfold Poll. do 2 wp_step. apply (wp_assoc _ (λ xs, kae_callbacks xs)). wp_step. eapply wp_mono; [by apply (session_ok s p cs l)|]. cbv beta. intros _ s1 (p1 & l1 & Hok1 & R1).
  do 2 wp_step. apply (wp_assoc _ (λ xs, kae_callbacks xs)). wp_step. eapply wp_mono; [by apply (session_ok s1 p1 cs l1)|]. cbv beta. intros _ s2 (p2 & l2 & (C2 & D2) & R2).
  destruct (ring_pop (ring_of s2) p2 (s32 n) (kk_ring _ _ _ _ C2)) as (q & Eq & Hq & Hh & Hs). set (k := Z.to_nat (s32 n)) in *. set (rs := take k (ready p2)) in *. wp_step.
  eapply (wp_on_ring _ (λ a q', a = rs ∧ q' = q)); [unfold wp; by rewrite Eq|]. cbv beta. intros ? ? [-> ->]. do 3 wp_step. assert (user_cb (s2 <| inflight_req_queue_ := q |>) = false) as -> by exact (kk_silent _ _ _ _ C2).
  cbn [andb]. do 2 wp_step.
  destruct (popped_core s2 p2 cs l2 q (length rs) C2) as [C3 E3]; [unfold rs; rewrite length_take; lia|done|done|done|].
  assert (take (length rs) cs = cr_ctx <$> rs) as Ecs. { rewrite E3. f_equal. unfold rs. rewrite length_take. destruct (decide (k ≤ length (ready p2))%nat); [by rewrite Nat.min_l by lia|]. rewrite Nat.min_r, !take_ge by lia. done. }
  exists (drop (length rs) p2), (drop (length rs) cs), l2. split; [by split|]. split; [rewrite <- (take_drop (length rs) cs) at 1; by rewrite Ecs|]. split; [cbn; congruence|]. split; [unfold rs; rewrite length_take; lia|].
  intros Hz. rewrite <- Ecs. pose proof (idle_ready s2 p2 cs l2 C2 Hz) as Hl. unfold rs. rewrite length_take, Hl. destruct (decide (k ≤ length cs)%nat); [by rewrite Nat.min_l by lia|]. by rewrite Nat.min_r, !take_ge by lia.
Qed.

(** ** Runs *)

(** [kae_run s acc del]: requests with the contexts [acc] were accepted, and results with the
    contexts [del] delivered, by a caller who is careful. *)
Inductive kae_run : chan → list Z → list Z → Prop :=
| krun_start h crc : kd_ok h [] → kae_run (new_channel h crc false) [] []
| krun_submit s acc del comp src src_len dst dst_len ctx st s' : kae_run s acc del → careful s src (length acc - length del) →
    SGLAsync comp src src_len dst dst_len ctx s = Ok (st, s') → kae_run s' (acc ++ if decide (st = kOk) then [ctx] else []) del
| krun_poll s acc del n rs s' : kae_run s acc del → Poll n s = Ok (rs, s') → kae_run s' acc (del ++ (cr_ctx <$> rs)).
Lemma new_channel_ok h crc : kd_ok h [] → kae_ok (new_channel h crc false) [] [] [].
Proof.
  intros Hd. split; [|exact Hd]. unfold new_channel. split; try done; cbn [inflight_req_queue_ kae_req_id_ kae_inflight_num_ req_context_pool_ ring_of].
  - by apply holds_new.
  - apply NoDup_nil_2.
  - intros k. split; [by intros ?%elem_of_nil|]. by intros (i & Hi & _).
  - intros k Hk. exists new_ctx. split; [|done]. apply elem_of_list_to_map_1.
    + rewrite <- list_fmap_compose. apply NoDup_fmap_2; [by intros x y|apply NoDup_seqZ].
    + apply list_elem_of_fmap. exists k. split; [done|]. apply elem_of_seqZ. lia.
Qed.
Lemma kae_run_ok s acc del : kae_run s acc del → ∃ p cs l, kae_ok s p cs l ∧ acc = del ++ cs.
Proof.
  induction 1 as [h crc Hd|s acc del comp src src_len dst dst_len ctx st s' _ (p & cs & l & Hok & ->) Hcare E|s acc del n rs s' _ (p & cs & l & Hok & ->) E].
  - exists [], [], []. split; [by apply new_channel_ok|done].
  - rewrite length_app in Hcare. replace (length del + length cs - length del)%nat with (length p) in Hcare by (rewrite (kk_len _ _ _ _ (proj1 Hok)); lia).
    destruct (wp_run _ _ _ _ _ E (SGLAsync_ok s p cs l comp src src_len dst dst_len ctx Hok Hcare)) as (p' & l' & Hok' & _). eexists p', _, l'. split; [exact Hok'|]. by rewrite app_assoc.
  - destruct (wp_run _ _ _ _ _ E (KaePoll_ok s p cs l n Hok)) as (p' & cs' & l' & Hok' & -> & _ & _ & _). exists p', cs', l'. split; [done|]. by rewrite app_assoc.
Qed.

(** C14: a KAE channel delivers one result for each accepted request, in the order of
    submission, although compressions and decompressions finish in any order; and no operation
    faults. What is not delivered yet is accounted for: it is in the device or its result is in
    the ring. A poll after which the device has nothing left delivers every result that is
    due, up to the number that was asked for (which is converted to an [int]). The caller has
    to keep fewer than 1024 results undelivered, which the channel does not check, may use at
    most 32 segments, one only if checksums are wanted, and no callback. *)
Theorem kae_results_in_order s acc del : kae_run s acc del →
  (∃ p cs l, acc = del ++ cs ∧ kae_ok s p cs l) ∧
  (∀ n, wp (Poll n) (λ rs s', (∃ rest, acc = del ++ (cr_ctx <$> rs) ++ rest) ∧ (length rs ≤ Z.to_nat (s32 n))%nat ∧
    (kae_inflight_num_ s' = 0 → cr_ctx <$> rs = take (Z.to_nat (s32 n)) (drop (length del) acc))) s) ∧
  (∀ comp src src_len dst dst_len ctx, careful s src (length acc - length del) → wp (SGLAsync comp src src_len dst dst_len ctx) (λ _ _, True) s).
Proof.
  intros (p & cs & l & Hok & ->)%kae_run_ok. split; [by exists p, cs, l|]. split.
  - intros n. eapply wp_mono; [by apply (KaePoll_ok s p cs l)|]. cbv beta. intros rs s' (p' & cs' & l' & _ & E & _ & Hl & Hz). split; [exists cs'; by rewrite E|]. split; [done|]. by rewrite drop_app_length.
  - intros comp src src_len dst dst_len ctx Hcare. rewrite length_app in Hcare. replace (length del + length cs - length del)%nat with (length p) in Hcare by (rewrite (kk_len _ _ _ _ (proj1 Hok)); lia).
    eapply wp_mono; [by apply (SGLAsync_ok s p cs l)|]. done.
Qed.

(** ** Callers who are not careful *)

Lemma fill_bufs_over xs : ∀ i buf, (i ≤ length buf)%nat → (length buf < i + length xs)%nat → fill_bufs i xs buf = Err OutOfBounds.
Proof.
  induction xs as [|x xs IH]; intros i buf Hi Hx; cbn [fill_bufs length] in *; [lia|]. destruct (Nat.ltb_spec i (length buf)); [|done]. apply IH; rewrite length_insert; lia.
Qed.
(** C36: a request of 33 to 255 segments passes the check of its arguments and is then written
    behind the array of its context, which has 32 entries. *)
Theorem many_segments_overflow s c comp src src_len dst dst_len ctx : req_context_pool_ s !! kae_slot (kae_req_id_ s) = Some c → length (src_bufs c) = VESAL_MAX_SGL_NUM →
  kae_inflight_num_ s ≠ MAX_KAE_CONCURRENCY → (32 < length src ≤ 255)%nat → length src_len = length src → dst ≠ 0 → dst_len ≠ 0 → accumulate src_len <= Z.shiftl 8 20 →
  SGLAsync comp src src_len dst dst_len ctx s = Err OutOfBounds.
Proof.
  intros Hc Hb Hn Hs Hl Hd Hdl Ha. assert (ArgsCheck src src_len dst dst_len = kOk) as E.
  { unfold ArgsCheck. rewrite !bool_decide_eq_false_2 by (intros ->; cbn in *; lia). rewrite (proj2 (Z.eqb_neq dst 0) Hd), (proj2 (Z.eqb_neq dst_len 0) Hdl). cbn [orb]. rewrite Hl, Nat.eqb_refl. cbn [negb].
    by rewrite (proj2 (Nat.ltb_ge _ _)), (proj2 (Z.ltb_ge _ _)) by lia. }
  unfold SGLAsync. rewrite E, bool_decide_eq_true_2 by done. cbn [negb]. unfold mbind at 1, ST_bind at 1, get at 1. rewrite (proj2 (Z.eqb_neq _ _) Hn).
  unfold PrepareCtx, get_ctx, mbind, ST_bind, get. rewrite Hc. cbn. rewrite fill_bufs_over; [done|lia|]. rewrite Hb, length_zip, Hl. change VESAL_MAX_SGL_NUM with 32%nat. lia.
Qed.
(** C35: the channel counts the requests in the device, not the results that wait in the ring. When
    the ring is full, but not all of its requests are in the device, a submission is accepted
    without a number, and its result is written in front of the ring. *)
Theorem full_ring_accepts s c h comp src src_len dst dst_len ctx : IsFull (ring_of s) = true → size_ (ring_of s) = MAX_KAE_CONCURRENCY →
  kae_inflight_num_ s ≠ MAX_KAE_CONCURRENCY → ArgsCheck src src_len dst dst_len = kOk → req_context_pool_ s !! kae_slot (kae_req_id_ s) = Some c →
  length (src_bufs c) = VESAL_MAX_SGL_NUM → length (dst_bufs c) = 1%nat → (length src ≤ VESAL_MAX_SGL_NUM)%nat → crc32 s = false →
  kd_submit comp (kae_slot (kae_req_id_ s)) (sess_ s) = Ok (KAE_ZLIB_SUCC, h) →
  ∃ s', SGLAsync comp src src_len dst dst_len ctx s = Ok (kOk, s') ∧ ∀ st a b, KaeCallback (MkKr (kae_slot (kae_req_id_ s)) st a b) s' = Err OutOfBounds.
Proof.
  intros Hf Hs Hn Ha Hc Hb Hd Hl Hcrc Hk. set (k := kae_slot (kae_req_id_ s)) in *.
  assert (wp (SGLAsync comp src src_len dst dst_len ctx) (λ st s', st = kOk ∧ ∃ c', req_context_pool_ s' !! k = Some c' ∧ req_ring_id c' = -1 ∧ ring_of s' = ring_of s ∧ crc32 s' = false) s) as Hw.
  { unfold SGLAsync. rewrite Ha, bool_decide_eq_true_2 by done. cbn [negb]. do 2 wp_step. rewrite (proj2 (Z.eqb_neq _ _) Hn). wp_step. eapply wp_mono; [by apply (PrepareCtx_ok s k c)|].
    cbv beta. intros _ s1 (c1 & -> & _ & _ & _ & _). wp_step. eapply wp_get_kctx; [cbn; apply lookup_insert_eq|]. unfold put_ctx. do 3 wp_step.
    eapply (wp_on_sess _ (λ r h', r = KAE_ZLIB_SUCC ∧ h' = h)); [unfold wp; match goal with |- context [kd_submit comp _ ?x] => change x with (sess_ s) end; fold k; by rewrite Hk|]. cbv beta. intros ? ? [-> ->]. rewrite bool_decide_eq_true_2 by done. cbn [negb]. do 5 wp_step.
    eapply (wp_on_ring _ (λ id q, id = -1 ∧ q = ring_of s)); [unfold wp, NewReq, mbind, ST_bind, get; cbn; unfold ring_of in Hf; by rewrite Hf|]. cbv beta. intros ? ? [-> ->].
    wp_step. eapply wp_get_kctx; [cbn; apply lookup_insert_eq|]. do 3 wp_step. split; [done|]. eexists. split; [cbn; apply lookup_insert_eq|]. by split_and!. }
  unfold wp in Hw. destruct (SGLAsync comp src src_len dst dst_len ctx s) as [[st0 s']|]; [|done]. destruct Hw as (-> & c' & Hc' & Hid & Hr & Hcr). exists s'. split; [done|]. intros st a b.
  unfold KaeCallback, get_ctx, mbind, ST_bind, get. cbn. rewrite Hc'. cbn. rewrite Hcr. cbn. unfold on_ring, PushResult, mbind, ST_bind, get. change (inflight_req_queue_ s') with (ring_of s').
  rewrite Hr, Hid. unfold ring_slot. rewrite Hs. done.
Qed.
End channel.

(** ** Checksums *)

(** Segments are copied whole: when the accelerator consumed fewer bytes than they hold, the copy
    runs over the buffer, which has room for the consumed ones. *)
Lemma gather_over read bufs : ∀ len acc, (∀ a n, (a, n) ∈ bufs → 0 <= n ∧ Z.of_nat (length (read a n)) = n) →
  len < Z.of_nat (length acc) + foldr (λ b t, b.2 + t) 0 bufs → Z.of_nat (length acc) <= len → gather read bufs len acc = Err OutOfBounds.
Proof.
  induction bufs as [|[a n] bufs IH]; intros len acc Hr Hl Ha; cbn [gather foldr snd] in *; [lia|]. destruct (Z.ltb_spec len (Z.of_nat (length acc) + n)); [done|].
  destruct (Hr a n) as [Hn Hrd]; [by left|]. apply IH; [intros a' n' Hin; apply Hr; by right| |]; rewrite length_app; lia.
Qed.
Lemma short_crc_overflows read ecx b1 b2 bufs len : (∀ a n, (a, n) ∈ b1 :: b2 :: bufs → 0 <= n ∧ Z.of_nat (length (read a n)) = n) → 0 <= len < foldr (λ b t, b.2 + t) 0 (b1 :: b2 :: bufs) →
  SwCalcCRC32 read ecx (b1 :: b2 :: bufs) len = Err OutOfBounds.
Proof. intros Hr Hl. unfold SwCalcCRC32. destruct b1 as [a n]. rewrite gather_over; [done|exact Hr|cbn in *; lia|cbn; lia]. Qed.

(** ** A channel at work *)

(** Sessions that take everything and have it all done at the next poll. *)
Definition toy_kae_submit (comp : bool) (k : Z) : ST (list Z) KaeStatus := modify (cons k);; mret KAE_ZLIB_SUCC.
Definition toy_kae_poll (comp : bool) (n : Z) : ST (list Z) (list kaezip_result) :=
  if comp then l ← get; modify (λ _, []);; mret ((λ k, MkKr k KAE_ZLIB_SUCC 100 40) <$> l) else mret [].
#[refine, local] Instance toy_kae : KaeDevice (list Z) := {| kd_submit := toy_kae_submit; kd_poll := toy_kae_poll; kd_ok h l := h ≡ₚ l |}.
Proof.
  - intros h l l' H1 H2. by rewrite H1.
  - intros h l comp k Hl. unfold toy_kae_submit. do 3 wp_step. by constructor.
  - intros h l [] n Hl; unfold toy_kae_poll; [|wp_step; by exists l]. do 5 wp_step. exists []. split; [|done]. rewrite app_nil_r, <- list_fmap_compose. cbn. by rewrite list_fmap_id.
Defined.
Definition toy_read (a n : Z) : list Z := replicate (Z.to_nat n) 0.
Definition after {S A} (m : ST S A) (s : S) : S := match m s with Ok (_, s') => s' | Err _ => s end.
Definition one (ctx : Z) : ST KaeCodecChannel StatusCode := SGLAsync true [4096] [100] 8192 100 ctx.
Definition toy_start : KaeCodecChannel := new_channel ([] : list Z) false false.
Definition toy_one : KaeCodecChannel := after (one 7) toy_start.
(** 1024 requests, of which one result is taken; then one request more. *)
Fixpoint many (n : nat) : ST KaeCodecChannel unit := match n with O => mret () | S n => one 1;; many n end.
Definition toy_full : KaeCodecChannel := after (many 1024;; Poll toy_read (2 ^ 20) 1;; one 2) toy_start.

Example toy_round : match (one 7;; SGLAsync false [4096] [50] 8192 100 8;; Poll toy_read (2 ^ 20) 4) toy_start with
  | Ok (rs, s) => ((λ r, (cr_ctx r, cr_status r)) <$> rs) = [(7, kOk); (8, kOk)] ∧ kae_inflight_num_ s = 0
  | Err _ => False
  end.
Proof. vm_compute. auto. Qed.
(** A synchronous call returns its result, but that of an older request when there is one. *)
Example sync_result : match (a ← SGLSync toy_read (2 ^ 20) 1 true [4096] [100] 8192 100; one 7;; b ← SGLSync toy_read (2 ^ 20) 1 true [4096] [100] 8192 100; mret (cr_ctx a, cr_ctx b)) toy_start with
  | Ok (r, _) => r = (0, 7)
  | Err _ => False
  end.
Proof. vm_compute. reflexivity. Qed.
(** A channel with a callback dies when it has called it. *)
Example callback_dies : (one 7;; Poll toy_read (2 ^ 20) 4) (new_channel ([] : list Z) false true) = Err NullDeref.
Proof. vm_compute. reflexivity. Qed.
(** The total is an [int]: two segments of two gigabytes are nothing. *)
Example four_gigabytes_pass : ArgsCheck [4096; 8192] [0x80000000; 0x80000000] 8192 100 = kOk.
Proof. vm_compute. reflexivity. Qed.
(** A closed channel still writes to its contexts. *)
Example closed_submits : (Close;; one 7) toy_start = Err OutOfBounds.
Proof. vm_compute. reflexivity. Qed.

Lemma after_run {S A} (m : ST S A) s a : match m s with Ok (a', _) => a' = a | Err _ => False end → m s = Ok (a, after m s).
Proof. unfold after. by destruct (m s) as [[a' s']|]; [intros ->|]. Qed.
Lemma toy_one_run : kae_run toy_read (2 ^ 20) toy_one [7] [].
Proof.
  assert (one 7 toy_start = Ok (kOk, toy_one)) as E by (refine (after_run (one 7) toy_start kOk _); vm_compute; reflexivity).
  assert (careful toy_start [4096] 0) as Hc by (split_and!; [done|cbn; unfold VESAL_MAX_SGL_NUM; lia|done|done]).
  pose proof (krun_submit toy_read (2 ^ 20) toy_start [] [] true [4096] [100] 8192 100 7 kOk toy_one (krun_start toy_read (2 ^ 20) [] false (Permutation_refl [])) Hc E) as Hr.
  rewrite decide_True in Hr by done. exact Hr.
Qed.
Lemma toy_drained : match Poll toy_read (2 ^ 20) 4 toy_one with Ok (_, s') => kae_inflight_num_ s' = 0 | Err _ => False end.
Proof. vm_compute. reflexivity. Qed.
(** The result of the request is delivered by the next poll. *)
Lemma kae_results_in_order_witness : wp (Poll toy_read (2 ^ 20) 4) (λ rs _, cr_ctx <$> rs = [7]) toy_one.
Proof.
  pose proof (proj1 (proj2 (kae_results_in_order toy_read (2 ^ 20) eq_refl toy_one [7] [] toy_one_run)) 4) as Hp. pose proof toy_drained as Hd. unfold wp in *.
  destruct (Poll toy_read (2 ^ 20) 4 toy_one) as [[rs s']|]; [|exact Hp]. exact (proj2 (proj2 Hp) Hd).
Defined.
Lemma many_segments_overflow_witness : SGLAsync true (replicate 33 4096) (replicate 33 10) 8192 100 7 toy_start = Err OutOfBounds.
Proof.
  apply (many_segments_overflow toy_start new_ctx true (replicate 33 4096) (replicate 33 10) 8192 100 7); [vm_compute; reflexivity|done|done|split; vm_compute; lia|done|done|done|vm_compute; discriminate].
Defined.
(** All that matters of [toy_full], computed once. *)
Definition full_facts (s : KaeCodecChannel (H := list Z)) : bool :=
  IsFull (ring_of s) && (size_ (ring_of s) =? MAX_KAE_CONCURRENCY) && (kae_inflight_num_ s =? 1) && negb (crc32 s) &&
  match req_context_pool_ s !! kae_slot (kae_req_id_ s) with Some c => Nat.eqb (length (src_bufs c)) 32 && Nat.eqb (length (dst_bufs c)) 1 | None => false end.
Lemma toy_full_facts : full_facts toy_full = true.
Proof. vm_compute. reflexivity. Qed.
Lemma full_facts_spec s : full_facts s = true → IsFull (ring_of s) = true ∧ size_ (ring_of s) = MAX_KAE_CONCURRENCY ∧ kae_inflight_num_ s = 1 ∧ crc32 s = false ∧
  ∃ c, req_context_pool_ s !! kae_slot (kae_req_id_ s) = Some c ∧ length (src_bufs c) = VESAL_MAX_SGL_NUM ∧ length (dst_bufs c) = 1%nat.
Proof.
  unfold full_facts. rewrite !andb_true_iff, !Z.eqb_eq, negb_true_iff. intros ((((H1 & H2) & H3) & H4) & H5). split_and!; try done.
  destruct (req_context_pool_ s !! _) as [c|]; [|done]. apply andb_true_iff in H5 as [?%Nat.eqb_eq ?%Nat.eqb_eq]. by exists c.
Qed.
Lemma full_ring_accepts_witness :
  ∃ s', one 3 toy_full = Ok (kOk, s') ∧ ∀ st a b, KaeCallback toy_read (2 ^ 20) (MkKr (kae_slot (kae_req_id_ toy_full)) st a b) s' = Err OutOfBounds.
Proof.
  destruct (full_facts_spec _ toy_full_facts) as (H1 & H2 & H3 & H4 & c & H5 & H6 & H7).
  apply (full_ring_accepts toy_read (2 ^ 20) toy_full c (kae_slot (kae_req_id_ toy_full) :: sess_ toy_full) true [4096] [100] 8192 100 3 H1 H2 ltac:(rewrite H3; done) eq_refl H5 H6 H7 ltac:(cbn; unfold VESAL_MAX_SGL_NUM; lia) H4).
  reflexivity.
Defined.
