(* ===== verification/QatCypher.v ===== *)
(** * The QAT cypher channel (src/src/cypher/qat_cypher_channel.h, qat_cypher_channel.cc)

    Encryption and hashing on a QAT unit. A request has a slot in a pool, a timer and a number
    in a ring that buffers the results and keeps their order; the device answers in the order
    of submission, and a timer turns a late request into a result. The device with its buffers
    and sessions is the interface [CyDevice]. Request numbers have 32 bits and wrap around; the
    ring numbers the same requests with 64 bits. Metrics, the delayed release of the buffers of
    late requests, and opening and closing of sessions are not modelled. *)

From Stdlib Require Import ZArith Lia.
From stdpp Require Import prelude gmap.
From S2P Require Import Prelude Status ReqRingQueue DataFlow QatHa QatEngine.
Open Scope Z_scope.

Inductive CypherAlgorithm := kAES_XTS | kSHA256.
Inductive CypherOp := kEncrypt | kDecrypt | kHash.
Record CypherResult := MkCyResult { cy_status : StatusCode; cy_ctx : Z }.

(** [cd_ok h l]: the requests with the numbers [l] are in the device, in this order. *)
Class CyDevice (H : Type) := {
  cd_buffers : ST H bool;
  cd_fill : ST H bool;
  cd_submit : Z → ST H CpaStatus;
  cd_poll : ST H (CpaStatus * list (Z * CpaStatus));
  cd_ok : H → list Z → Prop;
  cd_buffers_law h l : cd_ok h l → wp cd_buffers (λ _ h', cd_ok h' l) h;
  cd_fill_law h l : cd_ok h l → wp cd_fill (λ _ h', cd_ok h' l) h;
  cd_submit_law h l id : cd_ok h l → wp (cd_submit id) (λ st h', cd_ok h' (if decide (st = CPA_STATUS_SUCCESS) then l ++ [id] else l)) h;
  cd_poll_law h l : cd_ok h l → wp cd_poll (λ '(_, ans) h', ∃ l', l = ans.*1 ++ l' ∧ cd_ok h' l') h }.

Definition SHA256_DST_LEN : Z := 32.
Definition total_len (lens : list Z) : Z := foldl (λ t n, u32 (t + n)) 0 lens.
Definition ValidateArgs (algo : CypherAlgorithm) (lens : list Z) (dst_size : Z) : bool :=
  match algo with
  | kAES_XTS => negb (dst_size <? total_len lens)
  | kSHA256 => negb (dst_size <? SHA256_DST_LEN)
  end.

Section cypher.
Context {H : Type} {CD : CyDevice H} {Tm : Type} {TI : TimerService Tm}.

(** ** State *)

Record CypherReqMeta := MkCyMeta {
  cm_req_id : Z; ring_queue_id : Z; cm_user_ctx : Z; cm_timer_ctx : Z; cm_valid : bool; cm_op : CypherOp; consumed_len : Z }.
#[local] Instance eta_CypherReqMeta : Eta CypherReqMeta := λ m,
  MkCyMeta (cm_req_id m) (ring_queue_id m) (cm_user_ctx m) (cm_timer_ctx m) (cm_valid m) (cm_op m) (consumed_len m).
(** [iv_ptrs] are the members [op.pIv] of the callback contexts in the pool, where they have been
    set; [cy_calls] records the calls of the user's callback. *)
Record QatCypherChannel := MkCypher {
  cy_dev : H; cy_timers : Tm; cy_next_req_id_ : Z; cy_in_qat_num_ : Z; cy_max_ : Z; cy_slots_ : Z; cy_metas : gmap Z CypherReqMeta; iv_ptrs : gmap Z Z;
  req_ring_queue_ : InflightReqRingQueue (Result := CypherResult); cy_user_cb : bool; cy_calls : list CypherResult }.
#[local] Instance eta_QatCypherChannel : Eta QatCypherChannel := λ s,
  MkCypher (cy_dev s) (cy_timers s) (cy_next_req_id_ s) (cy_in_qat_num_ s) (cy_max_ s) (cy_slots_ s) (cy_metas s) (iv_ptrs s) (req_ring_queue_ s)
    (cy_user_cb s) (cy_calls s).
Abbreviation cyc := QatCypherChannel.
Definition on_cdev {A} (m : ST H A) : ST cyc A := λ s, match m (cy_dev s) with Ok (a, h) => Ok (a, s <| cy_dev := h |>) | Err x => Err x end.
Definition on_ctimers {A} (m : ST Tm A) : ST cyc A := λ s, match m (cy_timers s) with Ok (a, t) => Ok (a, s <| cy_timers := t |>) | Err x => Err x end.
Definition on_cring {A} (m : ST (InflightReqRingQueue (Result := CypherResult)) A) : ST cyc A := λ s,
  match m (req_ring_queue_ s) with Ok (a, q) => Ok (a, s <| req_ring_queue_ := q |>) | Err x => Err x end.

Definition kIvSize : Z := 16.
Definition new_cymeta : CypherReqMeta := MkCyMeta 0 (-1) 0 0 false kEncrypt 0.
(** The constructor and [Init], when a unit and a session could be had. *)
Definition new_cypher (h : H) (t : Tm) (max_in_qat_size multiplier iv_buf : Z) (cb : bool) : option cyc :=
  n ← next_power_of_two max_in_qat_size;
  r ← next_power_of_two (u64 (max_in_qat_size * multiplier));
  Some (MkCypher h t 0 0 max_in_qat_size n (list_to_map ((λ k, (k, new_cymeta)) <$> seqZ 0 n)) (list_to_map ((λ k, (k, iv_buf + k * kIvSize)) <$> seqZ 0 n))
    (new_ring (MkCyResult kUnknown 0) r) cb []).

(** ** Requests *)

Definition cy_slot (s : cyc) (id : Z) : Z := Z.land id (cy_slots_ s - 1).
Definition get_cymeta (k : Z) : ST cyc CypherReqMeta := s ← get; need NullDeref (cy_metas s !! k).
Definition put_cymeta (k : Z) (m : CypherReqMeta) : ST cyc unit := modify (λ s, s <| cy_metas ::= <[k := m]> |>).
Definition IsChannelFull (s : cyc) : bool := cy_in_qat_num_ s =? cy_max_ s.
(** The part of [NewCypherCallbackCtx] that can fail: the tweak is copied to [op.pIv]. *)
Definition NewCypherCallbackCtx (id : Z) (algo : CypherAlgorithm) : ST cyc unit :=
  s ← get;
  match algo with
  | kAES_XTS => need NullDeref (iv_ptrs s !! cy_slot s id);; mret ()
  | kSHA256 => mret ()
  end.
Definition SubmitAsync (now : Z) (algo : CypherAlgorithm) (op : CypherOp) (lens : list Z) (dst_size ctx : Z) : ST cyc StatusCode :=
  s ← get;
  if IsChannelFull s || IsFull (req_ring_queue_ s) then mret kResourceBusy
  else if negb (ValidateArgs algo lens dst_size) then mret kInvalidArgument
  else
    got ← on_cdev cd_buffers;
    if negb got then mret kResourceBusy
    else
      filled ← on_cdev cd_fill;
      if negb filled then mret kResourceBusy
      else
        let id := cy_next_req_id_ s in
        NewCypherCallbackCtx id algo;;
        cpa ← on_cdev (cd_submit id);
        let r := CpaStatusToVesalStatusCode cpa in
        (if bool_decide (r = kOk) then
           let k := cy_slot s id in
           get_cymeta k;;
           ring_id ← on_cring NewReq;
           t ← on_ctimers (ts_add now k);
           put_cymeta k (MkCyMeta id ring_id ctx t true op (total_len lens));;
           modify (λ s, s <| cy_next_req_id_ := u32 (cy_next_req_id_ s + 1) |> <| cy_in_qat_num_ := u64 (cy_in_qat_num_ s + 1) |>)
         else mret ());;
        mret r.

Definition push_cypher (r : CypherResult) (ring_id : Z) : ST cyc unit := on_cring (PushResult r ring_id).
Definition CyCallback (a : Z * CpaStatus) : ST cyc unit :=
  modify (λ s, s <| cy_in_qat_num_ := u64 (cy_in_qat_num_ s - 1) |>);;
  s ← get;
  let k := cy_slot s a.1 in
  m ← get_cymeta k;
  when (cm_valid m)
    (push_cypher (MkCyResult (CpaStatusToVesalStatusCode a.2) (cm_user_ctx m)) (ring_queue_id m);;
     put_cymeta k (m <| cm_valid := false |>);;
     on_ctimers (ts_remove (cm_timer_ctx m))).
Fixpoint cy_callbacks (l : list (Z * CpaStatus)) : ST cyc unit :=
  match l with
  | [] => mret ()
  | a :: l => CyCallback a;; cy_callbacks l
  end.
(** The context that replaces the one the device still has gets no [op.pIv]. *)
Definition cy_InterceptInflightReq (k : Z) (dummy_code : StatusCode) : ST cyc unit :=
  m ← get_cymeta k;
  s ← get;
  let k' := cy_slot s (cm_req_id m) in
  m' ← get_cymeta k';
  when (cm_valid m') (put_cymeta k' (m' <| cm_valid := false |>));;
  push_cypher (MkCyResult dummy_code (cm_user_ctx m)) (ring_queue_id m);;
  modify (λ s, s <| iv_ptrs ::= delete k' |>).
Fixpoint cy_intercept_all (ks : list Z) (dummy_code : StatusCode) : ST cyc unit :=
  match ks with
  | [] => mret ()
  | k :: ks => cy_InterceptInflightReq k dummy_code;; cy_intercept_all ks dummy_code
  end.
(** [results] is the array of the user; [None] is -1. The callback is called at every return, for
    as many results as [max_num] says then. [PopResults] takes an [int]. *)
Definition Poll (now : Z) (results : list CypherResult) (max_num : Z) : ST cyc (option (list CypherResult)) :=
  '(r, ans) ← on_cdev cd_poll;
  cy_callbacks ans;;
  s ← get;
  if negb (bool_decide (r = CPA_STATUS_SUCCESS)) && negb (bool_decide (r = CPA_STATUS_RETRY)) then
    when (cy_user_cb s) (modify (λ s, s <| cy_calls ::= λ l, l ++ take (Z.to_nat max_num) results |>));;
    mret None
  else
    ks ← on_ctimers (ts_handle now);
    cy_intercept_all ks kTimeout;;
    rs ← on_cring (PopResults (s32 max_num));
    when (cy_user_cb s) (modify (λ s, s <| cy_calls ::= λ l, l ++ rs |>));;
    mret (Some rs).

(** ** The invariant

    Requests are counted by their number in the ring. Those before [p] have results, of which [rs]
    are not delivered; those from [a] on are in the device. *)

Abbreviation cring := req_ring_queue_.
Definition T (s : cyc) : Z := tail_id (cring s).
Definition home (s : cyc) (g : Z) : Z := g mod cy_slots_ s.
Definition cctx_at (s : cyc) (g : Z) : Z := match cy_metas s !! home s g with Some m => cm_user_ctx m | None => 0 end.
Definition ctimer_at (s : cyc) (g : Z) : timer_view := MkTV (match cy_metas s !! home s g with Some m => cm_timer_ctx m | None => 0 end) (home s g).
Definition open (s : cyc) (p : Z) : list Z := seqZ p (T s - p).
(** The contexts of the requests whose result has not been delivered. *)
Definition cpending (s : cyc) (p : Z) (rs : list CypherResult) : list Z := (cy_ctx <$> rs) ++ (cctx_at s <$> open s p).
Record ccore (s : cyc) (a p : Z) (rs : list CypherResult) : Prop := {
  cc_ring : holds (cring s) ((Some <$> rs) ++ replicate (Z.to_nat (T s - p)) None);
  cc_head : head_id (cring s) + Z.of_nat (length rs) = p;
  cc_order : 0 <= a <= p ∧ p <= T s;
  cc_next : cy_next_req_id_ s = u32 (T s);
  cc_num : cy_in_qat_num_ s = T s - a ∧ T s - a <= cy_max_ s <= cy_slots_ s;
  cc_slots : ∃ j, 0 <= j <= 32 ∧ cy_slots_ s = 2 ^ j;
  cc_all : ∀ k, 0 <= k < cy_slots_ s → is_Some (cy_metas s !! k);
  cc_live : ∀ g, p <= g < T s → ∃ m, cy_metas s !! home s g = Some m ∧ cm_req_id m = u32 g ∧ ring_queue_id m = g ∧ cm_valid m = true;
  cc_valid : ∀ k m, cy_metas s !! k = Some m → cm_valid m = true → ∃ g, p <= g < T s ∧ k = home s g }.
Definition ctimers_from (s : cyc) (p : Z) : Prop := ts_ok (cy_timers s) (ctimer_at s <$> open s p).
Definition cdevice_from (s : cyc) (a : Z) : Prop := cd_ok (cy_dev s) (wrap 32 <$> seqZ a (T s - a)).
Definition cy_ok (s : cyc) (a p : Z) (rs : list CypherResult) : Prop := ccore s a p rs ∧ ctimers_from s p ∧ cdevice_from s a.

Lemma cy_slot_home s a p rs g : ccore s a p rs → 0 <= g → cy_slot s (u32 g) = home s g.
Proof.
  intros Hc Hg. destruct (cc_slots _ _ _ _ Hc) as (j & Hj & E). unfold cy_slot, home. rewrite E. replace (2 ^ j - 1) with (Z.ones j) by (rewrite Z.ones_equiv; lia).
  rewrite Z.land_ones by lia. unfold wrap. replace (2 ^ 32) with (2 ^ j * 2 ^ (32 - j)) by (rewrite <- Z.pow_add_r by lia; f_equal; lia).
  rewrite Z.rem_mul_r by lia. rewrite (Z.mul_comm (2 ^ j)), Z.mod_add by lia. apply Z.mod_mod. lia.
Qed.
Lemma home_range s a p rs g : ccore s a p rs → 0 <= home s g < cy_slots_ s.
Proof. intros Hc. destruct (cc_slots _ _ _ _ Hc) as (j & Hj & E). unfold home. rewrite E. apply Z.mod_pos_bound. lia. Qed.
Lemma home_inj s a p rs g g' : ccore s a p rs → home s g = home s g' → - cy_slots_ s < g - g' < cy_slots_ s → g = g'.
Proof.
  intros Hc. destruct (cc_slots _ _ _ _ Hc) as (j & Hj & E). unfold home. rewrite E. intros Hm Hab. assert (0 < 2 ^ j) by lia.
  pose proof (Z.div_mod g (2 ^ j) ltac:(lia)) as Ea. pose proof (Z.div_mod g' (2 ^ j) ltac:(lia)) as Eb. rewrite Hm in Ea. assert (g - g' = 2 ^ j * (g / 2 ^ j - g' / 2 ^ j)) by lia.
  assert (g / 2 ^ j - g' / 2 ^ j = 0) by nia. lia.
Qed.
Lemma wp_on_cdev {A} (m : ST H A) P (Q : A → cyc → Prop) s : wp m P (cy_dev s) → (∀ a h, P a h → Q a (s <| cy_dev := h |>)) → wp (on_cdev m) Q s.
Proof. unfold wp, on_cdev. destruct (m (cy_dev s)) as [[a h]|]; [|done]. eauto. Qed.
Lemma wp_on_ctimers {A} (m : ST Tm A) P (Q : A → cyc → Prop) s : wp m P (cy_timers s) → (∀ a t, P a t → Q a (s <| cy_timers := t |>)) → wp (on_ctimers m) Q s.
Proof. unfold wp, on_ctimers. destruct (m (cy_timers s)) as [[a t]|]; [|done]. eauto. Qed.
Lemma wp_on_cring {A} (m : ST _ A) P (Q : A → cyc → Prop) s : wp m P (cring s) → (∀ a q, P a q → Q a (s <| req_ring_queue_ := q |>)) → wp (on_cring m) Q s.
Proof. unfold wp, on_cring. destruct (m (req_ring_queue_ s)) as [[a q]|]; [|done]. eauto. Qed.
Lemma wp_get_cymeta k m (s : cyc) (Q : CypherReqMeta → cyc → Prop) : cy_metas s !! k = Some m → Q m s → wp (get_cymeta k) Q s.
Proof. intros Hk HQ. unfold get_cymeta. do 2 wp_step. by eapply wp_need. Qed.
Lemma open_cons s p : p < T s → open s p = p :: open s (p + 1).
Proof. intros Hp. unfold open. rewrite seqZ_cons by lia. f_equal. f_equal; lia. Qed.

(** A result for the first request without one. *)
Definition settled (s : cyc) (q : InflightReqRingQueue (Result := CypherResult)) (p : Z) (m : CypherReqMeta) : cyc :=
  s <| req_ring_queue_ := q |> <| cy_metas ::= <[home s p := m <| cm_valid := false |>]> |>.
Lemma push_first s a p rs r : ccore s a p rs → p < T s →
  wp (PushResult r p) (λ _ q, holds q ((Some <$> (rs ++ [r])) ++ replicate (Z.to_nat (T s - (p + 1))) None) ∧ head_id q = head_id (cring s) ∧ tail_id q = T s ∧ size_ q = size_ (cring s)) (cring s).
Proof.
  intros Hc Hp. pose proof (cc_ring _ _ _ _ Hc) as Hq. pose proof (cc_head _ _ _ _ Hc) as Hh. eapply wp_mono; [apply (PushResult_ok _ _ r p Hq); unfold T in Hp; lia|]. cbv beta. intros _ q (Hq' & Hh' & Hs').
  assert (<[Z.to_nat (p - head_id (cring s)) := Some r]> ((Some <$> rs) ++ replicate (Z.to_nat (T s - p)) None) = (Some <$> (rs ++ [r])) ++ replicate (Z.to_nat (T s - (p + 1))) None) as E.
  { replace (Z.to_nat (p - head_id (cring s))) with (length (Some <$> rs) + 0)%nat by (rewrite length_fmap; lia). rewrite insert_app_r.
    replace (Z.to_nat (T s - p)) with (S (Z.to_nat (T s - (p + 1)))) by lia. cbn. by rewrite fmap_app, <- app_assoc. }
  rewrite E in Hq'. split; [done|]. split; [done|]. split; [|done]. rewrite (h_tail _ _ Hq'), Hh', length_app, length_fmap, length_app, length_replicate. cbn. lia.
Qed.
Lemma settled_ok s a p rs r m q : ccore s a p rs → p < T s → cy_metas s !! home s p = Some m → cy_ctx r = cm_user_ctx m →
  holds q ((Some <$> (rs ++ [r])) ++ replicate (Z.to_nat (T s - (p + 1))) None) → head_id q = head_id (cring s) → tail_id q = T s →
  ccore (settled s q p m) a (p + 1) (rs ++ [r]) ∧ cpending (settled s q p m) (p + 1) (rs ++ [r]) = cpending s p rs ∧
  (ctimer_at (settled s q p m) <$> open s (p + 1)) = (ctimer_at s <$> open s (p + 1)).
Proof.
  intros Hc Hp Hm Hr Hq Hh Ht. pose proof Hc as [C1 C2 C3 C4 C5 C6 C7 C8 C9]. set (s' := settled s q p m).
  assert (T s' = T s) as HT by exact Ht. assert (∀ g, home s' g = home s g) as Hhome by done.
  assert (∀ g, p + 1 <= g < T s → home s g ≠ home s p) as Hne by (intros g Hg E; apply (home_inj s a p rs) in E; [lia|done|lia]).
  assert (∀ g, p + 1 <= g < T s → cy_metas s' !! home s g = cy_metas s !! home s g) as Hlk by (intros g Hg; cbn; apply lookup_insert_ne; by apply not_eq_sym, Hne).
  split; [split; rewrite ?HT; try done|split].
  - cbn. rewrite Hh, length_app. cbn. lia.
  - lia.
  - intros k Hk. cbn. rewrite lookup_insert_is_Some'. right. by apply C7.
  - intros g Hg. rewrite Hhome, Hlk by lia. apply C8. lia.
  - intros k m0 Hk Hv. cbn in Hk. apply lookup_insert_Some in Hk as [[<- <-] | [Hk0 Hk]]; [done|]. destruct (C9 k m0 Hk Hv) as (g & Hg & ->). exists g. split; [|done].
    destruct (decide (g = p)) as [->|]; [done|lia].
  - unfold cpending. unfold open at 1. rewrite HT. fold (open s (p + 1)). rewrite (open_cons s p Hp). rewrite fmap_app, <- app_assoc. f_equal. cbn. f_equal.
    + rewrite Hr. unfold cctx_at. by rewrite Hm.
    + apply list_fmap_ext. intros j g Hg%list_elem_of_lookup_2. unfold open in Hg. apply elem_of_seqZ in Hg. unfold cctx_at. rewrite Hhome, Hlk by lia. done.
  - apply list_fmap_ext. intros j g Hg%list_elem_of_lookup_2. unfold open in Hg. apply elem_of_seqZ in Hg. unfold ctimer_at. rewrite Hhome, Hlk by lia. done.
Qed.

(** What callbacks and timers leave alone. *)
Definition ckeeps (s s' : cyc) : Prop :=
  cy_dev s' = cy_dev s ∧ T s' = T s ∧ cy_slots_ s' = cy_slots_ s ∧ cy_max_ s' = cy_max_ s ∧ cy_user_cb s' = cy_user_cb s ∧ cy_calls s' = cy_calls s.
Lemma ckeeps_trans s s1 s2 : ckeeps s s1 → ckeeps s1 s2 → ckeeps s s2.
Proof. unfold ckeeps. intuition congruence. Qed.

(** ** Callbacks *)

Lemma num_small s a p rs : ccore s a p rs → 0 <= cy_in_qat_num_ s <= 2 ^ 32.
Proof. intros [_ _ C3 _ C5 (j & Hj & E) _ _ _]. rewrite E in C5. assert (2 ^ j <= 2 ^ 32) by (apply Z.pow_le_mono_r; lia). lia. Qed.
Definition less_one (s : cyc) : cyc := s <| cy_in_qat_num_ := u64 (cy_in_qat_num_ s - 1) |>.
Lemma less_one_ok s a p rs t : ccore s a p rs → a < p → ccore (less_one (s <| cy_timers := t |>)) (a + 1) p rs.
Proof.
  intros Hc Ha. pose proof (num_small _ _ _ _ Hc). destruct Hc as [C1 C2 C3 C4 C5 C6 C7 C8 C9]. split; try done; unfold T in *; cbn in *; [lia|].
  rewrite wrap_small by (unfold in_range; lia). lia.
Qed.
Lemma cy_callback_ok s a p rs x : ccore s a p rs → ctimers_from s p → x.1 = u32 a → a < T s →
  wp (CyCallback x) (λ _ s', ∃ p' rs', ccore s' (a + 1) p' rs' ∧ ctimers_from s' p' ∧ cpending s' p' rs' = cpending s p rs ∧ ckeeps s s') s.
Proof.
  intros Hc Ht Hx Ha. pose proof (cc_order _ _ _ _ Hc) as Ho. unfold CyCallback. do 4 wp_step. rewrite Hx. change (cy_slot _ (u32 a)) with (cy_slot s (u32 a)). rewrite (cy_slot_home s a p rs a Hc) by lia.
  destruct (cc_all _ _ _ _ Hc (home s a)) as [m Hm]; [by eapply home_range|]. wp_step. eapply wp_get_cymeta; [exact Hm|]. destruct (decide (a = p)) as [->|Hne].
  - destruct (cc_live _ _ _ _ Hc p) as (m' & Hm' & _ & Hrid & Hv); [lia|]. rewrite Hm in Hm'. injection Hm' as <-. rewrite Hv. cbn [when]. set (r := MkCyResult (CpaStatusToVesalStatusCode x.2) (cm_user_ctx m)).
    unfold push_cypher, put_cymeta. wp_step. rewrite Hrid. eapply wp_on_cring; [exact (push_first s p p rs r Hc Ha)|]. cbv beta. intros _ q (Q1 & Q2 & Q3 & _). do 2 wp_step.
    destruct (settled_ok s p p rs r m q Hc Ha Hm eq_refl Q1 Q2 Q3) as (S1 & S2 & S3).
    unfold ctimers_from in Ht. rewrite (open_cons s p Ha) in Ht. cbn [fmap list_fmap] in Ht. eapply wp_on_ctimers.
    { replace (cm_timer_ctx m) with (tv_ctx (ctimer_at s p)) by (unfold ctimer_at; by rewrite Hm). exact (ts_remove_law _ [] _ _ Ht). }
    cbv beta. intros _ t Ht'. cbn [app] in Ht'. exists (p + 1), (rs ++ [r]). pose proof (less_one_ok _ _ _ _ t S1 ltac:(lia)) as A.
    split; [exact A|]. split; [|split; [exact S2|by split_and!]]. unfold ctimers_from. unfold open. change (T _) with (tail_id q). rewrite Q3. fold (open s (p + 1)).
    change (ts_ok t (ctimer_at (settled s q p m) <$> open s (p + 1))). by rewrite S3.
  - assert (cm_valid m = false) as Hv.
    { destruct (cm_valid m) eqn:Hv; [|done]. destruct (cc_valid _ _ _ _ Hc _ _ Hm Hv) as (g & Hg & E). pose proof (cc_num _ _ _ _ Hc). apply (home_inj s a p rs) in E; [lia|done|lia]. }
    rewrite Hv. cbn [when]. wp_step. exists p, rs. pose proof (less_one_ok s a p rs (cy_timers s) Hc ltac:(lia)) as A. destruct s. split; [exact A|]. split; [exact Ht|]. split; [done|]. by split_and!.
Qed.
Lemma cy_callbacks_ok l : ∀ s a p rs, ccore s a p rs → ctimers_from s p → l.*1 = wrap 32 <$> seqZ a (Z.of_nat (length l)) → a + Z.of_nat (length l) <= T s →
  wp (cy_callbacks l) (λ _ s', ∃ p' rs', ccore s' (a + Z.of_nat (length l)) p' rs' ∧ ctimers_from s' p' ∧ cpending s' p' rs' = cpending s p rs ∧ ckeeps s s') s.
Proof.
  induction l as [|x l IH]; intros s a p rs Hc Ht Hids Hle.
  { cbn [cy_callbacks length]. wp_step. exists p, rs. change (Z.of_nat 0) with 0. rewrite Z.add_0_r. by split_and!. }
  cbn [length] in *. rewrite seqZ_cons in Hids by lia. injection Hids as Hx Hids. cbn [cy_callbacks]. wp_step. eapply wp_mono; [apply (cy_callback_ok s a p rs x Hc Ht Hx); lia|].
  cbv beta. intros _ s1 (p1 & rs1 & C1 & T1 & P1 & K1). replace (Z.pred (Z.of_nat (S (length l)))) with (Z.of_nat (length l)) in Hids by lia. replace (Z.succ a) with (a + 1) in Hids by lia.
  eapply wp_mono; [apply (IH s1 (a + 1) p1 rs1 C1 T1 Hids)|]. { destruct K1 as (_ & E & _). rewrite E. lia. }
  cbv beta. intros _ s2 (p2 & rs2 & C2 & T2 & P2 & K2). exists p2, rs2. replace (a + Z.of_nat (S (length l))) with (a + 1 + Z.of_nat (length l)) by lia.
  split_and!; [done|done|congruence|by eapply ckeeps_trans].
Qed.

(** ** Timeouts *)

Lemma cy_intercept_ok s a p rs code : ccore s a p rs → p < T s →
  wp (cy_InterceptInflightReq (home s p) code) (λ _ s', ∃ rs', ccore s' a (p + 1) rs' ∧ cpending s' (p + 1) rs' = cpending s p rs ∧ ckeeps s s' ∧ cy_timers s' = cy_timers s ∧
    (ctimer_at s' <$> open s (p + 1)) = (ctimer_at s <$> open s (p + 1))) s.
Proof.
  intros Hc Hp. pose proof (cc_order _ _ _ _ Hc) as Ho. destruct (cc_live _ _ _ _ Hc p) as (m & Hm & Hid & Hrid & Hv); [lia|]. unfold cy_InterceptInflightReq. wp_step. eapply wp_get_cymeta; [done|].
  do 2 wp_step. rewrite Hid, (cy_slot_home s a p rs p Hc) by lia. wp_step. eapply wp_get_cymeta; [done|]. rewrite Hv. cbn [when]. unfold put_cymeta, push_cypher. do 2 wp_step.
  set (r := MkCyResult code (cm_user_ctx m)). rewrite Hrid. wp_step. eapply wp_on_cring; [exact (push_first s a p rs r Hc Hp)|]. cbv beta. intros _ q (Q1 & Q2 & Q3 & _). wp_step.
  destruct (settled_ok s a p rs r m q Hc Hp Hm eq_refl Q1 Q2 Q3) as (S1 & S2 & S3). exists (rs ++ [r]). split; [destruct S1; by split|]. split; [exact S2|]. split; [by split_and!|]. split; [done|exact S3].
Qed.
Lemma open_keeps s s' p : ckeeps s s' → open s' p = open s p.
Proof. intros (_ & E & _). unfold open. by rewrite E. Qed.
Lemma open_drop s p n : p + Z.of_nat n <= T s → drop n (open s p) = open s (p + Z.of_nat n).
Proof.
  intros Hn. unfold open. replace (T s - p) with (Z.of_nat n + (T s - (p + Z.of_nat n))) by lia. rewrite seqZ_app by lia. rewrite drop_app_length'; [done|]. rewrite length_seqZ. lia.
Qed.
Lemma cy_intercept_all_ok n : ∀ s a p rs code, ccore s a p rs → p + Z.of_nat n <= T s →
  wp (cy_intercept_all (home s <$> seqZ p (Z.of_nat n)) code) (λ _ s', ∃ rs', ccore s' a (p + Z.of_nat n) rs' ∧ cpending s' (p + Z.of_nat n) rs' = cpending s p rs ∧ ckeeps s s' ∧
    cy_timers s' = cy_timers s ∧ (ctimer_at s' <$> open s (p + Z.of_nat n)) = (ctimer_at s <$> open s (p + Z.of_nat n))) s.
Proof.
  induction n as [|n IH]; intros s a p rs code Hc Hn.
  { rewrite seqZ_nil by lia. cbn [fmap list_fmap cy_intercept_all]. wp_step. change (Z.of_nat 0) with 0. rewrite Z.add_0_r. exists rs. by split_and!. }
  rewrite seqZ_cons by lia. rewrite fmap_cons. cbn [cy_intercept_all]. wp_step. eapply wp_mono; [apply (cy_intercept_ok s a p rs); [exact Hc|lia]|]. cbv beta. intros _ s1 (rs1 & C1 & P1 & K1 & M1 & T1).
  assert (∀ g, home s g = home s1 g) as Hs by (destruct K1 as (_ & _ & E & _); intros g; unfold home; by rewrite E). pose proof K1 as (_ & HT & _).
  replace (Z.succ p) with (p + 1) by lia. replace (Z.pred (Z.of_nat (S n))) with (Z.of_nat n) by lia. rewrite (list_fmap_ext (home s) (home s1) (seqZ (p + 1) (Z.of_nat n)) (λ _ g _, Hs g)).
  eapply wp_mono; [apply (IH s1 a (p + 1) rs1 code C1); lia|]. cbv beta. intros _ s2 (rs2 & C2 & P2 & K2 & M2 & T2). replace (p + Z.of_nat (S n)) with (p + 1 + Z.of_nat n) by lia.
  exists rs2. split_and!; [done|congruence|by eapply ckeeps_trans|congruence|]. rewrite (open_keeps s s1) in T2 by done. rewrite T2.
  apply (f_equal (drop n)) in T1. rewrite <- !fmap_drop, open_drop in T1 by lia. done.
Qed.
Lemma open_split s p l1 l2 : p <= T s → ctimer_at s <$> open s p = l1 ++ l2 →
  let n := Z.of_nat (length l1) in p + n <= T s ∧ tv_arg <$> l1 = home s <$> seqZ p n ∧ l2 = ctimer_at s <$> open s (p + n).
Proof.
  intros Hp E n. assert (length l1 ≤ length (open s p))%nat as Hl by (apply (f_equal length) in E; rewrite length_fmap, length_app in E; lia).
  unfold open in *. rewrite length_seqZ in Hl. replace (T s - p) with (n + (T s - (p + n))) in E by lia.
  rewrite seqZ_app, fmap_app in E by lia. assert (length (ctimer_at s <$> seqZ p n) = length l1) as El by (rewrite length_fmap, length_seqZ; lia).
  apply app_inj_1 in E as [E1 E2]; [|done]. split; [lia|]. split; [|done]. rewrite <- E1, <- list_fmap_compose. by apply list_fmap_ext.
Qed.
Lemma cy_timeouts_ok s a p rs now : ccore s a p rs → ctimers_from s p →
  wp (ks ← on_ctimers (ts_handle now); cy_intercept_all ks kTimeout) (λ _ s', ∃ p' rs', ccore s' a p' rs' ∧ ctimers_from s' p' ∧ cpending s' p' rs' = cpending s p rs ∧ ckeeps s s') s.
Proof.
  intros Hc Ht. wp_step. eapply wp_on_ctimers; [exact (ts_handle_law _ _ now Ht)|]. cbv beta. intros ks t (l1 & l2 & E & -> & Ht').
  destruct (open_split s p l1 l2) as (Hn & -> & ->); [apply (cc_order _ _ _ _ Hc)|done|]. set (s1 := s <| cy_timers := t |>).
  assert (ccore s1 a p rs) as Hc1 by (destruct Hc; by split). change (home s) with (home s1).
  eapply wp_mono; [apply (cy_intercept_all_ok _ s1 a p rs); [exact Hc1|done]|]. cbv beta. intros _ s2 (rs2 & C2 & P2 & K2 & M2 & T2). eexists _, rs2. split; [exact C2|]. split; [|split; [exact P2|exact K2]].
  unfold ctimers_from. rewrite (open_keeps s1 s2) by done. rewrite T2, M2. exact Ht'.
Qed.

(** ** Submission *)

Lemma cpa_success cpa : CpaStatusToVesalStatusCode cpa = kOk ↔ cpa = CPA_STATUS_SUCCESS.
Proof. by destruct cpa. Qed.
Lemma core_dev s a p rs h : ccore s a p rs → ccore (s <| cy_dev := h |>) a p rs.
Proof. intros []. by split. Qed.
(** The request that was submitted is entered. *)
Definition entered (s : cyc) (q : InflightReqRingQueue (Result := CypherResult)) (m : CypherReqMeta) : cyc :=
  s <| req_ring_queue_ := q |> <| cy_metas ::= <[home s (T s) := m]> |> <| cy_next_req_id_ := u32 (cy_next_req_id_ s + 1) |> <| cy_in_qat_num_ := u64 (cy_in_qat_num_ s + 1) |>.
Lemma cy_enter_ok s a p rs q t m : ccore s a p rs → cy_in_qat_num_ s ≠ cy_max_ s → cm_req_id m = cy_next_req_id_ s → ring_queue_id m = T s → cm_timer_ctx m = t → cm_valid m = true →
  holds q (((Some <$> rs) ++ replicate (Z.to_nat (T s - p)) None) ++ [None]) → head_id q = head_id (cring s) →
  let s' := entered s q m in
  ccore s' a p rs ∧ T s' = T s + 1 ∧ cpending s' p rs = cpending s p rs ++ [cm_user_ctx m] ∧
  (ctimer_at s' <$> open s' p) = (ctimer_at s <$> open s p) ++ [MkTV t (home s (T s))].
Proof.
  intros Hc Hroom Hid Hrid Htm Hv Hq Hh s'. pose proof (num_small _ _ _ _ Hc) as Hn. pose proof Hc as [C1 C2 C3 C4 C5 C6 C7 C8 C9].
  assert (T s' = T s + 1) as HT. { unfold T, s'. cbn. rewrite (h_tail _ _ Hq), Hh, !length_app, length_fmap, length_replicate. cbn. unfold T in *. lia. }
  assert (∀ g, home s' g = home s g) as Hhome by done.
  assert (∀ g, p <= g < T s → cy_metas s' !! home s g = cy_metas s !! home s g) as Hlk.
  { intros g Hg. cbn. apply lookup_insert_ne. intros E. symmetry in E. apply (home_inj s a p rs) in E; [lia|done|lia]. }
  assert (cy_metas s' !! home s (T s) = Some m) as Hnew by (cbn; apply lookup_insert_eq).
  assert (open s' p = open s p ++ [T s]) as Eo.
  { unfold open. rewrite HT. replace (T s + 1 - p) with (T s - p + 1) by lia. rewrite seqZ_app by lia. f_equal. replace (p + (T s - p)) with (T s) by lia. done. }
  split; [split; rewrite ?HT; try done|split; [done|split]].
  - change (cring s') with q. rewrite <- app_assoc in Hq. replace (Z.to_nat (T s + 1 - p)) with (Z.to_nat (T s - p) + 1)%nat by lia. rewrite replicate_add. exact Hq.
  - cbn. lia.
  - lia.
  - cbn. rewrite C4. unfold wrap. by rewrite Zplus_mod_idemp_l.
  - cbn. rewrite wrap_small by (unfold in_range; lia). lia.
  - intros k Hk. cbn. rewrite lookup_insert_is_Some'. right. by apply C7.
  - intros g Hg. rewrite Hhome. destruct (decide (g = T s)) as [->|]; [|rewrite Hlk by lia; apply C8; lia]. exists m. split_and!; [done| |done|done]. by rewrite Hid.
  - intros k m0 Hk Hv0. cbn in Hk. apply lookup_insert_Some in Hk as [[<- <-] | [_ Hk]]; [exists (T s); split; [lia|done]|]. destruct (C9 k m0 Hk Hv0) as (g & Hg & ->). exists g. split; [lia|done].
  - unfold cpending. rewrite Eo, fmap_app, app_assoc. f_equal; [f_equal|].
    + apply list_fmap_ext. intros j g Hg%list_elem_of_lookup_2. unfold open in Hg. apply elem_of_seqZ in Hg. unfold cctx_at. rewrite Hhome, Hlk by lia. done.
    + cbn [fmap list_fmap]. unfold cctx_at. by rewrite Hhome, Hnew.
  - rewrite Eo, fmap_app. f_equal.
    + apply list_fmap_ext. intros j g Hg%list_elem_of_lookup_2. unfold open in Hg. apply elem_of_seqZ in Hg. unfold ctimer_at. rewrite Hhome, Hlk by lia. done.
    + cbn [fmap list_fmap]. unfold ctimer_at. by rewrite Hhome, Hnew, Htm.
Qed.
(** There is a place for the tweak, if one is needed. *)
Definition tweak_place (s : cyc) (algo : CypherAlgorithm) : Prop := algo = kAES_XTS → is_Some (iv_ptrs s !! cy_slot s (cy_next_req_id_ s)).
Lemma cy_submit_ok s a p rs now algo op lens dst_size ctx : cy_ok s a p rs → ts_room (cy_timers s) → T s < 2 ^ 63 - 1 → tweak_place s algo →
  wp (SubmitAsync now algo op lens dst_size ctx) (λ st s', cy_ok s' a p rs ∧ cpending s' p rs = cpending s p rs ++ (if decide (st = kOk) then [ctx] else []) ∧
    cy_calls s' = cy_calls s ∧ cy_user_cb s' = cy_user_cb s) s.
Proof.
  intros (Hc & Ht & Hd) Hts HT Hiv. pose proof (cc_order _ _ _ _ Hc) as Ho.
  assert (∀ h, cd_ok h (wrap 32 <$> seqZ a (T s - a)) → cy_ok (s <| cy_dev := h |>) a p rs) as Hdev by (intros h Hh; split; [by apply core_dev|by split]).
  assert (∀ st h, st ≠ kOk → cd_ok h (wrap 32 <$> seqZ a (T s - a)) → cy_ok (s <| cy_dev := h |>) a p rs ∧ cpending (s <| cy_dev := h |>) p rs = cpending s p rs ++ (if decide (st = kOk) then [ctx] else []) ∧
    cy_calls s = cy_calls s ∧ cy_user_cb s = cy_user_cb s) as Hfail by (intros st h Hst Hh; rewrite decide_False by done; rewrite app_nil_r; split; [by apply Hdev|done]).
  assert (∀ st, st ≠ kOk → cy_ok s a p rs ∧ cpending s p rs = cpending s p rs ++ (if decide (st = kOk) then [ctx] else []) ∧ cy_calls s = cy_calls s ∧ cy_user_cb s = cy_user_cb s) as Hfail0
    by (intros st Hst; rewrite decide_False by done; rewrite app_nil_r; split; [by split|done]).
  unfold SubmitAsync. do 2 wp_step. destruct (IsChannelFull s || IsFull (cring s)) eqn:Ef; [wp_step; by apply Hfail0|]. apply orb_false_iff in Ef as [Ef1 Ef2].
  destruct (ValidateArgs algo lens dst_size); cbn [negb]; [|wp_step; by apply Hfail0].
  wp_step. eapply wp_on_cdev; [exact (cd_buffers_law _ _ Hd)|]. cbv beta. intros got h1 H1. destruct got; cbn [negb]; [|wp_step; by apply Hfail].
  wp_step. eapply wp_on_cdev; [exact (cd_fill_law _ _ H1)|]. cbv beta. intros filled h2 H2. destruct filled; cbn [negb]; [|wp_step; by apply Hfail]. cbv zeta.
  wp_step. eapply (wp_mono _ (λ _ s', s' = s <| cy_dev := h2 |>)).
  { unfold NewCypherCallbackCtx. do 2 wp_step. destruct algo; [|by wp_step]. destruct Hiv as [x Hx]; [done|]. wp_step. eapply wp_need; [exact Hx|]. by wp_step. }
  cbv beta. intros _ ? ->. wp_step. eapply wp_on_cdev; [exact (cd_submit_law _ _ (cy_next_req_id_ s) H2)|]. cbv beta. intros cpa h3 H3. set (s3 := s <| cy_dev := h3 |>).
  case_bool_decide as Hr; [|do 2 wp_step; apply Hfail; [done|]; rewrite decide_False in H3 by (by rewrite <- cpa_success); exact H3]. rewrite decide_True in H3 by (by apply cpa_success).
  assert (cy_slot s (cy_next_req_id_ s) = home s (T s)) as Ek by (rewrite (cc_next _ _ _ _ Hc); apply (cy_slot_home s a p rs); [done|lia]). rewrite Ek.
  destruct (cc_all _ _ _ _ Hc (home s (T s))) as [m0 Hm0]; [by eapply home_range|]. do 2 wp_step. eapply wp_get_cymeta; [exact Hm0|].
  wp_step. eapply wp_on_cring; [exact (NewReq_ok (cring s) _ (cc_ring _ _ _ _ Hc) HT)|]. rewrite Ef2. cbv beta. intros rid q (-> & Hq & _ & Hh & _).
  wp_step. eapply wp_on_ctimers; [exact (ts_add_law _ _ now (home s (T s)) Ht Hts)|]. cbv beta. intros t tm Htm. unfold put_cymeta. do 4 wp_step.
  set (m := MkCyMeta (cy_next_req_id_ s) (tail_id (cring s)) ctx t true op (total_len lens)). apply Z.eqb_neq in Ef1.
  destruct (cy_enter_ok s a p rs q t m Hc Ef1 eq_refl eq_refl eq_refl eq_refl Hq Hh) as (E1 & E2 & E3 & E4).
  rewrite decide_True by done. split; [|split; [exact E3|done]]. split; [destruct E1; by split|]. split.
  - unfold ctimers_from. match goal with |- ts_ok ?x ?y => change (ts_ok tm (ctimer_at (entered s q m) <$> open (entered s q m) p)) end.
    rewrite E4. exact Htm.
  - unfold cdevice_from. match goal with |- cd_ok _ (_ <$> seqZ a (?x - a)) => change x with (T (entered s q m)) end.
    rewrite E2. replace (T s + 1 - a) with (T s - a + 1) by lia. rewrite seqZ_app, fmap_app by lia. replace (a + (T s - a)) with (T s) by lia. rewrite (cc_next _ _ _ _ Hc) in H3. exact H3.
Qed.

(** ** Polling *)

Lemma ready_settled (rs : list CypherResult) n : ready ((Some <$> rs) ++ replicate n None) = rs.
Proof. induction rs as [|r rs IH]; cbn; [by destruct n|by rewrite IH]. Qed.
(** The results that were delivered are gone from the ring. *)
Lemma popped_ok s a p rs q k : ccore s a p rs → (k ≤ length rs)%nat → holds q (drop k ((Some <$> rs) ++ replicate (Z.to_nat (T s - p)) None)) → head_id q = head_id (cring s) + Z.of_nat k →
  ccore (s <| req_ring_queue_ := q |>) a p (drop k rs) ∧ T (s <| req_ring_queue_ := q |>) = T s.
Proof.
  intros Hc Hk Hq Hh. rewrite drop_app_le, <- fmap_drop in Hq by (rewrite length_fmap; lia). pose proof Hc as [C1 C2 C3 C4 C5 C6 C7 C8 C9].
  assert (T (s <| req_ring_queue_ := q |>) = T s) as HT by (unfold T in *; cbn; rewrite (h_tail _ _ Hq), Hh, length_app, length_fmap, length_drop, length_replicate; lia).
  split; [|done]. split; rewrite ?HT; try done. rewrite length_drop. change (head_id q + Z.of_nat (length rs - k) = p). lia.
Qed.
Lemma wp_regroup {S A B C} (m : ST S A) (f : A → ST S B) (g : B → ST S C) Q s : wp ((m ≫= f) ≫= g) Q s → wp (m ≫= λ x, f x ≫= g) Q s.
Proof. unfold wp, mbind, ST_bind. by destruct (m s) as [[]|]. Qed.
Lemma cy_poll_ok s a p rs now results n : cy_ok s a p rs →
  wp (Poll now results n) (λ o s', (∃ a' p' rs', cy_ok s' a' p' rs' ∧ cpending s p rs = (cy_ctx <$> default [] o) ++ cpending s' p' rs') ∧ (length (default [] o) ≤ Z.to_nat (s32 n))%nat ∧
    cy_user_cb s' = cy_user_cb s ∧ ∀ l, o = Some l → cy_calls s' = cy_calls s ++ (if cy_user_cb s then l else []) ∧ (cy_in_qat_num_ s' = 0 → cy_ctx <$> l = take (Z.to_nat (s32 n)) (cpending s p rs))) s.
Proof.
  intros (Hc & Ht & Hd). pose proof (cc_order _ _ _ _ Hc) as Ho. unfold Poll. wp_step. eapply wp_on_cdev; [exact (cd_poll_law _ _ Hd)|]. cbv beta. intros [r ans] h (l' & El & Hl').
  set (k := Z.of_nat (length ans)). assert (k <= T s - a) as Hlen by (apply (f_equal length) in El; rewrite length_fmap, length_seqZ, length_app, length_fmap in El; lia).
  assert (ans.*1 = wrap 32 <$> seqZ a k ∧ l' = (wrap 32 <$> seqZ (a + k) (T s - (a + k)))) as [Eids ->].
  { replace (T s - a) with (k + (T s - (a + k))) in El by lia. rewrite seqZ_app, fmap_app in El by lia. symmetry in El. apply app_inj_1 in El; [done|]. rewrite !length_fmap, length_seqZ. lia. }
  wp_step. eapply wp_mono; [apply (cy_callbacks_ok ans (s <| cy_dev := h |>) a p rs); [by apply core_dev|exact Ht|exact Eids|change (a + k <= T s); lia]|]. cbv beta. fold k.
  intros _ s2 (p2 & rs2 & C2 & T2 & P2 & K2). pose proof K2 as (D2 & N2 & _ & _ & B2 & A2). cbn in D2, B2, A2. change (T (s <| cy_dev := h |>)) with (T s) in N2. do 2 wp_step.
  assert (∀ s', ckeeps s2 s' → cdevice_from s' (a + k)) as Hdev by (intros s' (D & N & _); unfold cdevice_from; by rewrite D, N, D2, N2).
  rewrite B2. destruct (negb _ && negb _).
  - wp_step. eapply (wp_mono _ (λ _ s', ∃ l, s' = s2 <| cy_calls ::= λ c, c ++ l |>)).
    { destruct (cy_user_cb s); cbn [when]; wp_step; [by eexists|]. exists []. destruct s2. cbn. by rewrite app_nil_r. }
    cbv beta. intros _ s3 (l & ->). wp_step. split; [|split; [cbn; lia|split; [exact B2|done]]]. exists (a + k), p2, rs2. split; [|by symmetry].
    split; [destruct C2; by split|split; [exact T2|exact (Hdev s2 ltac:(by split_and!))]].
  - apply wp_regroup. wp_step. eapply wp_mono; [by apply (cy_timeouts_ok s2 (a + k) p2 rs2 now)|]. cbv beta. intros _ s3 (p3 & rs3 & C3 & T3 & P3 & K3).
    destruct (ring_pop (cring s3) _ (s32 n) (cc_ring _ _ _ _ C3)) as (q & Eq & Hq & Hh & _). rewrite ready_settled in *. set (z := Z.to_nat (s32 n)) in *. set (out := take z rs3) in *.
    wp_step. eapply (wp_on_cring _ (λ x q', x = out ∧ q' = q)); [unfold wp; by rewrite Eq|]. cbv beta. intros ? ? [-> ->].
    destruct (popped_ok s3 (a + k) p3 rs3 q (length out) C3) as [C4 HT4]; [unfold out; rewrite length_take; lia|done|done|]. set (s4 := s3 <| req_ring_queue_ := q |>) in *.
    pose proof K3 as (_ & _ & _ & _ & B3 & A3). rewrite B2 in B3. rewrite A2 in A3. wp_step. eapply (wp_mono _ (λ _ s', s' = s4 <| cy_calls := cy_calls s ++ if cy_user_cb s then out else [] |>)).
    { destruct (cy_user_cb s); cbn [when]; wp_step; [by rewrite <- A3|]. rewrite app_nil_r, <- A3. by destruct s3. }
    cbv beta. intros _ ? ->. wp_step. split; [|split; [cbn; unfold out; rewrite length_take; lia|split; [exact B3|intros ? [= <-]; split; [done|]]]].
    2: { intros Hz. assert (p3 = T s3) as Ep by (pose proof (cc_num _ _ _ _ C3); pose proof (cc_order _ _ _ _ C3); change (cy_in_qat_num_ s3 = 0) in Hz; lia).
      assert (cpending s p rs = cy_ctx <$> rs3) as ->; [|unfold out; by rewrite fmap_take]. etrans; [exact (eq_sym (eq_trans P3 P2))|]. unfold cpending, open. rewrite Ep, Z.sub_diag. cbn. by rewrite app_nil_r. }
    exists (a + k), p3, (drop (length out) rs3). assert (ckeeps s3 s4) as K4 by (by split_and!).
    split; [split; [destruct C4; by split|split]|].
    + change (ts_ok (cy_timers s3) (ctimer_at s3 <$> open s4 p3)). rewrite (open_keeps s3 s4) by done. exact T3.
    + apply (Hdev s4). by eapply ckeeps_trans.
    + change (cpending _ p3 (drop (length out) rs3)) with (cpending s4 p3 (drop (length out) rs3)). unfold cpending at 2. rewrite (open_keeps s3 s4 p3 K4), app_assoc, <- fmap_app.
      replace (default [] (Some out) ++ drop (length out) rs3) with rs3; [exact (eq_sym (eq_trans P3 P2))|]. cbn. rewrite <- (take_drop z rs3) at 1. fold out. f_equal. unfold out. rewrite length_take.
      destruct (decide (z ≤ length rs3)%nat); [by rewrite Nat.min_l by lia|]. rewrite Nat.min_r, !drop_ge by lia. done.
Qed.

(** ** Runs *)

Lemma new_cypher_ok h t max mult iv_buf cb : 0 < max → 0 < mult → max * mult <= 2 ^ 30 → cd_ok h [] → ts_ok t [] →
  ∃ s, new_cypher h t max mult iv_buf cb = Some s ∧ cy_ok s 0 0 [] ∧ cpending s 0 [] = [].
Proof.
  intros Hm Hu Hle Hd Ht. assert (max <= 2 ^ 30) by nia. destruct (next_power_ok max) as (j & Hj & E & Hb); [lia|]. destruct (next_power_ok (max * mult)) as (i & Hi & E' & Hb'); [lia|].
  unfold new_cypher. rewrite E. cbn [mbind option_bind]. rewrite wrap_small by (unfold in_range; lia). rewrite E'. cbn [mbind option_bind]. eexists. split; [reflexivity|]. split; [|done].
  assert (j <= 32) by (apply Z.lt_le_incl, (Z.pow_lt_mono_r_iff 2); lia).
  assert (∀ k m, (list_to_map ((λ k, (k, new_cymeta)) <$> seqZ 0 (2 ^ j)) : gmap Z CypherReqMeta) !! k = Some m → m = new_cymeta) as Hnew.
  { intros k m Hk%elem_of_list_to_map_2. apply list_elem_of_fmap in Hk as (x & [= -> ->] & _). done. }
  split; [split; cbn; try lia|split; [exact Ht|exact Hd]].
  - apply holds_new. lia.
  - done.
  - by exists j.
  - intros k Hk. exists new_cymeta. apply elem_of_list_to_map_1.
    + rewrite <- list_fmap_compose. apply NoDup_fmap_2; [by intros x y|apply NoDup_seqZ].
    + apply list_elem_of_fmap. exists k. split; [done|]. apply elem_of_seqZ. lia.
  - intros k m Hk Hv. rewrite (Hnew k m Hk) in Hv. done.
Qed.

(** [cypher_run s acc del]: the requests with the contexts [acc] were accepted and results with
    the contexts [del] were delivered, in these orders. *)
Inductive cypher_run : cyc → list Z → list Z → Prop :=
| cyrun_start h t max mult iv_buf cb s : 0 < max → 0 < mult → max * mult <= 2 ^ 30 → cd_ok h [] → ts_ok t [] → new_cypher h t max mult iv_buf cb = Some s → cypher_run s [] []
| cyrun_submit s acc del now algo op lens dst_size ctx st s' : cypher_run s acc del → ts_room (cy_timers s) → T s < 2 ^ 63 - 1 → tweak_place s algo →
    SubmitAsync now algo op lens dst_size ctx s = Ok (st, s') → cypher_run s' (acc ++ if decide (st = kOk) then [ctx] else []) del
| cyrun_poll s acc del now results n o s' : cypher_run s acc del → Poll now results n s = Ok (o, s') → cypher_run s' acc (del ++ (cy_ctx <$> default [] o)).
Lemma cypher_run_ok s acc del : cypher_run s acc del → ∃ a p rs, cy_ok s a p rs ∧ acc = del ++ cpending s p rs.
Proof.
  induction 1 as [h t max mult iv_buf cb s Hm Hu Hle Hd Ht E|s acc del now algo op lens dst_size ctx st s' _ (a & p & rs & Hok & ->) Hts HT Hiv E|s acc del now results n o s' _ (a & p & rs & Hok & ->) E].
  - destruct (new_cypher_ok h t max mult iv_buf cb Hm Hu Hle Hd Ht) as (s' & E' & Hok & Hp). rewrite E in E'. injection E' as <-. exists 0, 0, []. split; [done|]. by rewrite Hp.
  - destruct (wp_run _ _ _ _ _ E (cy_submit_ok s a p rs now algo op lens dst_size ctx Hok Hts HT Hiv)) as (Hok' & P' & _). exists a, p, rs. split; [done|]. rewrite P'. by rewrite app_assoc.
  - destruct (wp_run _ _ _ _ _ E (cy_poll_ok s a p rs now results n Hok)) as ((a' & p' & rs' & Hok' & P') & _). exists a', p', rs'. split; [done|]. rewrite P'. by rewrite app_assoc.
Qed.

(** C15: a cypher channel delivers one result for each accepted request, in the order of
    submission, whether the device answered in time, too late, or not at all, and although
    request numbers wrap around at 2^32. What is not delivered yet is accounted for: results
    in the ring, then the requests that have none. A successful poll after which the device has
    nothing left delivers every result that is due, up to the number that was asked for (which
    is converted to an [int]), and passes just these to the callback of the user. There are
    never more requests in the device than allowed, and no operation faults, as long as there
    is a place for the tweak of a request that needs one. *)
Theorem cypher_results_in_order s acc del : cypher_run s acc del →
  (∃ a p rs, acc = del ++ cpending s p rs ∧ cy_ok s a p rs) ∧ cy_in_qat_num_ s <= cy_max_ s ∧
  (∀ now results n, wp (Poll now results n) (λ o s', (∃ rest, acc = del ++ (cy_ctx <$> default [] o) ++ rest) ∧ (length (default [] o) ≤ Z.to_nat (s32 n))%nat ∧
    ∀ l, o = Some l → cy_calls s' = cy_calls s ++ (if cy_user_cb s then l else []) ∧
      (cy_in_qat_num_ s' = 0 → cy_ctx <$> l = take (Z.to_nat (s32 n)) (drop (length del) acc))) s) ∧
  (∀ now algo op lens dst_size ctx, ts_room (cy_timers s) → T s < 2 ^ 63 - 1 → tweak_place s algo → wp (SubmitAsync now algo op lens dst_size ctx) (λ _ _, True) s).
Proof.
  intros (a & p & rs & Hok & ->)%cypher_run_ok. split; [by exists a, p, rs|]. split; [pose proof (cc_num _ _ _ _ (proj1 Hok)); lia|]. split.
  - intros now results n. eapply wp_mono; [by apply (cy_poll_ok s a p rs)|]. cbv beta. rewrite drop_app_length. intros o s' ((a' & p' & rs' & _ & E) & Hl & _ & Hcb). split; [eexists; by rewrite E|done].
  - intros now algo op lens dst_size ctx Hts HT Hiv. eapply wp_mono; [by apply (cy_submit_ok s a p rs)|]. done.
Qed.

(** ** Errors *)

(** A pointer to the place for a tweak that is lost stays lost, and slots stay where they are. *)
Definition loses {A} (m : ST cyc A) : Prop := ∀ k s x s', m s = Ok (x, s') → (iv_ptrs s !! k = None → iv_ptrs s' !! k = None) ∧ cy_slots_ s' = cy_slots_ s.
Lemma loses_bind {A B} (m : ST cyc A) (f : A → ST cyc B) : loses m → (∀ x, loses (f x)) → loses (m ≫= f).
Proof.
  intros Hm Hf k s x s' E. unfold mbind, ST_bind in E. destruct (m s) as [[y s1]|] eqn:E1; [|done]. destruct (Hm k s y s1 E1) as [M1 M2]. destruct (Hf y k s1 x s' E) as [F1 F2]. split; [auto|congruence].
Qed.
Lemma loses_ret {A} (x : A) : loses (mret x).
Proof. intros k s y s' [= _ <-]. done. Qed.
Lemma loses_get : loses get.
Proof. intros k s y s' [= _ <-]. done. Qed.
Lemma loses_modify f : (∀ k s, (iv_ptrs s !! k = None → iv_ptrs (f s) !! k = None) ∧ cy_slots_ (f s) = cy_slots_ s) → loses (modify f).
Proof. intros Hf k s x s' [= _ <-]. apply Hf. Qed.
Lemma loses_cdev {A} (m : ST H A) : loses (on_cdev m).
Proof. intros k s x s' E. unfold on_cdev in E. destruct (m (cy_dev s)) as [[]|]; [|done]. by injection E as _ <-. Qed.
Lemma loses_ctimers {A} (m : ST Tm A) : loses (on_ctimers m).
Proof. intros k s x s' E. unfold on_ctimers in E. destruct (m (cy_timers s)) as [[]|]; [|done]. by injection E as _ <-. Qed.
Lemma loses_cring {A} (m : ST _ A) : loses (on_cring m).
Proof. intros k s x s' E. unfold on_cring in E. destruct (m (req_ring_queue_ s)) as [[]|]; [|done]. by injection E as _ <-. Qed.
Lemma loses_need {A} e (o : option A) : loses (need e o).
Proof. intros k s x s' E. unfold need in E. destruct o; [|done]. by injection E as _ <-. Qed.
Lemma loses_get_cymeta k : loses (get_cymeta k).
Proof. apply loses_bind; [apply loses_get|]. intros s. apply loses_need. Qed.
Lemma loses_when b (m : ST cyc unit) : loses m → loses (when b m).
Proof. intros Hm. destruct b; [done|apply loses_ret]. Qed.
Ltac loses_step := first [ apply loses_ret | apply loses_get | apply loses_cdev | apply loses_ctimers | apply loses_cring | apply loses_need | apply loses_get_cymeta | apply loses_when
  | apply loses_bind; [|intros ?] | apply loses_modify; by intros ].
Lemma loses_callback x : loses (CyCallback x).
Proof. unfold CyCallback, push_cypher, put_cymeta. repeat loses_step. Qed.
Lemma loses_intercept k code : loses (cy_InterceptInflightReq k code).
Proof.
  unfold cy_InterceptInflightReq, push_cypher, put_cymeta. repeat loses_step. apply loses_modify. intros j s. split; [|done]. cbn. intros Hj. apply lookup_delete_None. by right.
Qed.
Lemma loses_Poll now results n : loses (Poll now results n).
Proof.
  unfold Poll. apply loses_bind; [apply loses_cdev|]. intros [r ans]. apply loses_bind; [induction ans; cbn [cy_callbacks]; repeat first [apply loses_callback | loses_step | done]|]. intros _.
  apply loses_bind; [apply loses_get|]. intros s. destruct (negb _ && negb _); repeat loses_step.
  match goal with |- loses (cy_intercept_all ?l _) => induction l; cbn [cy_intercept_all]; repeat first [apply loses_intercept | loses_step | done] end.
Qed.
Lemma loses_Submit now algo op lens dst_size ctx : loses (SubmitAsync now algo op lens dst_size ctx).
Proof.
  unfold SubmitAsync, put_cymeta, NewCypherCallbackCtx. repeat first [loses_step | match goal with |- loses (if ?b then _ else _) => destruct b | |- loses (match ?b with _ => _ end) => destruct b end].
Qed.
(** What the user of the channel does. *)
Inductive later (s : cyc) : cyc → Prop :=
| later_refl : later s s
| later_submit s1 now algo op lens dst_size ctx st s2 : later s s1 → SubmitAsync now algo op lens dst_size ctx s1 = Ok (st, s2) → later s s2
| later_poll s1 now results n o s2 : later s s1 → Poll now results n s1 = Ok (o, s2) → later s s2.
Lemma later_loses s s' k : later s s' → iv_ptrs s !! k = None → iv_ptrs s' !! k = None.
Proof.
  intros Hl Hk. induction Hl as [|s1 now algo op lens dst_size ctx st s2 _ IH E|s1 now results n o s2 _ IH E]; [done|..].
  - by apply (proj1 (loses_Submit now algo op lens dst_size ctx k s1 st s2 E)).
  - by apply (proj1 (loses_Poll now results n k s1 o s2 E)).
Qed.
Lemma intercept_unsets s m k code s1 : cy_metas s !! k = Some m → cy_InterceptInflightReq k code s = Ok ((), s1) → iv_ptrs s1 !! cy_slot s (cm_req_id m) = None.
Proof.
  intros Hm E. unfold cy_InterceptInflightReq, get_cymeta, mbind, ST_bind, get, need, raise, push_cypher, on_cring, modify in E. rewrite Hm in E. cbn in E.
  destruct (cy_metas s !! cy_slot s (cm_req_id m)) as [m'|]; [|done]. cbn in E. destruct (when _ _ _) as [[u s']|]; [|done]. destruct (PushResult _ _ _) as [[u' q]|]; [|done]. injection E as <-. apply lookup_delete_eq.
Qed.
(** C37: a request for AES-XTS copies its tweak through a pointer that the callback context of its
    slot got when the channel was created. The context that replaces that of a request which
    timed out does not get one: whatever happens then, the next request for AES-XTS in that slot
    that passes the checks faults. *)
Theorem tweak_lost s m k code s1 s2 now op lens dst_size ctx h1 h2 : cy_metas s !! k = Some m → cy_InterceptInflightReq k code s = Ok ((), s1) → later s1 s2 →
  cy_slot s2 (cy_next_req_id_ s2) = cy_slot s (cm_req_id m) → IsChannelFull s2 = false → IsFull (cring s2) = false → ValidateArgs kAES_XTS lens dst_size = true →
  cd_buffers (cy_dev s2) = Ok (true, h1) → cd_fill h1 = Ok (true, h2) → SubmitAsync now kAES_XTS op lens dst_size ctx s2 = Err NullDeref.
Proof.
  intros Hm E Hl Ek Ef Er Ev E1 E2. pose proof (later_loses _ _ _ Hl (intercept_unsets _ _ _ _ _ Hm E)) as Hiv. unfold SubmitAsync, mbind, ST_bind, get. rewrite Ef, Er. cbn [orb]. rewrite Ev. cbn [negb].
  unfold on_cdev. rewrite E1. cbn. rewrite E2. cbn. unfold NewCypherCallbackCtx, mbind, ST_bind, get, need. change (cy_slot _ (cy_next_req_id_ s2)) with (cy_slot s2 (cy_next_req_id_ s2)).
  cbn [iv_ptrs upd]. cbn. rewrite Ek, Hiv. done.
Qed.
(** When the device cannot be polled, the channel answers -1 but still calls the user's
    callback, once for each element of the array for results, none of which it has written. *)
Lemma failed_poll_calls_back s now results n r h : cy_user_cb s = true → cd_poll (cy_dev s) = Ok ((r, []), h) → r ≠ CPA_STATUS_SUCCESS → r ≠ CPA_STATUS_RETRY →
  ∃ s', Poll now results n s = Ok (None, s') ∧ cy_calls s' = cy_calls s ++ take (Z.to_nat n) results ∧ cring s' = cring s.
Proof.
  intros Hcb Hp H1 H2. unfold Poll, on_cdev, mbind, ST_bind. rewrite Hp. cbn. rewrite !bool_decide_eq_false_2 by done. cbn. rewrite Hcb. cbn. eexists. split; [reflexivity|]. done.
Qed.
End cypher.
