(* ===== verification/QatCypherDemo.v ===== *)
(** * A cypher channel at work

    A small device, the timer manager as the timers of the channel, and concrete instances of
    the theorems on the channel. *)

From Stdlib Require Import ZArith Lia.
From stdpp Require Import prelude gmap.
From S2P Require Import Prelude Status ReqRingQueue ObjectPool TimerManager DataFlow DataFlowSw QatHa QatDemo KaeChannel QatCypher.
Open Scope Z_scope.

(** ** A device

    It takes every request and answers all in one poll, unless it is broken; when it is
    [slow] it needs one poll more. *)

Record CyUnit := MkUnit { held : list Z; slow : bool; broken : bool }.
Definition unit_poll : ST CyUnit (CpaStatus * list (Z * CpaStatus)) :=
  d ← get;
  if broken d then mret (CPA_STATUS_FAIL, [])
  else if slow d then modify (λ _, MkUnit (held d) false false);; mret (CPA_STATUS_RETRY, [])
  else modify (λ _, MkUnit [] false false);; mret (CPA_STATUS_SUCCESS, (λ id, (id, CPA_STATUS_SUCCESS)) <$> held d).
Definition unit_submit (id : Z) : ST CyUnit CpaStatus := modify (λ d, MkUnit (held d ++ [id]) (slow d) (broken d));; mret CPA_STATUS_SUCCESS.
#[refine, local] Instance demo_unit : CyDevice CyUnit := {|
  cd_buffers := mret true; cd_fill := mret true; cd_submit := unit_submit; cd_poll := unit_poll; cd_ok d l := held d = l |}.
Proof.
  - intros h l Hok. by wp_step.
  - intros h l Hok. by wp_step.
  - intros h l id <-. unfold unit_submit. by do 3 wp_step.
  - intros h l <-. unfold unit_poll. do 2 wp_step. destruct (broken h); [wp_step; by exists (held h)|]. destruct (slow h); do 3 wp_step; [by exists (held h)|].
    exists []. split; [|done]. rewrite app_nil_r, <- list_fmap_compose. symmetry. rewrite <- (list_fmap_id (held h)) at 2. by apply list_fmap_ext.
Defined.
#[local] Existing Instance demo_service.

(** ** The channel *)

Abbreviation channel := (QatCypherChannel (H := CyUnit) (Tm := TimerManager)).
Definition start_with (d : CyUnit) : channel :=
  match new_cypher d demo_tm 2 2 65536 true with Some s => s | None => MkCypher d demo_tm 0 0 0 0 ∅ ∅ (new_ring (MkCyResult kUnknown 0) 0) false [] end.
Definition encrypt (now ctx : Z) : ST channel StatusCode := SubmitAsync now kAES_XTS kEncrypt [100; 28] 128 ctx.
Definition cy_summary (o : option (list CypherResult)) : list (Z * StatusCode) := (λ r, (cy_ctx r, cy_status r)) <$> default [] o.
(** What the caller's array holds before a poll. *)
Definition stale : list CypherResult := replicate 4 (MkCyResult kUnknown 99).

(** Two requests are accepted, a third and one with a short destination are refused. *)
Example demo_cypher : match (a ← encrypt 100 11; b ← encrypt 101 12; c ← encrypt 102 13; o ← Poll 103 stale 4; d ← SubmitAsync 104 kSHA256 kHash [100] 31 14; mret (a, b, c, d, cy_summary o)) (start_with (MkUnit [] false false)) with
  | Ok (r, _) => r = (kOk, kOk, kResourceBusy, kInvalidArgument, [(11, kOk); (12, kOk)])
  | Err _ => False
  end.
Proof. vm_compute. reflexivity. Qed.
(** A request times out and its answer is late; the slot is used again two requests later. *)
Example demo_timeout_then_fault : (encrypt 100 11;; o ← Poll 500 stale 4; Poll 501 stale 4;; a ← encrypt 502 12; Poll 503 stale 4;; encrypt 504 13) (start_with (MkUnit [] true false)) = Err NullDeref.
Proof. vm_compute. reflexivity. Qed.
Example demo_timeout_result : match (encrypt 100 11;; o ← Poll 500 stale 4; o' ← Poll 501 stale 4; mret (cy_summary o, cy_summary o')) (start_with (MkUnit [] true false)) with
  | Ok (r, _) => r = ([(11, kTimeout)], [])
  | Err _ => False
  end.
Proof. vm_compute. reflexivity. Qed.

Definition cy_new : channel := start_with (MkUnit [] false false).
Definition cy_one : channel := after (encrypt 100 11) cy_new.
Lemma cy_one_run : cypher_run cy_one [11] [].
Proof.
  assert (encrypt 100 11 cy_new = Ok (kOk, cy_one)) as E by (refine (after_run (encrypt 100 11) cy_new kOk _); vm_compute; reflexivity).
  assert (cypher_run cy_new [] []) as Hs.
  { apply (cyrun_start (MkUnit [] false false) demo_tm 2 2 65536 true); [lia|lia|lia|done| |vm_compute; reflexivity]. exists [], ∅. split; [apply demo_tm_ok|done]. }
  pose proof (cyrun_submit cy_new [] [] 100 kAES_XTS kEncrypt [100; 28] 128 11 kOk cy_one Hs) as Hr. rewrite decide_True in Hr by done. apply Hr; [vm_compute; discriminate|vm_compute; reflexivity| |exact E].
  intros _. eexists. vm_compute. reflexivity.
Qed.
Lemma cy_drained : match Poll 103 stale 4 cy_one with Ok (Some _, s') => cy_in_qat_num_ s' = 0 | _ => False end.
Proof. vm_compute. reflexivity. Qed.
(** The result of the request is delivered by the next poll. *)
Lemma cypher_results_in_order_witness : wp (Poll 103 stale 4) (λ o _, cy_ctx <$> default [] o = [11]) cy_one.
Proof.
  pose proof (proj1 (proj2 (proj2 (cypher_results_in_order cy_one [11] [] cy_one_run))) 103 stale 4) as Hp. pose proof cy_drained as Hd. unfold wp in *.
  destruct (Poll 103 stale 4 cy_one) as [[[l|] s']|]; [|destruct Hd|exact Hp]. exact (proj2 (proj2 (proj2 Hp) l eq_refl) Hd).
Defined.

(** The first request is given up; two requests later its slot is used again. *)
Definition cy_lost : channel := after (cy_InterceptInflightReq 0 kTimeout) cy_one.
Definition cy_polled : channel := after (Poll 103 stale 4) cy_lost.
Definition cy_second : channel := after (encrypt 104 12) cy_polled.
Definition first_meta : CypherReqMeta := MkCyMeta 0 0 11 (match cy_metas cy_one !! 0 with Some m => cm_timer_ctx m | None => 0 end) true kEncrypt 128.
Lemma cy_second_later : later cy_lost cy_second.
Proof.
  eapply (later_submit cy_lost cy_polled 104 kAES_XTS kEncrypt [100; 28] 128 12 kOk).
  - eapply (later_poll cy_lost cy_lost 103 stale 4 (Some [MkCyResult kTimeout 11])); [apply later_refl|]. refine (after_run (Poll 103 stale 4) cy_lost _ _). vm_compute. reflexivity.
  - refine (after_run (encrypt 104 12) cy_polled kOk _). vm_compute. reflexivity.
Qed.
Lemma tweak_lost_witness : encrypt 105 13 cy_second = Err NullDeref.
Proof.
  refine (tweak_lost cy_one first_meta 0 kTimeout cy_lost cy_second 105 kEncrypt [100; 28] 128 13 (cy_dev cy_second) (cy_dev cy_second) _ _ cy_second_later _ _ _ _ _ _); vm_compute; reflexivity.
Defined.
Lemma demo_stale_callbacks : ∃ s', Poll 101 stale 4 (start_with (MkUnit [] false true)) = Ok (None, s') ∧ cy_calls s' = stale.
Proof.
  destruct (failed_poll_calls_back (start_with (MkUnit [] false true)) 101 stale 4 CPA_STATUS_FAIL (MkUnit [] false true)) as (s' & E & Hc & _); [reflexivity|reflexivity|done|done|]. exists s'. split; [exact E|exact Hc].
Qed.
