(* ===== verification/QatBuffer.v ===== *)
(** * Buffers for the QAT (src/src/common/qat/qat_buffer.h, qat_buffer.cc)

    A request to the device names its data by a list of flat buffers. Data the device can reach is
    used where it is; other data is copied to and from blocks of the memory pool. The header
    and the footer of a frame are left out of what the device sees. Addresses are looked up
    in the address manager, blocks come from the interface [MemoryPool], and the memory of the
    process is a map of bytes. The list has a fixed number of entries, so that an index behind
    them is a fault. *)

From Stdlib Require Import ZArith Lia.
From stdpp Require Import prelude gmap list.
From S2P Require Import Prelude AddressManager ByteMemory DsaCtx.
Open Scope Z_scope.

(** A block of the user: address and size. *)
Abbreviation IOBlock := (prod Z Z).
Definition VESAL_MAX_SGL_NUM : nat := 32.

Section buffers.
Context {M : Type} {MP : MemoryPool M}.

(** ** State *)

Record CpaFlatBuffer := MkFlat { pData : Z; dataLenInBytes : Z }.
Record QatBuf := MkQatBuf {
  svm : bool; pPrivateMetaData : Z; numBuffers : nat; pBuffers : list CpaFlatBuffer; dma_able_ : list bool; dst_usr_data_ : Z; dst_usr_data_len_ : Z }.
#[local] Instance eta_QatBuf : Eta QatBuf := λ b,
  MkQatBuf (svm b) (pPrivateMetaData b) (numBuffers b) (pBuffers b) (dma_able_ b) (dst_usr_data_ b) (dst_usr_data_len_ b).
(** The buffer with what it uses: address manager, memory pool and memory. *)
Record BufState := MkBufState { bs_am : am; bs_pool : M; ram : gmap Z Z; buf : QatBuf }.
#[export] Instance eta_BufState : Eta BufState := λ s, MkBufState (bs_am s) (bs_pool s) (ram s) (buf s).
Abbreviation st := BufState.
Definition on_am {A} (m : ST am A) : ST st A := λ s, match m (bs_am s) with Ok (a, x) => Ok (a, s <| bs_am := x |>) | Err x => Err x end.
Definition on_mp {A} (m : ST M A) : ST st A := λ s, match m (bs_pool s) with Ok (a, x) => Ok (a, s <| bs_pool := x |>) | Err x => Err x end.
Definition set_buf (f : QatBuf → QatBuf) : ST st unit := modify (λ s, s <| buf ::= f |>).
(** [memcpy]: what is read and what is written has to be mapped. *)
Definition memcpy (dst src n : Z) : ST st unit :=
  s ← get;
  bs ← need NullDeref (read_bytes (ram s) src (Z.to_nat n));
  need NullDeref (read_bytes (ram s) dst (Z.to_nat n));;
  modify (λ s, s <| ram ::= write_bytes dst bs |>).
(** A copy from memory that is not the user's, such as a header. *)
Definition put_bytes (dst : Z) (bs : list Z) : ST st unit :=
  s ← get;
  need NullDeref (read_bytes (ram s) dst (length bs));;
  modify (λ s, s <| ram ::= write_bytes dst bs |>).

(** ** Where the data for the device starts and ends *)

Fixpoint skip_front (blocks : list IOBlock) (front_left_size : Z) (curr_index : nat) : res (nat * Z) :=
  match blocks with
  | [] => Err OutOfBounds
  | b :: blocks => if front_left_size <? b.2 then Ok (curr_index, front_left_size) else skip_front blocks (u64 (front_left_size - b.2)) (S curr_index)
  end.
Definition FindSglStartPoint (usr_data : list IOBlock) (front_offset : Z) : res (nat * Z) :=
  if front_offset =? 0 then Ok (0%nat, 0) else skip_front usr_data front_offset 0.
(** [rev_blocks] are the blocks from [curr_index] down. *)
Fixpoint skip_back (rev_blocks : list IOBlock) (back_left_size : Z) : res (nat * Z) :=
  match rev_blocks with
  | [] => Err OutOfBounds
  | b :: rest => if back_left_size <? b.2 then Ok (length rest, u64 (b.2 - back_left_size)) else skip_back rest (u64 (back_left_size - b.2))
  end.
Definition FindSglEndPoint (usr_data : list IOBlock) (back_offset : Z) : res (nat * Z) :=
  if back_offset =? 0 then match last usr_data with Some b => Ok (pred (length usr_data), b.2) | None => Err OutOfBounds end
  else skip_back (rev usr_data) back_offset.

(** ** Operations *)

Definition FillOneBuffer (i : nat) (usr_buf usr_buf_len : Z) (need_copy_content : bool) : ST st bool :=
  s ← get;
  need OutOfBounds (pBuffers (buf s) !! i);;
  need OutOfBounds (dma_able_ (buf s) !! i);;
  let len := u32 usr_buf_len in
  dma ← (if svm (buf s) then mret true else '(n, _) ← on_am (LookUpAddrAcrossBound usr_buf len 2); mret (n =? 1));
  set_buf (λ b, b <| dma_able_ ::= <[i := dma]> |>);;
  match dma with
  | true => set_buf (λ b, b <| pBuffers ::= <[i := MkFlat usr_buf len]> |>);; mret true
  | false =>
      p ← on_mp (mp_Allocate len);
      set_buf (λ b, b <| pBuffers ::= <[i := MkFlat p len]> |>);;
      if p =? 0 then mret false
      else when need_copy_content (memcpy p usr_buf len);; mret true
  end.
(** The loop over the buffers in use. *)
Fixpoint free_loop (i n : nat) : ST st unit :=
  match n with
  | O => mret ()
  | S n =>
      s ← get;
      x ← need OutOfBounds (pBuffers (buf s) !! i);
      d ← need OutOfBounds (dma_able_ (buf s) !! i);
      when (negb d) (on_mp (mp_Deallocate (pData x)));;
      set_buf (λ b, b <| pBuffers ::= <[i := MkFlat 0 0]> |>);;
      free_loop (S i) n
  end.
Definition FreeDataIfNecessary : ST st unit :=
  s ← get;
  (if svm (buf s) then mret () else free_loop 0 (numBuffers (buf s)));;
  set_buf (λ b, b <| numBuffers := 0%nat |>).
(** What iteration [i] of the loop in [FillSrc] fills. *)
Definition dma_part (usr_data : list IOBlock) (begin_ : nat) (begin_offset : Z) (end_ : nat) (end_len : Z) (i : nat) : option IOBlock :=
  b ← usr_data !! i;
  Some (if Nat.eqb i begin_ then (b.1 + begin_offset, u64 (b.2 - begin_offset)) else if Nat.eqb i end_ then (b.1, end_len) else b).
Fixpoint fill_loop (part : nat → option IOBlock) (idx : list nat) : ST st bool :=
  match idx with
  | [] => mret true
  | i :: idx =>
      x ← need OutOfBounds (part i);
      s ← get;
      r ← FillOneBuffer (numBuffers (buf s)) x.1 x.2 true;
      if negb r then FreeDataIfNecessary;; mret false
      else set_buf (λ b, b <| numBuffers ::= S |>);; fill_loop part idx
  end.
Definition io_len (usr_data : list IOBlock) : Z := foldl (λ t b, u64 (t + b.2)) 0 usr_data.
Definition FillSrc (usr_data : list IOBlock) (front_offset back_offset : Z) : ST st bool :=
  if io_len usr_data <=? u64 (front_offset + back_offset) then mret false
  else
    '(begin_, begin_offset) ← lift (FindSglStartPoint usr_data front_offset);
    first ← need OutOfBounds (usr_data !! begin_);
    '(end_, end_len) ← lift (FindSglEndPoint usr_data back_offset);
    if Nat.eqb begin_ end_ then
      r ← FillOneBuffer 0 (first.1 + begin_offset) (u64 (end_len - begin_offset)) true;
      if negb r then mret false else set_buf (λ b, b <| numBuffers := 1%nat |>);; mret true
    else
      set_buf (λ b, b <| numBuffers := 0%nat |>);;
      fill_loop (dma_part usr_data begin_ begin_offset end_ end_len) (seq begin_ (S end_ - begin_)).
Definition FillDst (usr_data : IOBlock) (front_offset back_offset : Z) : ST st bool :=
  if usr_data.2 <=? u64 (front_offset + back_offset) then mret false
  else
    set_buf (λ b, b <| dst_usr_data_ := usr_data.1 |> <| dst_usr_data_len_ := usr_data.2 |>);;
    set_buf (λ b, b <| numBuffers := 1%nat |>);;
    FillOneBuffer 0 (usr_data.1 + front_offset) (u32 (usr_data.2 - front_offset - back_offset)) false.
(** In copy mode the first buffer is a block of the pool. *)
Definition copy_mode (b : QatBuf) : bool := negb (svm b) && negb (default false (dma_able_ b !! 0%nat)).
Definition DecompCopyBackIfNecessary (produced : Z) : ST st unit :=
  s ← get;
  x ← need OutOfBounds (pBuffers (buf s) !! 0%nat);
  when (copy_mode (buf s)) (memcpy (dst_usr_data_ (buf s)) (pData x) produced).
Definition CompCopyBackIfNecessary (produced : Z) (header footer : list Z) : ST st unit :=
  s ← get;
  let front_offset := Z.of_nat (length header) in
  put_bytes (dst_usr_data_ (buf s)) header;;
  x ← need OutOfBounds (pBuffers (buf s) !! 0%nat);
  when (copy_mode (buf s)) (memcpy (dst_usr_data_ (buf s) + front_offset) (pData x) produced);;
  put_bytes (dst_usr_data_ (buf s) + front_offset + produced) footer.
(** [malloc] of the list succeeds. *)
Definition InitMeta (svm_ : bool) (meta_size : Z) : ST st bool :=
  p ← on_mp (mp_Allocate meta_size);
  if p =? 0 then mret false
  else set_buf (λ _, MkQatBuf svm_ p 0 (replicate VESAL_MAX_SGL_NUM (MkFlat 0 0)) (replicate VESAL_MAX_SGL_NUM false) 0 0);; mret true.
Definition FreeMeta : ST st unit :=
  s ← get;
  if negb (Nat.eqb (numBuffers (buf s)) 0) then raise CheckFailed
  else
    on_mp (mp_Deallocate (pPrivateMetaData (buf s)));;
    set_buf (λ _, MkQatBuf false 0 0 [] (replicate VESAL_MAX_SGL_NUM false) 0 0).

(** ** Memory *)

Context (T : gmap Z PhysChunk).
(** A range that no block handed out from now on overlaps, when [b] are the blocks in use. *)
Definition owned (b : gmap Z Z) (a n : Z) : Prop :=
  (∀ p k, mp_home p k → a + n <= p ∨ p + k <= a) ∨ ∃ p k, b !! p = Some k ∧ p <= a ∧ a + n <= p + k.
Record mem_ok (s : st) (b : gmap Z Z) : Prop := {
  mo_am : am_at T (bs_am s);
  mo_pool : mp_ok (bs_pool s) b;
  mo_ram : ∀ p k, mp_home p k → mapped (ram s) p k }.
Lemma owned_mono b b' a n : b ⊆ b' → owned b a n → owned b' a n.
Proof. intros Hb [Hf|(p & k & Hp & ?)]; [by left|]. right. exists p, k. split; [by eapply lookup_weaken|done]. Qed.
Lemma owned_sub b a n a' n' : owned b a n → a <= a' → a' + n' <= a + n → owned b a' n'.
Proof. intros [Hf|(p & k & Hp & ? & ?)] H1 H2; [left; intros q j Hq; destruct (Hf q j Hq); lia|]. right. exists p, k. split_and!; [done|lia|lia]. Qed.
Lemma owned_apart pool b p k a n : mp_ok pool (<[p := k]> b) → b !! p = None → owned b a n → a + n <= p ∨ p + k <= a.
Proof.
  intros Hok Hp [Hf|(q & j & Hq & ? & ?)].
  - apply Hf. apply (mp_block _ _ _ _ Hok). apply lookup_insert_eq.
  - destruct (mp_apart _ _ q p j k Hok); [rewrite lookup_insert_ne; [done|congruence]|apply lookup_insert_eq|congruence|lia|lia].
Qed.
Lemma bytes_at_write m p bs a n : a + n <= p ∨ p + Z.of_nat (length bs) <= a → bytes_at (write_bytes p bs m) a n = bytes_at m a n.
Proof. intros Hd. apply bytes_at_ext. intros i Hi. rewrite write_bytes_lookup, decide_False by lia. done. Qed.
Lemma wp_on_bam {A} (m : ST am A) P (Q : A → st → Prop) s : wp m P (bs_am s) → (∀ a x, P a x → Q a (s <| bs_am := x |>)) → wp (on_am m) Q s.
Proof. unfold wp, on_am. destruct (m (bs_am s)) as [[a x]|]; [|done]. eauto. Qed.
Lemma wp_on_mp {A} (m : ST M A) P (Q : A → st → Prop) s : wp m P (bs_pool s) → (∀ a x, P a x → Q a (s <| bs_pool := x |>)) → wp (on_mp m) Q s.
Proof. unfold wp, on_mp. destruct (m (bs_pool s)) as [[a x]|]; [|done]. eauto. Qed.
Lemma buf_memcpy_ok dst src n s (Q : unit → st → Prop) : 0 <= n → mapped (ram s) src n → mapped (ram s) dst n →
  Q () (s <| ram ::= write_bytes dst (bytes_at (ram s) src n) |>) → wp (memcpy dst src n) Q s.
Proof.
  intros Hn Hs Hd HQ. unfold memcpy. do 3 wp_step. eapply wp_need; [apply read_bytes_spec; by rewrite Z2Nat.id by lia|]. wp_step.
  eapply wp_need; [apply read_bytes_spec; by rewrite Z2Nat.id by lia|]. wp_step. by rewrite Z2Nat.id by lia.
Qed.

(** ** One buffer *)

(** What the memory looks like after [x] was filled for the user's [n] bytes at [u]; [d] says
    whether the device reaches them where they are. *)
Definition filled (s : st) (b : gmap Z Z) (u n : Z) (copy : bool) (s' : st) (b' : gmap Z Z) (p : Z) (d : bool) : Prop :=
  mem_ok s' b' ∧ b ⊆ b' ∧ (if d then p = u ∧ b' = b else b !! p = None ∧ b' = <[p := n]> b) ∧ owned b' p n ∧
  (copy = true → bytes_at (ram s') p n = bytes_at (ram s) u n) ∧ (∀ a k, owned b a k → bytes_at (ram s') a k = bytes_at (ram s) a k) ∧ (∀ a k, mapped (ram s) a k → mapped (ram s') a k).
Definition with_buf (s : st) (i : nat) (p n : Z) (d : bool) : QatBuf := (buf s) <| dma_able_ ::= <[i := d]> |> <| pBuffers ::= <[i := MkFlat p n]> |>.
Lemma FillOneBuffer_ok s b i u n copy : mem_ok s b → owned b u n → mapped (ram s) u n → 0 <= u → 0 < n < 2 ^ 32 → u + n <= 2 ^ 63 →
  (i < length (pBuffers (buf s)))%nat → (i < length (dma_able_ (buf s)))%nat →
  wp (FillOneBuffer i u n copy) (λ r s', ∃ p d, buf s' = with_buf s i p n d ∧ (svm (buf s) = true → d = true) ∧
    if r then ∃ b', filled s b u n copy s' b' p d else mem_ok s' b ∧ ram s' = ram s ∧ p = 0 ∧ d = false) s.
Proof.
  intros [Ha Hp Hr] Ho Hm Hu Hn Hl Hi Hi'. unfold FillOneBuffer. do 3 wp_step. destruct (lookup_lt_is_Some_2 _ _ Hi) as [x Hx]. eapply wp_need; [exact Hx|]. wp_step.
  destruct (lookup_lt_is_Some_2 _ _ Hi') as [x' Hx']. eapply wp_need; [exact Hx'|]. cbv zeta. rewrite (wrap_small 32) by (unfold in_range; lia). wp_step.
  eapply (wp_mono _ (λ d s', ∃ t, s' = s <| bs_am := t |> ∧ am_at T t ∧ (svm (buf s) = true → d = true))).
  { destruct (svm (buf s)); [wp_step; exists (bs_am s); split; [by destruct s|done]|]. wp_step. eapply (wp_on_bam _ (λ _ t, am_at T t)).
    - destruct Ha as [Ha1 Ha2]. apply wp_GetPhysAddrBound; [done|lia..|]. intros t ret segs Ht ET _. split; [done|congruence].
    - intros [k l] t Ht. wp_step. by exists t. }
  cbv beta. intros d s1 (t & -> & Ht & Hd). unfold set_buf. do 2 wp_step. destruct d.
  - do 3 wp_step. exists u, true. split; [done|]. split; [done|]. exists b. split; [by split|]. split; [done|]. by split_and!.
  - wp_step. eapply wp_on_mp; [exact (mp_allocate_law _ _ n Hp ltac:(lia))|]. cbv beta. intros p m Hpm. do 2 wp_step. destruct (Z.eqb_spec p 0) as [->|Hp0].
    + wp_step. exists 0, false. split; [done|]. split; [done|]. split; [by split|done].
    + destruct Hpm as [Hfresh Hm']. assert (mp_home p n) as Hh by (apply (mp_block _ _ _ _ Hm'); apply lookup_insert_eq).
      assert (∀ a k, owned b a k → a + k <= p ∨ p + n <= a) as Hap by (intros a k Hak; by eapply owned_apart).
      assert (owned (<[p := n]> b) p n) as Hown by (right; exists p, n; split; [apply lookup_insert_eq|lia]). wp_step. destruct copy; cbn [when].
      * apply buf_memcpy_ok; [lia|exact Hm|by apply Hr|]. wp_step. exists p, false. split; [done|]. split; [done|]. set (bs := bytes_at (ram s) u n).
        assert (Z.of_nat (length bs) = n) as Hlen by (unfold bs; rewrite bytes_at_length; lia).
        exists (<[p := n]> b). split; [split; [done|done|]|].
        -- intros q k Hq. cbn. by apply write_bytes_mapped, Hr.
        -- split; [by apply insert_subseteq|]. split; [done|]. split; [done|]. split; [intros _; cbn; fold bs; rewrite <- Hlen at 1; apply write_bytes_at|].
           split; [|intros a k; cbn; apply write_bytes_mapped]. intros a k Hak. cbn. fold bs. apply bytes_at_write. rewrite Hlen. by apply Hap.
      * do 2 wp_step. exists p, false. split; [done|]. split; [done|]. exists (<[p := n]> b). split; [by split|]. split; [by apply insert_subseteq|]. by split_and!.
Qed.

(** ** The buffers in use *)

Abbreviation entry := (prod CpaFlatBuffer bool).
Definition in_use (s : st) : list entry := take (numBuffers (buf s)) (zip (pBuffers (buf s)) (dma_able_ (buf s))).
(** The blocks of the pool among them. *)
Definition own (l : list entry) : list (Z * Z) := omap (λ x : entry, if x.2 then None else Some (pData x.1, dataLenInBytes x.1)) l.
Definition held (l : list entry) (b b' : gmap Z Z) : Prop := NoDup (own l).*1 ∧ (∀ p, p ∈ (own l).*1 → b !! p = None) ∧ b' = list_to_map (own l) ∪ b.
Lemma held_nil b : held [] b b.
Proof. split; [apply NoDup_nil_2|]. split; [by intros p ?%elem_of_nil|]. cbn. by rewrite (left_id_L ∅ (∪)). Qed.
Lemma held_all (l : list entry) b b' : held l b b' → Forall (λ x : entry, x.2 = true) l → b' = b.
Proof.
  intros (_ & _ & ->) Hl. assert (own l = []) as ->; [|cbn; by rewrite (left_id_L ∅ (∪))]. induction Hl as [|x l Hx _ IH]; [done|]. cbn. by rewrite Hx.
Qed.
Lemma held_add l b b' p n (d : bool) : held l b b' → (if d then True else b' !! p = None) → held (l ++ [(MkFlat p n, d)]) b (if d then b' else <[p := n]> b').
Proof.
  intros (H1 & H2 & ->) Hd. unfold held, own. rewrite omap_app. fold (own l). destruct d; cbn; [by rewrite app_nil_r|]. apply lookup_union_None in Hd as [Hl Hb]. rewrite fmap_app. cbn. apply not_elem_of_list_to_map_2 in Hl.
  split; [apply NoDup_app; split; [done|]; split; [intros q Hq ->%list_elem_of_singleton; done|apply NoDup_singleton]|]. split.
  - intros q [Hq | ->%list_elem_of_singleton]%elem_of_app; [by apply H2|done].
  - rewrite insert_union_l. f_equal. by rewrite list_to_map_snoc.
Qed.
Lemma held_free x l b b' : held (x :: l) b b' → held l b (if x.2 then b' else delete (pData x.1) b') ∧ (x.2 = false → is_Some (b' !! pData x.1)).
Proof.
  intros (H1 & H2 & ->). unfold own in *. cbn in *. destruct (x.2); [done|]. cbn in *. apply NoDup_cons in H1 as [Hn H1]. split.
  - split; [done|]. split; [intros p Hp; apply H2; by right|]. rewrite delete_union, delete_insert_eq. rewrite (delete_id (list_to_map _)) by (by apply not_elem_of_list_to_map_1).
    f_equal. apply delete_id, H2. by left.
  - intros _. eexists. apply lookup_union_Some_l, lookup_insert_eq.
Qed.
Lemma free_loop_ok n : ∀ i s l b b', length l = n → (∀ j x, l !! j = Some x → pBuffers (buf s) !! (i + j)%nat = Some x.1 ∧ dma_able_ (buf s) !! (i + j)%nat = Some x.2) →
  held l b b' → mem_ok s b' →
  wp (free_loop i n) (λ _ s', mem_ok s' b ∧ ram s' = ram s ∧ ∃ fs, buf s' = (buf s) <| pBuffers := fs |> ∧ length fs = length (pBuffers (buf s))) s.
Proof.
  induction n as [|n IH]; intros i s l b b' Hlen Hl Hh Hm; cbn [free_loop].
  { destruct l; [|done]. destruct Hh as (_ & _ & ->). cbn in Hm. rewrite (left_id_L ∅ (∪)) in Hm. wp_step. split; [done|]. split; [done|]. exists (pBuffers (buf s)). split; [by destruct (buf s)|done]. }
  destruct l as [|x l]; [done|]. destruct (Hl 0%nat x eq_refl) as [Hx Hd]. rewrite Nat.add_0_r in Hx, Hd. destruct (held_free _ _ _ _ Hh) as [Hh' Hp]. do 3 wp_step. eapply wp_need; [exact Hx|]. wp_step. eapply wp_need; [exact Hd|].
  wp_step. eapply (wp_mono _ (λ _ s', ∃ m, s' = s <| bs_pool := m |> ∧ mp_ok m (if x.2 then b' else delete (pData x.1) b'))).
  { destruct x.2; cbn [negb when]; [wp_step; exists (bs_pool s); split; [by destruct s|apply Hm]|]. eapply wp_on_mp; [apply (mp_deallocate_law _ b' _ (mo_pool _ _ Hm)); right; by apply Hp|]. cbv beta. intros _ m Hm'. by exists m. }
  cbv beta. intros _ s1 (m & -> & Hpool). unfold set_buf. do 2 wp_step. match goal with |- wp _ _ ?z => set (s1 := z) end.
  eapply wp_mono; [apply (IH (S i) s1 l b (if x.2 then b' else delete (pData x.1) b')); [by injection Hlen| |done|destruct Hm; by split]|].
  - intros j y Hy. destruct (Hl (S j) y Hy) as [H1 H2]. change (pBuffers (buf s1)) with (<[i := MkFlat 0 0]> (pBuffers (buf s))). replace (S i + j)%nat with (i + S j)%nat by lia. rewrite list_lookup_insert_ne by lia. done.
  - cbv beta. intros _ s' (H1 & H2 & fs & H3 & H4). split; [done|]. split; [done|]. exists fs. split; [rewrite H3; done|]. cbn in H4. by rewrite length_insert in H4.
Qed.
Definition shape (s : st) : Prop := length (pBuffers (buf s)) = VESAL_MAX_SGL_NUM ∧ length (dma_able_ (buf s)) = VESAL_MAX_SGL_NUM.
(** [l] are the buffers in use, of which some are blocks of the pool: [b'] those in use now, [b]
    those that were in use before. *)
Record fills (s : st) (b b' : gmap Z Z) (l : list entry) : Prop := {
  f_mem : mem_ok s b';
  f_shape : shape s;
  f_use : in_use s = l ∧ length l = numBuffers (buf s);
  f_held : held l b b';
  f_svm : svm (buf s) = true → Forall (λ x : entry, x.2 = true) l;
  f_own : Forall (λ x : entry, owned b' (pData x.1) (dataLenInBytes x.1)) l;
  f_sub : b ⊆ b' }.
Lemma Free_ok s b b' l : fills s b b' l → wp FreeDataIfNecessary (λ _ s', mem_ok s' b ∧ shape s' ∧ numBuffers (buf s') = 0%nat ∧ ram s' = ram s ∧ svm (buf s') = svm (buf s)) s.
Proof.
  intros [Hm [Hs1 Hs2] [Hu Hn] Hh Hv _ _]. unfold FreeDataIfNecessary, set_buf. do 3 wp_step. destruct (svm (buf s)) eqn:Es.
  - do 2 wp_step. rewrite (held_all _ _ _ Hh (Hv eq_refl)) in Hm. split; [destruct Hm; by split|]. by split_and!.
  - eapply wp_mono; [apply (free_loop_ok _ 0 s l b b' Hn)|]; [|done..|].
    + intros j x Hj. rewrite <- Hu in Hj. unfold in_use in Hj. apply lookup_take_Some in Hj as [Hj _]. destruct x. by apply lookup_zip_Some in Hj.
    + cbv beta. intros _ s' (H1 & H2 & fs & H3 & H4). wp_step. split; [destruct H1; by split|]. split; [split; cbn; rewrite H3; cbn; congruence|]. cbn. rewrite H3. by split_and!.
Qed.

(** ** Filling *)

(** A part of the user's data that can be given to the device. *)
Definition part_ok (m : gmap Z Z) (b : gmap Z Z) (x : IOBlock) : Prop := owned b x.1 x.2 ∧ mapped m x.1 x.2 ∧ 0 <= x.1 ∧ 0 < x.2 < 2 ^ 32 ∧ x.1 + x.2 <= 2 ^ 63.
Definition entry_bytes (m : gmap Z Z) (x : entry) : list Z := bytes_at m (pData x.1) (dataLenInBytes x.1).
Definition user_bytes (m : gmap Z Z) (xs : list IOBlock) : list Z := concat ((λ x : IOBlock, bytes_at m x.1 x.2) <$> xs).
(** Memory in use is not written. *)
Definition frame (b : gmap Z Z) (s s' : st) : Prop := (∀ a k, owned b a k → bytes_at (ram s') a k = bytes_at (ram s) a k) ∧ ∀ a k, mapped (ram s) a k → mapped (ram s') a k.
Lemma frame_trans b b' s s1 s2 : b ⊆ b' → frame b s s1 → frame b' s1 s2 → frame b s s2.
Proof. intros Hb [F1 M1] [F2 M2]. split; [|by auto]. intros a k Ha. rewrite F2 by (by eapply owned_mono). by apply F1. Qed.
Lemma frame_refl b s s' : ram s' = ram s → frame b s s'.
Proof. intros E. unfold frame. by rewrite E. Qed.
Lemma part_frame b s s' x : frame b s s' → part_ok (ram s) b x → part_ok (ram s') b x ∧ bytes_at (ram s') x.1 x.2 = bytes_at (ram s) x.1 x.2.
Proof. intros [F1 M1] (P1 & P2 & P3). split; [split; [done|split; [by apply M1|done]]|by apply F1]. Qed.
Lemma take_zip_insert {A B} k (a : A) (d : B) l1 l2 : take k (zip (<[k := a]> l1) (<[k := d]> l2)) = take k (zip l1 l2).
Proof. rewrite <- (insert_zip_with pair l1 l2 k a d). by apply take_insert_ge. Qed.
Lemma take_zip_insert_S {A B} k (a : A) (d : B) l1 l2 : (k < length l1)%nat → (k < length l2)%nat → take (S k) (zip (<[k := a]> l1) (<[k := d]> l2)) = take k (zip l1 l2) ++ [(a, d)].
Proof.
  intros H1 H2. rewrite <- (insert_zip_with pair l1 l2 k a d). rewrite (take_S_r _ _ (a, d)); [by rewrite take_insert_ge|]. apply list_lookup_insert_eq. rewrite length_zip. lia.
Qed.
Definition one_more (s : st) : st := s <| buf ::= λ q, q <| numBuffers ::= S |> |>.
Lemma fill_next s b b' l x : fills s b b' l → part_ok (ram s) b' x → (numBuffers (buf s) < VESAL_MAX_SGL_NUM)%nat →
  wp (FillOneBuffer (numBuffers (buf s)) x.1 x.2 true) (λ r s', frame b' s s' ∧ svm (buf s') = svm (buf s) ∧
    if r then ∃ b'' e, fills (one_more s') b b'' (l ++ [e]) ∧ entry_bytes (ram s') e = bytes_at (ram s) x.1 x.2 ∧ b' ⊆ b'' ∧ numBuffers (buf s') = numBuffers (buf s) else fills s' b b' l) s.
Proof.
  intros [Fm [Fs1 Fs2] [Fu Fn] Fh Fv Fo Fsub] (P1 & P2 & P3 & P4 & P5) Hlt. eapply wp_mono; [apply (FillOneBuffer_ok s b' _ x.1 x.2 true); [done..|lia|lia]|]. cbv beta.
  intros r s' (p & d & Eb & Hd & Hr). destruct r.
  - destruct Hr as (b'' & G1 & G2 & G3 & G4 & G5 & G6 & G7). split; [by split|]. split; [by rewrite Eb|]. exists b'', (MkFlat p x.2, d). split; [|by rewrite Eb; split_and!; [apply G5|done|done]].
    split; [destruct G1; by split| | | | | |by etrans].
    + unfold shape, one_more. cbn. rewrite Eb. cbn. by rewrite !length_insert.
    + unfold in_use, one_more. cbn. rewrite Eb. cbn. rewrite length_app. cbn. rewrite take_zip_insert_S by lia. split; [by rewrite <- Fu|lia].
    + assert (b'' = if d then b' else <[p := x.2]> b') as -> by (destruct d; apply G3). apply held_add; [done|]. destruct d; [done|apply G3].
    + unfold one_more. cbn. rewrite Eb. cbn. intros Hs. apply Forall_app. split; [by apply Fv|]. apply Forall_singleton. by apply Hd.
    + apply Forall_app. split; [|by apply Forall_singleton]. eapply Forall_impl; [exact Fo|]. cbn. intros y. by apply owned_mono.
  - destruct Hr as (G1 & G2 & -> & ->). split; [by apply frame_refl|]. split; [by rewrite Eb|]. split; try done.
    + unfold shape. rewrite Eb. cbn. by rewrite !length_insert.
    + unfold in_use. rewrite Eb. cbn. rewrite take_zip_insert. done.
    + by rewrite Eb.
Qed.
Definition contents (s : st) : list Z := concat (entry_bytes (ram s) <$> in_use s).
Lemma entries_frame b s s' (l : list entry) : frame b s s' → Forall (λ x : entry, owned b (pData x.1) (dataLenInBytes x.1)) l → entry_bytes (ram s') <$> l = entry_bytes (ram s) <$> l.
Proof. intros [F _] Hl. induction Hl as [|x l Hx _ IH]; [done|]. rewrite !fmap_cons, IH. f_equal. by apply F. Qed.
Lemma fill_loop_ok part idx : ∀ xs s b b' l, part <$> idx = Some <$> xs → fills s b b' l → Forall (part_ok (ram s) b') xs → (numBuffers (buf s) + length xs ≤ VESAL_MAX_SGL_NUM)%nat →
  wp (fill_loop part idx) (λ r s', frame b s s' ∧ svm (buf s') = svm (buf s) ∧
    if r then ∃ b'' l', fills s' b b'' l' ∧ contents s' = concat (entry_bytes (ram s) <$> l) ++ user_bytes (ram s) xs
    else mem_ok s' b ∧ shape s' ∧ numBuffers (buf s') = 0%nat) s.
Proof.
  induction idx as [|i idx IH]; intros xs s b b' l Hxs Hf Hp Hn; cbn [fill_loop].
  { destruct xs; [|done]. wp_step. split; [by apply frame_refl|]. split; [done|]. exists b', l. split; [done|]. unfold user_bytes, contents. cbn. by rewrite app_nil_r, (proj1 (f_use _ _ _ _ Hf)). }
  destruct xs as [|x xs]; [done|]. injection Hxs as Hx Hxs. apply Forall_cons in Hp as [Hp Hps]. cbn [length] in Hn. wp_step. eapply wp_need; [exact Hx|]. do 3 wp_step.
  eapply wp_mono; [apply (fill_next s b b' l x Hf Hp); lia|]. cbv beta. pose proof (f_sub _ _ _ _ Hf) as Hsub. intros r s1 (F1 & S1 & Hr). assert (frame b s s1) as F1' by (destruct F1 as [F Fm]; split; [intros a k Ha; apply F; by eapply owned_mono|done]).
  destruct r; cbn [negb].
  - destruct Hr as (b'' & e & G1 & G2 & G3 & G4). unfold set_buf. do 2 wp_step. fold (one_more s1). assert (frame b'' s1 (one_more s1)) as F0 by (by apply frame_refl).
    eapply wp_mono; [apply (IH xs (one_more s1) b b'' (l ++ [e]) Hxs G1)|]; [| |].
    + eapply Forall_impl; [exact Hps|]. cbn. intros y Hy. destruct (part_frame _ _ _ _ F1 Hy) as [(Q1 & Q2) _]. split; [by eapply owned_mono|done].
    + cbn. rewrite G4. lia.
    + cbv beta. intros r s2 (F2 & S2 & Hr). split; [by eapply (frame_trans b b); [|exact F1'|exact F2]|]. split; [rewrite S2; exact S1|]. destruct r; [|done]. destruct Hr as (b3 & l' & K1 & K2). exists b3, l'. split; [done|].
      rewrite K2. unfold one_more. cbn. rewrite fmap_app, concat_app. cbn. rewrite G2, app_nil_r, <- app_assoc. change (user_bytes (ram s) (x :: xs)) with (bytes_at (ram s) x.1 x.2 ++ user_bytes (ram s) xs). rewrite (entries_frame b' s s1 l F1 (f_own _ _ _ _ Hf)).
      f_equal. f_equal. unfold user_bytes. f_equal. apply list_fmap_ext. intros j y Hy%list_elem_of_lookup_2. rewrite Forall_forall in Hps. by destruct (part_frame _ _ _ _ F1 (Hps y Hy)).
  - wp_step. eapply wp_mono; [by eapply Free_ok|]. cbv beta. intros _ s2 (K1 & K2 & K3 & K4 & K5). wp_step. split; [by eapply (frame_trans b b); [|exact F1'|apply frame_refl]|]. split; [congruence|done].
Qed.

(** ** Where the data starts and ends *)

Definition total (xs : list IOBlock) : Z := foldr (λ x t, x.2 + t) 0 xs.
Definition sized (xs : list IOBlock) : Prop := Forall (λ x : IOBlock, 0 < x.2 < 2 ^ 32) xs.
Lemma total_app xs ys : total (xs ++ ys) = total xs + total ys.
Proof. unfold total. induction xs as [|x xs IH]; cbn [app foldr]; [lia|]. lia. Qed.
Lemma total_one x : total [x] = x.2.
Proof. unfold total. cbn. lia. Qed.
Lemma io_total_cons x xs : total (x :: xs) = x.2 + total xs.
Proof. done. Qed.
Lemma io_total_bound xs : sized xs → 0 <= total xs <= Z.of_nat (length xs) * 2 ^ 32.
Proof. induction 1 as [|x xs Hx _ IH]; cbn [total foldr length]; [lia|]. unfold total in IH. lia. Qed.
Lemma io_len_total xs : sized xs → total xs < 2 ^ 64 → io_len xs = total xs.
Proof.
  unfold io_len. intros Hs Hb. assert (∀ xs t, sized xs → 0 <= t → t + total xs < 2 ^ 64 → foldl (λ t b, u64 (t + b.2)) t xs = t + total xs) as H.
  { clear. induction xs as [|x xs IH]; intros t Hs Ht Hb; cbn [foldl total foldr]; [lia|]. apply Forall_cons in Hs as [Hx Hs]. pose proof (io_total_bound xs Hs). cbn [total foldr] in Hb. fold (total xs) in Hb.
    rewrite wrap_small by (unfold in_range; lia). rewrite IH; [unfold total; lia|done|lia|lia]. }
  rewrite H; [lia|done|lia|lia].
Qed.
Lemma user_bytes_app m xs ys : user_bytes m (xs ++ ys) = user_bytes m xs ++ user_bytes m ys.
Proof. unfold user_bytes. by rewrite fmap_app, concat_app. Qed.
Lemma user_bytes_length m xs : sized xs → length (user_bytes m xs) = Z.to_nat (total xs).
Proof.
  induction 1 as [|x xs Hx Hs IH]; [done|]. pose proof (io_total_bound xs Hs). change (user_bytes m (x :: xs)) with (bytes_at m x.1 x.2 ++ user_bytes m xs). rewrite length_app, IH, bytes_at_length. cbn [total foldr]. fold (total xs). lia.
Qed.
Lemma skip_front_ok xs : ∀ left k, sized xs → 0 <= left < total xs → left < 2 ^ 64 →
  ∃ i off x, skip_front xs left k = Ok ((k + i)%nat, off) ∧ xs !! i = Some x ∧ 0 <= off < x.2 ∧ left = total (take i xs) + off.
Proof.
  induction xs as [|x xs IH]; intros left k Hs Hl Hb; [cbn in Hl; lia|]. apply Forall_cons in Hs as [Hx Hs]. rewrite io_total_cons in Hl. cbn [skip_front].
  destruct (Z.ltb_spec left x.2); [exists 0%nat, left, x; rewrite Nat.add_0_r; cbn; split_and!; (done || lia)|]. rewrite wrap_small by (unfold in_range; lia).
  destruct (IH (left - x.2) (S k) Hs ltac:(lia) ltac:(lia)) as (i & off & y & E & Hi & Ho & Ht). exists (S i), off, y. rewrite E. split; [f_equal; f_equal; lia|]. split; [done|]. split; [done|]. cbn [take]. rewrite io_total_cons. lia.
Qed.
Lemma skip_back_ok xs : ∀ left, sized xs → 0 <= left < total xs → left < 2 ^ 64 →
  ∃ j len x, skip_back (rev xs) left = Ok (j, len) ∧ xs !! j = Some x ∧ 0 < len <= x.2 ∧ left = total (drop (S j) xs) + (x.2 - len).
Proof.
  induction xs as [|x xs IH] using rev_ind; intros left Hs Hl Hb; [cbn in Hl; lia|]. apply Forall_app in Hs as [Hs Hx]. rewrite Forall_singleton in Hx. rewrite total_app, total_one in Hl.
  rewrite rev_app_distr. cbn [rev app skip_back]. destruct (Z.ltb_spec left x.2).
  - exists (length xs), (x.2 - left), x. rewrite length_rev, wrap_small by (unfold in_range; lia). split; [done|]. split; [by apply list_lookup_middle|]. split; [lia|].
    rewrite drop_ge by (rewrite length_app; cbn; lia). cbn. lia.
  - rewrite wrap_small by (unfold in_range; lia). destruct (IH (left - x.2) Hs) as (j & len & y & E & Hj & Hlen & Ht); [lia|lia|].
    pose proof (lookup_lt_Some _ _ _ Hj). exists j, len, y. split; [done|]. split; [by rewrite lookup_app_l by lia|]. split; [done|]. rewrite drop_app_le by lia. rewrite total_app, total_one. lia.
Qed.
Lemma find_start_ok xs front : sized xs → 0 <= front < total xs → front < 2 ^ 64 → ∃ i off x, FindSglStartPoint xs front = Ok (i, off) ∧ xs !! i = Some x ∧ 0 <= off < x.2 ∧ front = total (take i xs) + off.
Proof.
  intros Hs Hf Hb. unfold FindSglStartPoint. destruct (Z.eqb_spec front 0) as [->|]; [|by apply (skip_front_ok xs front 0)]. destruct xs as [|x xs]; [cbn in Hf; lia|]. apply Forall_cons in Hs as [Hx _].
  exists 0%nat, 0, x. cbn. split_and!; done || lia.
Qed.
Lemma end_ok xs back : sized xs → 0 <= back < total xs → back < 2 ^ 64 → ∃ j len x, FindSglEndPoint xs back = Ok (j, len) ∧ xs !! j = Some x ∧ 0 < len <= x.2 ∧ back = total (drop (S j) xs) + (x.2 - len).
Proof.
  intros Hs Hf Hb. unfold FindSglEndPoint. destruct (Z.eqb_spec back 0) as [->|]; [|by apply skip_back_ok]. destruct xs as [|x xs _] using rev_ind; [cbn in Hf; lia|]. apply Forall_app in Hs as [_ Hx]. rewrite Forall_singleton in Hx.
  exists (length xs), x.2, x. rewrite last_snoc, length_app. cbn. split; [f_equal; f_equal; lia|]. split; [by apply list_lookup_middle|]. split; [lia|]. rewrite drop_ge by (rewrite length_app; cbn; lia). cbn. lia.
Qed.
Lemma bytes_slice m a n off len : 0 <= off <= len → len <= n → drop (Z.to_nat off) (take (Z.to_nat len) (bytes_at m a n)) = bytes_at m (a + off) (len - off).
Proof.
  intros H1 H2. replace n with (off + (len - off) + (n - len)) by lia. rewrite bytes_at_app, bytes_at_app by lia. rewrite take_app_length' by (rewrite length_app, !bytes_at_length; lia). by rewrite drop_app_length' by (rewrite bytes_at_length; lia).
Qed.
(** The bytes between header and footer, when both end in the same block or not. *)
Lemma middle_one m xs i x front back off len : sized xs → xs !! i = Some x → 0 <= off < len → len <= x.2 → front = total (take i xs) + off → back = total (drop (S i) xs) + (x.2 - len) →
  drop (Z.to_nat front) (take (Z.to_nat (total xs - back)) (user_bytes m xs)) = bytes_at m (x.1 + off) (len - off).
Proof.
  intros Hs Hi Ho Hl -> ->. pose proof (Forall_take _ i _ Hs) as Hs1. pose proof (Forall_drop _ (S i) _ Hs) as Hs2. pose proof (io_total_bound _ Hs1). pose proof (io_total_bound _ Hs2).
  assert (total xs = total (take i xs) + (x.2 + total (drop (S i) xs))) as -> by (rewrite <- (take_drop_middle xs i x Hi) at 1; by rewrite total_app).
  assert (user_bytes m xs = user_bytes m (take i xs) ++ bytes_at m x.1 x.2 ++ user_bytes m (drop (S i) xs)) as -> by (rewrite <- (take_drop_middle xs i x Hi) at 1; by rewrite user_bytes_app).
  pose proof (user_bytes_length m _ Hs1) as L1. rewrite take_app_ge, drop_app_ge by (rewrite L1; lia). rewrite L1. rewrite take_app_le by (rewrite bytes_at_length; lia).
  rewrite <- (bytes_slice m x.1 x.2 off len) by lia. f_equal; [lia|]. f_equal. lia.
Qed.
Lemma middle_many m xs i j x y front back off len : sized xs → xs !! i = Some x → xs !! j = Some y → (i < j)%nat → 0 <= off < x.2 → 0 < len <= y.2 →
  front = total (take i xs) + off → back = total (drop (S j) xs) + (y.2 - len) →
  drop (Z.to_nat front) (take (Z.to_nat (total xs - back)) (user_bytes m xs)) = user_bytes m ((x.1 + off, x.2 - off) :: take (j - S i) (drop (S i) xs) ++ [(y.1, len)]).
Proof.
  intros Hs Hi Hj Hij Ho Hl -> ->. set (mid := take (j - S i) (drop (S i) xs)). pose proof (Forall_take _ i _ Hs) as Hs1. pose proof (Forall_drop _ (S j) _ Hs) as Hs2.
  assert (sized mid) as Hs3 by (by apply Forall_take, Forall_drop). pose proof (io_total_bound _ Hs1). pose proof (io_total_bound _ Hs2). pose proof (io_total_bound _ Hs3).
  assert (xs = take i xs ++ x :: mid ++ y :: drop (S j) xs) as E.
  { rewrite <- (take_drop_middle xs i x Hi) at 1. do 2 f_equal. assert (drop (S i) xs !! (j - S i)%nat = Some y) as Hy by (rewrite lookup_drop; rewrite <- Hj; f_equal; lia).
    rewrite <- (take_drop_middle _ _ _ Hy) at 1. unfold mid. do 2 f_equal. rewrite drop_drop. f_equal. lia. }
  assert (total xs = total (take i xs) + (x.2 + (total mid + (y.2 + total (drop (S j) xs))))) as -> by (rewrite E at 1; by rewrite total_app, io_total_cons, total_app).
  assert (user_bytes m xs = user_bytes m (take i xs) ++ bytes_at m x.1 x.2 ++ user_bytes m mid ++ bytes_at m y.1 y.2 ++ user_bytes m (drop (S j) xs)) as ->.
  { rewrite E at 1. rewrite user_bytes_app. change (user_bytes m (x :: mid ++ y :: drop (S j) xs)) with (bytes_at m x.1 x.2 ++ user_bytes m (mid ++ y :: drop (S j) xs)). by rewrite user_bytes_app. }
  pose proof (user_bytes_length m _ Hs1) as L1. pose proof (user_bytes_length m _ Hs3) as L3.
  rewrite take_app_ge, drop_app_ge by (rewrite L1; lia). rewrite L1, take_app_ge by (rewrite bytes_at_length; lia). rewrite bytes_at_length, take_app_ge by (rewrite L3; lia). rewrite L3.
  rewrite take_app_le by (rewrite bytes_at_length; lia). rewrite drop_app_le by (rewrite bytes_at_length; lia).
  change (user_bytes m ((x.1 + off, x.2 - off) :: mid ++ [(y.1, len)])) with (bytes_at m (x.1 + off) (x.2 - off) ++ user_bytes m (mid ++ [(y.1, len)])). rewrite user_bytes_app. unfold user_bytes at 3. cbn [fmap list_fmap concat fst snd]. rewrite app_nil_r. f_equal; [|f_equal].
  - rewrite <- (bytes_slice m x.1 x.2 off x.2) by lia. rewrite (take_ge (bytes_at m x.1 x.2)) by (rewrite bytes_at_length; lia). f_equal. lia.
  - pose proof (bytes_slice m y.1 y.2 0 len ltac:(lia) ltac:(lia)) as Es. rewrite Z.add_0_r, Z.sub_0_r in Es. rewrite <- Es. change (drop (Z.to_nat 0) ?z) with z. f_equal. lia.
Qed.
Lemma parts_many xs i j x y off len : xs !! i = Some x → xs !! j = Some y → (i < j)%nat → 0 <= off < x.2 → x.2 < 2 ^ 64 →
  dma_part xs i off j len <$> seq i (S j - i) = Some <$> ((x.1 + off, x.2 - off) :: take (j - S i) (drop (S i) xs) ++ [(y.1, len)]).
Proof.
  intros Hi Hj Hij Ho Hx. pose proof (lookup_lt_Some _ _ _ Hj). replace (S j - i)%nat with (S (j - S i + 1)) by lia. cbn [seq]. rewrite seq_app, !fmap_cons, !fmap_app. replace (S i + (j - S i))%nat with j by lia. f_equal; [|f_equal].
  - unfold dma_part. rewrite Hi. cbn. rewrite Nat.eqb_refl. by rewrite wrap_small by (unfold in_range; lia).
  - apply list_eq. intros k. rewrite !list_lookup_fmap. destruct (decide (k < j - S i)%nat).
    + rewrite lookup_seq_lt by lia. rewrite lookup_take_lt, lookup_drop by lia. destruct (lookup_lt_is_Some_2 xs (S i + k)) as [z Hz]; [lia|]. rewrite Hz. change (Some (dma_part xs i off j len (S i + k)%nat) = Some (Some z)).
      unfold dma_part. rewrite Hz. cbn [mbind option_bind]. by rewrite (proj2 (Nat.eqb_neq (S i + k) i)), (proj2 (Nat.eqb_neq (S i + k) j)) by lia.
    + rewrite lookup_seq_ge, lookup_take_ge by lia. done.
  - cbn [seq fmap list_fmap]. unfold dma_part. rewrite Hj. cbn [mbind option_bind]. by rewrite (proj2 (Nat.eqb_neq j i)), Nat.eqb_refl by lia.
Qed.

(** ** Sources *)

Lemma part_sub m b x off n : part_ok m b x → 0 <= off → 0 < n → off + n <= x.2 → part_ok m b (x.1 + off, n).
Proof.
  intros (P1 & P2 & P3 & P4 & P5) H1 H2 H3. split; [by eapply owned_sub; [exact P1|cbn; lia..]|]. split; [|cbn; lia]. cbn. intros i Hi. rewrite <- Z.add_assoc. apply P2. lia.
Qed.
Lemma parts_sized m b xs : Forall (part_ok m b) xs → sized xs.
Proof. intros H. eapply Forall_impl; [exact H|]. by intros x (_ & _ & _ & ? & _). Qed.
Lemma begin_end xs i j x y off len front back : sized xs → xs !! i = Some x → xs !! j = Some y → 0 <= off → len <= y.2 → front = total (take i xs) + off → back = total (drop (S j) xs) + (y.2 - len) →
  front + back < total xs → (i ≤ j)%nat ∧ (i = j → off < len).
Proof.
  intros Hs Hi Hj Ho Hl -> -> Hlt. pose proof (Forall_take _ i _ Hs) as Hs1. pose proof (Forall_drop _ (S j) _ Hs) as Hs2. pose proof (io_total_bound _ Hs1). pose proof (io_total_bound _ Hs2).
  split; [|intros ->; rewrite <- (take_drop_middle xs j y Hj) in Hlt at 3; rewrite total_app, io_total_cons in Hlt; lia]. destruct (decide (i ≤ j)%nat); [done|]. exfalso.
  rewrite <- (take_drop (S j) xs) in Hlt at 3. rewrite total_app in Hlt. assert (total (take (S j) xs) <= total (take i xs)); [|lia]. replace i with (S j + (i - S j))%nat by lia.
  rewrite <- take_take_drop, total_app. assert (sized (take (i - S j) (drop (S j) xs))) as Hs3 by (by apply Forall_take). pose proof (io_total_bound _ Hs3). lia.
Qed.
(** C16: filling a source buffer gives the device exactly the user's data without header and footer,
    whichever blocks the device reaches where they are and which are copied, and wherever header
    and footer end. No memory in use is written, and freeing returns just the blocks that were
    taken from the pool; when the pool is empty, nothing stays taken. *)
Theorem fill_src_correct s b usr front back : mem_ok s b → shape s → numBuffers (buf s) = 0%nat → Forall (part_ok (ram s) b) usr → (length usr ≤ VESAL_MAX_SGL_NUM)%nat →
  0 <= front < 2 ^ 32 → 0 <= back < 2 ^ 32 →
  wp (FillSrc usr front back) (λ r s', frame b s s' ∧
    if r then front + back < total usr ∧ contents s' = drop (Z.to_nat front) (take (Z.to_nat (total usr - back)) (user_bytes (ram s) usr)) ∧
      wp FreeDataIfNecessary (λ _ s2, mem_ok s2 b ∧ numBuffers (buf s2) = 0%nat ∧ ram s2 = ram s') s'
    else mem_ok s' b ∧ numBuffers (buf s') = 0%nat) s.
Proof.
  intros Hm Hsh Hn Hu Hlen Hf Hb. pose proof (parts_sized _ _ _ Hu) as Hs. pose proof (io_total_bound _ Hs) as Ht. unfold VESAL_MAX_SGL_NUM in Hlen.
  unfold FillSrc. rewrite io_len_total, wrap_small by (done || (unfold in_range; lia)). destruct (Z.leb_spec (total usr) (front + back)); [wp_step; by split; [apply frame_refl|]|].
  destruct (find_start_ok usr front) as (i & off & x & -> & Hi & Ho & Ef); [done|lia..|]. do 3 wp_step. eapply wp_need; [exact Hi|]. destruct (end_ok usr back) as (j & len & y & -> & Hj & Hl & Eb); [done|lia..|]. do 2 wp_step.
  destruct (begin_end usr i j x y off len front back Hs Hi Hj) as [Hij Heq]; [lia|lia|done|done|done|].
  assert (fills s b b []) as F0. { split; [done|done|unfold in_use; by rewrite Hn|apply held_nil|by constructor|by constructor|done]. }
  rewrite Forall_forall in Hu. pose proof (Hu x (list_elem_of_lookup_2 _ _ _ Hi)) as Px. pose proof (Hu y (list_elem_of_lookup_2 _ _ _ Hj)) as Py. assert (0 < x.2 < 2 ^ 32 ∧ 0 < y.2 < 2 ^ 32) as [Sx Sy] by (split; [apply Px|apply Py]).
  assert (∀ s' b' l, fills s' b b' l → wp FreeDataIfNecessary (λ _ s2, mem_ok s2 b ∧ numBuffers (buf s2) = 0%nat ∧ ram s2 = ram s') s') as Hfree.
  { intros s' b' l Hfl. eapply wp_mono; [by eapply Free_ok|]. cbv beta. intros _ s2 (? & ? & ? & ? & ?). done. }
  destruct (Nat.eqb_spec i j) as [->|Hne].
  - rewrite Hi in Hj. injection Hj as <-. specialize (Heq eq_refl). rewrite wrap_small by (unfold in_range; lia). wp_step. pose proof (fill_next s b b [] (x.1 + off, len - off) F0) as Hw. rewrite Hn in Hw. cbn [fst snd] in Hw.
    eapply wp_mono; [apply Hw; [apply part_sub; [done|lia..]|unfold VESAL_MAX_SGL_NUM; lia]|]. cbv beta. intros r s1 (F1 & _ & Hr). destruct r; cbn [negb].
    + destruct Hr as (b'' & e & G1 & G2 & _ & G4). unfold set_buf. do 3 wp_step. assert (s1 <| buf ::= (λ q, q <| numBuffers := 1%nat |>) |> = one_more s1) as -> by (unfold one_more; cbn; by rewrite G4).
      split; [exact F1|]. split; [done|]. split; [|by eapply Hfree]. unfold contents. rewrite (proj1 (f_use _ _ _ _ G1)). cbn. rewrite app_nil_r. etrans; [exact G2|]. symmetry. apply (middle_one (ram s) usr j x front back off len); done || lia.
    + wp_step. split; [done|]. split; [apply Hr|]. destruct (f_use _ _ _ _ Hr) as [_ E]. by rewrite <- E.
  - assert (i < j)%nat as Hlt by lia. unfold set_buf. do 2 wp_step. assert (s <| buf ::= (λ q, q <| numBuffers := 0%nat |>) |> = s) as -> by (destruct s as [? ? ? []]; cbn in *; by rewrite Hn).
    set (mid := take (j - S i) (drop (S i) usr)). set (xs := (x.1 + off, x.2 - off) :: mid ++ [(y.1, len)]). pose proof (lookup_lt_Some _ _ _ Hj).
    eapply wp_mono; [apply (fill_loop_ok _ _ xs s b b []); [by apply (parts_many usr i j x y off len); [..|lia]|exact F0| |]|].
    + apply Forall_cons. split; [apply part_sub; [done|lia..]|]. apply Forall_app. split; [|apply Forall_singleton; rewrite <- (Z.add_0_r y.1); apply part_sub; [done|lia..]].
      apply Forall_take, Forall_drop, Forall_forall. done.
    + rewrite Hn. unfold xs, mid, VESAL_MAX_SGL_NUM. cbn. rewrite length_app, length_take, length_drop. cbn. lia.
    + cbv beta. intros r s1 (F1 & _ & Hr). split; [done|]. destruct r; [|by destruct Hr as (? & ? & ?)]. destruct Hr as (b'' & l' & G1 & G2). split; [done|]. split; [|by eapply Hfree].
      rewrite G2. cbn. symmetry. by apply (middle_many _ usr i j x y front back off len).
Qed.

(** ** Destinations *)

Definition dst_ok (s : st) (b : gmap Z Z) (dst : IOBlock) : Prop := part_ok (ram s) b dst.
Lemma wp_put dst bs s (Q : unit → st → Prop) : mapped (ram s) dst (Z.of_nat (length bs)) → Q () (s <| ram ::= write_bytes dst bs |>) → wp (put_bytes dst bs) Q s.
Proof. intros Hm HQ. unfold put_bytes. do 3 wp_step. eapply wp_need; [by apply read_bytes_spec|]. by wp_step. Qed.
Lemma mapped_sub m a n a' n' : mapped m a n → a <= a' → a' + n' <= a + n → mapped m a' n'.
Proof. intros Hm H1 H2 i Hi. replace (a' + i) with (a + (a' - a + i)) by lia. apply Hm. lia. Qed.
Lemma FillDst_ok s b dst front back : mem_ok s b → shape s → part_ok (ram s) b dst → 0 <= front < 2 ^ 32 → 0 <= back < 2 ^ 32 →
  wp (FillDst dst front back) (λ r s', frame b s s' ∧
    if r then ∃ p d b', pBuffers (buf s') !! 0%nat = Some (MkFlat p (dst.2 - front - back)) ∧ copy_mode (buf s') = negb d ∧ dst_usr_data_ (buf s') = dst.1 ∧ front + back < dst.2 ∧
      (if d then p = dst.1 + front else b !! p = None ∧ mp_ok (bs_pool s') (<[p := dst.2 - front - back]> b)) ∧ mem_ok s' b'
    else mem_ok s' b) s.
Proof.
  intros Hm [Hs1 Hs2] (P1 & P2 & P3 & P4 & P5) Hf Hb. unfold VESAL_MAX_SGL_NUM in *. unfold FillDst. rewrite wrap_small by (unfold in_range; lia). destruct (Z.leb_spec dst.2 (front + back)); [wp_step; by split; [apply frame_refl|]|].
  rewrite (wrap_small 32) by (unfold in_range; lia). unfold set_buf. do 4 wp_step. match goal with |- wp _ _ ?z => set (s1 := z) end. set (n := dst.2 - front - back).
  eapply wp_mono; [apply (FillOneBuffer_ok s1 b 0 (dst.1 + front) n false); [destruct Hm; by split|eapply owned_sub; [exact P1|lia..]|eapply mapped_sub; [exact P2|lia..]|lia|lia|lia|cbn; lia|cbn; lia]|].
  cbv beta. intros r s' (p & d & Eb & Hd & Hr). destruct r.
  - destruct Hr as (b' & G1 & G2 & G3 & G4 & _ & G6 & G7). split; [by split|]. exists p, d, b'. rewrite Eb. cbn. split; [apply list_lookup_insert_eq; lia|]. split; [|split; [done|]; split; [lia|]; split; [|done]].
    + unfold copy_mode. cbn. rewrite list_lookup_insert_eq by lia. cbn. destruct (svm (buf s)) eqn:E; [|done]. by rewrite (Hd E).
    + destruct d; [by destruct G3|]. destruct G3 as [G3 ->]. split; [done|apply G1].
  - destruct Hr as (G1 & G2 & _). split; [|done]. by apply frame_refl.
Qed.
(** The bytes of a frame, written in parts. *)
Lemma frame_bytes m a h d f : bytes_at m a (Z.of_nat (length h)) = h → bytes_at m (a + Z.of_nat (length h)) (Z.of_nat (length d)) = d →
  bytes_at m (a + Z.of_nat (length h) + Z.of_nat (length d)) (Z.of_nat (length f)) = f → bytes_at m a (Z.of_nat (length h) + Z.of_nat (length d) + Z.of_nat (length f)) = h ++ d ++ f.
Proof. intros H1 H2 H3. rewrite <- Z.add_assoc, bytes_at_app, bytes_at_app by lia. rewrite H1, H2, H3. done. Qed.
(** C17: a compressed frame in the user's destination is header, data and footer, one behind the
    other, where the data is what the device has written into the buffer it was given, be this
    a part of the destination itself or a block of the pool. *)
Theorem comp_frame_assembled s b dst header footer : mem_ok s b → shape s → part_ok (ram s) b dst → Z.of_nat (length header) < 2 ^ 32 → Z.of_nat (length footer) < 2 ^ 32 →
  wp (FillDst dst (Z.of_nat (length header)) (Z.of_nat (length footer))) (λ r s', r = true → ∃ x, pBuffers (buf s') !! 0%nat = Some x ∧ ∀ data, Z.of_nat (length data) <= dataLenInBytes x →
    wp (CompCopyBackIfNecessary (Z.of_nat (length data)) header footer) (λ _ s2,
      bytes_at (ram s2) dst.1 (Z.of_nat (length header) + Z.of_nat (length data) + Z.of_nat (length footer)) = header ++ data ++ footer)
      (s' <| ram ::= write_bytes (pData x) data |>)) s.
Proof.
  intros Hm Hsh Hp Hh Hf. eapply wp_mono; [apply (FillDst_ok s b dst); [done|done|done|lia|lia]|]. cbv beta. intros r s' (Fr & Hr) ->. destruct Hr as (p & d & b' & E1 & E2 & E3 & E4 & E5 & G). eexists. split; [exact E1|]. cbn [pData dataLenInBytes].
  intros data Hd. destruct (part_frame _ _ _ _ Fr Hp) as [(P1 & P2 & P3 & P4 & P5) _]. set (h := Z.of_nat (length header)) in *. set (f := Z.of_nat (length footer)) in *. set (k := Z.of_nat (length data)) in *.
  unfold CompCopyBackIfNecessary. do 2 wp_step. cbn [buf upd]. rewrite E3. wp_step. apply wp_put; [cbn; apply write_bytes_mapped; eapply mapped_sub; [exact P2|lia..]|]. wp_step. eapply wp_need; [exact E1|]. cbn [pData]. wp_step. rewrite E2. fold h k.
  destruct d; cbn [negb when].
  - subst p. wp_step. apply wp_put; [cbn; do 2 apply write_bytes_mapped; eapply mapped_sub; [exact P2|lia..]|]. cbn. apply frame_bytes; fold h k f.
    + rewrite bytes_at_write by lia. apply write_bytes_at.
    + rewrite bytes_at_write, bytes_at_write by lia. apply write_bytes_at.
    + apply write_bytes_at.
  - destruct E5 as [E5 E6]. assert (dst.1 + dst.2 <= p ∨ p + (dst.2 - h - f) <= dst.1) as Hap by (by eapply owned_apart). assert (mp_home p (dst.2 - h - f)) as Hh' by (apply (mp_block _ _ _ _ E6), lookup_insert_eq).
    pose proof (mo_ram _ _ G _ _ Hh') as Hpm. apply buf_memcpy_ok; [lia|cbn; do 2 apply write_bytes_mapped; eapply mapped_sub; [exact Hpm|lia..]|cbn; do 2 apply write_bytes_mapped; eapply mapped_sub; [exact P2|lia..]|]. cbn.
    assert (bytes_at (write_bytes dst.1 header (write_bytes p data (ram s'))) p k = data) as -> by (rewrite bytes_at_write by lia; apply write_bytes_at).
    apply wp_put; [cbn; do 3 apply write_bytes_mapped; eapply mapped_sub; [exact P2|lia..]|]. cbn. apply frame_bytes; fold h k f.
    + rewrite !bytes_at_write by lia. apply write_bytes_at.
    + rewrite bytes_at_write by lia. apply write_bytes_at.
    + apply write_bytes_at.
Qed.

(** What the device has decompressed is in the destination. *)
Lemma decomp_copied s b dst : mem_ok s b → shape s → part_ok (ram s) b dst →
  wp (FillDst dst 0 0) (λ r s', r = true → ∃ x, pBuffers (buf s') !! 0%nat = Some x ∧ ∀ data, Z.of_nat (length data) <= dataLenInBytes x →
    wp (DecompCopyBackIfNecessary (Z.of_nat (length data))) (λ _ s2, bytes_at (ram s2) dst.1 (Z.of_nat (length data)) = data) (s' <| ram ::= write_bytes (pData x) data |>)) s.
Proof.
  intros Hm Hsh Hp. eapply wp_mono; [apply (FillDst_ok s b dst); [done|done|done|lia|lia]|]. cbv beta. intros r s' (Fr & Hr) ->. destruct Hr as (p & d & b' & E1 & E2 & E3 & E4 & E5 & G). eexists. split; [exact E1|]. cbn [pData dataLenInBytes].
  intros data Hd. destruct (part_frame _ _ _ _ Fr Hp) as [(P1 & P2 & P3 & P4 & P5) _]. unfold DecompCopyBackIfNecessary. do 3 wp_step. eapply wp_need; [exact E1|]. cbn [buf upd pData]. rewrite E2, E3. destruct d; cbn [negb when].
  - wp_step. rewrite Z.add_0_r in E5. subst p. cbn. apply write_bytes_at.
  - destruct E5 as [E5 E6]. assert (dst.1 + dst.2 <= p ∨ p + (dst.2 - 0 - 0) <= dst.1) as Hap by (by eapply owned_apart). assert (mp_home p (dst.2 - 0 - 0)) as Hh' by (apply (mp_block _ _ _ _ E6), lookup_insert_eq).
    apply buf_memcpy_ok; [lia|cbn; apply write_bytes_mapped; eapply mapped_sub; [exact (mo_ram _ _ G _ _ Hh')|lia..]|cbn; apply write_bytes_mapped; eapply mapped_sub; [exact P2|lia..]|]. cbn. rewrite (write_bytes_at data p). apply write_bytes_at.
Qed.

(** ** The life of a buffer *)

Lemma InitMeta_ok s b svm_ n : mem_ok s b → 0 < n →
  wp (InitMeta svm_ n) (λ r s', if r then ∃ p, b !! p = None ∧ mem_ok s' (<[p := n]> b) ∧ shape s' ∧ numBuffers (buf s') = 0%nat ∧ pPrivateMetaData (buf s') = p else mem_ok s' b) s.
Proof.
  intros [Ha Hp Hr] Hn. unfold InitMeta, set_buf. wp_step. eapply wp_on_mp; [exact (mp_allocate_law _ _ n Hp Hn)|]. cbv beta. intros p m Hm. destruct (Z.eqb_spec p 0); [wp_step; by split|].
  destruct Hm as [Hm1 Hm2]. do 3 wp_step. exists p. split; [done|]. split; [by split|]. by split_and!.
Qed.
Lemma FreeMeta_ok s b p n : mem_ok s (<[p := n]> b) → b !! p = None → pPrivateMetaData (buf s) = p → numBuffers (buf s) = 0%nat → wp FreeMeta (λ _ s', mem_ok s' b) s.
Proof.
  intros [Ha Hp Hr] Hb Em En. unfold FreeMeta, set_buf. do 2 wp_step. rewrite En. cbn [Nat.eqb negb]. wp_step. rewrite Em. eapply wp_on_mp; [apply (mp_deallocate_law _ _ p Hp); right; eexists; apply lookup_insert_eq|].
  cbv beta. intros _ m Hm. wp_step. rewrite delete_insert_id in Hm by done. by split.
Qed.

(** ** An empty pool *)

(** When the pool has no block for a destination, [FillDst] fails with one buffer counted as
    in use. Its callers do not free a buffer whose filling failed, so the buffer goes back to the
    cache like that, and [FreeMeta] aborts the process when the cache is cleared. *)
Lemma failed_dst_aborts s dst front back n segs t m : front + back < dst.2 → 0 <= front → 0 <= back → dst.2 < 2 ^ 32 → shape s → svm (buf s) = false →
  LookUpAddrAcrossBound (dst.1 + front) (dst.2 - front - back) 2 (bs_am s) = Ok ((n, segs), t) → n ≠ 1 → mp_Allocate (dst.2 - front - back) (bs_pool s) = Ok (0, m) →
  ∃ s', FillDst dst front back s = Ok (false, s') ∧ numBuffers (buf s') = 1%nat ∧ FreeMeta s' = Err CheckFailed.
Proof.
  intros H1 H2 H3 H4 [Hs1 Hs2] Hv Hl Hn Ha. unfold VESAL_MAX_SGL_NUM in *. destruct (lookup_lt_is_Some_2 (pBuffers (buf s)) 0) as [x Hx]; [lia|]. destruct (lookup_lt_is_Some_2 (dma_able_ (buf s)) 0) as [y Hy]; [lia|].
  assert (wp (FillDst dst front back) (λ r s', r = false ∧ numBuffers (buf s') = 1%nat) s) as Hw.
  { unfold FillDst. rewrite (wrap_small 64) by (unfold in_range; lia). rewrite (proj2 (Z.leb_gt _ _)) by lia. rewrite (wrap_small 32) by (unfold in_range; lia). unfold FillOneBuffer, set_buf. do 7 wp_step. eapply wp_need; [exact Hx|].
    wp_step. eapply wp_need; [exact Hy|]. cbv zeta. rewrite (wrap_small 32) by (unfold in_range; lia). cbn [buf svm upd]. rewrite Hv. do 2 wp_step. eapply (wp_on_bam _ (λ a x, a = (n, segs) ∧ x = t)); [unfold wp; cbn [bs_am upd]; by rewrite Hl|].
    cbv beta. intros ? ? [-> ->]. wp_step. rewrite (proj2 (Z.eqb_neq n 1) Hn). do 3 wp_step. eapply (wp_on_mp _ (λ a x, a = 0 ∧ x = m)); [unfold wp; cbn [bs_pool upd]; by rewrite Ha|]. cbv beta. intros ? ? [-> ->]. do 2 wp_step. change (0 =? 0) with true. cbv iota. wp_step. done. }
  unfold wp in Hw. destruct (FillDst dst front back s) as [[r s']|]; [|done]. destruct Hw as [-> E]. exists s'. split; [done|]. split; [done|]. unfold FreeMeta, mbind, ST_bind, get. by rewrite E.
Qed.
End buffers.
