(* ===== verification/QatBufferDemo.v ===== *)
(** * Buffers for the QAT at work

    The small memory pool and the registered pages of the DSA demonstration, with data of a user
    inside and outside of these pages, and concrete instances of the theorems on buffers. *)

From Stdlib Require Import ZArith Lia.
From stdpp Require Import prelude gmap.
From S2P Require Import Prelude AddressManager ByteMemory DsaCtx DsaDemo QatBuffer.
Open Scope Z_scope.

(** Ten bytes the device cannot reach, and ten it can. *)
Definition user_data : list IOBlock := [(0x1000, 10); (0x300000, 10)].
Definition user_mem : gmap Z Z := list_to_map (((λ i, (0x1000 + i, i)) <$> seqZ 0 32) ++ ((λ i, (0x300000 + i, 100 + i)) <$> seqZ 0 32)).
Definition buf_state (mem : gmap Z Z) (next : Z) : BufState (M := Z) := MkBufState demo_am next mem (MkQatBuf false 0 0 (replicate VESAL_MAX_SGL_NUM (MkFlat 0 0)) (replicate VESAL_MAX_SGL_NUM false) 0 0).

(** ** Runs *)

Definition small_mem : gmap Z Z := user_mem ∪ list_to_map ((λ i, (pool_base + i, 0)) <$> seqZ 0 64).
(** Header and footer are left out; one block of the pool is taken and the other part is where the
    user has it. *)
Example demo_fill : match (r ← FillSrc user_data 2 4; s ← get; mret (r, contents s, pData <$> take 2 (pBuffers (buf s)), numBuffers (buf s))) (buf_state small_mem pool_base) with
  | Ok (r, _) => r = (true, [2; 3; 4; 5; 6; 7; 8; 9; 100; 101; 102; 103; 104; 105], [pool_base; 0x300000], 2%nat)
  | Err _ => False
  end.
Proof. vm_compute. auto. Qed.
(** A header that is longer than the first block. *)
Example demo_fill_inside : match (r ← FillSrc user_data 12 4; s ← get; mret (r, contents s, numBuffers (buf s))) (buf_state small_mem pool_base) with
  | Ok (r, _) => r = (true, [102; 103; 104; 105], 1%nat)
  | Err _ => False
  end.
Proof. vm_compute. auto. Qed.
Example demo_fill_nothing : match FillSrc user_data 12 8 (buf_state small_mem pool_base) with Ok (r, _) => r = false | Err _ => False end.
Proof. vm_compute. auto. Qed.
(** More blocks than the list has entries are not refused. *)
Example demo_too_many : FillSrc (replicate 33 (0x300000, 1)) 0 0 (buf_state small_mem pool_base) = Err OutOfBounds.
Proof. vm_compute. reflexivity. Qed.

(** ** Instances *)

Definition full_state (next : Z) : BufState (M := Z) := buf_state (user_mem ∪ demo_mem) next.
Lemma full_mem_ok : mem_ok demo_table (full_state pool_base) ∅.
Proof.
  split; [split; [apply demo_am_ok|done]|split; [unfold pool_base, pool_end; cbn; lia|by intros ? ? ?%lookup_empty_Some|by intros ? ? ? ? ?%lookup_empty_Some]|].
  intros p k Hp i Hi. apply lookup_union_is_Some. right. by apply demo_mem_mapped with k.
Qed.
Lemma user_mapped a n : (∀ i, 0 <= i < n → is_Some (user_mem !! (a + i))) → mapped (user_mem ∪ demo_mem) a n.
Proof. intros H i Hi. apply lookup_union_is_Some. left. by apply H. Qed.
Definition have_bytes (a n : Z) : bool := forallb (λ i, bool_decide (is_Some (user_mem !! (a + i)))) (seqZ 0 n).
Lemma have_bytes_spec a n : have_bytes a n = true → ∀ i, 0 <= i < n → is_Some (user_mem !! (a + i)).
Proof.
  intros Hb i Hi. unfold have_bytes in Hb. rewrite forallb_forall in Hb. apply (bool_decide_eq_true_1 (is_Some _)), (Hb i), list_elem_of_In, elem_of_seqZ. lia.
Qed.
Lemma user_part a n : have_bytes a n = true → 0 <= a → 0 < n < 2 ^ 32 → a + n <= pool_base ∨ pool_end <= a → a + n <= 2 ^ 63 → part_ok (user_mem ∪ demo_mem) ∅ (a, n).
Proof.
  intros Hb Ha Hn Hd Hl. split; [|split; [by apply user_mapped, have_bytes_spec|done]]. left. intros p k (H1 & H2 & H3). cbn. lia.
Qed.
Lemma user_parts : Forall (part_ok (user_mem ∪ demo_mem) ∅) user_data.
Proof.
  unfold user_data. rewrite Forall_cons, Forall_singleton. split; apply user_part; (vm_compute; reflexivity) || (unfold pool_base, pool_end; lia).
Qed.
Lemma demo_shape next : shape (full_state next).
Proof. done. Qed.
Lemma fill_src_correct_witness :
  wp (FillSrc user_data 2 4) (λ r s', r = true → contents s' = drop 2 (take 16 (user_bytes (user_mem ∪ demo_mem) user_data))) (full_state pool_base).
Proof.
  refine (wp_mono _ _ _ _ (fill_src_correct demo_table (full_state pool_base) ∅ user_data 2 4 full_mem_ok (demo_shape _) eq_refl user_parts _ _ _) _);
    [unfold VESAL_MAX_SGL_NUM; cbn; lia|lia|lia|]. cbv beta. intros r s' [_ Hr] ->. exact (proj1 (proj2 Hr)).
Defined.
Lemma demo_dst : part_ok (ram (full_state pool_base)) ∅ (0x1000, 20).
Proof. apply user_part; (vm_compute; reflexivity) || (unfold pool_base, pool_end; lia). Qed.
Lemma comp_frame_assembled_witness :
  wp (FillDst (0x1000, 20) (Z.of_nat (length [1; 2])) (Z.of_nat (length [3; 4; 5; 6]))) (λ r s', r = true → ∃ x, pBuffers (buf s') !! 0%nat = Some x ∧ ∀ data, Z.of_nat (length data) <= dataLenInBytes x →
    wp (CompCopyBackIfNecessary (Z.of_nat (length data)) [1; 2] [3; 4; 5; 6]) (λ _ s2,
      bytes_at (ram s2) (0x1000, 20).1 (Z.of_nat (length [1; 2]) + Z.of_nat (length data) + Z.of_nat (length [3; 4; 5; 6])) = [1; 2] ++ data ++ [3; 4; 5; 6])
      (s' <| ram ::= write_bytes (pData x) data |>)) (full_state pool_base).
Proof. apply (comp_frame_assembled demo_table (full_state pool_base) ∅ (0x1000, 20) [1; 2] [3; 4; 5; 6] full_mem_ok (demo_shape _) demo_dst); cbn; lia. Defined.
Lemma demo_abort : ∃ s', FillDst (0x1000, 20) 2 4 (buf_state small_mem pool_end) = Ok (false, s') ∧ numBuffers (buf s') = 1%nat ∧ FreeMeta s' = Err CheckFailed.
Proof.
  apply (failed_dst_aborts (buf_state small_mem pool_end) (0x1000, 20) 2 4 0 [] demo_am pool_end); [cbn; lia|lia|lia|cbn; lia|done|reflexivity|vm_compute; reflexivity|lia|vm_compute; reflexivity].
Qed.
